(* ===== verification/_CoqProject ===== *)
-Q . S2P
Prelude.v
Io.v
StdText.v
Address.v
IpTrie.v
Aead.v
FrameReader.v
FrameWriter.v
ShadowStream.v
Replay.v
Shadowsocks.v
VmessKdf.v
VmessBody.v
VmessHeader.v
VmessStream.v
Trojan.v
Socks5.v
Socks5Udp.v
Chain.v
Leb128.v
Transport.v
Tls.v
Route.v
RouteProofs.v
Protobuf.v
GeoMessages.v
GeoProofs.v
ProtobufWire.v
GeoSchema.v
Config.v
ConfigProofs.v
Copy.v
UdpSplit.v
Server.v
H2Io.v
Http2.v
Grpc.v
Websocket.v
WsEarlyData.v
SimpleObfs.v
UdpStack.v
Deserialize.v
Wire.v
HttpInbound.v
Services.v
ShadowBuild.v
Stack.v
Relay.v
ShadowLayer.v
VmessLayer.v
ChainRelay.v
