(* ===== verification/Prelude.v ===== *)
(** * v2ray-rust: verification library (root file)

    v2ray-rust is a proxy client.  It accepts connections from local programs
    (SOCKS5, HTTP, dokodemo-door), asks a router which outbound a target
    belongs to, dials the outbound through a chain of protocol layers, and
    relays bytes in both directions.  This library models the program's own
    logic in Rocq definitions that follow the Rust text function by function,
    and proves what makes each part correct; where the code does not do what
    it means to, the theorem says what it does.

    ** How a connection passes through the parts

    - main.rs and config/server_builder.rs accept it; Server.v models what
      becomes of it from its first byte on (SOCKS5 or HTTP, the handshake, the
      choice of the outbound, the counters, the relay).
    - config/route.rs, config/utils.rs and config/ip_trie.rs choose the
      outbound: Route.v, RouteProofs.v and IpTrie.v.
    - config/mod.rs, config/to_chainable_builder.rs and config/deserialize.rs
      make chains of builders from the text of the configuration: Config.v,
      ConfigProofs.v and Deserialize.v.  A TLS section gets its connector from
      Tls.v, and the build panics where that cannot be configured.
    - proxy/mod.rs and proxy/utils/mod.rs build a stream through a chain,
      layer by layer, for TCP or UDP: Chain.v.  The layers are Shadowsocks,
      VMess, Trojan and the transports below; Stack.v runs one layer over
      another, UdpStack.v builds the layers of the UDP chain of a configured
      outbound one by one, with the requests, keys and connectors of their files.
    - common/net relays: Copy.v, and Relay.v between any two streams.
      ChainRelay.v is the whole path: the layers of a chain are built over a
      transport, and the client is relayed through them.  proxy/udp.rs splits a
      UDP stream between two tasks: UdpSplit.v.

    ** The files

    Foundations
    - Prelude.v: bytes, errors and results ([res] = Ok, Err or a panic),
      machine arithmetic ([chk], [wrap]), big-endian integers, the contracts
      [Buf] and [BufMut] as classes, tactics, hint databases.
    - Io.v: polled byte streams.  A reader is a script of events, a writer a
      script of answers with a log; theorems quantify over all scripts, so
      over every fragmentation and every interleaving of [Pending].  The read
      and write helpers of common/net/mod.rs and common/macro_def.rs.
    - StdText.v: the text routines of the standard library that the program
      calls (UTF-8, integers, socket addresses).
    - Transport.v: the interfaces [PollSource] and [PollSink] of a byte stream,
      [RetrySink] of a writer that suspends with a part of the buffer taken, and
      the laws of whole runs proved from them.
    - H2Io.v: the streams of the crate h2 as classes.

    Data
    - Address.v: proxy/address.rs.  Wire.v: the typing of the addresses read,
      and the bounds of the writers.

    Protocols
    - Aead.v, FrameReader.v, FrameWriter.v: the AEAD helpers and the two
      generators that proxy/shadowsocks/aead.rs and proxy/vmess/aead.rs share,
      over the classes [FrameFormat] and [FrameEncoder].
    - ShadowStream.v, Replay.v, Shadowsocks.v, ShadowBuild.v:
      proxy/shadowsocks.
    - VmessKdf.v, VmessHeader.v, VmessBody.v, VmessStream.v: proxy/vmess and
      common/fnv1a.rs.
    - Trojan.v: proxy/trojan.  Socks5.v, Socks5Udp.v: proxy/socks.
    - Http2.v, Grpc.v, Websocket.v, WsEarlyData.v, SimpleObfs.v: the transports
      proxy/h2, proxy/grpc, proxy/websocket and proxy/simpleobfs.  Tls.v:
      proxy/tls, the program's own part.

    Composition
    - Chain.v, IpTrie.v, Route.v, RouteProofs.v, Config.v, ConfigProofs.v,
      Deserialize.v, Copy.v, UdpSplit.v, Server.v, as above.
    - Leb128.v: the variable-length integers that gRPC and protobuf share.
      Protobuf.v: the contract of the crate protobuf, as classes, and the
      loops of a generated message.  GeoMessages.v, GeoProofs.v,
      ProtobufWire.v, GeoSchema.v: the messages of config/geosite.rs and
      config/geoip.rs, their round trip, an executable instance of the crate's
      contract, and the descriptors embedded in the two files.
    - Stack.v: the reader and the writer of frames over any stream of
      Transport.v: the layer is again a source and a [RetrySink].
    - Relay.v: what a stream promises a layer ([Transport]) and a relay
      ([Endpoint]), the relay between any two endpoints, and the transports
      WebSocket, HTTP/2 and the scripts of Io.v.
    - ShadowLayer.v, VmessLayer.v: Shadowsocks and VMess over any endpoint are
      endpoints, and their servers.
    - ChainRelay.v: the relay through a chain of any such layers.
    - UdpStack.v: the dialling of proxy/address.rs, the connected socket of
      proxy/udp.rs, and which methods of a UDP stream each layer implements.
    - HttpInbound.v: proxy/http, from a request to its answer and its tunnel,
      inside the server of Server.v.
    - Services.v: proxy/direct, proxy/blackhole, the listener of
      proxy/dokodemo_door, the latency service of api/mod.rs, and what main.rs
      reads and starts.

    State is a record with the fields of the struct; an operation is a function
    from the state (and the streams it polls) to an answer and the new state;
    the generators written with [gentian] are functions over a resume point.
    Concurrent parts (the relay, the halves of a UDP stream, the tasks of a
    SOCKS5 UDP session, the wakers of an early-data stream) are steps of a
    machine, and their theorems hold for every order of steps.

    ** What the theorems show

    - Round trips: every wire format is read back as it was written, under
      every fragmentation: addresses, Shadowsocks and VMess streams, UDP
      packets, Trojan packets, the VMess request header, gRPC messages,
      WebSocket messages, the messages of the rule files.
    - Refinement and equivalence: the resumable frame reader delivers the
      reference decoding of the bytes; a connection through Shadowsocks is the
      target's address and then the client's data to its server; the relay of a
      connection through any chain of Shadowsocks, VMess, Trojan and direct
      layers, over any transport, in every order of polls and whatever other
      connections do to the shared salts, gives the servers of the chain, one
      after the other, the next address and then a prefix of the client's data,
      gives the client a prefix of the decoded reply, and loses nothing
      and does not panic once the layers are built ([chain_relay]); the split UDP stream behaves like some sequential order
      of calls; the IPv4 trie is longest-prefix match; the key derivation is
      nested HMAC; [is_valid_dns_id] is the grammar of names; the layers of a
      UDP chain are built as the plan of the protocols says.
    - Functional behaviour: the router's answers, the wiring of the
      outbounds, the SOCKS5 handshake, a CONNECT from its first byte to the
      relay, early data, the HTTP/2 stream and its receive window, the query
      of a WebSocket URI, the answers of the HTTP inbound, the networks of a
      geoip file.
    - Invariants and safety: replayed salts are refused, nonces do not repeat,
      no packet of a UDP session goes astray, no unimplemented method is polled
      in the UDP chain of an outbound whose sections can be built, the relay sends prefixes, the counters lose nothing, readers that wait for a handshake are woken.
    - Types and bounds: addresses that were read are well-formed; the
      writers' buffers, answers and announced lengths stay within bounds in
      every run.
    - Termination and liveness: a relay copy ends; a UDP session delivers each
      packet when packets do not overtake the sender, whatever its other
      outbounds do, and loses those that are overtaken.
    - Errors: what happens on truncated, oversized, malformed or replayed
      input, and where the process panics.

    ** Parameters

    Code that is not part of the repository is a class or an argument with the
    laws it documents: the AEAD, hash and random primitives, the Bloom filter,
    the domain matchers and regular expressions, the crate protobuf
    (a stream of tokens in Route.v, its wire format in Protobuf.v), the crates h2, tungstenite, http and
    base64, tokio's channels, the sockets.  Each property with such a parameter
    has a witness at a concrete instance.  The profile of the build is the
    parameter [oc]: overflow panics in a debug build and wraps in a release
    build.

    ** Bounds and fuel

    - [ss_build_tcp] and [sink_write_all] take the number of polls; [writes_all]
      says that some number is enough and that more change nothing.
    - [write_data]: one turn per answer in the writer's script and one more
      ([write_data_loop_fuel] shows that more changes nothing).
    - [decode] (FrameReader.v): the length of the input; each frame takes at
      least its header.
    - [g_loop] (Grpc.v): the length of the frame and one more; each turn
      shortens it.
    - [copy_await] (Copy.v): as many polls as the streams can suspend;
      [copy_delivers] proves that this is enough.
    - [ws_read_loop] (Websocket.v): one repetition, after which the message is
      buffered; the proof of a poll's result shows that it never runs out.
    - [layer_poll] (Stack.v), [conn_read] (ShadowLayer.v), [vconn_read]
      (VmessLayer.v) and [link_poll] (Relay.v): more turns than the source has
      bytes left; that much is a hypothesis ([length reply < turns]) that a large
      enough number meets.  [chain_build] (ChainRelay.v) takes the number of polls
      for which each of its writes is awaited.  [handshake_loop], [src_read_loop],
      [sink_data_loop] and [copy_write]: the bytes still missing, since each
      turn adds or hands over at least one.
    - [merge_with] (Protobuf.v): the length of the input and one more;
      [merge_with_unfold] shows that the loop then satisfies its equation.
    - The protobuf loops of Route.v run on the length of the token stream; the
      statements about files exclude longer ones.
    - [show_radix]: 20 digits, enough for 64 bits.
    - [obfs_skip_head] (SimpleObfs.v) and the method loop of Socks5.v answer
      [None] when the fuel ends, because the loops of the source need not end:
      theorems say when they do and when they do not.

    ** Not modelled

    - The handshake and the records of TLS (the crate boring) and the servers
      and clients of the crate hyper: Tls.v and HttpInbound.v model what the
      program does around them.
    - Of config/geosite.rs and config/geoip.rs, what the crate protobuf does
      with the embedded descriptors: the text format, lookups by reflection.
    - The accept loops, spawning and logging of main.rs and
      config/server_builder.rs; the socket calls of proxy/direct.
    - [is_pair_of] and [unsplit] of proxy/udp.rs, which nothing calls, and
      build.rs, which runs when the program is built.
    - Time: timeouts and the clock are arguments where a value depends on them.
    - In the chains of ChainRelay.v: gRPC, whose writer is not a lawful sink (it
      can send data again and panic: [grpc_write_answers]); simple-obfs and early
      data, which stand alone in SimpleObfs.v and WsEarlyData.v; TLS, WebSocket or
      HTTP/2 above another layer, whose handshakes belong to their crates; and
      the debug build, in which the frame counter of VMess overflows with a panic
      ([vmess_body_roundtrip] covers both builds up to 65535 frames). *)

From Stdlib Require Import ZArith Lia List Strings.Byte.
From stdpp Require Import base option list gmap strings.

#[global] Set Default Goal Selector "!".

(** ** Bytes: [u8] is [Init.Byte.byte], with an integer view *)

Abbreviation byte := Byte.byte.
Abbreviation bytes := (list Byte.byte).

#[export] Instance byte_eq_dec : EqDecision byte := Byte.byte_eq_dec.
#[export] Instance byte_inhabited : Inhabited byte := populate x00.

#[export] Program Instance byte_countable : Countable byte :=
  inj_countable Byte.to_N Byte.of_N _.
Next Obligation. apply Byte.of_to_N. Qed.

Definition b2z (b : byte) : Z := Z.of_N (Byte.to_N b).

(** [x as u8] for a Rust integer [x]. *)
Definition z2b (z : Z) : byte :=
  match Byte.of_N (Z.to_N (z mod 256)) with
  | Some b => b
  | None => x00
  end.

(** [x as uN], keeping the low [w] bits. *)
Definition wrap (w z : Z) : Z := (z mod 2 ^ w)%Z.

(** ** Errors and results

    [io::Error] is its kind and its message.  A Rust function that returns
    [io::Result] and may also panic has three outcomes. *)

Inductive ErrorKind :=
| Other | InvalidData | UnexpectedEof | WriteZero | BrokenPipe | ConnectionReset.

Record io_error := IoError { err_kind : ErrorKind; err_msg : string }.

#[export] Instance ErrorKind_eq_dec : EqDecision ErrorKind.
Proof. solve_decision. Defined.
#[export] Instance io_error_eq_dec : EqDecision io_error.
Proof. solve_decision. Defined.

(** [ErrorKind::UnexpectedEof.into()]: no custom message. *)
Definition unexpected_eof : io_error := IoError UnexpectedEof "".

Inductive res (A : Type) :=
| Ok (a : A)
| Err (e : io_error)
| Panic.
Arguments Ok {A} a.
Arguments Err {A} e.
Arguments Panic {A}.

#[export] Instance res_ret : MRet res := fun A a => Ok a.
#[export] Instance res_bind : MBind res := fun A B f m =>
  match m with Ok a => f a | Err e => Err e | Panic => Panic end.
#[export] Instance res_fmap : FMap res := fun A B f m =>
  match m with Ok a => Ok (f a) | Err e => Err e | Panic => Panic end.

Definition is_ok {A} (r : res A) : bool := match r with Ok _ => true | _ => false end.

(** ** Checked machine arithmetic

    Rust's [-C overflow-checks] is on in a debug build and off in the release
    profile of Cargo.toml: an overflow then panics, or wraps. *)

Definition chk (overflow_checks : bool) (w z : Z) : res Z :=
  if decide (0 <= z < 2 ^ w)%Z then Ok z
  else if overflow_checks then Panic else Ok (wrap w z).

(** ** Big-endian integers *)

Fixpoint be_bytes (n : nat) (z : Z) : bytes :=
  match n with
  | O => []
  | S m => z2b (z / 256 ^ Z.of_nat m) :: be_bytes m z
  end.

Definition be_val (l : bytes) : Z := fold_left (fun acc b => acc * 256 + b2z b)%Z l 0%Z.

(** ** Buffers: the [Buf]/[BufMut] contracts of the crate [bytes]

    [Buf] is a read cursor over the bytes that remain; [BufMut] an append-only
    sink.  Their documented behaviour is the law of each class; the list of
    bytes ([Vec<u8>], [BytesMut]) and the standard library's [Cursor] are the
    instances the program uses. *)

Class Buf (B : Type) := {
  buf_rest : B -> bytes;
  buf_advance : nat -> B -> B;
  buf_advance_rest n b : n <= length (buf_rest b) -> buf_rest (buf_advance n b) = drop n (buf_rest b)
}.

Class BufMut (B : Type) := {
  buf_data : B -> bytes;
  put_slice : B -> bytes -> B;
  put_slice_data b s : buf_data (put_slice b s) = buf_data b ++ s
}.

#[export] Program Instance list_Buf : Buf bytes :=
  {| buf_rest l := l; buf_advance n l := drop n l |}.
Next Obligation. done. Qed.

#[export] Program Instance list_BufMut : BufMut bytes :=
  {| buf_data l := l; put_slice l s := l ++ s |}.
Next Obligation. done. Qed.

(** [std::io::Cursor] over a byte slice. *)
Record Cursor := mkCursor { cur_inner : bytes; cur_position : nat }.

#[export] Program Instance Cursor_Buf : Buf Cursor :=
  {| buf_rest c := drop (cur_position c) (cur_inner c);
     buf_advance n c := mkCursor (cur_inner c) (cur_position c + n) |}.
Next Obligation. intros n [l p] _. simpl. by rewrite drop_drop. Qed.

Section BufOps.
Context {B : Type} `{Buf B}.

Definition remaining (b : B) : nat := length (buf_rest b).

(** [get_u8], [get_u16], [get_u32], [get_u128]: big-endian, and a panic when
fewer bytes remain. *)
Definition get_be (n : nat) (b : B) : res (Z * B) :=
  if decide (n <= remaining b)
  then Ok (be_val (take n (buf_rest b)), buf_advance n b)
  else Panic.

Definition get_u8 (b : B) : res (Z * B) := get_be 1 b.
Definition get_u16 (b : B) : res (Z * B) := get_be 2 b.

(** [copy_to_slice] into a slice of length [n]. *)
Definition copy_to_slice (n : nat) (b : B) : res (bytes * B) :=
  if decide (n <= remaining b)
  then Ok (take n (buf_rest b), buf_advance n b)
  else Panic.
End BufOps.

Section BufMutOps.
Context {B : Type} `{BufMut B}.

Definition put_u8 (b : B) (z : Z) : B := put_slice b [z2b z].
Definition put_u16 (b : B) (z : Z) : B := put_slice b (be_bytes 2 z).
Definition put_u32 (b : B) (z : Z) : B := put_slice b (be_bytes 4 z).
End BufMutOps.

(** ** Polls *)

Inductive Poll (A : Type) :=
| Ready (a : A)
| Pending.
Arguments Ready {A} a.
Arguments Pending {A}.

(** ** Tactics *)

Create HintDb v2ray discriminated.
Create Rewrite HintDb buf_rw.

(** Case analysis on the scrutinee of every match in the goal. *)
Ltac split_matches :=
  repeat (case_match; simplify_eq/=; try done).

(** Inversion of a chain of [res] binds in hypothesis [H]. *)
Tactic Notation "inv_res" hyp(H) :=
  repeat match type of H with
  | mbind _ ?m = Ok _ => let E := fresh "E" in destruct m eqn:E; simpl in H; [|discriminate H..]
  end.

(** ** Byte and integer lemmas *)

Lemma b2z_range b : (0 <= b2z b < 256)%Z.
Proof. unfold b2z. pose proof (Byte.to_N_bounded b). lia. Qed.

Lemma b2z_z2b z : b2z (z2b z) = (z mod 256)%Z.
Proof.
  unfold z2b, b2z. pose proof (Z.mod_pos_bound z 256 ltac:(lia)).
  destruct (Byte.of_N (Z.to_N (z mod 256))) as [b|] eqn:E.
  - apply Byte.to_of_N in E. lia.
  - apply Byte.of_N_None_iff in E. lia.
Qed.

Lemma z2b_b2z b : z2b (b2z b) = b.
Proof.
  unfold z2b. pose proof (b2z_range b). rewrite Z.mod_small by done.
  unfold b2z. by rewrite N2Z.id, Byte.of_to_N.
Qed.

Lemma b2z_inj a b : b2z a = b2z b -> a = b.
Proof. intros E. by rewrite <- (z2b_b2z a), <- (z2b_b2z b), E. Qed.

Lemma z2b_mod z : z2b (z mod 256) = z2b z.
Proof. apply b2z_inj. by rewrite !b2z_z2b, Z.mod_mod. Qed.

Lemma b2z_small z : (0 <= z < 256)%Z -> b2z (z2b z) = z.
Proof. intros ?. by rewrite b2z_z2b, Z.mod_small. Qed.

Lemma length_be_bytes n z : length (be_bytes n z) = n.
Proof. induction n as [|n IH]; simpl; by rewrite ?IH. Qed.

Lemma be_val_acc l a :
  fold_left (fun acc b => acc * 256 + b2z b)%Z l a = (a * 256 ^ Z.of_nat (length l) + be_val l)%Z.
Proof.
  unfold be_val. revert a. induction l as [|b l IH]; intros a; cbn [fold_left length]; [simpl; lia|].
  rewrite (IH (a * 256 + b2z b)%Z), (IH (0 * 256 + b2z b)%Z).
  rewrite Nat2Z.inj_succ, Z.pow_succ_r by lia. lia.
Qed.

Lemma be_val_cons b l : be_val (b :: l) = (b2z b * 256 ^ Z.of_nat (length l) + be_val l)%Z.
Proof. unfold be_val at 1. cbn [fold_left]. rewrite be_val_acc. lia. Qed.

Lemma be_val_nil : be_val [] = 0%Z.
Proof. done. Qed.

Lemma be_val_range l : (0 <= be_val l < 256 ^ Z.of_nat (length l))%Z.
Proof.
  induction l as [|b l IH]; [rewrite be_val_nil; simpl; lia|].
  rewrite be_val_cons. pose proof (b2z_range b). cbn [length].
  rewrite Nat2Z.inj_succ, Z.pow_succ_r by lia. nia.
Qed.

Lemma be_val_be_bytes n z : be_val (be_bytes n z) = (z mod 256 ^ Z.of_nat n)%Z.
Proof.
  induction n as [|n IH]; [cbn [be_bytes]; by rewrite be_val_nil, Z.mod_1_r|].
  cbn [be_bytes]. rewrite be_val_cons, length_be_bytes, IH, b2z_z2b.
  assert (0 < 256 ^ Z.of_nat n)%Z by (apply Z.pow_pos_nonneg; lia).
  rewrite Nat2Z.inj_succ, Z.pow_succ_r, (Z.mul_comm 256) by lia.
  rewrite Z.rem_mul_r by lia. lia.
Qed.

Lemma be_val_be_bytes_small n z :
  (0 <= z < 256 ^ Z.of_nat n)%Z -> be_val (be_bytes n z) = z.
Proof. intros ?. by rewrite be_val_be_bytes, Z.mod_small. Qed.

Lemma be_bytes_mod n z m :
  n <= m -> be_bytes n (z mod 256 ^ Z.of_nat m) = be_bytes n z.
Proof.
  induction n as [|n IH]; intros ?; cbn [be_bytes]; [done|]. rewrite IH by lia. f_equal.
  apply b2z_inj. rewrite !b2z_z2b.
  replace (Z.of_nat m) with (Z.of_nat n + Z.of_nat (m - n))%Z by lia.
  rewrite Z.pow_add_r by lia.
  assert (0 < 256 ^ Z.of_nat n)%Z by (apply Z.pow_pos_nonneg; lia).
  assert (0 < 256 ^ Z.of_nat (m - n))%Z by (apply Z.pow_pos_nonneg; lia).
  rewrite Z.rem_mul_r by lia.
  rewrite (Z.mul_comm (256 ^ Z.of_nat n)), Z.div_add, (Z.div_small (z mod _)), Z.add_0_l;
    [|by apply Z.mod_pos_bound|lia].
  replace (m - n) with (S (m - n - 1)) by lia.
  rewrite Nat2Z.inj_succ, Z.pow_succ_r by lia.
  rewrite Z.rem_mul_r by lia.
  rewrite Z.add_mod, (Z.mul_comm 256), Z.mod_mul, Z.add_0_r, !Z.mod_mod by lia. done.
Qed.

Lemma be_bytes_be_val l : be_bytes (length l) (be_val l) = l.
Proof.
  induction l as [|b l IH]; [done|].
  cbn [length be_bytes]. rewrite be_val_cons.
  assert (0 < 256 ^ Z.of_nat (length l))%Z by (apply Z.pow_pos_nonneg; lia).
  pose proof (be_val_range l). f_equal.
  - rewrite Z.div_add_l, (Z.div_small (be_val l)), Z.add_0_r by lia. apply z2b_b2z.
  - transitivity (be_bytes (length l) (be_val l)); [|exact IH].
    rewrite <- (be_bytes_mod _ (_ + _) (length l)) by lia.
    by rewrite (Z.add_comm (b2z b * _)), Z.mod_add, Z.mod_small by lia.
Qed.

Lemma be_val_inj l1 l2 : length l1 = length l2 -> be_val l1 = be_val l2 -> l1 = l2.
Proof. intros Hl Hv. rewrite <- (be_bytes_be_val l1), <- (be_bytes_be_val l2). by rewrite Hl, Hv. Qed.

Lemma be_val_byte b : be_val [b] = b2z b.
Proof. rewrite be_val_cons. simpl. rewrite be_val_nil. lia. Qed.

Lemma be_bytes_1 z : be_bytes 1 z = [z2b z].
Proof. cbn [be_bytes]. by rewrite Z.div_1_r. Qed.

(** ** Buffer lemmas *)

Section BufLemmas.
Context {B : Type} `{Buf B}.
Implicit Type b : B.

Lemma get_be_ok n b p r :
  buf_rest b = p ++ r -> length p = n ->
  get_be n b = Ok (be_val p, buf_advance n b) /\ buf_rest (buf_advance n b) = r.
Proof.
  intros E <-. unfold get_be, remaining. split.
  - rewrite decide_True by (rewrite E, length_app; lia). by rewrite E, take_app_length.
  - rewrite buf_advance_rest by (rewrite E, length_app; lia). by rewrite E, drop_app_length.
Qed.

Lemma get_be_inv n b v b' :
  get_be n b = Ok (v, b') ->
  buf_rest b = be_bytes n v ++ buf_rest b' /\ (0 <= v < 256 ^ Z.of_nat n)%Z.
Proof.
  unfold get_be, remaining. case_decide as Hn; [|done]. intros [= <- <-].
  assert (length (take n (buf_rest b)) = n) as Hl by (rewrite length_take; lia).
  rewrite buf_advance_rest by done. pose proof (be_val_range (take n (buf_rest b))) as Hv. rewrite Hl in Hv. split; [|exact Hv].
  rewrite <- Hl at 1. by rewrite be_bytes_be_val, take_drop.
Qed.

Lemma copy_to_slice_inv n b s b' :
  copy_to_slice n b = Ok (s, b') -> buf_rest b = s ++ buf_rest b' /\ length s = n.
Proof.
  unfold copy_to_slice, remaining. case_decide as Hn; [|done]. intros [= <- <-].
  rewrite buf_advance_rest by done. rewrite length_take, take_drop. split; [done|lia].
Qed.

Lemma get_be_not_err n b e : get_be n b <> Err e.
Proof. unfold get_be. by case_decide. Qed.

Lemma remaining_advance n b : n <= remaining b -> remaining (buf_advance n b) = remaining b - n.
Proof. intros ?. unfold remaining in *. by rewrite buf_advance_rest, length_drop. Qed.

Lemma get_be_go n b :
  n <= remaining b -> get_be n b = Ok (be_val (take n (buf_rest b)), buf_advance n b).
Proof. intros ?. unfold get_be. by rewrite decide_True. Qed.

Lemma copy_to_slice_go n b :
  n <= remaining b -> copy_to_slice n b = Ok (take n (buf_rest b), buf_advance n b).
Proof. intros ?. unfold copy_to_slice. by rewrite decide_True. Qed.

Lemma get_be_enough n b : n <= remaining b -> exists v b', get_be n b = Ok (v, b').
Proof. intros ?. unfold get_be. rewrite decide_True by done. eauto. Qed.

Lemma get_be_short n b : remaining b < n -> get_be n b = Panic.
Proof. intros ?. unfold get_be. rewrite decide_False by lia. done. Qed.

Lemma copy_to_slice_ok n b p r :
  buf_rest b = p ++ r -> length p = n ->
  copy_to_slice n b = Ok (p, buf_advance n b) /\ buf_rest (buf_advance n b) = r.
Proof.
  intros E <-. unfold copy_to_slice, remaining. split.
  - rewrite decide_True by (rewrite E, length_app; lia). by rewrite E, take_app_length.
  - rewrite buf_advance_rest by (rewrite E, length_app; lia). by rewrite E, drop_app_length.
Qed.
End BufLemmas.

(** One successful read of [n] bytes in the goal, when [H] says what remains. *)
Ltac get_step H n :=
  match type of H with
  | buf_rest ?c = ?p ++ ?r =>
      let E := fresh "E" in let H' := fresh "H" in
      destruct (get_be_ok n c p r H ltac:(autorewrite with buf_rw; reflexivity)) as [E H'];
      rewrite E; clear E; clear H; rename H' into H; cbn [mbind res_bind]
  end.

(** Bounds on what remains after some reads. *)
Ltac rem_lia := lia || (rewrite remaining_advance by rem_lia; rem_lia).

(** Reads that [lia] knows to be in bounds. *)
Ltac get_go :=
  match goal with
  | |- context [get_be ?n ?b] =>
      rewrite (get_be_go n b) by rem_lia; cbn [mbind res_bind]
  | |- context [copy_to_slice ?n ?b] =>
      rewrite (copy_to_slice_go n b) by rem_lia; cbn [mbind res_bind]
  end.

(** One successful read in hypothesis [H], inverted. *)
Ltac get_inv H :=
  match type of H with
  | mbind _ (get_be ?n ?b) = _ =>
      let E := fresh "E" in let v := fresh "v" in let b' := fresh "cur" in
      destruct (get_be n b) as [[v b']|?|] eqn:E; [|by apply get_be_not_err in E|];
      cbn [mbind res_bind] in H
  end.

Section BufMutLemmas.
Context {B : Type} `{BufMut B}.
Implicit Type b : B.
Lemma put_u8_data b z : buf_data (put_u8 b z) = buf_data b ++ [z2b z].
Proof. apply put_slice_data. Qed.
Lemma put_u16_data b z : buf_data (put_u16 b z) = buf_data b ++ be_bytes 2 z.
Proof. apply put_slice_data. Qed.
Lemma put_u32_data b z : buf_data (put_u32 b z) = buf_data b ++ be_bytes 4 z.
Proof. apply put_slice_data. Qed.
End BufMutLemmas.

#[export] Hint Rewrite @put_slice_data @put_u8_data @put_u16_data @put_u32_data
  length_be_bytes @length_app : buf_rw.
#[export] Hint Resolve b2z_range be_val_range : v2ray.

(** ** Generic list lemmas *)

Lemma take_drop_app_eq {A} (n : nat) (l p r : list A) :
  l = p ++ r -> length p = n -> take n l = p /\ drop n l = r.
Proof. intros -> <-. by rewrite take_app_length, drop_app_length. Qed.

(** The first element of a list that satisfies a test is unique. *)
Lemma split_first {A} (P : A -> bool) xs x xs' ys y ys' :
  xs ++ x :: xs' = ys ++ y :: ys' -> Forall (fun z => P z = false) xs -> Forall (fun z => P z = false) ys ->
  P x = true -> P y = true -> ys = xs /\ y = x /\ ys' = xs'.
Proof.
  intros E Hx Hy Px Py. revert ys E Hy. induction Hx as [|a xs Ha Hx IH]; intros [|b ys] E Hy; cbn [app] in E; simplify_eq.
  - done.
  - inversion Hy. congruence.
  - congruence.
  - inversion Hy; subst. by destruct (IH _ H0 ltac:(done)) as (-> & -> & ->).
Qed.

Lemma prefix_take {A} (n : nat) (l : list A) : take n l `prefix_of` l.
Proof. exists (drop n l). by rewrite take_drop. Qed.
