(* ===== verification/Io.v ===== *)
(** * Asynchronous byte streams

    The environment of the protocol code: what an [AsyncRead] answers to the
    successive polls of a task is a script of events, and an [AsyncWrite] is a
    script of answers with the log of the bytes it accepted.  Every theorem
    quantifies over the scripts, so over every fragmentation of the data and
    every interleaving of [Pending].

    Also here: the poll helpers of src/src/common/net/mod.rs
    ([poll_read_buf], [PollUtil]), the [read_at_least] loop of
    src/src/common/macro_def.rs ([impl_read_utils!]) and the [write_data] loop
    shared by the protocol writers.  The awaiting helpers of tokio
    ([read_exact], [read], [write_all]) skip the [Pending] events. *)

From S2P Require Import Prelude.
From Stdlib Require Import ZArith Lia List.
From stdpp Require Import base option list strings.

(** ** Readers *)

Inductive rd_event :=
| RdPending                  (* the poll answers Pending *)
| RdData (bs : bytes)        (* bytes are available; [] is end of file *)
| RdErr (e : io_error).

Abbreviation rd_script := (list rd_event).

(** [AsyncRead::poll_read] into a [ReadBuf] with room for [cap] bytes.  When
    fewer fit than arrived, the rest stays for the next poll; an exhausted
    script is at end of file. *)
Definition poll_read (cap : nat) (s : rd_script) : Poll (res bytes) * rd_script :=
  match s with
  | [] => (Ready (Ok []), [])
  | RdPending :: s' => (Pending, s')
  | RdErr e :: s' => (Ready (Err e), s')
  | RdData bs :: s' =>
      if decide (length bs <= cap) then (Ready (Ok bs), s')
      else (Ready (Ok (take cap bs)), RdData (drop cap bs) :: s')
  end.

(** The bytes a script delivers before end of file or an error. *)
Fixpoint rd_bytes (s : rd_script) : bytes :=
  match s with
  | [] => []
  | RdPending :: s' => rd_bytes s'
  | RdErr _ :: _ => []
  | RdData [] :: _ => []
  | RdData bs :: s' => bs ++ rd_bytes s'
  end.

(** [poll_read_buf]: reads into the spare room of a growable [BytesMut], which
    is never empty; the size of the room is the allocator's, so the script's
    chunk is taken as it comes.  The result is the number of bytes read. *)
Definition poll_read_buf (s : rd_script) (buf : bytes) : Poll (res nat) * rd_script * bytes :=
  match s with
  | [] => (Ready (Ok 0), [], buf)
  | RdPending :: s' => (Pending, s', buf)
  | RdErr e :: s' => (Ready (Err e), s', buf)
  | RdData bs :: s' => (Ready (Ok (length bs)), s', buf ++ bs)
  end.

(** [read_at_least] of [impl_read_utils!].  The boolean is the field
    [read_zero] after the call. *)
Fixpoint read_at_least (s : rd_script) (buffer : bytes) (read_zero : bool) (len : nat)
    : Poll (res unit) * rd_script * bytes * bool :=
  if decide (len <= length buffer) then (Ready (Ok tt), s, buffer, read_zero)
  else match s with
  | [] => (Ready (Err unexpected_eof), [], buffer, true)
  | RdPending :: s' => (Pending, s', buffer, read_zero)
  | RdErr e :: s' => (Ready (Err e), s', buffer, read_zero)
  | RdData [] :: s' => (Ready (Err unexpected_eof), s', buffer, true)
  | RdData bs :: s' => read_at_least s' (buffer ++ bs) read_zero len
  end.

(** [PollUtil] of src/src/common/net/mod.rs. *)
Definition drop_poll_result {A} (p : Poll (res A)) : Poll (res unit) :=
  match p with
  | Ready (Err e) => Ready (Err e)
  | Ready (Ok _) => Ready (Ok tt)
  | Ready Panic => Ready Panic
  | Pending => Pending
  end.

Definition is_pending_or_error {A} (p : Poll (res A)) : bool :=
  match p with Ready (Ok _) => false | _ => true end.

Definition is_error {A} (p : Poll (res A)) : bool :=
  match p with Ready (Err _) => true | _ => false end.

Definition get_poll_res {A} `{Inhabited A} (p : Poll (res A)) : A :=
  match p with Ready (Ok t) => t | _ => inhabitant end.

(** ** Writers *)

Inductive wr_event :=
| WrPending
| WrAccept (n : nat)         (* accepts at most n bytes *)
| WrErr (e : io_error).

Record Writer := mkWriter {
  wr_script : list wr_event;
  wr_log : bytes;                           (* bytes accepted so far *)
  fl_script : list (Poll (res unit));       (* answers of poll_flush *)
  fl_count : nat;                           (* completed flushes *)
  sd_script : list (Poll (res unit));       (* answers of poll_shutdown *)
  sd_count : nat
}.

(** [AsyncWrite::poll_write]: the number of bytes accepted.  An exhausted
    script accepts everything. *)
Definition poll_write (w : Writer) (buf : bytes) : Poll (res nat) * Writer :=
  let log d ws := mkWriter ws (wr_log w ++ d) (fl_script w) (fl_count w) (sd_script w) (sd_count w) in
  match wr_script w with
  | [] => (Ready (Ok (length buf)), log buf [])
  | WrPending :: ws => (Pending, log [] ws)
  | WrErr e :: ws => (Ready (Err e), log [] ws)
  | WrAccept n :: ws => (Ready (Ok (length (take n buf))), log (take n buf) ws)
  end.

Definition poll_flush (w : Writer) : Poll (res unit) * Writer :=
  let upd fs n := mkWriter (wr_script w) (wr_log w) fs (fl_count w + n) (sd_script w) (sd_count w) in
  match fl_script w with
  | [] => (Ready (Ok tt), upd [] 1)
  | Ready (Ok tt) :: fs => (Ready (Ok tt), upd fs 1)
  | p :: fs => (p, upd fs 0)
  end.

Definition poll_shutdown (w : Writer) : Poll (res unit) * Writer :=
  let upd ss n := mkWriter (wr_script w) (wr_log w) (fl_script w) (fl_count w) ss (sd_count w + n) in
  match sd_script w with
  | [] => (Ready (Ok tt), upd [] 1)
  | Ready (Ok tt) :: ss => (Ready (Ok tt), upd ss 1)
  | p :: ss => (p, upd ss 0)
  end.

Definition write_zero_error : io_error := IoError WriteZero "write zero byte into writer".

(** The [write_data] loop of the protocol writers: write [buf[pos..]] until all
    of it is accepted; the new [pos] is returned with the answer.  The loop
    polls at most once per event of the script, then once more. *)
Fixpoint write_data_loop (fuel : nat) (w : Writer) (buf : bytes) (pos : nat)
    : Poll (res unit) * Writer * nat :=
  if decide (length buf <= pos) then (Ready (Ok tt), w, pos)
  else match fuel with
  | O => (Pending, w, pos)
  | S f =>
    match poll_write w (drop pos buf) with
    | (Pending, w') => (Pending, w', pos)
    | (Ready (Err e), w') => (Ready (Err e), w', pos)
    | (Ready Panic, w') => (Ready Panic, w', pos)
    | (Ready (Ok n), w') =>
        if decide (n = 0) then (Ready (Err write_zero_error), w', pos + n)
        else write_data_loop f w' buf (pos + n)
    end
  end.

Definition write_data (w : Writer) (buf : bytes) (pos : nat) : Poll (res unit) * Writer * nat :=
  write_data_loop (S (length (wr_script w))) w buf pos.

(** ** Awaiting helpers

    An [async fn] is suspended by a pending poll and resumed later, so its
    reads skip the [Pending] events. *)

Fixpoint read_exact_loop (s : rd_script) (n : nat) (acc : bytes) : res bytes * rd_script :=
  if decide (n = 0) then (Ok acc, s)
  else match s with
  | [] => (Err unexpected_eof, [])
  | RdPending :: s' => read_exact_loop s' n acc
  | RdErr e :: s' => (Err e, s')
  | RdData [] :: s' => (Err unexpected_eof, s')
  | RdData bs :: s' =>
      if decide (length bs <= n) then read_exact_loop s' (n - length bs) (acc ++ bs)
      else (Ok (acc ++ take n bs), RdData (drop n bs) :: s')
  end.

(** [AsyncReadExt::read]: one read of at most [cap] bytes. *)
Fixpoint read_once (s : rd_script) (cap : nat) : res bytes * rd_script :=
  match s with
  | [] => (Ok [], [])
  | RdPending :: s' => read_once s' cap
  | RdErr e :: s' => (Err e, s')
  | RdData bs :: s' =>
      if decide (length bs <= cap) then (Ok bs, s')
      else (Ok (take cap bs), RdData (drop cap bs) :: s')
  end.

Fixpoint write_all_loop (ws : list wr_event) (buf : bytes) : res unit * list wr_event * bytes :=
  match buf with
  | [] => (Ok tt, ws, [])
  | _ =>
    match ws with
    | [] => (Ok tt, [], buf)
    | WrPending :: ws' => write_all_loop ws' buf
    | WrErr e :: ws' => (Err e, ws', [])
    | WrAccept n :: ws' =>
        if decide (n = 0) then (Err (IoError WriteZero ""), ws', [])
        else let '(r, ws'', d) := write_all_loop ws' (drop n buf) in (r, ws'', take n buf ++ d)
    end
  end.

(** A duplex stream and the monad of async functions over it. *)
Record Stream := mkStream { st_rd : rd_script; st_wr : Writer }.

Definition IO (A : Type) : Type := Stream -> res A * Stream.

#[export] Instance IO_ret : MRet IO := fun A a s => (Ok a, s).
#[export] Instance IO_bind : MBind IO := fun A B f m s =>
  match m s with
  | (Ok a, s') => f a s'
  | (Err e, s') => (Err e, s')
  | (Panic, s') => (Panic, s')
  end.

Definition io_err {A} (e : io_error) : IO A := fun s => (Err e, s).
Definition io_lift {A} (r : res A) : IO A := fun s => (r, s).

Definition read_exact (n : nat) : IO bytes := fun s =>
  let '(r, rd) := read_exact_loop (st_rd s) n [] in (r, mkStream rd (st_wr s)).

Definition read (cap : nat) : IO bytes := fun s =>
  let '(r, rd) := read_once (st_rd s) cap in (r, mkStream rd (st_wr s)).

Definition write_all (buf : bytes) : IO unit := fun s =>
  let w := st_wr s in
  let '(r, ws, d) := write_all_loop (wr_script w) buf in
  (r, mkStream (st_rd s)
        (mkWriter ws (wr_log w ++ d) (fl_script w) (fl_count w) (sd_script w) (sd_count w))).

Fixpoint shutdown_loop (ss : list (Poll (res unit))) : res unit * list (Poll (res unit)) :=
  match ss with
  | [] => (Ok tt, [])
  | Pending :: ss' => shutdown_loop ss'
  | Ready r :: ss' => (r, ss')
  end.

Definition shutdown : IO unit := fun s =>
  let w := st_wr s in
  let '(r, ss) := shutdown_loop (sd_script w) in
  (r, mkStream (st_rd s) (mkWriter (wr_script w) (wr_log w) (fl_script w) (fl_count w) ss
                            (sd_count w + if is_ok r then 1 else 0))).

(** A writer that never fails: every answer is [Pending] or accepts a byte. *)
Definition wr_good (e : wr_event) : bool :=
  match e with WrPending => true | WrAccept n => negb (n =? 0) | WrErr _ => false end.

Definition writes_ok (w : Writer) : Prop := Forall (fun e => wr_good e = true) (wr_script w).

(** ** Laws of the readers *)

Lemma rd_bytes_one l : rd_bytes [RdData l] = l.
Proof. destruct l; simpl; by rewrite ?app_nil_r. Qed.

(** Chunks without end of file or error. *)
Definition flowing (s : rd_script) : Prop :=
  Forall (fun e => match e with RdPending => True | RdData bs => bs <> [] | RdErr _ => False end) s.

Lemma rd_bytes_app s1 s2 : flowing s1 -> rd_bytes (s1 ++ s2) = rd_bytes s1 ++ rd_bytes s2.
Proof.
  intros H. induction H as [|e s1 He Hs IH]; [done|].
  destruct e as [|[|b bs]|e]; simpl; [by rewrite IH|done| |done].
  rewrite IH. rewrite <- app_assoc. done.
Qed.

Lemma poll_read_spec cap s p s' :
  poll_read cap s = (p, s') ->
  match p with
  | Ready (Ok []) => cap = 0 \/ rd_bytes s = []
  | Ready (Ok d) => length d <= cap /\ rd_bytes s = d ++ rd_bytes s'
  | Ready (Err _) => rd_bytes s = []
  | Ready Panic => False
  | Pending => rd_bytes s = rd_bytes s' /\ length s' < length s
  end.
Proof.
  destruct s as [|[|bs|e] s]; simpl; intros ?; simplify_eq/=; auto with lia.
  case_decide; simplify_eq/=; [destruct bs; auto|].
  destruct cap as [|cap]; [by left|].
  destruct bs as [|b bs]; simpl in *; [lia|].
  rewrite length_take. split; [lia|].
  destruct (drop cap bs) eqn:E; simpl.
  - apply (f_equal length) in E. rewrite length_drop in E. simpl in E. lia.
  - rewrite <- (take_drop cap bs) at 1. by rewrite E, <- app_assoc.
Qed.

Lemma read_at_least_spec s buf z len p s' buf' z' :
  read_at_least s buf z len = (p, s', buf', z') ->
  match p with
  | Ready (Ok _) => len <= length buf' /\ buf' ++ rd_bytes s' = buf ++ rd_bytes s /\ z' = z
                    /\ length s' <= length s
  | Ready (Err e) => length buf' < len /\ buf' = buf ++ rd_bytes s
                     /\ (z' = true /\ e = unexpected_eof \/ z' = z)
  | Ready Panic => False
  | Pending => length buf' < len /\ buf' ++ rd_bytes s' = buf ++ rd_bytes s /\ z' = z
               /\ length s' < length s
  end.
Proof.
  revert buf. induction s as [|ev s IH]; intros buf.
  - simpl. case_decide; intros; simplify_eq; rewrite ?app_nil_r; auto with lia.
  - destruct ev as [|[|b bs]|e]; simpl; case_decide; intros Hr; simplify_eq;
      rewrite ?app_nil_r; auto 6 with lia.
    apply IH in Hr. destruct p as [[[]|e|]|]; try done;
      rewrite <- app_assoc in Hr; simpl in Hr; intuition lia.
Qed.

(** What is left is a suffix of the script; an error that is not the end of
the stream is one of the script's. *)
Lemma read_at_least_suffix s buf z len p s' buf' z' :
  read_at_least s buf z len = (p, s', buf', z') ->
  s' `suffix_of` s /\ (forall e, p = Ready (Err e) -> z' = true \/ RdErr e ∈ s).
Proof.
  revert buf. induction s as [|ev s IH]; intros buf.
  - simpl. case_decide; intros; simplify_eq; split; try done; by left.
  - destruct ev as [|[|b bs]|e]; simpl; case_decide; intros Hr; simplify_eq; try (split; [done|by intros]);
      try (split; [by apply suffix_cons_r|intros; simplify_eq; try (by left); right; by left]).
    apply IH in Hr as [Hs He]. split; [by apply suffix_cons_r|]. intros e Hp. destruct (He e Hp); [by left|right; by right].
Qed.

Lemma read_at_least_enough s buf z len :
  len <= length buf -> read_at_least s buf z len = (Ready (Ok tt), s, buf, z).
Proof. intros. destruct s; simpl; by rewrite decide_True. Qed.

Lemma read_exact_loop_spec s n acc r s' :
  read_exact_loop s n acc = (r, s') ->
  match r with
  | Ok l => exists d, l = acc ++ d /\ length d = n /\ rd_bytes s = d ++ rd_bytes s'
  | Err _ => length (rd_bytes s) < n
  | Panic => False
  end.
Proof.
  revert n acc. induction s as [|ev s IH]; intros n acc; simpl; case_decide; intros Hr; simplify_eq.
  - exists []. by rewrite app_nil_r.
  - simpl; lia.
  - exists []. by rewrite app_nil_r.
  - destruct ev as [|[|b bs]|e]; simplify_eq; simpl; try lia.
    + apply IH in Hr. by destruct r.
    + case_decide; simplify_eq.
      * apply IH in Hr. destruct r as [l|e|]; [|simpl in *; rewrite length_app; lia|done].
        destruct Hr as (d & -> & Hd & ->). exists ((b :: bs) ++ d).
        rewrite <- !app_assoc, length_app. simpl in *. split_and!; [done|lia|done].
      * simpl in *. destruct n as [|n]; [lia|]. exists (b :: take n bs).
        simpl. rewrite length_take. split_and!; [done|lia|].
        destruct (drop n bs) eqn:E.
        -- apply (f_equal length) in E. rewrite length_drop in E. simpl in E. lia.
        -- rewrite <- (take_drop n bs) at 1. by rewrite E, <- app_assoc.
Qed.

(** [read_exact n] succeeds exactly when [n] bytes come before the end. *)
Lemma read_exact_ok n s p r :
  rd_bytes (st_rd s) = p ++ r -> length p = n ->
  exists rd, read_exact n s = (Ok p, mkStream rd (st_wr s)) /\ rd_bytes rd = r.
Proof.
  intros E Hn. unfold read_exact. destruct (read_exact_loop _ _ _) as [q rd] eqn:Hr.
  apply read_exact_loop_spec in Hr. destruct q as [l|e|]; [|rewrite E, length_app in Hr; lia|done].
  destruct Hr as (d & -> & Hd & Hb). rewrite E in Hb.
  apply app_inj_1 in Hb as [-> ->]; [|lia]. by exists rd.
Qed.

Lemma read_exact_short n s :
  length (rd_bytes (st_rd s)) < n -> exists e s', read_exact n s = (Err e, s') /\ st_wr s' = st_wr s.
Proof.
  intros Hn. unfold read_exact. destruct (read_exact_loop _ _ _) as [q rd] eqn:Hr.
  apply read_exact_loop_spec in Hr. destruct q as [l|e|]; [|by eauto|done].
  destruct Hr as (d & _ & <- & Hb). rewrite Hb, length_app in Hn. lia.
Qed.

Lemma read_exact_keeps_writer n s r s' : read_exact n s = (r, s') -> st_wr s' = st_wr s.
Proof. unfold read_exact. destruct (read_exact_loop _ _ _). by intros; simplify_eq. Qed.

(** ** Laws of the writers *)

Lemma write_all_loop_ok ws buf :
  Forall (fun e => wr_good e = true) ws ->
  exists ws', write_all_loop ws buf = (Ok tt, ws', buf) /\ Forall (fun e => wr_good e = true) ws'.
Proof.
  intros H. revert buf. induction H as [|ev ws Hev Hws IH]; intros [|b buf]; simpl; eauto.
  destruct ev as [|n|e]; simpl in Hev; [eauto| |done].
  apply negb_true_iff, Nat.eqb_neq in Hev. rewrite decide_False by done.
  destruct n as [|n]; [done|]. simpl.
  destruct (IH (drop n buf)) as (ws' & -> & ?). rewrite take_drop. eauto.
Qed.

Lemma write_all_ok buf s :
  writes_ok (st_wr s) ->
  exists w, write_all buf s = (Ok tt, mkStream (st_rd s) w)
            /\ wr_log w = wr_log (st_wr s) ++ buf /\ writes_ok w
            /\ sd_script w = sd_script (st_wr s) /\ sd_count w = sd_count (st_wr s).
Proof.
  intros H. unfold write_all. destruct (write_all_loop_ok _ buf H) as (ws & -> & ?). eauto 10.
Qed.

Lemma poll_write_spec w buf p w' :
  poll_write w buf = (p, w') ->
  match p with
  | Ready (Ok n) => n <= length buf /\ wr_log w' = wr_log w ++ take n buf
  | Ready Panic => False
  | _ => wr_log w' = wr_log w
  end.
Proof.
  unfold poll_write. destruct (wr_script w) as [|[|n|e] ws]; intros; simplify_eq/=;
    rewrite ?app_nil_r; auto.
  - by rewrite take_ge.
  - rewrite length_take. split; [lia|]. f_equal.
    destruct (Nat.le_ge_cases n (length buf)); [by rewrite Nat.min_l|].
    by rewrite Nat.min_r, !take_ge by lia.
Qed.

Lemma take_add_drop {A} (l : list A) i n m :
  take n (drop i l) ++ take m (drop (i + n) l) = take (n + m) (drop i l).
Proof. by rewrite <- drop_drop, take_take_drop. Qed.

(** What [write_data] hands to the writer is exactly [buf[pos..pos']]. *)
Lemma write_data_loop_spec fuel w buf pos p w' pos' :
  write_data_loop fuel w buf pos = (p, w', pos') -> pos <= length buf ->
  pos <= pos' <= length buf /\
  wr_log w' = wr_log w ++ take (pos' - pos) (drop pos buf) /\
  match p with
  | Ready (Ok _) => pos' = length buf
  | Ready Panic => False
  | _ => True
  end.
Proof.
  revert w pos. induction fuel as [|fuel IH]; intros w pos; simpl; case_decide; intros Hr Hp; simplify_eq;
    try (rewrite Nat.sub_diag, take_0, app_nil_r; auto with lia).
  destruct (poll_write w (drop pos buf)) as [q w1] eqn:Ew. apply poll_write_spec in Ew.
  destruct q as [[n|e|]|]; simplify_eq; try done;
    try (rewrite Nat.sub_diag, take_0, app_nil_r; auto with lia).
  destruct Ew as [Hn Ew]. rewrite length_drop in Hn. case_decide; simplify_eq.
  - rewrite Nat.add_0_r, Nat.sub_diag. auto with lia.
  - apply IH in Hr; [|lia]. destruct Hr as (? & -> & ?). split_and!; [lia|lia| |done].
    rewrite Ew, <- app_assoc, take_add_drop. do 2 f_equal. lia.
Qed.

Lemma write_data_spec w buf pos p w' pos' :
  write_data w buf pos = (p, w', pos') -> pos <= length buf ->
  pos <= pos' <= length buf /\
  wr_log w' = wr_log w ++ take (pos' - pos) (drop pos buf) /\
  match p with
  | Ready (Ok _) => pos' = length buf
  | Ready Panic => False
  | _ => True
  end.
Proof. apply write_data_loop_spec. Qed.

(** The fuel of [write_data] is never what stops the loop: it ends on the
    answer of a poll. *)
Lemma write_data_loop_fuel fuel1 fuel2 w buf pos :
  length (wr_script w) < fuel1 -> length (wr_script w) < fuel2 ->
  write_data_loop fuel1 w buf pos = write_data_loop fuel2 w buf pos.
Proof.
  revert fuel2 w pos. induction fuel1 as [|f1 IH]; intros [|f2] w pos H1 H2; try lia.
  simpl. case_decide; [done|]. unfold poll_write.
  destruct (wr_script w) as [|[|n|e] ws] eqn:E; simpl in *; try done; case_decide; try done.
  - destruct f1, f2; simpl; rewrite length_drop; rewrite !decide_True by lia; done.
  - apply IH; simpl; lia.
Qed.

(** On a writer that never fails, [write_data] completes or is suspended. *)
Lemma write_data_loop_good fuel w buf pos p w' pos' :
  writes_ok w -> length (wr_script w) < fuel -> write_data_loop fuel w buf pos = (p, w', pos') ->
  writes_ok w' /\ (p = Ready (Ok tt) \/ p = Pending /\ length (wr_script w') < length (wr_script w)).
Proof.
  revert w pos. induction fuel as [|f IH]; intros w pos Hw Hf; [lia|]. simpl.
  case_decide; [intros; simplify_eq; auto|]. unfold poll_write, writes_ok in *.
  destruct (wr_script w) as [|[|n|e] ws] eqn:E; simpl in *.
  - rewrite length_drop, decide_False by lia.
    destruct f; simpl; rewrite decide_True by lia; intros; simplify_eq; simpl; auto.
  - intros; simplify_eq/=. apply Forall_cons in Hw as [_ Hw]. auto.
  - apply Forall_cons in Hw as [Hn Hw]. simpl in Hn. apply negb_true_iff, Nat.eqb_neq in Hn.
    rewrite length_take, length_drop, decide_False by lia. intros Hr.
    apply IH in Hr as [? [?|[-> ?]]]; simpl in *; auto with lia.
  - apply Forall_cons in Hw as [Hn _]. done.
Qed.

Lemma write_data_good w buf pos p w' pos' :
  writes_ok w -> write_data w buf pos = (p, w', pos') ->
  writes_ok w' /\ (p = Ready (Ok tt) \/ p = Pending /\ length (wr_script w') < length (wr_script w)).
Proof. intros Hw. apply write_data_loop_good; [done|lia]. Qed.

(** A poll never puts an answer back. *)
Lemma write_data_script w buf pos p w' pos' :
  write_data w buf pos = (p, w', pos') -> length (wr_script w') <= length (wr_script w).
Proof.
  unfold write_data. generalize (S (length (wr_script w))). intros fuel. revert w pos.
  induction fuel as [|f IH]; intros w pos; simpl; case_decide; intros Hr; simplify_eq; try done.
  destruct (poll_write w (drop pos buf)) as [q w1] eqn:Ew.
  assert (length (wr_script w1) <= length (wr_script w)) as Hle.
  { unfold poll_write in Ew. destruct (wr_script w) as [|[]]; simplify_eq/=; lia. }
  destruct q as [[n|e|]|]; simplify_eq; try done.
  case_decide; simplify_eq; [done|]. apply IH in Hr. lia.
Qed.
