(* ===== verification/StdText.v ===== *)
(** * Standard-library text routines the program calls

    [String] is its UTF-8 bytes.  [String::from_utf8], [u16::from_str],
    [usize::from_str], the decimal and hexadecimal [Display], and the parser
    and printer of [std::net::SocketAddr] (module [core::net::parser]), which
    [Address::from_str] and [Display for Address] of
    src/src/proxy/address.rs rely on. *)

From S2P Require Import Prelude.
From Stdlib Require Import ZArith Lia List Strings.Byte.
From stdpp Require Import base option list strings.

(** The bytes of a literal. *)
Definition str (s : string) : bytes := String.list_byte_of_string s.

(** ** UTF-8 validity ([core::str::from_utf8]) *)

Definition in_range (lo hi : Z) (b : byte) : bool := ((lo <=? b2z b) && (b2z b <=? hi))%Z.
Definition is_cont (b : byte) : bool := in_range 0x80 0xBF b.

Fixpoint utf8_valid (l : bytes) : bool :=
  match l with
  | [] => true
  | a :: l1 =>
    if in_range 0 0x7F a then utf8_valid l1 else
    match l1 with
    | [] => false
    | b :: l2 =>
      if in_range 0xC2 0xDF a then is_cont b && utf8_valid l2 else
      match l2 with
      | [] => false
      | c :: l3 =>
        if in_range 0xE0 0xEF a then
          (if in_range 0xE0 0xE0 a then in_range 0xA0 0xBF b
           else if in_range 0xED 0xED a then in_range 0x80 0x9F b
           else is_cont b) && is_cont c && utf8_valid l3
        else
        match l3 with
        | [] => false
        | d :: l4 =>
          in_range 0xF0 0xF4 a &&
          (if in_range 0xF0 0xF0 a then in_range 0x90 0xBF b
           else if in_range 0xF4 0xF4 a then in_range 0x80 0x8F b
           else is_cont b) && is_cont c && is_cont d && utf8_valid l4
        end
      end
    end
  end.

(** ** Numbers *)

Definition digit_byte (z : Z) : byte :=
  if (z <? 10)%Z then z2b (48 + z) else z2b (87 + z).

(** [{}] and [{:x}] of an unsigned integer below [radix ^ fuel]. *)
Fixpoint show_radix (radix : Z) (fuel : nat) (z : Z) : bytes :=
  match fuel with
  | O => []
  | S f => if (z <? radix)%Z then [digit_byte z]
           else show_radix radix f (z / radix) ++ [digit_byte (z mod radix)]
  end.

(** 20 digits print every 64-bit integer. *)
Definition show_dec (z : Z) : bytes := show_radix 10 20 z.
Definition show_hex (z : Z) : bytes := show_radix 16 20 z.

(** [char::to_digit]. *)
Definition to_digit (radix : Z) (b : byte) : option Z :=
  let z := b2z b in
  let d := if in_range 48 57 b then Some (z - 48)%Z
           else if in_range 97 122 b then Some (z - 87)%Z
           else if in_range 65 90 b then Some (z - 55)%Z
           else None in
  match d with Some d => if (d <? radix)%Z then Some d else None | None => None end.

(** The digit loop of [Parser::read_number]: the value, how many digits, the
    rest.  With [max_digits] a longer run fails; without, an overflow of the
    type ([lim] is its first value out of range) fails. *)
Fixpoint read_digits (radix : Z) (max_digits : option nat) (lim : Z) (s : bytes)
    (acc : Z) (cnt : nat) : option (Z * nat * bytes) :=
  match s with
  | [] => Some (acc, cnt, [])
  | c :: s' =>
    match to_digit radix c with
    | None => Some (acc, cnt, s)
    | Some d =>
      let acc' := (acc * radix + d)%Z in
      match max_digits with
      | Some m => if decide (m < S cnt) then None else read_digits radix max_digits lim s' acc' (S cnt)
      | None => if (lim <=? acc')%Z then None else read_digits radix max_digits lim s' acc' (S cnt)
      end
    end
  end.

Definition read_number (radix : Z) (max_digits : option nat) (allow_zero_prefix : bool)
    (lim : Z) (s : bytes) : option (Z * bytes) :=
  let has_leading_zero := match s with c :: _ => bool_decide (c = "0"%byte) | [] => false end in
  match read_digits radix max_digits lim s 0 0 with
  | None => None
  | Some (n, cnt, rest) =>
      if decide (cnt = 0) then None
      else if negb allow_zero_prefix && has_leading_zero && (1 <? cnt) then None
      else if (lim <=? n)%Z then None
      else Some (n, rest)
  end.

Definition read_given_char (c : byte) (s : bytes) : option bytes :=
  match s with b :: s' => if decide (b = c) then Some s' else None | [] => None end.

Definition read_separator (sep : byte) (index : nat) (s : bytes) : option bytes :=
  if decide (0 < index) then read_given_char sep s else Some s.

(** [u16::from_str] and [usize::from_str]: an optional [+], then digits. *)
Definition parse_unsigned (lim : Z) (s : bytes) : option Z :=
  let ds := match s with c :: (_ :: _) as rest => if decide (c = "+"%byte) then tl s else s | _ => s end in
  match ds with
  | [] => None
  | _ => match read_digits 10 None lim ds 0 0 with
         | Some (n, _, []) => Some n
         | _ => None
         end
  end.

(** ** Socket addresses *)

Record Ipv4Addr := mkIpv4 { v4_a : byte; v4_b : byte; v4_c : byte; v4_d : byte }.

Record Ipv6Addr := mkIpv6 {
  v6_0 : Z; v6_1 : Z; v6_2 : Z; v6_3 : Z; v6_4 : Z; v6_5 : Z; v6_6 : Z; v6_7 : Z }.

Inductive SocketAddr :=
| V4 (ip : Ipv4Addr) (port : Z)
| V6 (ip : Ipv6Addr) (port flowinfo scope_id : Z).

#[export] Instance Ipv4Addr_eq_dec : EqDecision Ipv4Addr.
Proof. solve_decision. Defined.
#[export] Instance Ipv6Addr_eq_dec : EqDecision Ipv6Addr.
Proof. solve_decision. Defined.
#[export] Instance SocketAddr_eq_dec : EqDecision SocketAddr.
Proof. solve_decision. Defined.

Definition octets4 (ip : Ipv4Addr) : bytes := [v4_a ip; v4_b ip; v4_c ip; v4_d ip].
Definition segments (ip : Ipv6Addr) : list Z :=
  [v6_0 ip; v6_1 ip; v6_2 ip; v6_3 ip; v6_4 ip; v6_5 ip; v6_6 ip; v6_7 ip].
Definition octets6 (ip : Ipv6Addr) : bytes := flat_map (be_bytes 2) (segments ip).

Definition ipv6_of_segments (l : list Z) : Ipv6Addr :=
  let g i := nth i l 0%Z in
  mkIpv6 (g 0) (g 1) (g 2) (g 3) (g 4) (g 5) (g 6) (g 7).

Definition u16_ok (z : Z) : bool := ((0 <=? z) && (z <? 65536))%Z.
Definition u32_ok (z : Z) : bool := ((0 <=? z) && (z <? 2 ^ 32))%Z.

(** The values the Rust type can hold. *)
Definition SocketAddr_ok (a : SocketAddr) : bool :=
  match a with
  | V4 _ p => u16_ok p
  | V6 ip p f sc => forallb u16_ok (segments ip) && u16_ok p && u32_ok f && u32_ok sc
  end.

Definition read_u8_group (index : nat) (s : bytes) : option (Z * bytes) :=
  match read_separator "."%byte index s with
  | Some s' => read_number 10 (Some 3) false 256 s'
  | None => None
  end.

Definition read_ipv4_addr (s : bytes) : option (Ipv4Addr * bytes) :=
  match read_u8_group 0 s with None => None | Some (a, s) =>
  match read_u8_group 1 s with None => None | Some (b, s) =>
  match read_u8_group 2 s with None => None | Some (c, s) =>
  match read_u8_group 3 s with None => None | Some (d, s) =>
    Some (mkIpv4 (z2b a) (z2b b) (z2b c) (z2b d), s)
  end end end end.

(** [read_groups] of [read_ipv6_addr]: the groups read from index [i] on, and
    whether the last two came from an embedded IPv4 address. *)
Fixpoint read_groups (fuel i limit : nat) (s : bytes) : list Z * bool * bytes :=
  match fuel with
  | O => ([], false, s)
  | S f =>
    let ipv4 := if decide (i < limit - 1)
                then match read_separator ":"%byte i s with
                     | Some s' => read_ipv4_addr s'
                     | None => None
                     end
                else None in
    match ipv4 with
    | Some (ip, s') =>
        ([be_val [v4_a ip; v4_b ip]; be_val [v4_c ip; v4_d ip]], true, s')
    | None =>
      match read_separator ":"%byte i s with
      | None => ([], false, s)
      | Some s' =>
        match read_number 16 (Some 4) true 65536 s' with
        | None => ([], false, s)
        | Some (g, s'') =>
            let '(gs, b, r) := read_groups f (S i) limit s'' in (g :: gs, b, r)
        end
      end
    end
  end.

Definition read_ipv6_addr (s : bytes) : option (Ipv6Addr * bytes) :=
  let '(head, head_ipv4, s1) := read_groups 8 0 8 s in
  if decide (length head = 8) then Some (ipv6_of_segments head, s1)
  else if head_ipv4 then None
  else match read_given_char ":"%byte s1 with None => None | Some s2 =>
       match read_given_char ":"%byte s2 with None => None | Some s3 =>
         let limit := 8 - (length head + 1) in
         let '(tail, _, s4) := read_groups limit 0 limit s3 in
         Some (ipv6_of_segments (head ++ replicate (8 - length tail - length head) 0%Z ++ tail), s4)
       end end.

Definition read_port (s : bytes) : option (Z * bytes) :=
  match read_given_char ":"%byte s with
  | Some s' => read_number 10 None true 65536 s'
  | None => None
  end.

Definition read_scope_id (s : bytes) : option (Z * bytes) :=
  match read_given_char "%"%byte s with
  | Some s' => read_number 10 None true (2 ^ 32) s'
  | None => None
  end.

Definition read_socket_addr_v4 (s : bytes) : option (SocketAddr * bytes) :=
  match read_ipv4_addr s with None => None | Some (ip, s) =>
  match read_port s with None => None | Some (p, s) => Some (V4 ip p, s) end end.

Definition read_socket_addr_v6 (s : bytes) : option (SocketAddr * bytes) :=
  match read_given_char "["%byte s with None => None | Some s =>
  match read_ipv6_addr s with None => None | Some (ip, s) =>
  let '(scope_id, s) := match read_scope_id s with Some q => q | None => (0%Z, s) end in
  match read_given_char "]"%byte s with None => None | Some s =>
  match read_port s with None => None | Some (p, s) => Some (V6 ip p 0 scope_id, s)
  end end end end.

(** [SocketAddr::from_str]: the whole input must be consumed. *)
Definition parse_socket_addr (s : bytes) : option SocketAddr :=
  match (match read_socket_addr_v4 s with Some q => Some q | None => read_socket_addr_v6 s end) with
  | Some (a, []) => Some a
  | _ => None
  end.

(** ** Printing *)

Definition show_ipv4 (ip : Ipv4Addr) : bytes :=
  show_dec (b2z (v4_a ip)) ++ str "." ++ show_dec (b2z (v4_b ip)) ++ str "."
  ++ show_dec (b2z (v4_c ip)) ++ str "." ++ show_dec (b2z (v4_d ip)).

Definition fmt_subslice (l : list Z) : bytes :=
  match l with
  | [] => []
  | h :: t => show_hex h ++ flat_map (fun s => str ":" ++ show_hex s) t
  end.

(** The longest run of zero segments, the first of equal length. *)
Fixpoint zero_span (l : list Z) (i cur_start cur_len best_start best_len : nat) : nat * nat :=
  match l with
  | [] => (best_start, best_len)
  | z :: l' =>
    if (z =? 0)%Z then
      let cs := if decide (cur_len = 0) then i else cur_start in
      let cl := S cur_len in
      if decide (best_len < cl) then zero_span l' (S i) cs cl cs cl
      else zero_span l' (S i) cs cl best_start best_len
    else zero_span l' (S i) 0 0 best_start best_len
  end.

Definition show_ipv6 (ip : Ipv6Addr) : bytes :=
  match segments ip with
  | [0%Z; 0%Z; 0%Z; 0%Z; 0%Z; 65535%Z; ab; cd] =>
      match be_bytes 2 ab ++ be_bytes 2 cd with
      | [a; b; c; d] => str "::ffff:" ++ show_ipv4 (mkIpv4 a b c d)
      | _ => []
      end
  | segs =>
      let '(start, len) := zero_span segs 0 0 0 0 0 in
      if decide (1 < len)
      then fmt_subslice (take start segs) ++ str "::" ++ fmt_subslice (drop (start + len) segs)
      else fmt_subslice segs
  end.

Definition show_socket_addr (a : SocketAddr) : bytes :=
  match a with
  | V4 ip p => show_ipv4 ip ++ str ":" ++ show_dec p
  | V6 ip p _ sc =>
      if (sc =? 0)%Z then str "[" ++ show_ipv6 ip ++ str "]:" ++ show_dec p
      else str "[" ++ show_ipv6 ip ++ str "%" ++ show_dec sc ++ str "]:" ++ show_dec p
  end.

(** Texts of error messages are [string]s: [{:#x}] of a byte. *)
Definition bytes_to_string (l : bytes) : string := String.string_of_list_byte l.
Definition hex_msg (b : byte) : string := bytes_to_string (str "0x" ++ show_hex (b2z b)).

(** [new_error] of src/src/common/mod.rs. *)
Definition new_error (msg : string) : io_error := IoError Other ("Error: " ++ msg).

(** ** Reading back what was printed *)

Lemma to_digit_digit_byte d : (0 <= d < 10)%Z -> to_digit 10 (digit_byte d) = Some d.
Proof.
  intros ?. assert (d = 0 \/ d = 1 \/ d = 2 \/ d = 3 \/ d = 4 \/ d = 5 \/ d = 6 \/ d = 7
    \/ d = 8 \/ d = 9)%Z as Hc by lia.
  repeat destruct Hc as [->|Hc]; [..|subst d]; done.
Qed.

Lemma digit_byte_zero d : (0 < d < 10)%Z -> digit_byte d <> "0"%byte.
Proof.
  intros ? E. apply (f_equal b2z) in E. unfold digit_byte in E.
  rewrite (proj2 (Z.ltb_lt _ _)), b2z_small in E by lia. vm_compute (b2z "0") in E. lia.
Qed.

Lemma read_digits_app radix m lim p r acc cnt a' c' :
  read_digits radix m lim p acc cnt = Some (a', c', []) ->
  read_digits radix m lim (p ++ r) acc cnt = read_digits radix m lim r a' c'.
Proof.
  revert acc cnt. induction p as [|b p IH]; simpl; intros acc cnt Hp; [by simplify_eq|].
  destruct (to_digit radix b); [|done]. destruct m; case_match; try done; by apply IH.
Qed.

(** The limit that [read_digits] checks, on the value and the digit count. *)
Definition within (m : option nat) (lim v : Z) (cnt : nat) : Prop :=
  match m with Some k => cnt <= k | None => (v < lim)%Z end.

Lemma read_digits_show fuel z m lim acc cnt :
  (0 <= acc)%Z -> (0 <= z < 10 ^ Z.of_nat fuel)%Z -> 0 < fuel ->
  let k := length (show_radix 10 fuel z) in
  let v := (acc * 10 ^ Z.of_nat k + z)%Z in
  within m lim v (cnt + k) ->
  read_digits 10 m lim (show_radix 10 fuel z) acc cnt = Some (v, cnt + k, []).
Proof.
  revert z cnt. induction fuel as [|fuel IH]; intros z cnt Ha Hz Hf; [lia|]. simpl.
  destruct (Z.ltb_spec z 10); simpl.
  - rewrite to_digit_digit_byte by lia. rewrite Nat.add_1_r. unfold within.
    intros Hw. replace (acc * 10 ^ 1)%Z with (acc * 10)%Z in * by lia.
    destruct m; [by rewrite decide_False by lia|]. by rewrite (proj2 (Z.leb_gt _ _)) by lia.
  - destruct (decide (fuel = 0)) as [->|]; [change (10 ^ Z.of_nat 1)%Z with 10%Z in Hz; lia|].
    rewrite Nat2Z.inj_succ, Z.pow_succ_r in Hz by lia.
    pose proof (Z.div_mod z 10 ltac:(lia)) as Hdm. pose proof (Z.mod_pos_bound z 10 ltac:(lia)).
    set (q := (z / 10)%Z) in *. set (d := (z mod 10)%Z) in *.
    rewrite length_app. simpl. set (k := length (show_radix 10 fuel q)).
    assert (10 ^ Z.of_nat (k + 1) = 10 * 10 ^ Z.of_nat k)%Z as Hk
      by (rewrite Nat.add_1_r, Nat2Z.inj_succ, Z.pow_succ_r; lia).
    assert (0 < 10 ^ Z.of_nat k)%Z by (apply Z.pow_pos_nonneg; lia).
    intros Hw. erewrite read_digits_app; [|apply IH; [lia|lia|lia|]].
    + simpl. fold k. rewrite to_digit_digit_byte by lia.
      replace ((acc * 10 ^ Z.of_nat k + q) * 10 + d)%Z with (acc * 10 ^ Z.of_nat (k + 1) + z)%Z by lia.
      replace (S (cnt + k)) with (cnt + (k + 1)) by lia.
      destruct m; simpl in Hw; [by rewrite decide_False by lia|].
      by rewrite (proj2 (Z.leb_gt _ _)) by lia.
    + fold k. destruct m; simpl in *; [lia|]. nia.
Qed.

Lemma show_dec_head z :
  (0 < z < 10 ^ 20)%Z -> exists c t, show_dec z = c :: t /\ c <> "0"%byte.
Proof.
  unfold show_dec. change 20%Z with (Z.of_nat 20). generalize 20. intros fuel.
  revert z. induction fuel as [|fuel IH]; intros z Hz; [change (10 ^ Z.of_nat 0)%Z with 1%Z in Hz; lia|].
  simpl. destruct (Z.ltb_spec z 10).
  - eexists _, _. split; [done|]. apply digit_byte_zero; lia.
  - rewrite Nat2Z.inj_succ, Z.pow_succ_r in Hz by lia.
    destruct (IH (z / 10)%Z) as (c & t & -> & Hc).
    + pose proof (Z.div_mod z 10 ltac:(lia)). pose proof (Z.mod_pos_bound z 10 ltac:(lia)). lia.
    + exists c, (t ++ [digit_byte (z mod 10)]). done.
Qed.

Lemma show_dec_0 : show_dec 0 = ["0"%byte].
Proof. done. Qed.

(** A text that does not begin with a digit. *)
Definition stops (r : bytes) : Prop :=
  match r with [] => True | c :: _ => to_digit 10 c = None end.

Lemma read_number_show m az lim z r :
  (0 <= z < 10 ^ 20)%Z -> (z < lim)%Z -> stops r ->
  (forall k, m = Some k -> length (show_dec z) <= k) ->
  read_number 10 m az lim (show_dec z ++ r) = Some (z, r).
Proof.
  intros Hz Hl Hr Hm. unfold read_number.
  assert (read_digits 10 m lim (show_dec z ++ r) 0 0 = Some (z, length (show_dec z), r)) as ->.
  { erewrite read_digits_app; [|apply (read_digits_show 20 z); [lia|done|lia|]].
    - rewrite Z.mul_0_l, !Z.add_0_l. fold (show_dec z).
      destruct r as [|c r]; simpl in *; [done|by rewrite Hr].
    - rewrite Z.mul_0_l, Z.add_0_l. unfold within. destruct m; [exact (Hm _ eq_refl)|exact Hl]. }
  destruct (decide (z = 0)%Z) as [->|Hnz].
  - rewrite show_dec_0. simpl. by rewrite (proj2 (Z.leb_gt _ _)), andb_false_r by lia.
  - destruct (show_dec_head z ltac:(lia)) as (c & t & -> & Hc). simpl.
    rewrite bool_decide_false by done. rewrite andb_false_r. simpl.
    by rewrite (proj2 (Z.leb_gt _ _)) by lia.
Qed.

Lemma show_octet_length b : length (show_dec (b2z b)) <= 3.
Proof. destruct b; vm_compute; lia. Qed.

Lemma read_octet_show b r :
  stops r -> read_number 10 (Some 3) false 256 (show_dec (b2z b) ++ r) = Some (b2z b, r).
Proof.
  intros Hr. pose proof (b2z_range b). apply read_number_show; [lia|lia|done|].
  intros ? [= <-]. apply show_octet_length.
Qed.

Lemma read_ipv4_show ip r : stops r -> read_ipv4_addr (show_ipv4 ip ++ r) = Some (ip, r).
Proof.
  intros Hr. unfold show_ipv4, read_ipv4_addr, read_u8_group, read_separator.
  rewrite <- !app_assoc. simpl decide. cbn [decide].
  rewrite decide_False, read_octet_show by (done || lia).
  cbn [app str String.list_byte_of_string map]. rewrite decide_True by lia. simpl.
  rewrite read_octet_show by done. simpl. rewrite read_octet_show by done. simpl.
  rewrite read_octet_show by done. rewrite !z2b_b2z. by destruct ip.
Qed.

Lemma parse_socket_addr_show_v4 ip p :
  u16_ok p = true -> parse_socket_addr (show_socket_addr (V4 ip p)) = Some (V4 ip p).
Proof.
  intros Hp%andb_prop. destruct Hp as [?%Z.leb_le ?%Z.ltb_lt].
  unfold parse_socket_addr, read_socket_addr_v4. cbn [show_socket_addr].
  rewrite read_ipv4_show by done. unfold read_port. simpl.
  rewrite <- (app_nil_r (show_dec p)), read_number_show by (done || lia). done.
Qed.

Lemma parse_unsigned_show z lim :
  (0 <= z < 10 ^ 20)%Z -> (z < lim)%Z -> parse_unsigned lim (show_dec z) = Some z.
Proof.
  intros Hz Hl. unfold parse_unsigned.
  assert (forall s, show_dec z = "+"%byte :: s -> False) as Hplus.
  { intros s Hs. pose proof (read_number_show None true lim z [] Hz Hl I ltac:(done)) as Hn.
    rewrite app_nil_r, Hs in Hn. done. }
  pose proof (read_digits_show 20 z None lim 0 0 ltac:(lia) Hz ltac:(lia)) as Hd.
  cbv zeta in Hd. fold (show_dec z) in Hd. rewrite Z.mul_0_l, Z.add_0_l in Hd. specialize (Hd Hl).
  destruct (show_dec z) as [|c [|c' s]] eqn:E.
  - exfalso. destruct (decide (z = 0)%Z) as [->|]; [done|].
    destruct (show_dec_head z ltac:(lia)) as (? & ? & Hc & _). congruence.
  - by rewrite Hd.
  - rewrite decide_False by (intros ->; by eapply Hplus). by rewrite Hd.
Qed.
