(* ===== verification/Address.v ===== *)
(** * Addresses (src/src/proxy/address.rs)

    The type [Address], its SOCKS5-style wire format ([write_to_buf],
    [read_from_cursor], [read_from_buf], [read_from_stream],
    [write_to_stream]), its VMess wire format ([write_to_buf_vmess]) and its
    text form ([from_str], [Display]).

    The writers are generic over [BufMut] and the cursor reader over [Buf], as
    in the source.  Messages of errors keep the program's own text; the text a
    library's error adds to it is left out. *)

From S2P Require Import Prelude Io StdText.
From Stdlib Require Import ZArith Lia List Strings.Byte.
From stdpp Require Import base option list strings.

Inductive Address :=
| SocketAddress (a : SocketAddr)
| DomainNameAddress (domain : bytes) (port : Z).

#[export] Instance Address_eq_dec : EqDecision Address.
Proof. solve_decision. Defined.

Definition ADDR_TYPE_IPV4 : Z := 1.
Definition ADDR_TYPE_DOMAIN_NAME : Z := 3.
Definition ADDR_TYPE_IPV6 : Z := 4.

Definition new_dummy_address : Address :=
  SocketAddress (V4 (mkIpv4 x00 x00 x00 x00) 0).

Definition is_socket_addr (a : Address) : bool :=
  match a with SocketAddress _ => true | DomainNameAddress _ _ => false end.

Definition serialized_len (a : Address) : nat :=
  match a with
  | SocketAddress (V4 _ _) => 1 + 4 + 2
  | SocketAddress (V6 _ _ _ _) => 1 + 8 * 2 + 2
  | DomainNameAddress d _ => 1 + 1 + length d + 2
  end.

(** [str::split(':')]: the pieces between the separators. *)
Fixpoint split_on (c : byte) (s : bytes) : list bytes :=
  match s with
  | [] => [[]]
  | b :: s' =>
    let r := split_on c s' in
    if decide (b = c) then [] :: r
    else match r with h :: t => (b :: h) :: t | [] => [[b]] end
  end.

(** [FromStr for Address]: [None] is the [AddressError] whose message is the
    input. *)
Definition from_str (s : bytes) : option Address :=
  match parse_socket_addr s with
  | Some addr => Some (SocketAddress addr)
  | None =>
    match split_on ":"%byte s with
    | dn :: port :: _ =>
        match parse_unsigned 65536 port with
        | Some p => Some (DomainNameAddress dn p)
        | None => None
        end
    | [dn] => Some (DomainNameAddress dn 80)
    | [] => None
    end
  end.

(** [Display for Address]. *)
Definition to_string (a : Address) : bytes :=
  match a with
  | SocketAddress addr => show_socket_addr addr
  | DomainNameAddress d p => d ++ str ":" ++ show_dec p
  end.

Definition get_sock_addr (a : Address) : res SocketAddr :=
  match a with
  | SocketAddress e => Ok e
  | DomainNameAddress _ _ => Panic
  end.

Section Wire.
Context {B : Type}.

Definition write_to_buf `{BufMut B} (a : Address) (buf : B) : B :=
  match a with
  | SocketAddress (V4 ip p) =>
    let buf := put_u8 buf ADDR_TYPE_IPV4 in
    let buf := put_slice buf (octets4 ip) in
    put_u16 buf p
  | SocketAddress (V6 ip p _ _) =>
    let buf := put_u8 buf ADDR_TYPE_IPV6 in
    let buf := fold_left put_u16 (segments ip) buf in
    put_u16 buf p
  | DomainNameAddress d p =>
    let buf := put_u8 buf ADDR_TYPE_DOMAIN_NAME in
    let buf := put_u8 buf (Z.of_nat (length d)) in
    let buf := put_slice buf d in
    put_u16 buf p
  end.

Definition write_to_buf_vmess `{BufMut B} (a : Address) (buf : B) : B :=
  match a with
  | SocketAddress (V4 ip p) =>
    let buf := put_u16 buf p in
    let buf := put_u8 buf 1 in
    put_slice buf (octets4 ip)
  | SocketAddress (V6 ip p _ _) =>
    let buf := put_u16 buf p in
    let buf := put_u8 buf 3 in
    fold_left put_u16 (segments ip) buf
  | DomainNameAddress d p =>
    let buf := put_u16 buf p in
    let buf := put_u8 buf 2 in
    let buf := put_u8 buf (Z.of_nat (length d)) in
    put_slice buf d
  end.

Definition read_from_cursor `{Buf B} (cur : B) : res (Address * B) :=
  if decide (remaining cur < 1 + 1) then Err (new_error "invalid address buffer") else
    '(addr_type, cur) ← get_u8 cur;
    if decide (addr_type = ADDR_TYPE_IPV4) then
      if decide (remaining cur < 4 + 2) then Err (new_error "IPv4 address too short") else
        '(a, cur) ← get_u8 cur; '(b, cur) ← get_u8 cur;
        '(c, cur) ← get_u8 cur; '(d, cur) ← get_u8 cur;
        '(port, cur) ← get_u16 cur;
        Ok (SocketAddress (V4 (mkIpv4 (z2b a) (z2b b) (z2b c) (z2b d)) port), cur)
    else if decide (addr_type = ADDR_TYPE_DOMAIN_NAME) then
      '(domain_len, cur) ← get_u8 cur;
      if decide (remaining cur < Z.to_nat domain_len) then Err (new_error "Domain name too short") else
        '(domain_name, cur) ← copy_to_slice (Z.to_nat domain_len) cur;
        '(port, cur) ← get_u16 cur;
        if utf8_valid domain_name then Ok (DomainNameAddress domain_name port, cur)
        else Err (new_error "invalid utf8 domain name ")
    else if decide (addr_type = ADDR_TYPE_IPV6) then
      if decide (remaining cur < 8 * 2 + 2) then Err (new_error "IPv4 address too short") else
        '(s0, cur) ← get_u16 cur; '(s1, cur) ← get_u16 cur;
        '(s2, cur) ← get_u16 cur; '(s3, cur) ← get_u16 cur;
        '(s4, cur) ← get_u16 cur; '(s5, cur) ← get_u16 cur;
        '(s6, cur) ← get_u16 cur; '(s7, cur) ← get_u16 cur;
        '(port, cur) ← get_u16 cur;
        Ok (SocketAddress (V6 (mkIpv6 s0 s1 s2 s3 s4 s5 s6 s7) port 0 0), cur)
    else Err (new_error ("unknown address type " ++ bytes_to_string (show_dec addr_type))).
End Wire.

Definition read_from_buf (buf : bytes) : res Address :=
  '(a, _) ← read_from_cursor (mkCursor buf 0); Ok a.

(** Asynchronous reading and writing. *)
Definition read_from_stream : IO Address :=
  addr_type_buf ← read_exact 1;
  let addr_type := be_val addr_type_buf in
  if decide (addr_type = ADDR_TYPE_IPV4) then
    buf ← read_exact 6;
    '(addr, _) ← io_lift (
      '(a, cur) ← get_u8 (mkCursor buf 0); '(b, cur) ← get_u8 cur;
      '(c, cur) ← get_u8 cur; '(d, cur) ← get_u8 cur;
      '(port, cur) ← get_u16 cur;
      Ok (V4 (mkIpv4 (z2b a) (z2b b) (z2b c) (z2b d)) port, cur));
    mret (SocketAddress addr)
  else if decide (addr_type = ADDR_TYPE_IPV6) then
    buf ← read_exact 18;
    '(addr, _) ← io_lift (
      '(s0, cur) ← get_u16 (mkCursor buf 0); '(s1, cur) ← get_u16 cur;
      '(s2, cur) ← get_u16 cur; '(s3, cur) ← get_u16 cur;
      '(s4, cur) ← get_u16 cur; '(s5, cur) ← get_u16 cur;
      '(s6, cur) ← get_u16 cur; '(s7, cur) ← get_u16 cur;
      '(port, cur) ← get_u16 cur;
      Ok (V6 (mkIpv6 s0 s1 s2 s3 s4 s5 s6 s7) port 0 0, cur));
    mret (SocketAddress addr)
  else if decide (addr_type = ADDR_TYPE_DOMAIN_NAME) then
    length_buf ← read_exact 1;
    let len := Z.to_nat (be_val length_buf) in
    addr_buf ← read_exact (len + 2);
    let domain_buf := take len addr_buf in
    if utf8_valid domain_buf then
      '(port, _) ← io_lift (get_u16 (take 2 (drop len addr_buf)));
      mret (DomainNameAddress domain_buf port)
    else io_err (IoError Other "invalid address encoding")
  else io_err (IoError Other ("not supported address type " ++ hex_msg (z2b addr_type))).

Definition write_to_stream (a : Address) : IO unit :=
  write_all (write_to_buf a ([] : bytes)).

(** ** The wire formats as byte strings *)

Definition encode (a : Address) : bytes :=
  match a with
  | SocketAddress (V4 ip p) => z2b 1 :: octets4 ip ++ be_bytes 2 p
  | SocketAddress (V6 ip p _ _) => z2b 4 :: octets6 ip ++ be_bytes 2 p
  | DomainNameAddress d p => z2b 3 :: z2b (Z.of_nat (length d)) :: d ++ be_bytes 2 p
  end.

Definition encode_vmess (a : Address) : bytes :=
  match a with
  | SocketAddress (V4 ip p) => be_bytes 2 p ++ z2b 1 :: octets4 ip
  | SocketAddress (V6 ip p _ _) => be_bytes 2 p ++ z2b 3 :: octets6 ip
  | DomainNameAddress d p => be_bytes 2 p ++ z2b 2 :: z2b (Z.of_nat (length d)) :: d
  end.

(** The values of the Rust type whose domain name fits the length byte. *)
Definition Address_ok (a : Address) : bool :=
  match a with
  | SocketAddress s => SocketAddr_ok s
  | DomainNameAddress d p => utf8_valid d && u16_ok p && (length d <? 256)
  end.

(** What the wire keeps of an address: not the IPv6 flow label and scope. *)
Definition wire_norm (a : Address) : Address :=
  match a with
  | SocketAddress (V6 ip p _ _) => SocketAddress (V6 ip p 0 0)
  | _ => a
  end.

(** ** Lemmas *)

Lemma fold_put_u16 {B} `{BufMut B} l (b : B) :
  buf_data (fold_left put_u16 l b) = buf_data b ++ flat_map (be_bytes 2) l.
Proof.
  revert b. induction l as [|z l IH]; intros b; simpl; [by rewrite app_nil_r|].
  by rewrite IH, put_u16_data, <- app_assoc.
Qed.

Lemma write_to_buf_data {B} `{BufMut B} a (b : B) :
  buf_data (write_to_buf a b) = buf_data b ++ encode a.
Proof.
  destruct a as [[ip p|ip p f sc]|d p]; simpl; autorewrite with buf_rw;
    rewrite ?fold_put_u16; autorewrite with buf_rw; by rewrite <- !app_assoc.
Qed.

Lemma write_to_buf_list a (b : bytes) : write_to_buf a b = b ++ encode a.
Proof. exact (@write_to_buf_data bytes list_BufMut a b). Qed.

Lemma write_to_buf_vmess_data {B} `{BufMut B} a (b : B) :
  buf_data (write_to_buf_vmess a b) = buf_data b ++ encode_vmess a.
Proof.
  destruct a as [[ip p|ip p f sc]|d p]; simpl; rewrite ?fold_put_u16; autorewrite with buf_rw;
    by rewrite <- !app_assoc.
Qed.

Lemma length_octets6 ip : length (octets6 ip) = 16.
Proof. done. Qed.

Lemma length_encode a : length (encode a) = serialized_len a.
Proof.
  destruct a as [[ip p|ip p f sc]|d p]; simpl; autorewrite with buf_rw; simpl; lia.
Qed.

Lemma u16_ok_range z : u16_ok z = true <-> (0 <= z < 65536)%Z.
Proof. unfold u16_ok. rewrite andb_true_iff, Z.leb_le, Z.ltb_lt. done. Qed.

Lemma be_val_u16 z : u16_ok z = true -> be_val (be_bytes 2 z) = z.
Proof. intros ?%u16_ok_range. by apply be_val_be_bytes_small. Qed.

Lemma SocketAddr_ok_v6 ip p f sc :
  SocketAddr_ok (V6 ip p f sc) = true ->
  Forall (fun z => u16_ok z = true) (segments ip) /\ u16_ok p = true.
Proof.
  unfold SocketAddr_ok. rewrite !andb_true_iff. intros [[[Hs ?] _] _]. split; [|done].
  apply List.Forall_forall. by apply List.forallb_forall.
Qed.

Lemma Address_ok_domain d p :
  Address_ok (DomainNameAddress d p) = true ->
  utf8_valid d = true /\ u16_ok p = true /\ length d < 256.
Proof. unfold Address_ok. rewrite !andb_true_iff, Nat.ltb_lt. tauto. Qed.

Section WireLemmas.
Context {B : Type} `{Buf B}.
Implicit Type cur : B.

Lemma remaining_eq cur p : buf_rest cur = p -> remaining cur = length p.
Proof. unfold remaining. by intros ->. Qed.

Lemma read_from_cursor_encode a cur r :
  Address_ok a = true -> buf_rest cur = encode a ++ r ->
  exists cur', read_from_cursor cur = Ok (wire_norm a, cur') /\ buf_rest cur' = r.
Proof.
  intros Ha Hr. unfold read_from_cursor. rewrite (remaining_eq _ _ Hr), length_app, length_encode.
  rewrite decide_False by (destruct a as [[]|]; simpl; lia). unfold get_u8, get_u16.
  destruct a as [[[a b c d] p|ip p f sc]|d p]; cbn [encode] in Hr.
  - simpl in Ha. change (buf_rest cur = [z2b 1] ++ [a] ++ [b] ++ [c] ++ [d] ++ be_bytes 2 p ++ r) in Hr.
    get_step Hr 1. rewrite (remaining_eq _ _ Hr), !length_app, length_be_bytes.
    rewrite decide_True, decide_False by (done || simpl; lia).
    do 4 get_step Hr 1. get_step Hr 2. rewrite be_val_u16, !be_val_byte, !z2b_b2z by done. eauto.
  - apply SocketAddr_ok_v6 in Ha as [Hs Hp]. destruct ip as [s0 s1 s2 s3 s4 s5 s6 s7].
    cbn [segments v6_0 v6_1 v6_2 v6_3 v6_4 v6_5 v6_6 v6_7] in Hs.
    repeat (apply Forall_cons in Hs as [? Hs]).
    change (buf_rest cur = [z2b 4] ++ ((be_bytes 2 s0 ++ be_bytes 2 s1 ++ be_bytes 2 s2 ++
      be_bytes 2 s3 ++ be_bytes 2 s4 ++ be_bytes 2 s5 ++ be_bytes 2 s6 ++ be_bytes 2 s7 ++ [])
      ++ be_bytes 2 p) ++ r) in Hr. rewrite <- !app_assoc in Hr.
    get_step Hr 1. rewrite (remaining_eq _ _ Hr), !length_app, !length_be_bytes.
    rewrite decide_False, decide_False, decide_True, decide_False by (done || simpl; lia).
    do 8 get_step Hr 2. rewrite app_nil_l in Hr. get_step Hr 2. rewrite !be_val_u16 by done. eauto.
  - apply Address_ok_domain in Ha as (Hu & Hp & Hd).
    change (buf_rest cur = [z2b 3] ++ [z2b (Z.of_nat (length d))] ++ (d ++ be_bytes 2 p) ++ r) in Hr.
    rewrite <- app_assoc in Hr. get_step Hr 1. rewrite decide_False, decide_True by done.
    get_step Hr 1. rewrite be_val_byte, b2z_small, Nat2Z.id by lia.
    rewrite (remaining_eq _ _ Hr), length_app, decide_False by lia.
    destruct (copy_to_slice_ok _ _ _ _ Hr eq_refl) as [-> Hr']. simpl.
    get_step Hr' 2. rewrite Hu, be_val_u16 by done. eauto.
Qed.

(** What a successful read consumed is the encoding of what it returned. *)
Lemma read_from_cursor_inv cur a cur' :
  read_from_cursor cur = Ok (a, cur') ->
  buf_rest cur = encode a ++ buf_rest cur' /\ Address_ok a = true /\ wire_norm a = a.
Proof.
  unfold read_from_cursor, get_u8, get_u16. case_decide; [done|]. intros Hr. get_inv Hr; [|done].
  case_decide; [|case_decide; [|case_decide; [|done]]].
  - case_decide; [done|]. do 5 (get_inv Hr; [|done]). simplify_eq.
    repeat match goal with E : get_be _ _ = _ |- _ => apply get_be_inv in E as [? ?] end.
    repeat match goal with E : buf_rest ?c = _ |- context [buf_rest ?c] => rewrite E end.
    rewrite !be_bytes_1. simpl. rewrite u16_ok_range. done.
  - get_inv Hr; [|done]. case_decide; [done|].
    destruct (copy_to_slice _ _) as [[d c]|?|] eqn:Ec; simpl in Hr; [|done..].
    get_inv Hr; [|done]. destruct (utf8_valid d) eqn:Hu; [|done]. simplify_eq.
    repeat match goal with E : get_be _ _ = _ |- _ => apply get_be_inv in E as [? ?] end.
    apply copy_to_slice_inv in Ec as [? Hd].
    repeat match goal with E : buf_rest ?c = _ |- context [buf_rest ?c] => rewrite E end.
    cbn [Address_ok]. rewrite !be_bytes_1. simpl.
    rewrite !andb_true_iff, Nat.ltb_lt, u16_ok_range, Hu, Hd, Z2Nat.id, <- app_assoc by lia.
    simpl. split_and!; try done; simpl in *; lia.
  - case_decide; [done|]. do 9 (get_inv Hr; [|done]). simplify_eq.
    repeat match goal with E : get_be _ _ = _ |- _ => apply get_be_inv in E as [? ?] end.
    repeat match goal with E : buf_rest ?c = _ |- context [buf_rest ?c] => rewrite E end.
    rewrite !be_bytes_1. unfold octets6. simpl. split; [done|].
    rewrite !andb_true_iff, !u16_ok_range. simpl in *. split_and!; try done; lia.
Qed.

(** The reader panics in one case only: a domain name whose port is cut. *)
Definition port_cut (l : bytes) : Prop :=
  exists n d t, l = z2b 3 :: n :: d ++ t /\ length d = Z.to_nat (b2z n) /\ length t < 2.

Lemma read_from_cursor_panic cur : read_from_cursor cur = Panic -> port_cut (buf_rest cur).
Proof.
  unfold read_from_cursor, get_u8, get_u16. case_decide as Hrem; [done|]. get_go.
  destruct (buf_rest cur) as [|ty [|n l]] eqn:Hl;
    [unfold remaining in Hrem; rewrite Hl in Hrem; simpl in Hrem; lia..|].
  cbn [take]. rewrite be_val_byte, !remaining_advance by lia.
  case_decide; [case_decide; [done|]; by do 5 get_go|].
  case_decide as Hty; [|case_decide; [case_decide; [done|]; by do 9 get_go|done]].
  get_go. rewrite buf_advance_rest, Hl by (unfold remaining in Hrem; lia).
  change (take 1 (drop 1 (ty :: n :: l))) with [n]. rewrite be_val_byte, !remaining_advance by rem_lia.
  case_decide as Hn; [done|]. get_go.
  destruct (get_be 2 _) as [[v c]|e|] eqn:Eg; simpl; [by case_match|done|]. intros _.
  exists n, (take (Z.to_nat (b2z n)) l), (drop (Z.to_nat (b2z n)) l).
  assert (remaining cur = S (S (length l))) as Hrc by (unfold remaining; by rewrite Hl).
  rewrite take_drop, length_take, length_drop. split_and!; [|lia|].
  - by rewrite <- (z2b_b2z ty), Hty.
  - unfold get_be in Eg. destruct (decide _) as [?|Hd] in Eg; [done|].
    rewrite !remaining_advance in Hd by rem_lia. lia.
Qed.

Lemma read_from_cursor_port_cut cur : port_cut (buf_rest cur) -> read_from_cursor cur = Panic.
Proof.
  intros (n & d & t & Hr & Hd & Ht). unfold read_from_cursor, get_u8, get_u16.
  pose proof (remaining_eq _ _ Hr) as Hrem. simpl in Hrem. rewrite length_app in Hrem.
  rewrite decide_False by lia.
  change (buf_rest cur = [z2b 3] ++ [n] ++ d ++ t) in Hr. get_step Hr 1.
  rewrite decide_False, decide_True by done. get_step Hr 1. rewrite be_val_byte.
  rewrite (remaining_eq _ _ Hr), length_app, decide_False by lia.
  destruct (copy_to_slice_ok _ _ _ _ Hr Hd) as [-> Hr']. simpl.
  rewrite get_be_short; [done|]. unfold remaining. by rewrite Hr'.
Qed.
End WireLemmas.

(** A read moves the position of a [Cursor], within its bytes. *)
Lemma cursor_get_be n (cur : Cursor) v cur' :
  0 < n -> get_be n cur = Ok (v, cur') ->
  cur_inner cur' = cur_inner cur /\ cur_position cur' <= length (cur_inner cur).
Proof.
  unfold get_be, remaining. intros Hn. case_decide as Hr; [|done]. intros [= _ <-]. simpl in *.
  rewrite length_drop in Hr. split; [done|lia].
Qed.

Lemma cursor_copy_to_slice n (cur : Cursor) d cur' :
  copy_to_slice n cur = Ok (d, cur') -> cur_inner cur' = cur_inner cur.
Proof. unfold copy_to_slice. case_decide; [|done]. by intros [= _ <-]. Qed.

Lemma read_from_cursor_position (cur : Cursor) a cur' :
  read_from_cursor cur = Ok (a, cur') ->
  cur_inner cur' = cur_inner cur /\ cur_position cur' <= length (cur_inner cur).
Proof.
  unfold read_from_cursor, get_u8, get_u16. case_decide; [done|]. intros Hr. get_inv Hr; [|done].
  case_decide; [|case_decide; [|case_decide; [|done]]].
  - case_decide; [done|]. do 5 (get_inv Hr; [|done]). simplify_eq.
    repeat match goal with E : get_be _ _ = _ |- _ => apply cursor_get_be in E as [? ?]; [|lia] end.
    split; congruence.
  - get_inv Hr; [|done]. case_decide; [done|].
    destruct (copy_to_slice _ _) as [[d c]|?|] eqn:Ec; simpl in Hr; [|done..].
    get_inv Hr; [|done]. destruct (utf8_valid d); [|done]. simplify_eq.
    repeat match goal with E : get_be _ _ = _ |- _ => apply cursor_get_be in E as [? ?]; [|lia] end.
    apply cursor_copy_to_slice in Ec. split; congruence.
  - case_decide; [done|]. do 9 (get_inv Hr; [|done]). simplify_eq.
    repeat match goal with E : get_be _ _ = _ |- _ => apply cursor_get_be in E as [? ?]; [|lia] end.
    split; congruence.
Qed.

Lemma encode_head a : exists t, encode a = z2b
  (match a with SocketAddress (V4 _ _) => 1 | SocketAddress (V6 _ _ _ _) => 4 | _ => 3 end) :: t.
Proof. destruct a as [[]|]; simpl; eauto. Qed.

(** The stream reader agrees with the cursor reader, on any fragmentation. *)
Lemma read_from_stream_encode a s r :
  Address_ok a = true -> rd_bytes (st_rd s) = encode a ++ r ->
  exists rd, read_from_stream s = (Ok (wire_norm a), mkStream rd (st_wr s)) /\ rd_bytes rd = r.
Proof.
  intros Ha Hr. destruct a as [[ip p|ip p f sc]|d p]; cbn [encode] in Hr.
  - change (rd_bytes (st_rd s) = [z2b 1] ++ (octets4 ip ++ be_bytes 2 p) ++ r) in Hr.
    destruct (read_exact_ok 1 s _ _ Hr eq_refl) as (rd1 & E1 & Hr1).
    destruct (read_exact_ok 6 (mkStream rd1 (st_wr s)) _ _ Hr1 eq_refl) as (rd2 & E2 & Hr2).
    unfold read_from_stream, mbind, IO_bind. rewrite E1. cbv beta iota zeta.
    rewrite decide_True by done. rewrite E2. cbv beta iota.
    exists rd2. split; [|done]. destruct ip as [a b c d]. unfold io_lift, get_u8, get_u16.
    match goal with |- context [mkCursor ?l 0] =>
      assert (buf_rest (mkCursor l 0) = [a] ++ [b] ++ [c] ++ [d] ++ be_bytes 2 p ++ [])
        as Hc by reflexivity end.
    do 4 get_step Hc 1. get_step Hc 2. simpl in Ha. by rewrite be_val_u16, !be_val_byte, !z2b_b2z.
  - change (rd_bytes (st_rd s) = [z2b 4] ++ (octets6 ip ++ be_bytes 2 p) ++ r) in Hr.
    destruct (read_exact_ok 1 s _ _ Hr eq_refl) as (rd1 & E1 & Hr1).
    destruct (read_exact_ok 18 (mkStream rd1 (st_wr s)) _ _ Hr1 eq_refl) as (rd2 & E2 & Hr2).
    unfold read_from_stream, mbind, IO_bind. rewrite E1. cbv beta iota zeta.
    rewrite decide_False, decide_True by done. rewrite E2. cbv beta iota.
    exists rd2. split; [|done]. unfold io_lift, get_u16.
    apply SocketAddr_ok_v6 in Ha as [Hs Hp]. destruct ip as [s0 s1 s2 s3 s4 s5 s6 s7].
    cbn [segments v6_0 v6_1 v6_2 v6_3 v6_4 v6_5 v6_6 v6_7] in Hs.
    repeat (apply Forall_cons in Hs as [? Hs]).
    match goal with |- context [mkCursor ?l 0] =>
      assert (buf_rest (mkCursor l 0) = be_bytes 2 s0 ++ be_bytes 2 s1 ++ be_bytes 2 s2 ++
        be_bytes 2 s3 ++ be_bytes 2 s4 ++ be_bytes 2 s5 ++ be_bytes 2 s6 ++ be_bytes 2 s7 ++
        be_bytes 2 p ++ []) as Hc by reflexivity end.
    do 9 get_step Hc 2. by rewrite !be_val_u16.
  - apply Address_ok_domain in Ha as (Hu & Hp & Hd).
    change (rd_bytes (st_rd s) = [z2b 3] ++ [z2b (Z.of_nat (length d))] ++ (d ++ be_bytes 2 p) ++ r) in Hr.
    destruct (read_exact_ok 1 s _ _ Hr eq_refl) as (rd1 & E1 & Hr1).
    destruct (read_exact_ok 1 (mkStream rd1 (st_wr s)) _ _ Hr1 eq_refl) as (rd2 & E2 & Hr2).
    destruct (read_exact_ok (length d + 2) (mkStream rd2 (st_wr s)) _ _ Hr2) as (rd3 & E3 & Hr3);
      [by rewrite length_app|].
    unfold read_from_stream, mbind, IO_bind. rewrite E1. cbv beta iota zeta.
    rewrite !decide_False, decide_True by done. rewrite E2. cbv beta iota zeta.
    cbn [st_wr]. rewrite be_val_byte, b2z_small, Nat2Z.id, E3 by lia. cbv beta iota zeta.
    exists rd3. split; [|done]. rewrite take_app_length, drop_app_length, Hu.
    unfold io_lift, get_u16.
    assert (buf_rest (take 2 (be_bytes 2 p)) = be_bytes 2 p ++ []) as Hc by reflexivity.
    get_step Hc 2. by rewrite be_val_u16.
Qed.

(** ** Text *)

Lemma split_on_app c d s :
  c ∉ d -> split_on c (d ++ c :: s) = d :: split_on c s.
Proof.
  induction d as [|b d IH]; intros Hd; simpl.
  - by rewrite decide_True.
  - apply not_elem_of_cons in Hd as [? ?]. rewrite IH by done. by rewrite decide_False.
Qed.

Lemma split_on_none c d : c ∉ d -> split_on c d = [d].
Proof.
  induction d as [|b d IH]; intros Hd; simpl; [done|].
  apply not_elem_of_cons in Hd as [? ?]. rewrite IH by done. by rewrite decide_False.
Qed.

Lemma colon_not_digits radix fuel z :
  (0 < radix <= 16)%Z -> (0 <= z)%Z -> ":"%byte ∉ show_radix radix fuel z.
Proof.
  intros Hr. assert (forall d, (0 <= d < radix)%Z -> digit_byte d <> ":"%byte) as Hd.
  { intros d Hd E. apply (f_equal b2z) in E. unfold digit_byte in E.
    change (b2z ":") with 58%Z in E.
    destruct (Z.ltb_spec d 10); rewrite b2z_small in E; lia. }
  revert z. induction fuel as [|fuel IH]; intros z Hz; simpl; [by apply not_elem_of_nil|].
  destruct (Z.ltb_spec z radix).
  - rewrite list_elem_of_singleton. intros E. by eapply Hd.
  - rewrite elem_of_app, list_elem_of_singleton. intros [E|E].
    + revert E. apply IH. apply Z.div_pos; lia.
    + eapply Hd; [|done]. apply Z.mod_pos_bound. lia.
Qed.

(** ** Properties *)

(** C5: the SOCKS5-style wire format round-trips.  For every address the wire
    can carry, [write_to_buf] appends exactly [serialized_len] bytes to any
    [BufMut], and both readers, [read_from_cursor] over any [Buf] and
    [read_from_stream] over any fragmentation of a stream, give the address
    back and stop at the byte after it.  Only the IPv6 flow label and scope id
    are lost. *)
Theorem address_wire_roundtrip {W R} `{BufMut W} `{Buf R} (a : Address) (w : W) (cur : R) (s : Stream) r :
  Address_ok a = true ->
  (exists e, buf_data (write_to_buf a w) = buf_data w ++ e /\ length e = serialized_len a
    /\ (buf_rest cur = e ++ r ->
        exists cur', read_from_cursor cur = Ok (wire_norm a, cur') /\ buf_rest cur' = r)
    /\ (rd_bytes (st_rd s) = e ++ r ->
        exists rd, read_from_stream s = (Ok (wire_norm a), mkStream rd (st_wr s)) /\ rd_bytes rd = r)).
Proof.
  intros Ha. exists (encode a). rewrite write_to_buf_data, length_encode. split_and!; [done..| |].
  - by apply read_from_cursor_encode.
  - by apply read_from_stream_encode.
Qed.

(** The cursor reader is exact.  A successful read consumed precisely the
    encoding of a well-formed address, which is the one it returned (so two
    different records never decode to the same address); and the reader
    panics exactly when the input holds a whole domain name but fewer than two
    bytes of port, because that branch checks the name's length and not the
    port's. *)
Theorem read_from_cursor_exact {R} `{Buf R} (cur : R) :
  (forall a cur', read_from_cursor cur = Ok (a, cur') ->
     buf_rest cur = write_to_buf a [] ++ buf_rest cur' /\ Address_ok a = true /\ wire_norm a = a)
  /\ (read_from_cursor cur = Panic <->
       exists n d t, buf_rest cur = z2b 3 :: n :: d ++ t /\ length d = Z.to_nat (b2z n) /\ length t < 2).
Proof.
  split.
  - intros a cur' Hr. rewrite write_to_buf_list. by apply read_from_cursor_inv.
  - split; [apply read_from_cursor_panic|apply read_from_cursor_port_cut].
Qed.

(** Printing and parsing.  [from_str] inverts [Display] on IPv4 socket
    addresses and on every domain name without a colon whose printed form is
    not itself the text of a socket address; a name without a port gets
    port 80. *)
Theorem address_text_roundtrip :
  (forall ip p, u16_ok p = true ->
     from_str (to_string (SocketAddress (V4 ip p))) = Some (SocketAddress (V4 ip p)))
  /\ (forall d p, u16_ok p = true -> ":"%byte ∉ d ->
        parse_socket_addr (to_string (DomainNameAddress d p)) = None ->
        from_str (to_string (DomainNameAddress d p)) = Some (DomainNameAddress d p))
  /\ (forall d, ":"%byte ∉ d -> parse_socket_addr d = None ->
        from_str d = Some (DomainNameAddress d 80)).
Proof.
  split_and!.
  - intros ip p Hp. unfold from_str. cbn [to_string]. by rewrite parse_socket_addr_show_v4.
  - intros d p Hp%u16_ok_range Hd Hn. unfold from_str. rewrite Hn. cbn [to_string].
    change (d ++ str ":" ++ show_dec p) with (d ++ ":"%byte :: show_dec p).
    rewrite split_on_app, split_on_none, parse_unsigned_show by
      (done || lia || (apply colon_not_digits; lia)). done.
  - intros d Hd Hn. unfold from_str. by rewrite Hn, split_on_none.
Qed.

Lemma address_wire_roundtrip_witness :
  let a := DomainNameAddress (str "example.org") 443 in
  Address_ok a = true /\
  exists e, buf_data (write_to_buf a ([] : bytes)) = [] ++ e /\ length e = 15.
Proof.
  split; [reflexivity|].
  destruct (address_wire_roundtrip (DomainNameAddress (str "example.org") 443) ([] : bytes)
    ([] : bytes) (mkStream [] (mkWriter [] [] [] 0 [] 0)) [] eq_refl) as (e & He & Hl & _).
  exists e. split; [exact He|exact Hl].
Defined.
