(* ===== verification/IpTrie.v ===== *)
(** * CIDR matching (src/src/config/ip_trie.rs)

    The binary tries [PatriciaTrie4] and [PatriciaTrie6] that the macro
    [impl_trie!] generates, on arrays of child pointers, and [GeoIPMatcher].

    Section [Trie] is the macro body, generic in the width [W] of [$ip_type];
    [PatriciaTrie4_*] and [PatriciaTrie6_*] are its two instances.  Pointers and
    keys are integers of that width, [nullptr] is its largest value; [usize]
    has 64 bits.  A loop runs on fuel; running out of fuel gives [Panic], and
    the theorems show that the loops return, which excludes it.

    The specification is [match_spec]: the longest matching prefix of a list
    of rules, the later rule on equal length. *)

From S2P Require Import Prelude.
From Stdlib Require Import ZArith Lia List Strings.Byte.
From stdpp Require Import base option list.

Definition u32_max : Z := 2 ^ 32 - 1.

Record PatriciaTrie := mkTrie {
  tleft : list Z;
  tright : list Z;
  tvalue : list Z;
  tsize : nat
}.

(** [v[i]] and [v[i] = x] on a [Vec]: out of bounds panics. *)
Definition vec_get (l : list Z) (i : Z) : res Z :=
  match l !! Z.to_nat i with Some x => Ok x | None => Panic end.
Definition vec_set (l : list Z) (i x : Z) : res (list Z) :=
  if decide (Z.to_nat i < length l) then Ok (<[Z.to_nat i := x]> l) else Panic.

(** [a << s] and [a >> s] on a [w]-bit integer: a shift by [w] or more panics
    under overflow checks and is taken modulo [w] otherwise. *)
Definition shift_amount (oc : bool) (w s : Z) : res Z :=
  if decide (0 <= s < w)%Z then Ok s else if oc then Panic else Ok (s mod w)%Z.

Section Trie.
Context (W : nat).       (* bits of $ip_type *)

Definition nullptr : Z := 2 ^ Z.of_nat W - 1.

Definition Trie_new : PatriciaTrie := mkTrie [nullptr] [nullptr] [u32_max] 1.

(** [((1 << (bit - prefix as usize)) - 1) ^ nullptr()]. *)
Definition put_mask (oc : bool) (prefix : Z) : res Z :=
  s ← chk oc 64 (Z.of_nat W - prefix);
  s ← shift_amount oc (Z.of_nat W) s;
  Ok (Z.lxor (2 ^ s - 1) nullptr).

Definition child (t : PatriciaTrie) (key bit node : Z) : res Z :=
  if decide (Z.land key bit = 0)%Z then vec_get (tleft t) node else vec_get (tright t) node.

(** First loop of [put]: down the existing nodes. *)
Fixpoint put_descend (fuel : nat) (t : PatriciaTrie) (key mask bit node next : Z)
  : res (Z * Z * Z) :=
  if decide (Z.land bit mask = 0)%Z then Ok (bit, node, next)
  else match fuel with
  | O => Panic
  | S f =>
    next ← child t key bit node;
    if decide (next = nullptr) then Ok (bit, node, next)
    else put_descend f t key mask (Z.shiftr bit 1) next next
  end.

(** Second loop of [put]: append the missing nodes. *)
Fixpoint put_extend (fuel : nat) (t : PatriciaTrie) (key mask bit node : Z)
  : res (PatriciaTrie * Z) :=
  if decide (Z.land bit mask = 0)%Z then Ok (t, node)
  else match fuel with
  | O => Panic
  | S f =>
    let next := wrap (Z.of_nat W) (Z.of_nat (tsize t)) in
    let v := tvalue t ++ [u32_max] in
    let l := tleft t ++ [nullptr] in
    let r := tright t ++ [nullptr] in
    '(l, r) ← (if decide (Z.land key bit = 0)%Z
      then l' ← vec_set l node next; Ok (l', r)
      else r' ← vec_set r node next; Ok (l, r'));
    put_extend f (mkTrie l r v (S (tsize t))) key mask (Z.shiftr bit 1) next
  end.

Definition set_value (t : PatriciaTrie) (node value : Z) : res PatriciaTrie :=
  v ← vec_set (tvalue t) node value;
  Ok (mkTrie (tleft t) (tright t) v (tsize t)).

Definition Trie_put (oc : bool) (t : PatriciaTrie) (key prefix value : Z) : res PatriciaTrie :=
  mask ← put_mask oc prefix;
  '(bit, node, next) ← put_descend W t key mask (2 ^ (Z.of_nat W - 1)) 0 0;
  if decide (next <> nullptr) then set_value t node value
  else
    '(t, node) ← put_extend W t key mask bit node;
    set_value t node value.

(** The loop of [get]; every node it visits is further in the arrays, so
their length is enough fuel. *)
Fixpoint get_loop (fuel : nat) (t : PatriciaTrie) (key bit node value : Z) : res Z :=
  if decide (node = nullptr) then Ok value
  else match fuel with
  | O => Panic
  | S f =>
    v ← vec_get (tvalue t) node;
    let value := if decide (v <> u32_max) then v else value in
    node ← child t key bit node;
    get_loop f t key (Z.shiftr bit 1) node value
  end.

(** [get] starts from bit [size_of::<u32>() * 8 - 1] whatever the width. *)
Definition Trie_get (t : PatriciaTrie) (key : Z) : res (option Z) :=
  let bit := (2 ^ (32 - 1))%Z in
  value ← get_loop (length (tvalue t)) t key bit 0 u32_max;
  Ok (if decide (value = u32_max) then None else Some value).
End Trie.

Definition PatriciaTrie4_new := Trie_new 32.
Definition PatriciaTrie4_put := Trie_put 32.
Definition PatriciaTrie4_get := Trie_get 32.
Definition PatriciaTrie6_new := Trie_new 128.
Definition PatriciaTrie6_put := Trie_put 128.
Definition PatriciaTrie6_get := Trie_get 128.

(** [ip >> (w - prefix) << (w - prefix)]; [prefix] and the difference are
    [u8]. *)
Definition normalize_w (oc : bool) (w ip prefix : Z) : res Z :=
  d ← chk oc 8 (w - prefix);
  s ← shift_amount oc w d;
  Ok (wrap w (Z.shiftl (Z.shiftr ip s) s)).
Definition normalize (oc : bool) := normalize_w oc 32.
Definition normalize6 (oc : bool) := normalize_w oc 128.

Record GeoIPMatcher := mkGeoIP {
  trie4 : PatriciaTrie;
  trie6 : PatriciaTrie;
  outbound : list bytes
}.

Definition GeoIPMatcher_new : GeoIPMatcher := mkGeoIP PatriciaTrie4_new PatriciaTrie6_new [].

(** [iter().position(|x| x == &outbound)]. *)
Fixpoint position (o : bytes) (l : list bytes) : option nat :=
  match l with
  | [] => None
  | x :: l' => if decide (x = o) then Some 0 else S <$> position o l'
  end.

Definition get_outbound_pos (m : GeoIPMatcher) (o : bytes) : nat * GeoIPMatcher :=
  match position o (outbound m) with
  | Some p => (p, m)
  | None => (length (outbound m), mkGeoIP (trie4 m) (trie6 m) (outbound m ++ [o]))
  end.

Definition put_v4 (oc : bool) (m : GeoIPMatcher) (ip4 prefix : Z) (o : bytes) : res GeoIPMatcher :=
  let '(pos, m) := get_outbound_pos m o in
  ip4 ← normalize oc ip4 prefix;
  t ← PatriciaTrie4_put oc (trie4 m) ip4 prefix (wrap 32 (Z.of_nat pos));
  Ok (mkGeoIP t (trie6 m) (outbound m)).

Definition put_v6 (oc : bool) (m : GeoIPMatcher) (ip6 prefix : Z) (o : bytes) : res GeoIPMatcher :=
  let '(pos, m) := get_outbound_pos m o in
  ip6 ← normalize6 oc ip6 prefix;
  t ← PatriciaTrie6_put oc (trie6 m) ip6 prefix (wrap 32 (Z.of_nat pos));
  Ok (mkGeoIP (trie4 m) t (outbound m)).

Definition outbound_at (m : GeoIPMatcher) (c : option Z) : res bytes :=
  match c with
  | Some c => match outbound m !! Z.to_nat c with Some s => Ok s | None => Panic end
  | None => Ok []
  end.

Definition match4 (m : GeoIPMatcher) (ip : Z) : res bytes :=
  c ← PatriciaTrie4_get (trie4 m) ip; outbound_at m c.
Definition match6 (m : GeoIPMatcher) (ip : Z) : res bytes :=
  c ← PatriciaTrie6_get (trie6 m) ip; outbound_at m c.

(** ** Specification *)

(** A rule: key, prefix length, value. *)
Record rule (V : Type) := mkRule { r_key : Z; r_len : Z; r_val : V }.
Arguments mkRule {V} _ _ _.
Arguments r_key {V} _.
Arguments r_len {V} _.
Arguments r_val {V} _.

Definition rule_matches {V} (w key : Z) (r : rule V) : bool :=
  (Z.shiftr (r_key r) (w - r_len r) =? Z.shiftr key (w - r_len r))%Z.

(** Keep the longer prefix; on equal length the rule that comes later. *)
Definition match_step {V} (w key : Z) (best : option (Z * V)) (r : rule V) : option (Z * V) :=
  if rule_matches w key r then
    match best with
    | Some (l, v) => if (l <=? r_len r)%Z then Some (r_len r, r_val r) else best
    | None => Some (r_len r, r_val r)
    end
  else best.

Definition match_spec {V} (w : Z) (rules : list (rule V)) (key : Z) : option V :=
  snd <$> fold_left (match_step w key) rules None.

Definition rule_ok {V} (w : Z) (r : rule V) : Prop :=
  (0 <= r_key r < 2 ^ w)%Z /\ (1 <= r_len r <= w)%Z.

(** Insert a list of rules. *)
Definition put_all (W : nat) (oc : bool) (rules : list (rule Z)) : res PatriciaTrie :=
  fold_left (fun m r => t ← m; Trie_put W oc t (r_key r) (r_len r) (r_val r)) rules (Ok (Trie_new W)).

Definition put_v4_all (oc : bool) (rules : list (rule bytes)) : res GeoIPMatcher :=
  fold_left (fun m r => g ← m; put_v4 oc g (r_key r) (r_len r) (r_val r)) rules (Ok GeoIPMatcher_new).

(** ** Paths

    A path is a list of bits, the deepest first; the path of [key] at depth
    [d] is its [d] most significant bits. *)

Definition top_bit (W : nat) (key : Z) (d : nat) : bool := Z.testbit key (Z.of_nat W - 1 - Z.of_nat d).

Fixpoint key_path (W : nat) (key : Z) (d : nat) : list bool :=
  match d with
  | O => []
  | S d' => top_bit W key d' :: key_path W key d'
  end.

(** The value that a list of rules gives to a path: the last one wins. *)
Definition rules_at {V} (W : nat) (rules : list (rule V)) (p : list bool) : option V :=
  fold_left (fun o r => if decide (key_path W (r_key r) (Z.to_nat (r_len r)) = p)
                        then Some (r_val r) else o) rules None.

(** [o] is the value of the longest prefix of [path] where [f] has one. *)
Definition is_longest {V} (f : list bool -> option V) (path : nat -> list bool) (o : option (nat * V)) : Prop :=
  match o with
  | Some (l, v) => f (path l) = Some v /\ forall l', l < l' -> f (path l') = None
  | None => forall l, f (path l) = None
  end.

Lemma is_longest_unique {V} (f : list bool -> option V) path o1 o2 :
  is_longest f path o1 -> is_longest f path o2 -> snd <$> o1 = snd <$> o2.
Proof.
  destruct o1 as [[l1 v1]|], o2 as [[l2 v2]|]; simpl; try done.
  - intros [E1 H1] [E2 H2]. destruct (Nat.lt_trichotomy l1 l2) as [H|[->|H]]; [| |].
    + by rewrite (H1 _ H) in E2.
    + congruence.
    + by rewrite (H2 _ H) in E1.
  - intros [E1 _] H. by rewrite H in E1.
  - intros H [E1 _]. by rewrite H in E1.
Qed.

Lemma length_key_path W key d : length (key_path W key d) = d.
Proof. induction d; simpl; auto. Qed.

Lemma key_path_eq W k1 k2 d :
  key_path W k1 d = key_path W k2 d <-> forall i, i < d -> top_bit W k1 i = top_bit W k2 i.
Proof.
  induction d as [|d IH]; simpl; [by split; intros; [lia|]|]. split.
  - intros [= H1 H2] i Hi. destruct (decide (i = d)) as [->|]; [done|]. apply IH; [done|lia].
  - intros H. rewrite (H d) by lia. f_equal. apply IH. intros; apply H; lia.
Qed.

Lemma testbit_above w z n : (0 <= z < 2 ^ w -> w <= n -> Z.testbit z n = false)%Z.
Proof.
  intros Hz Hn. destruct (decide (0 <= w)%Z); [|rewrite Z.pow_neg_r in Hz; lia].
  destruct (decide (z = 0)%Z) as [->|]; [apply Z.testbit_0_l|].
  apply Z.bits_above_log2; [lia|]. apply Z.log2_lt_pow2; [lia|].
  apply Z.lt_le_trans with (2 ^ w)%Z; [lia|]. apply Z.pow_le_mono_r; lia.
Qed.

Lemma rule_matches_path {V} (W : nat) key (r : rule V) :
  rule_ok (Z.of_nat W) r -> (0 <= key < 2 ^ Z.of_nat W)%Z ->
  rule_matches (Z.of_nat W) key r = true <->
  key_path W (r_key r) (Z.to_nat (r_len r)) = key_path W key (Z.to_nat (r_len r)).
Proof.
  intros [Hk Hl] Hkey. unfold rule_matches. rewrite Z.eqb_eq, key_path_eq. split; intros E.
  - intros i Hi. apply (f_equal (fun z => Z.testbit z (r_len r - 1 - Z.of_nat i))) in E.
    rewrite !Z.shiftr_spec in E by lia. unfold top_bit.
    by replace (Z.of_nat W - 1 - Z.of_nat i)%Z
      with (r_len r - 1 - Z.of_nat i + (Z.of_nat W - r_len r))%Z by lia.
  - apply Z.bits_inj'. intros n Hn. rewrite !Z.shiftr_spec by lia.
    destruct (decide (n < r_len r)%Z) as [Hlt|].
    + specialize (E (Z.to_nat (r_len r - 1 - n)) ltac:(lia)). unfold top_bit in E.
      by replace (Z.of_nat W - 1 - Z.of_nat (Z.to_nat (r_len r - 1 - n)))%Z
        with (n + (Z.of_nat W - r_len r))%Z in E by lia.
    + by rewrite !(testbit_above (Z.of_nat W)) by lia.
Qed.

Lemma rules_at_snoc {V} (W : nat) (rules : list (rule V)) r p :
  rules_at W (rules ++ [r]) p =
  if decide (key_path W (r_key r) (Z.to_nat (r_len r)) = p) then Some (r_val r) else rules_at W rules p.
Proof. unfold rules_at. by rewrite fold_left_app. Qed.

(** The fold of [match_spec] computes the longest prefix among the rules. *)
Lemma match_spec_longest {V} (W : nat) (rules : list (rule V)) key :
  Forall (rule_ok (Z.of_nat W)) rules -> (0 <= key < 2 ^ Z.of_nat W)%Z ->
  exists o, is_longest (rules_at W rules) (key_path W key) o
            /\ fold_left (match_step (Z.of_nat W) key) rules None = prod_map Z.of_nat id <$> o.
Proof.
  intros Hr Hkey. induction rules as [|r rules IH] using rev_ind; [by exists None|].
  rewrite Forall_app, Forall_singleton in Hr. destruct Hr as [Hr Hl]. destruct (IH Hr) as (o & Ho & E).
  rewrite fold_left_app, E. cbn [fold_left]. unfold match_step, is_longest.
  destruct (rule_matches _ key r) eqn:Hm.
  - apply (rule_matches_path _ _ _ Hl Hkey) in Hm. destruct Hl as [_ Hl].
    assert (forall l', Z.to_nat (r_len r) <> l' ->
      key_path W (r_key r) (Z.to_nat (r_len r)) <> key_path W key l') as Hne.
    { intros l' Hl' Hc%(f_equal length). by rewrite !length_key_path in Hc. }
    destruct o as [[l v]|]; simpl.
    + destruct Ho as [Ev Ho]. destruct (Z.leb_spec (Z.of_nat l) (r_len r)).
      * exists (Some (Z.to_nat (r_len r), r_val r)). simpl. rewrite Z2Nat.id by lia.
        split; [|done]. rewrite rules_at_snoc, decide_True by done. split; [done|]. intros l' ?.
        rewrite rules_at_snoc, decide_False by (apply Hne; lia). apply Ho. lia.
      * exists (Some (l, v)). split; [|done]. rewrite rules_at_snoc, decide_False by (apply Hne; lia).
        split; [done|]. intros l' ?. rewrite rules_at_snoc, decide_False by (apply Hne; lia). by apply Ho.
    + exists (Some (Z.to_nat (r_len r), r_val r)). simpl. rewrite Z2Nat.id by lia.
      split; [|done]. rewrite rules_at_snoc, decide_True by done. split; [done|]. intros l' ?.
      rewrite rules_at_snoc, decide_False by (apply Hne; lia). apply Ho.
  - assert (forall l', key_path W (r_key r) (Z.to_nat (r_len r)) <> key_path W key l') as Hne.
    { intros l' Hc. pose proof (f_equal length Hc) as Hlen. rewrite !length_key_path in Hlen.
      subst l'. apply (rule_matches_path _ _ _ Hl Hkey) in Hc. congruence. }
    exists o. split; [|done]. destruct o as [[l v]|]; simpl.
    + destruct Ho as [Ev Ho]. rewrite rules_at_snoc, decide_False by done. split; [done|].
      intros l' ?. rewrite rules_at_snoc, decide_False by done. by apply Ho.
    + intros l'. rewrite rules_at_snoc, decide_False by done. apply Ho.
Qed.

(** ** The trie as a tree of nodes *)

Section TrieProofs.
Context (W : nat) (HW : 32 <= W).
Abbreviation nullptr := (nullptr W).
Implicit Types (t : PatriciaTrie) (p : list bool).

Definition link (t : PatriciaTrie) (n : nat) (b : bool) : option Z :=
  (if b then tright t else tleft t) !! n.

Definition kid (t : PatriciaTrie) (n : nat) (b : bool) : option nat :=
  c ← link t n b; if decide (c = nullptr) then None else Some (Z.to_nat c).

Fixpoint walk (t : PatriciaTrie) (p : list bool) : option nat :=
  match p with
  | [] => Some 0
  | b :: p => n ← walk t p; kid t n b
  end.

Definition node_value (t : PatriciaTrie) (n : nat) : option Z :=
  v ← tvalue t !! n; if decide (v = u32_max) then None else Some v.

Definition value_at (t : PatriciaTrie) (p : list bool) : option Z := n ← walk t p; node_value t n.

(** Well-formedness: the arrays have one length, every pointer is null or
goes to a later node, and a node has one parent. *)
Record trie_wf (t : PatriciaTrie) : Prop := {
  wf_left : length (tleft t) = tsize t;
  wf_right : length (tright t) = tsize t;
  wf_value : length (tvalue t) = tsize t;
  wf_pos : 0 < tsize t;
  wf_ptr : forall n b c, link t n b = Some c -> c = nullptr \/ (Z.of_nat n < c < Z.of_nat (tsize t))%Z;
  wf_parent : forall n b n' b' c, kid t n b = Some c -> kid t n' b' = Some c -> n = n' /\ b = b'
}.

Definition tsize_small (t : PatriciaTrie) : Prop := (Z.of_nat (tsize t) <= nullptr)%Z.

Lemma nullptr_pos : (0 < nullptr)%Z.
Proof. unfold nullptr. pose proof (Z.pow_gt_1 2 (Z.of_nat W)). lia. Qed.

Lemma kid_range t n b c : trie_wf t -> kid t n b = Some c -> n < c < tsize t.
Proof.
  intros wf. unfold kid. destruct (link t n b) as [z|] eqn:E; [|done]. simpl.
  case_decide; intros; simplify_eq. apply (wf_ptr _ wf) in E as [|]; [done|lia].
Qed.

Lemma walk_range t p n : trie_wf t -> walk t p = Some n -> n < tsize t.
Proof.
  intros wf. destruct p as [|b p]; simpl; intros H; simplify_eq; [apply wf|].
  destruct (walk t p); simplify_eq/=. apply (kid_range _ _ _ _ wf) in H. lia.
Qed.

Lemma walk_inj t p q n : trie_wf t -> walk t p = Some n -> walk t q = Some n -> p = q.
Proof.
  intros wf. revert q n. induction p as [|b p IH]; intros [|c q] n; simpl; intros Hp Hq; simplify_eq; [done|..].
  - destruct (walk t q) as [m|]; simplify_eq/=. apply (kid_range _ _ _ _ wf) in Hq. lia.
  - destruct (walk t p) as [m|]; simplify_eq/=. apply (kid_range _ _ _ _ wf) in Hp. lia.
  - destruct (walk t p) as [m|] eqn:Ep, (walk t q) as [m'|] eqn:Eq; simplify_eq/=.
    destruct (wf_parent _ wf _ _ _ _ _ Hp Hq) as [-> ->]. f_equal. by apply (IH _ m').
Qed.

Lemma link_some t n b : trie_wf t -> n < tsize t -> exists c, link t n b = Some c.
Proof.
  intros wf Hn. destruct (link t n b) as [c|] eqn:E; [eauto|]. unfold link in E.
  apply lookup_ge_None in E. destruct b; [rewrite (wf_right _ wf) in E|rewrite (wf_left _ wf) in E]; lia.
Qed.

(** ** Bits *)

Definition level_bit (w : nat) (d : nat) : Z := Z.shiftr (2 ^ (Z.of_nat w - 1)) (Z.of_nat d).

Lemma level_bit_S w d : Z.shiftr (level_bit w d) 1 = level_bit w (S d).
Proof. unfold level_bit. rewrite Z.shiftr_shiftr by lia. f_equal. lia. Qed.

Lemma level_bit_0 w : level_bit w 0 = (2 ^ (Z.of_nat w - 1))%Z.
Proof. unfold level_bit. apply Z.shiftr_0_r. Qed.

Lemma level_bit_pow w d : d < w -> level_bit w d = (2 ^ (Z.of_nat w - 1 - Z.of_nat d))%Z.
Proof. intros. unfold level_bit. rewrite Z.shiftr_div_pow2, <- Z.pow_sub_r by lia. done. Qed.

Lemma level_bit_zero w d : w <= d -> level_bit w d = 0%Z.
Proof.
  intros. unfold level_bit. destruct (decide (w = 0)) as [->|]; [apply Z.shiftr_0_l|].
  rewrite Z.shiftr_eq_0; [done|lia..|].
  rewrite Z.log2_pow2 by lia. lia.
Qed.

Lemma land_pow2 k n : (0 <= n)%Z -> Z.land k (2 ^ n) = 0%Z <-> Z.testbit k n = false.
Proof.
  intros Hn. split; intros H.
  - apply (f_equal (fun z => Z.testbit z n)) in H.
    rewrite Z.land_spec, Z.pow2_bits_true, Z.testbit_0_l, andb_true_r in H by done. done.
  - apply Z.bits_inj'. intros m Hm. rewrite Z.land_spec, Z.testbit_0_l.
    destruct (decide (m = n)) as [->|]; [by rewrite H|].
    rewrite Z.pow2_bits_false by lia. apply andb_false_r.
Qed.

(** [mask] of [put] has the [len] most significant bits. *)
Definition len_mask (len : nat) : Z := Z.lxor (2 ^ (Z.of_nat W - Z.of_nat len) - 1) nullptr.

Lemma put_mask_ok oc prefix :
  (1 <= prefix <= Z.of_nat W)%Z -> (Z.of_nat W < 2 ^ 64)%Z ->
  put_mask W oc prefix = Ok (len_mask (Z.to_nat prefix)).
Proof.
  intros Hp Hw. unfold put_mask, chk, shift_amount, len_mask.
  rewrite decide_True by lia. cbn [mbind res_bind]. rewrite decide_True by lia.
  cbn [mbind res_bind]. by rewrite Z2Nat.id by lia.
Qed.

Lemma level_mask len d : len <= W -> Z.land (level_bit W d) (len_mask len) = 0%Z <-> len <= d.
Proof.
  intros Hlen. destruct (decide (d < W)) as [Hd|]; [|rewrite level_bit_zero by lia; rewrite Z.land_0_l; lia].
  rewrite level_bit_pow, Z.land_comm, land_pow2 by lia. unfold len_mask, IpTrie.nullptr.
  rewrite Z.lxor_spec. rewrite !Z.sub_1_r, <- !Z.ones_equiv.
  rewrite (Z.ones_spec_low (Z.of_nat W)) by lia.
  destruct (decide (len <= d)).
  - rewrite Z.ones_spec_low by lia. split; [lia|done].
  - rewrite Z.ones_spec_high by lia. simpl. split; [done|lia].
Qed.

Lemma child_kid t w key d n :
  trie_wf t -> n < tsize t ->
  exists c, child t key (level_bit w d) (Z.of_nat n) = Ok c
  /\ link t n (if decide (Z.land key (level_bit w d) = 0)%Z then false else true) = Some c.
Proof.
  intros wf Hn. unfold child, vec_get. rewrite Nat2Z.id.
  case_decide.
  - destruct (link_some t n false wf Hn) as [c Hc]. exists c. split; [|done]. unfold link in Hc. by rewrite Hc.
  - destruct (link_some t n true wf Hn) as [c Hc]. exists c. split; [|done]. unfold link in Hc. by rewrite Hc.
Qed.

Lemma level_top w key d :
  (if decide (Z.land key (level_bit w d) = 0)%Z then false else true) = if decide (d < w) then top_bit w key d else false.
Proof.
  destruct (decide (d < w)) as [Hd|].
  - rewrite level_bit_pow by done. unfold top_bit. case_decide as E.
    + apply land_pow2 in E; [done|lia].
    + rewrite land_pow2 in E by lia. by destruct (Z.testbit _ _).
  - rewrite level_bit_zero, Z.land_0_r by lia. done.
Qed.

(** ** [put] *)

Lemma link_kid_null t n b : link t n b = Some nullptr -> kid t n b = None.
Proof. intros E. unfold kid. rewrite E. simpl. by rewrite decide_True. Qed.

Lemma link_kid t n b c : link t n b = Some c -> c <> nullptr -> kid t n b = Some (Z.to_nat c).
Proof. intros E ?. unfold kid. rewrite E. simpl. by rewrite decide_False. Qed.

(** The first loop stops at the node of the prefix, or above a missing
child. *)
Lemma put_descend_spec t key len fuel d n next :
  trie_wf t -> len <= W -> len <= fuel + d -> d <= len ->
  walk t (key_path W key d) = Some n -> (d = len -> next <> nullptr) ->
  exists d' n' next',
  put_descend W fuel t key (len_mask len) (level_bit W d) (Z.of_nat n) next
  = Ok (level_bit W d', Z.of_nat n', next')
  /\ walk t (key_path W key d') = Some n'
  /\ (next' <> nullptr /\ d' = len
    \/ next' = nullptr /\ d' < len /\ kid t n' (top_bit W key d') = None).
Proof.
  intros wf Hlen. revert d n next. induction fuel as [|f IH]; intros d n next Hf Hd Hn Hnext; simpl.
  - rewrite decide_True by (apply level_mask; lia).
    assert (d = len) as -> by lia.
    exists len, n, next. split_and!; [done..|]. left. auto.
  - case_decide as Hm; rewrite level_mask in Hm by done.
    { assert (d = len) as -> by lia. exists len, n, next. split_and!; [done..|]. left. auto. }
    destruct (child_kid t W key d n wf (walk_range _ _ _ wf Hn)) as (c & -> & Hc).
    rewrite level_top, decide_True in Hc by lia. cbn [mbind res_bind].
    case_decide as Hnull.
    + subst c. exists d, n, nullptr. split_and!; [done..|]. right. split_and!; [done|lia|].
      by apply link_kid_null.
    + rewrite level_bit_S.
      destruct (wf_ptr _ wf _ _ _ Hc) as [|Hr]; [done|].
      assert (exists m, c = Z.of_nat m) as [m ->] by (exists (Z.to_nat c); lia).
      destruct (IH (S d) m (Z.of_nat m)) as (d' & n' & next' & E & Hw & Ho); [lia..| |done|].
      * simpl. rewrite Hn. simpl. rewrite <- (Nat2Z.id m). by apply link_kid.
      * by exists d', n', next'.
Qed.

(** One missing node appended below [n]. *)
Definition add_node (t : PatriciaTrie) (n : nat) (b : bool) : PatriciaTrie :=
  let next := Z.of_nat (tsize t) in
  let l := tleft t ++ [nullptr] in
  let r := tright t ++ [nullptr] in
  mkTrie (if b then l else <[n := next]> l) (if b then <[n := next]> r else r)
  (tvalue t ++ [u32_max]) (S (tsize t)).

Lemma link_add_node t n b m c :
  trie_wf t -> n < tsize t ->
  link (add_node t n b) m c =
  if decide (m = n /\ c = b) then Some (Z.of_nat (tsize t))
  else if decide (m = tsize t) then Some nullptr else link t m c.
Proof.
  intros wf Hn. pose proof (wf_left _ wf) as Hl. pose proof (wf_right _ wf) as Hr.
  assert (forall v, length v = tsize t -> (v ++ [nullptr]) !! m =
    if decide (m = tsize t) then Some nullptr else v !! m) as Happ.
  { intros v Hv. case_decide as E; [subst m; rewrite <- Hv; by rewrite list_lookup_middle|].
    destruct (decide (m < tsize t)); [by rewrite lookup_app_l by lia|].
    rewrite !lookup_ge_None_2; [done|lia|]. rewrite length_app. simpl. lia. }
  unfold link, add_node; simpl.
  destruct b, c; simpl; try (rewrite (decide_False (P := _ /\ _)) by (intros [? ?]; congruence); auto);
    (destruct (decide (m = n)) as [->|];
    [rewrite decide_True by done; rewrite list_lookup_insert_eq; [done|rewrite length_app; lia]
    |rewrite (decide_False (P := _ /\ _)) by (intros [? ?]; congruence); rewrite list_lookup_insert_ne by done; auto]).
Qed.

Lemma kid_add_node t n b m c :
  trie_wf t -> n < tsize t -> (Z.of_nat (tsize t) < nullptr)%Z ->
  kid (add_node t n b) m c =
  if decide (m = n /\ c = b) then Some (tsize t)
  else if decide (m = tsize t) then None else kid t m c.
Proof.
  intros wf Hn Hs. unfold kid at 1. rewrite link_add_node by done.
  destruct (decide (m = n /\ c = b)); simpl; [by rewrite decide_False, Nat2Z.id by lia|].
  case_decide; simpl; [by rewrite decide_True|done].
Qed.

Lemma add_node_wf t n b :
  trie_wf t -> n < tsize t -> (Z.of_nat (tsize t) < nullptr)%Z -> kid t n b = None ->
  trie_wf (add_node t n b).
Proof.
  intros wf Hn Hs Hk. pose proof (wf_left _ wf). pose proof (wf_right _ wf). pose proof (wf_value _ wf).
  split; simpl; try lia.
  - destruct b; rewrite ?length_insert, length_app; simpl; lia.
  - destruct b; rewrite ?length_insert, length_app; simpl; lia.
  - rewrite length_app. simpl. lia.
  - intros m c z. rewrite link_add_node by done. case_decide as E1; [intros [= <-]; right; lia|].
    case_decide; [intros [= <-]; by left|]. intros Hz. apply (wf_ptr _ wf) in Hz. lia.
  - intros m c m' c' z. rewrite !kid_add_node by done.
    intros Hz Hz'. destruct (decide (m = n /\ c = b)) as [[-> ->]|], (decide (m' = n /\ c' = b)) as [[-> ->]|];
      [done| | |]; repeat case_decide; simplify_eq.
    + apply (kid_range _ _ _ _ wf) in Hz'. lia.
    + apply (kid_range _ _ _ _ wf) in Hz. lia.
    + by eapply (wf_parent _ wf).
Qed.

Lemma walk_add_node t n b p0 p :
  trie_wf t -> walk t p0 = Some n -> (Z.of_nat (tsize t) < nullptr)%Z -> kid t n b = None ->
  walk (add_node t n b) p = if decide (p = b :: p0) then Some (tsize t) else walk t p.
Proof.
  intros wf Hp0 Hs Hk. pose proof (walk_range _ _ _ wf Hp0) as Hn.
  induction p as [|c p IH]; [done|]. cbn [walk]. rewrite IH. case_decide as E.
  - subst p. simpl. rewrite Hp0. simpl. rewrite Hk. simpl.
    rewrite kid_add_node by done. rewrite decide_False by lia. rewrite (decide_True (P := tsize t = tsize t)) by done.
    rewrite decide_False; [done|]. intros [= _ E%(f_equal length)]. simpl in E. lia.
  - destruct (walk t p) as [m|] eqn:Em; simpl.
    + rewrite kid_add_node by done. pose proof (walk_range _ _ _ wf Em).
      rewrite (decide_False (P := m = tsize t)) by lia.
      destruct (decide (m = n /\ c = b)) as [[-> ->]|Hne].
      * rewrite decide_True; [done|]. f_equal. by apply (walk_inj t _ _ n wf).
      * rewrite decide_False; [done|]. intros [= -> ->]. naive_solver.
    + rewrite decide_False; [done|]. naive_solver.
Qed.

Lemma value_at_add_node t n b p0 p :
  trie_wf t -> walk t p0 = Some n -> (Z.of_nat (tsize t) < nullptr)%Z -> kid t n b = None ->
  value_at (add_node t n b) p = value_at t p.
Proof.
  intros wf Hp0 Hs Hk. unfold value_at. rewrite (walk_add_node _ _ _ p0) by done.
  pose proof (wf_value _ wf). case_decide as E.
  - subst p. simpl. rewrite Hp0. simpl. rewrite Hk. simpl. unfold node_value. simpl.
    replace (tsize t) with (length (tvalue t)) by done. rewrite list_lookup_middle by done. simpl.
    done.
  - destruct (walk t p) as [m|] eqn:Em; [|done]. simpl. pose proof (walk_range _ _ _ wf Em).
    unfold node_value. simpl. by rewrite lookup_app_l by lia.
Qed.

(** The second loop appends the rest of the path and changes no value. *)
Lemma put_extend_spec t key len fuel d n :
  trie_wf t -> len <= W -> len <= fuel + d -> d <= len ->
  walk t (key_path W key d) = Some n -> (d < len -> kid t n (top_bit W key d) = None) ->
  (Z.of_nat (tsize t + len - d) < nullptr)%Z ->
  exists t' n',
  put_extend W fuel t key (len_mask len) (level_bit W d) (Z.of_nat n) = Ok (t', Z.of_nat n')
  /\ trie_wf t' /\ tsize t' = tsize t + len - d
  /\ walk t' (key_path W key len) = Some n' /\ forall p, value_at t' p = value_at t p.
Proof.
  intros wf Hlen. revert t wf d n. induction fuel as [|f IH]; intros t wf d n Hf Hd Hn Hk Hs; simpl.
  - rewrite decide_True by (apply level_mask; lia).
    assert (d = len) as -> by lia. exists t, n. split_and!; [done..|lia|done|done].
  - case_decide as Hm; rewrite level_mask in Hm by done.
    { assert (d = len) as -> by lia. exists t, n. split_and!; [done..|lia|done|done]. }
    specialize (Hk ltac:(lia)). pose proof (walk_range _ _ _ wf Hn) as Hr.
    assert (wrap (Z.of_nat W) (Z.of_nat (tsize t)) = Z.of_nat (tsize t)) as ->.
    { unfold wrap. apply Z.mod_small. unfold IpTrie.nullptr in Hs. lia. }
    match goal with |- exists t' n', mbind ?k ?m = _ /\ _ =>
      assert (m = Ok (tleft (add_node t n (top_bit W key d)), tright (add_node t n (top_bit W key d)))) as ->
      end.
    { pose proof (level_top W key d) as Ht. rewrite (decide_True (P := d < W)) in Ht by lia.
      pose proof (wf_left _ wf). pose proof (wf_right _ wf).
      unfold vec_set. rewrite Nat2Z.id. rewrite <- Ht.
      case_decide; rewrite decide_True by (rewrite length_app; simpl; lia); done. }
    cbn [mbind res_bind].
    change (mkTrie _ _ _ _) with (add_node t n (top_bit W key d)).
    rewrite level_bit_S.
    destruct (IH (add_node t n (top_bit W key d))) with (d := S d) (n := tsize t)
      as (t' & n' & E & wf' & Hs' & Hw & Hv); [apply add_node_wf; (done || lia)|lia..| | | |].
    + cbn [key_path]. rewrite (walk_add_node _ _ _ (key_path W key d)) by (done || lia).
      by rewrite decide_True.
    + intros _. rewrite kid_add_node by (done || lia).
      rewrite decide_False by lia. by rewrite decide_True.
    + simpl. lia.
    + exists t', n'. split_and!; [done..|simpl in Hs'; lia|done|].
      intros p. rewrite Hv. apply (value_at_add_node _ _ _ (key_path W key d)); (done || lia).
Qed.

Lemma set_value_spec t p0 n v :
  trie_wf t -> walk t p0 = Some n -> v <> u32_max ->
  exists t', set_value t (Z.of_nat n) v = Ok t' /\ trie_wf t' /\ tsize t' = tsize t
  /\ forall p, value_at t' p = if decide (p0 = p) then Some v else value_at t p.
Proof.
  intros wf Hn Hv. pose proof (walk_range _ _ _ wf Hn). pose proof (wf_value _ wf) as Hl.
  unfold set_value, vec_set. rewrite Nat2Z.id, decide_True by lia. cbn [mbind res_bind].
  eexists. split; [done|]. split; [|split; [done|]].
  - destruct wf. split; simpl; auto. by rewrite length_insert.
  - intros p. unfold value_at.
    assert (forall q, walk (mkTrie (tleft t) (tright t) (<[n:=v]> (tvalue t)) (tsize t)) q = walk t q) as Hw.
    { intros q. induction q as [|c q IH]; [done|]. simpl. by rewrite IH. }
    rewrite Hw. destruct (walk t p) as [m|] eqn:Em; simpl.
    + unfold node_value. simpl. case_decide as E.
      * subst p0. assert (m = n) as -> by congruence. rewrite list_lookup_insert_eq by lia. simpl.
        by rewrite decide_False.
      * rewrite list_lookup_insert_ne; [done|]. intros ->. by apply E, (walk_inj t _ _ m wf).
    + rewrite decide_False; [done|]. intros ->. congruence.
Qed.

(** [put] at a prefix sets the value of its path and no other. *)
Lemma Trie_put_spec oc t key prefix v :
  trie_wf t -> (1 <= prefix <= Z.of_nat W)%Z -> (Z.of_nat W < 2 ^ 64)%Z -> v <> u32_max ->
  (Z.of_nat (tsize t + W) < nullptr)%Z ->
  exists t', Trie_put W oc t key prefix v = Ok t' /\ trie_wf t' /\ tsize t' <= tsize t + W
  /\ forall p, value_at t' p = if decide (key_path W key (Z.to_nat prefix) = p) then Some v else value_at t p.
Proof.
  intros wf Hp HW64 Hv Hs. unfold Trie_put. rewrite put_mask_ok by done. cbn [mbind res_bind].
  rewrite <- level_bit_0. pose proof nullptr_pos.
  change (put_descend W W t key ?m ?b 0 0) with (put_descend W W t key m b (Z.of_nat 0) 0).
  destruct (put_descend_spec t key (Z.to_nat prefix) W 0 0 0) as (d & n & next & -> & Hn & Ho); [done|lia..|done|lia|].
  cbn [mbind res_bind]. destruct Ho as [[Hne ->]|(-> & Hd & Hk)].
  - rewrite decide_True by done.
    destruct (set_value_spec t _ n v wf Hn Hv) as (t' & -> & ? & ? & ?). exists t'. split_and!; auto; lia.
  - rewrite decide_False by (intros []; done).
    destruct (put_extend_spec t key (Z.to_nat prefix) W d n) as (t1 & n1 & -> & wf1 & Hs1 & Hn1 & Hv1); [done|lia..|done|done|lia|].
    cbn [mbind res_bind].
    destruct (set_value_spec t1 _ n1 v wf1 Hn1 Hv) as (t' & -> & ? & ? & Hv'). exists t'. split_and!; auto; [lia|].
    intros p. by rewrite Hv', Hv1.
Qed.

Lemma Trie_new_wf : trie_wf (Trie_new W).
Proof.
  split; simpl; auto.
  - intros n b c. unfold link. simpl. destruct b, n; simpl; intros; simplify_eq; auto.
  - intros n b n' b' c. unfold kid, link. simpl. destruct b, n; simpl; try done; by rewrite decide_True.
Qed.

Lemma Trie_new_value p : value_at (Trie_new W) p = None.
Proof.
  unfold value_at. destruct p as [|b p]; [done|]. simpl. destruct (walk _ p) as [n|]; [|done]. simpl.
  unfold kid, link. destruct b, n; simpl; try done; by rewrite decide_True.
Qed.

(** ** [get] *)

(** The bit of [key] that [get] looks at in depth [d]: it starts from bit 31. *)
Definition get_key (key : Z) : Z := (key mod 2 ^ 32 * 2 ^ (Z.of_nat W - 32))%Z.

Lemma get_key_bit key d :
  (if decide (d < 32) then top_bit 32 key d else false) = top_bit W (get_key key) d.
Proof.
  unfold top_bit, get_key. destruct (decide (d < W)).
  - rewrite Z.mul_pow2_bits by lia. case_decide.
    + rewrite Z.mod_pow2_bits_low by lia. f_equal. lia.
    + by rewrite Z.testbit_neg_r by lia.
  - rewrite (Z.testbit_neg_r _ (Z.of_nat W - 1 - Z.of_nat d)) by lia. case_decide; [lia|done].
Qed.

Lemma walk_none_deeper t key d : walk t (key_path W key d) = None -> forall l, d <= l -> walk t (key_path W key l) = None.
Proof.
  intros H l Hl. induction l as [|l IH]; [by replace d with 0 in H by lia|].
  destruct (decide (d = S l)) as [->|]; [done|]. cbn [key_path walk]. by rewrite IH by lia.
Qed.

Lemma get_loop_spec t key fuel d n value o :
  trie_wf t -> (Z.of_nat (tsize t) <= nullptr)%Z -> tsize t <= fuel + n ->
  walk t (key_path W (get_key key) d) = Some n ->
  value = default u32_max (snd <$> o) -> (snd <$> o <> Some u32_max) ->
  (forall l, l < d -> match o with
  | Some (l0, v) => l0 < d /\ value_at t (key_path W (get_key key) l0) = Some v /\
    (l0 < l -> value_at t (key_path W (get_key key) l) = None)
  | None => value_at t (key_path W (get_key key) l) = None end) ->
  (d = 0 -> o = None) ->
  exists o', get_loop W fuel t key (level_bit 32 d) (Z.of_nat n) value = Ok (default u32_max (snd <$> o'))
  /\ snd <$> o' <> Some u32_max /\ is_longest (value_at t) (key_path W (get_key key)) o'.
Proof.
  intros wf Hs. revert d n value o. induction fuel as [|f IH]; intros d n value o Hf Hn Hval Hmax Ho Hd0.
  { pose proof (walk_range _ _ _ wf Hn). lia. }
  pose proof (walk_range _ _ _ wf Hn) as Hr.
  cbn [get_loop]. rewrite decide_False by lia.
  destruct (lookup_lt_is_Some_2 (tvalue t) n) as [v Hv]; [rewrite (wf_value _ wf); lia|].
  unfold vec_get at 1. rewrite Nat2Z.id, Hv. cbn [mbind res_bind].
  destruct (child_kid t 32 key d n wf Hr) as (c & -> & Hc). cbn [mbind res_bind].
  rewrite level_top, get_key_bit in Hc. rewrite level_bit_S.
  set (o1 := if decide (v <> u32_max) then Some (d, v) else o).
  assert ((if decide (v <> u32_max) then v else value) = default u32_max (snd <$> o1)) as ->.
  { unfold o1. by case_decide. }
  assert (value_at t (key_path W (get_key key) d) = if decide (v <> u32_max) then Some v else None) as Hvd.
  { unfold value_at. rewrite Hn. simpl. unfold node_value. rewrite Hv. simpl. repeat case_decide; tauto. }
  assert (snd <$> o1 <> Some u32_max) as Hmax1.
  { unfold o1. case_decide; [simpl; congruence|done]. }
  assert (forall l, l < S d -> match o1 with
    | Some (l0, v) => l0 < S d /\ value_at t (key_path W (get_key key) l0) = Some v /\
    (l0 < l -> value_at t (key_path W (get_key key) l) = None)
    | None => value_at t (key_path W (get_key key) l) = None end) as Ho1.
  { intros l Hl. unfold o1. case_decide as Ev; [split_and!; [lia|done|lia]|].
    destruct (decide (l = d)) as [->|]; [|specialize (Ho l ltac:(lia)); destruct o as [[l0 v0]|]; [intuition lia|done]].
    destruct d as [|d]; [by rewrite Hd0|]. specialize (Ho d ltac:(lia)).
    destruct o as [[l0 v0]|]; [intuition lia|done]. }
  destruct (decide (c = nullptr)) as [->|Hne].
  - exists o1. split; [by destruct f; simpl; rewrite decide_True|]. split; [done|].
    assert (forall l, d < l -> value_at t (key_path W (get_key key) l) = None) as Hdeep.
    { intros l Hl. unfold value_at. rewrite (walk_none_deeper t (get_key key) (S d)); [done| |lia].
      cbn [key_path walk]. rewrite Hn. simpl. by apply link_kid_null. }
    unfold is_longest. destruct o1 as [[l0 v0]|].
    + destruct (Ho1 d ltac:(lia)) as (? & ? & _). split; [done|]. intros l Hl.
      destruct (decide (d < l)); [by apply Hdeep|]. by apply (Ho1 l); lia.
    + intros l. destruct (decide (d < l)); [by apply Hdeep|]. apply (Ho1 l). lia.
  - destruct (wf_ptr _ wf _ _ _ Hc) as [|Hr']; [done|].
    assert (exists m, c = Z.of_nat m) as [m ->] by (exists (Z.to_nat c); lia).
    apply (IH (S d) m _ o1); [lia| |done..].
    cbn [key_path walk]. rewrite Hn. simpl. rewrite <- (Nat2Z.id m). by apply link_kid.
Qed.

(** [get] is the value of the longest path. *)
Lemma Trie_get_spec t key :
  trie_wf t -> (Z.of_nat (tsize t) <= nullptr)%Z ->
  exists o, Trie_get W t key = Ok (snd <$> o) /\ is_longest (value_at t) (key_path W (get_key key)) o.
Proof.
  intros wf Hs. unfold Trie_get. change (2 ^ (32 - 1))%Z with (2 ^ (Z.of_nat 32 - 1))%Z.
  rewrite <- (level_bit_0 32).
  destruct (get_loop_spec t key (length (tvalue t)) 0 0 u32_max None) as (o & E & Ho & Hl);
    [done|done|rewrite (wf_value _ wf); lia|done|done|done|lia|done|].
  change (get_loop W ?f t key ?b 0 ?v) with (get_loop W f t key b (Z.of_nat 0) v). rewrite E. cbn [mbind res_bind]. exists o. split; [|done].
  f_equal. destruct o as [[l v]|]; [|done]. simpl in *. by rewrite decide_False by congruence.
Qed.
End TrieProofs.

(** ** Lists of rules *)

Lemma get_key_32 key : (0 <= key < 2 ^ 32)%Z -> get_key 32 key = key.
Proof. intros. unfold get_key. rewrite Z.mod_small by done. simpl. lia. Qed.

Section Rules.
Context (W : nat) (HW : 32 <= W) (HW64 : (Z.of_nat W < 2 ^ 64)%Z) (oc : bool).

(** The rules fit in the pointers, and no value is the empty marker. *)
Definition rules_fit {V} (rules : list (rule V)) : Prop :=
  Forall (rule_ok (Z.of_nat W)) rules /\ (Z.of_nat (1 + W * length rules) < nullptr W)%Z.

Lemma put_all_spec rules :
  rules_fit rules -> Forall (fun r => r_val r <> u32_max) rules ->
  exists t, put_all W oc rules = Ok t /\ trie_wf W t /\ tsize t <= 1 + W * length rules
  /\ forall p, value_at W t p = rules_at W rules p.
Proof.
  intros [Hok Hfit] Hval. induction rules as [|r rules IH] using rev_ind.
  - exists (Trie_new W). split_and!; [done|by apply Trie_new_wf|simpl; lia|]. intros p. by apply Trie_new_value.
  - rewrite Forall_app, Forall_singleton in Hok, Hval. destruct Hok as [Hok [_ Hr]], Hval as [Hval Hv].
    rewrite length_app in *. simpl length in *.
    destruct IH as (t & E & wf & Hs & Ht); [done|lia|done|].
    destruct (Trie_put_spec W HW oc t (r_key r) (r_len r) (r_val r)) as (t' & E' & wf' & Hs' & Ht'); [done..|lia|].
    exists t'. split_and!; [|done|lia|].
    + unfold put_all in *. rewrite fold_left_app, E. simpl. done.
    + intros p. by rewrite Ht', rules_at_snoc, Ht.
Qed.

Lemma get_key_range key : (0 <= get_key W key < 2 ^ Z.of_nat W)%Z.
Proof.
  unfold get_key. pose proof (Z.mod_pos_bound key (2 ^ 32) ltac:(lia)).
  assert (0 < 2 ^ (Z.of_nat W - 32))%Z by (apply Z.pow_pos_nonneg; lia).
  replace (2 ^ Z.of_nat W)%Z with (2 ^ 32 * 2 ^ (Z.of_nat W - 32))%Z; [nia|].
  rewrite <- Z.pow_add_r by lia. f_equal. lia.
Qed.

(** A trie that holds the values of [rules] answers with their longest match. *)
Lemma get_match_spec t rules key :
  trie_wf W t -> rules_fit rules -> tsize t <= 1 + W * length rules ->
  (forall p, value_at W t p = rules_at W rules p) ->
  Trie_get W t key = Ok (match_spec (Z.of_nat W) rules (get_key W key)).
Proof.
  intros wf [Hok Hfit] Hs Ht.
  destruct (Trie_get_spec W HW t key wf) as (o & -> & Hl); [lia|].
  destruct (match_spec_longest W rules _ Hok (get_key_range key)) as (o' & Hl' & E).
  unfold match_spec. rewrite E. f_equal. rewrite <- option_fmap_compose.
  transitivity (snd <$> o'); [|by destruct o' as [[]|]].
  apply (is_longest_unique (value_at W t) (key_path W (get_key W key))); [done|].
  destruct o' as [[l v]|]; simpl in *; [|by intros; rewrite Ht]. destruct Hl' as [? Hl'].
  rewrite Ht. split; [done|]. intros. rewrite Ht. auto.
Qed.
End Rules.

(** ** [GeoIPMatcher] *)

Lemma position_spec o l :
  match position o l with
  | Some p => l !! p = Some o
  | None => True
  end.
Proof.
  induction l as [|x l IH]; simpl; [done|]. case_decide; [by subst|].
  by destruct (position o l).
Qed.

Lemma get_outbound_pos_spec m o p m' :
  get_outbound_pos m o = (p, m') ->
  trie4 m' = trie4 m /\ trie6 m' = trie6 m /\ outbound m' !! p = Some o /\
  outbound m `prefix_of` outbound m' /\ length (outbound m') <= S (length (outbound m)).
Proof.
  unfold get_outbound_pos. pose proof (position_spec o (outbound m)) as H.
  destruct (position o (outbound m)); intros [= <- <-]; simpl; split_and!; auto.
  - by rewrite list_lookup_middle.
  - by exists [o].
  - rewrite length_app; simpl; lia.
Qed.

Lemma normalize_ok (W : nat) oc ip p :
  0 < W <= 128 -> (0 <= ip < 2 ^ Z.of_nat W)%Z -> (1 <= p <= Z.of_nat W)%Z ->
  exists k, normalize_w oc (Z.of_nat W) ip p = Ok k /\ (0 <= k < 2 ^ Z.of_nat W)%Z
    /\ key_path W k (Z.to_nat p) = key_path W ip (Z.to_nat p).
Proof.
  intros HW Hip Hp. unfold normalize_w, chk, shift_amount.
  rewrite decide_True by lia. cbn [mbind res_bind]. rewrite decide_True by lia. cbn [mbind res_bind].
  eexists. split; [done|]. unfold wrap. split; [apply Z.mod_pos_bound; lia|].
  apply key_path_eq. intros i Hi. unfold top_bit. rewrite Z.mod_pow2_bits_low by lia.
  rewrite Z.shiftl_spec, Z.shiftr_spec by lia. f_equal. lia.
Qed.

(** What a trie of width [W] keeps of the rules whose tags are in [out]. *)
Definition rule_stored (W : nat) (out : list bytes) (r : rule bytes) (z : rule Z) : Prop :=
  rule_ok (Z.of_nat W) z /\ r_len z = r_len r /\
  key_path W (r_key z) (Z.to_nat (r_len r)) = key_path W (r_key r) (Z.to_nat (r_len r)) /\
  (0 <= r_val z)%Z /\ out !! Z.to_nat (r_val z) = Some (r_val r).

Definition trie_holds (W : nat) (t : PatriciaTrie) (out : list bytes) (rules : list (rule bytes)) : Prop :=
  exists zs, trie_wf W t /\ tsize t <= 1 + W * length zs
    /\ (forall p, value_at W t p = rules_at W zs p)
    /\ Forall2 (rule_stored W out) rules zs.

(** What a matcher built from IPv4 rules [r4] and IPv6 rules [r6] keeps. *)
Definition geo_inv (m : GeoIPMatcher) (r4 r6 : list (rule bytes)) : Prop :=
  trie_holds 32 (trie4 m) (outbound m) r4 /\ trie_holds 128 (trie6 m) (outbound m) r6
  /\ length (outbound m) <= length r4 + length r6.

Lemma trie_holds_new (W : nat) out : 0 < W -> trie_holds W (Trie_new W) out [].
Proof.
  intros HW. exists []. split_and!; [by apply Trie_new_wf|simpl; lia| |done].
  intros p. by apply Trie_new_value.
Qed.

Lemma geo_inv_new : geo_inv GeoIPMatcher_new [] [].
Proof. split_and!; [apply trie_holds_new; lia..|simpl; lia]. Qed.

Lemma trie_holds_outbound W t out out' rules : out `prefix_of` out' -> trie_holds W t out rules -> trie_holds W t out' rules.
Proof.
  intros Hpre (zs & wf & Hs & Hv & Hst). exists zs. split_and!; [done..|].
  eapply Forall2_impl; [exact Hst|]. intros x z (? & ? & ? & ? & Hx). split_and!; auto.
  by eapply prefix_lookup_Some.
Qed.

Lemma trie_holds_put (W : nat) oc t out rules r pos :
  32 <= W <= 128 -> trie_holds W t out rules -> rule_ok (Z.of_nat W) r -> out !! pos = Some (r_val r) ->
  (Z.of_nat pos < 2 ^ 32 - 1)%Z -> (Z.of_nat (1 + W * length (rules ++ [r])) < nullptr W)%Z ->
  exists k t', normalize_w oc (Z.of_nat W) (r_key r) (r_len r) = Ok k
    /\ Trie_put W oc t k (r_len r) (wrap 32 (Z.of_nat pos)) = Ok t' /\ trie_holds W t' out (rules ++ [r]).
Proof.
  intros HW (zs & wf & Hs & Hv & Hst) [Hk Hl] Hpos Hlt Hfit.
  destruct (normalize_ok W oc _ _ ltac:(lia) Hk Hl) as (k & -> & Hkr & Hkp). exists k.
  pose proof (Forall2_length _ _ _ Hst) as Hlz. rewrite length_app in Hfit. simpl length in Hfit.
  assert (wrap 32 (Z.of_nat pos) = Z.of_nat pos) as Hw by (unfold wrap; apply Z.mod_small; lia).
  destruct (Trie_put_spec W ltac:(lia) oc t k (r_len r) (wrap 32 (Z.of_nat pos)))
    as (t' & -> & wf' & Hs' & Hv'); [done|done|lia|unfold u32_max; lia|lia|].
  exists t'. split_and!; [done..|].
  exists (zs ++ [mkRule k (r_len r) (Z.of_nat pos)]). split_and!; [done|rewrite length_app; simpl length; lia| |].
  - intros p. by rewrite Hv', rules_at_snoc, <- Hv, Hw.
  - apply Forall2_app; [done|]. constructor; [|constructor].
    split_and!; simpl; [split; simpl; done|done|done|lia|]. by rewrite Nat2Z.id.
Qed.

(** The tags fit in a [u32] beside the marker of an empty node. *)
Definition tags_fit (n : nat) : Prop := (Z.of_nat n < 2 ^ 32 - 1)%Z.

Lemma put_v4_inv oc m r4 r6 r :
  geo_inv m r4 r6 -> rule_ok 32 r -> (Z.of_nat (1 + 32 * length (r4 ++ [r])) < nullptr 32)%Z ->
  tags_fit (length (r4 ++ [r]) + length r6) ->
  exists m', put_v4 oc m (r_key r) (r_len r) (r_val r) = Ok m' /\ geo_inv m' (r4 ++ [r]) r6.
Proof.
  intros (H4 & H6 & Hout) Hr Hfit Ht. unfold put_v4, PatriciaTrie4_put, normalize, tags_fit in *.
  destruct (get_outbound_pos m (r_val r)) as [pos m1] eqn:E.
  apply get_outbound_pos_spec in E as (Et4 & Et6 & Hpos & Hpre & Hlen).
  pose proof (lookup_lt_Some _ _ _ Hpos). rewrite length_app in Ht. simpl length in Ht.
  destruct (trie_holds_put 32 oc _ _ _ r pos ltac:(lia) (trie_holds_outbound _ _ _ _ _ Hpre H4) Hr Hpos ltac:(lia) Hfit)
    as (k & t' & Hn & Hp & H4').
  change (Z.of_nat 32) with 32%Z in Hn. rewrite Hn, Et4. cbn [mbind res_bind]. rewrite Hp. cbn [mbind res_bind].
  eexists. split; [done|]. split_and!; simpl; [done| |rewrite length_app; simpl; lia].
  rewrite Et6. by eapply trie_holds_outbound.
Qed.

Lemma put_v6_inv oc m r4 r6 r :
  geo_inv m r4 r6 -> rule_ok 128 r -> (Z.of_nat (1 + 128 * length (r6 ++ [r])) < nullptr 128)%Z ->
  tags_fit (length r4 + length (r6 ++ [r])) ->
  exists m', put_v6 oc m (r_key r) (r_len r) (r_val r) = Ok m' /\ geo_inv m' r4 (r6 ++ [r]).
Proof.
  intros (H4 & H6 & Hout) Hr Hfit Ht. unfold put_v6, PatriciaTrie6_put, normalize6, tags_fit in *.
  destruct (get_outbound_pos m (r_val r)) as [pos m1] eqn:E.
  apply get_outbound_pos_spec in E as (Et4 & Et6 & Hpos & Hpre & Hlen).
  pose proof (lookup_lt_Some _ _ _ Hpos). rewrite length_app in Ht. simpl length in Ht.
  destruct (trie_holds_put 128 oc _ _ _ r pos ltac:(lia) (trie_holds_outbound _ _ _ _ _ Hpre H6) Hr Hpos ltac:(lia) Hfit)
    as (k & t' & Hn & Hp & H6').
  change (Z.of_nat 128) with 128%Z in Hn. rewrite Hn, Et6. cbn [mbind res_bind]. rewrite Hp. cbn [mbind res_bind].
  eexists. split; [done|]. split_and!; simpl; [|done|rewrite length_app; simpl; lia].
  rewrite Et4. by eapply trie_holds_outbound.
Qed.

Lemma rules_fit_tags (W : nat) {V} (rules : list (rule V)) : W = 32 -> rules_fit W rules -> tags_fit (length rules).
Proof. intros -> [_ Hfit]. unfold tags_fit, nullptr in *. lia. Qed.

Lemma put_v4_all_inv oc rules :
  rules_fit 32 rules -> exists m, put_v4_all oc rules = Ok m /\ geo_inv m rules [].
Proof.
  intros [Hok Hfit]. induction rules as [|r rules IH] using rev_ind.
  - exists GeoIPMatcher_new. split; [done|]. apply geo_inv_new.
  - pose proof (rules_fit_tags 32 _ eq_refl (conj Hok Hfit)) as Ht.
    rewrite Forall_app, Forall_singleton in Hok. destruct Hok as [Hok Hr].
    destruct IH as (m & E & Hm); [done|rewrite length_app in Hfit; lia|].
    destruct (put_v4_inv oc m rules [] r Hm Hr Hfit) as (m' & E' & Hm'); [by rewrite Nat.add_0_r|].
    exists m'. split; [|done]. unfold put_v4_all in *. by rewrite fold_left_app, E.
Qed.

Lemma match_spec_stored (W : nat) out rules zs key :
  Forall (rule_ok (Z.of_nat W)) rules -> Forall2 (rule_stored W out) rules zs -> (0 <= key < 2 ^ Z.of_nat W)%Z ->
  match match_spec (Z.of_nat W) zs key with
  | Some v => (0 <= v)%Z /\ exists o, out !! Z.to_nat v = Some o /\ match_spec (Z.of_nat W) rules key = Some o
  | None => match_spec (Z.of_nat W) rules key = None
  end.
Proof.
  intros Hok Hst Hkey. unfold match_spec. set (w := Z.of_nat W) in *.
  assert (forall oz orr, match oz with
    | Some (l, v) => (0 <= v)%Z /\ exists o, orr = Some (l, o) /\ out !! Z.to_nat v = Some o
    | None => orr = None end ->
    match fold_left (match_step w key) zs oz with
    | Some (l, v) => (0 <= v)%Z /\ exists o, fold_left (match_step w key) rules orr = Some (l, o) /\ out !! Z.to_nat v = Some o
    | None => fold_left (match_step w key) rules orr = None end) as Hgen.
  { induction Hst as [|r z rules zs Hrz Hst IH]; intros oz orr Ho; [done|]. simpl.
    apply Forall_cons in Hok as [Hr Hok]. apply IH; [done|].
    destruct Hrz as (Hz & Hl & Hp & Hv & Hout).
    assert (rule_matches w key z = rule_matches w key r) as Hm.
    { apply eq_true_iff_eq. unfold w.
      rewrite (rule_matches_path W _ _ Hz Hkey), (rule_matches_path W _ _ Hr Hkey). by rewrite Hl, Hp. }
    unfold match_step. rewrite Hm. destruct (rule_matches w key r).
    - destruct oz as [[l v]|].
      + destruct Ho as (? & o & -> & ?). rewrite Hl. destruct (l <=? r_len r)%Z; eauto.
      + subst orr. rewrite Hl. eauto.
    - exact Ho. }
  specialize (Hgen None None eq_refl).
  destruct (fold_left (match_step w key) zs None) as [[l v]|]; simpl.
  - destruct Hgen as (? & o & -> & ->). eauto.
  - by rewrite Hgen.
Qed.

(** The tag a matcher answers is the one of the longest match of its rules. *)
Lemma trie_holds_match (W : nat) t m rules key :
  32 <= W <= 128 -> trie_holds W t (outbound m) rules -> rules_fit W rules ->
  (c ← Trie_get W t key; outbound_at m c) = Ok (default [] (match_spec (Z.of_nat W) rules (get_key W key))).
Proof.
  intros HW (zs & wf & Hs & Ht & Hst) [Hok Hfit].
  pose proof (Forall2_length _ _ _ Hst) as Hlen.
  rewrite (get_match_spec W ltac:(lia) _ zs key wf); [|split|done|done].
  - cbn [mbind res_bind]. pose proof (match_spec_stored W _ _ _ _ Hok Hst (get_key_range W ltac:(lia) key)) as Hm.
    destruct (match_spec (Z.of_nat W) zs _) as [v|]; simpl.
    + by destruct Hm as (_ & o & -> & ->).
    + by rewrite Hm.
  - eapply Forall2_Forall_r; [exact Hst|]. apply Forall_true. by intros r z [].
  - by rewrite <- Hlen.
Qed.

Lemma match4_spec m r4 r6 ip :
  geo_inv m r4 r6 -> rules_fit 32 r4 -> (0 <= ip < 2 ^ 32)%Z -> match4 m ip = Ok (default [] (match_spec 32 r4 ip)).
Proof.
  intros (H4 & _ & _) Hfit Hip. unfold match4, PatriciaTrie4_get.
  rewrite (trie_holds_match 32 _ _ _ _ ltac:(lia) H4 Hfit). by rewrite get_key_32.
Qed.

Lemma match6_spec m r4 r6 ip :
  geo_inv m r4 r6 -> rules_fit 128 r6 -> match6 m ip = Ok (default [] (match_spec 128 r6 (ip mod 2 ^ 32 * 2 ^ 96))).
Proof.
  intros (_ & H6 & _) Hfit. unfold match6, PatriciaTrie6_get.
  by rewrite (trie_holds_match 128 _ _ _ _ ltac:(lia) H6 Hfit).
Qed.

(** ** Properties *)

(** C7: the IPv4 trie is a longest-prefix match: whatever rules are inserted
    (in any order, in both build profiles), [put] never panics, and [get] returns
    the value of the longest prefix that contains the address, the last one
    inserted when several have that length, and [None] when there is none. *)
Theorem trie4_longest_prefix oc (rules : list (rule Z)) :
  rules_fit 32 rules -> Forall (fun r => r_val r <> u32_max) rules ->
  exists t, put_all 32 oc rules = Ok t /\
    forall key, (0 <= key < 2 ^ 32)%Z -> PatriciaTrie4_get t key = Ok (match_spec 32 rules key).
Proof.
  intros Hfit Hval. destruct (put_all_spec 32 ltac:(lia) ltac:(lia) oc rules Hfit Hval) as (t & E & wf & Hs & Ht).
  exists t. split; [done|]. intros key Hkey. unfold PatriciaTrie4_get.
  rewrite (get_match_spec 32 ltac:(lia) t rules key wf Hfit Hs Ht). by rewrite get_key_32.
Qed.

(** C40: the IPv6 trie looks the address up from bit 31: [get] returns the
    longest match, among the rules inserted, of the address whose 32 top bits are the 32
    low bits of the key and whose other bits are zero. *)
Theorem trie6_get_low_bits oc (rules : list (rule Z)) :
  rules_fit 128 rules -> Forall (fun r => r_val r <> u32_max) rules ->
  exists t, put_all 128 oc rules = Ok t /\
    forall key, (0 <= key < 2 ^ 128)%Z ->
      PatriciaTrie6_get t key = Ok (match_spec 128 rules (key mod 2 ^ 32 * 2 ^ 96)).
Proof.
  intros Hfit Hval. destruct (put_all_spec 128 ltac:(lia) ltac:(lia) oc rules Hfit Hval) as (t & E & wf & Hs & Ht).
  exists t. split; [done|]. intros key Hkey. unfold PatriciaTrie6_get.
  by rewrite (get_match_spec 128 ltac:(lia) t rules key wf Hfit Hs Ht).
Qed.

(** The matcher of the router: after [put_v4] of each rule, [match4]
    answers the outbound tag of the longest prefix that contains the address,
    the later rule on equal length, and the empty string when no rule matches;
    it never indexes the tags out of bounds. *)
Theorem GeoIPMatcher_match4 oc (rules : list (rule bytes)) :
  rules_fit 32 rules ->
  exists m, put_v4_all oc rules = Ok m /\
    forall ip, (0 <= ip < 2 ^ 32)%Z -> match4 m ip = Ok (default [] (match_spec 32 rules ip)).
Proof.
  intros Hfit. destruct (put_v4_all_inv oc rules Hfit) as (m & E & Hm).
  exists m. split; [done|]. intros ip Hip. by apply (match4_spec m rules []).
Qed.

(** A rule of prefix 0 ([0.0.0.0/0]) is never stored as one: the insertion panics in
    a build with overflow checks, and in a release build the shift amount
    wraps and the rule covers the single address. *)
Theorem put_v4_prefix_zero m ip o :
  put_v4 true m ip 0 o = Panic /\ put_v4 false m ip 0 o = put_v4 false m ip 32 o.
Proof. unfold put_v4. by destruct (get_outbound_pos m o). Qed.

(** ** Witnesses *)

(** The rules of the test [test4]. *)
Definition test_rules : list (rule Z) :=
  [mkRule 167772160 8 69; mkRule 167772160 24 42; mkRule 167772928 24 123]%Z.

Lemma trie4_longest_prefix_witness :
  rules_fit 32 test_rules /\
  exists t, put_all 32 true test_rules = Ok t /\ PatriciaTrie4_get t 169877536 = Ok (Some 69%Z)
    /\ PatriciaTrie4_get t 167772192 = Ok (Some 42%Z) /\ PatriciaTrie4_get t 184549376 = Ok None.
Proof.
  assert (rules_fit 32 test_rules) as Hfit.
  { split; [|done]. repeat constructor; simpl; lia. }
  split; [exact Hfit|].
  destruct (trie4_longest_prefix true test_rules) as (t & E & H);
    [exact Hfit|repeat constructor; simpl; unfold u32_max; lia|].
  exists t. rewrite !H by lia. split_and!; [exact E|done..].
Defined.

(** 2001:db8::/32 does not match 2001:db8::1, and matches an address whose 32
    low bits are 2001:db8. *)
Lemma trie6_get_low_bits_witness :
  let rules := [mkRule (0x20010db8 * 2 ^ 96) 32 7]%Z in
  rules_fit 128 rules /\
  exists t, put_all 128 true rules = Ok t /\
    PatriciaTrie6_get t (0x20010db8 * 2 ^ 96 + 1) = Ok None /\
    PatriciaTrie6_get t 0x20010db8 = Ok (Some 7%Z).
Proof.
  intros rules.
  assert (rules_fit 128 rules) as Hfit.
  { split; [|done]. repeat constructor; simpl; lia. }
  split; [exact Hfit|].
  destruct (trie6_get_low_bits true rules) as (t & E & H);
    [exact Hfit|repeat constructor; simpl; unfold u32_max; lia|].
  exists t. rewrite !H by lia. split_and!; [exact E|done..].
Defined.

Lemma GeoIPMatcher_match4_witness :
  let rules := [mkRule 167772160 8 [x61]; mkRule 167772160 24 [x62]]%Z in
  rules_fit 32 rules /\
  exists m, put_v4_all false rules = Ok m /\ match4 m 167772192 = Ok [x62]
    /\ match4 m 169877536 = Ok [x61] /\ match4 m 0 = Ok [].
Proof.
  intros rules.
  assert (rules_fit 32 rules) as Hfit.
  { split; [|done]. repeat constructor; simpl; lia. }
  split; [exact Hfit|].
  destruct (GeoIPMatcher_match4 false rules) as (m & E & H); [exact Hfit|].
  exists m. rewrite !H by lia. split_and!; [exact E|done..].
Defined.
