(* ===== verification/Aead.v ===== *)
(** * AEAD ciphers

    The slice helpers of src/src/common/aead_helper.rs and the Shadowsocks
    cipher of src/src/proxy/shadowsocks/aead_helper.rs: its kinds, key
    derivation and nonce counter; the key derivation of src/src/common/mod.rs.

    The algorithms are the crates' (aes-gcm, chacha20poly1305, hkdf, md-5): the
    class [AeadCrypto] states what the code relies on, which is that a sealed
    message has its own length and a 16-byte tag, and that opening what was
    sealed under the same key, nonce and associated data gives it back.
    [toy_crypto] instantiates the class for the witnesses. *)

From S2P Require Import Prelude Io StdText.
From Stdlib Require Import ZArith Lia List Strings.Byte.
From stdpp Require Import base option list strings.

(** The algorithms of [CipherInner]. *)
Inductive CipherAlg := AlgAes128Gcm | AlgAes256Gcm | AlgChaCha20Poly1305.

Class AeadCrypto := {
  (* key, nonce, associated data, message: ciphertext and tag *)
  aead_seal : CipherAlg -> bytes -> bytes -> bytes -> bytes -> bytes * bytes;
  (* key, nonce, associated data, ciphertext, tag *)
  aead_open : CipherAlg -> bytes -> bytes -> bytes -> bytes -> bytes -> option bytes;
  hkdf_sha1 : bytes -> bytes -> bytes -> nat -> bytes;     (* salt, ikm, info, length *)
  md5 : bytes -> bytes;
  aead_seal_length a k n ad m : length (aead_seal a k n ad m).1 = length m /\ length (aead_seal a k n ad m).2 = 16;
  aead_open_length a k n ad c t m : aead_open a k n ad c t = Some m -> length m = length c;
  aead_open_seal a k n ad m : aead_open a k n ad (aead_seal a k n ad m).1 (aead_seal a k n ad m).2 = Some m;
  hkdf_sha1_length s k i n : length (hkdf_sha1 s k i n) = n;
  md5_length m : length (md5 m) = 16
}.

Definition TAG_SIZE : nat := 16.

Inductive CipherKind := CipherKind_None | Aes128Gcm | Aes256Gcm | ChaCha20Poly1305.

#[export] Instance CipherKind_eq_dec : EqDecision CipherKind.
Proof. solve_decision. Defined.

Definition nonce_len (k : CipherKind) : nat :=
  match k with
  | CipherKind_None => 0
  | Aes128Gcm => 12
  | Aes256Gcm => 12
  | ChaCha20Poly1305 => 12
  end.

Definition key_len (k : CipherKind) : nat :=
  match k with
  | CipherKind_None => 0
  | Aes128Gcm => 16
  | Aes256Gcm => 32
  | ChaCha20Poly1305 => 32
  end.

Definition salt_len (k : CipherKind) : nat := key_len k.
Definition tag_len (k : CipherKind) : nat := 16.

(** [increase_nonce]: the bytes [1..nlen] with the carry [c]. *)
Fixpoint increase_loop (k : nat) (c : Z) (l : bytes) : bytes :=
  match k, l with
  | S k', b :: l' =>
      let c := (c + b2z b)%Z in
      z2b c :: increase_loop k' (Z.shiftr c 8) l'
  | _, _ => l
  end.

Definition increase_nonce (nlen : nat) (nonce : bytes) : bytes :=
  match nonce with
  | [] => []
  | b :: l => let c := (b2z b + 1)%Z in z2b c :: increase_loop (nlen - 1) (Z.shiftr c 8) l
  end.

(** Little-endian value of a nonce. *)
Definition le_val (l : bytes) : Z := be_val (rev l).

(** [AeadCipher]; [CipherInner] is the algorithm and its key. *)
Record AeadCipher := mkAeadCipher {
  ac_alg : CipherAlg;
  ac_key : bytes;
  ac_nonce : bytes;
  ac_nlen : nat
}.

Definition cipher_increase_nonce (c : AeadCipher) : AeadCipher :=
  mkAeadCipher (ac_alg c) (ac_key c) (increase_nonce (ac_nlen c) (ac_nonce c)) (ac_nlen c).

Section Aead.
Context `{AeadCrypto}.

(** [encrypt_inplace_with_slice]: the last 16 bytes of [buffer] are room for the
tag.  A shorter buffer panics ([buffer.len() - 16] underflows, or
[split_at_mut] is out of bounds). *)
Definition encrypt_inplace_with_slice (a : CipherAlg) (key nonce aad buffer : bytes) : res bytes :=
  if decide (length buffer < TAG_SIZE) then Panic
  else
    let msg := take (length buffer - TAG_SIZE) buffer in
    let '(c, x) := aead_seal a key nonce aad msg in
    Ok (c ++ x).

(** [decrypt_inplace_with_slice]: the message on success ([true]), and [None]
([false]) when the tag does not verify. *)
Definition decrypt_inplace_with_slice (a : CipherAlg) (key nonce aad buffer : bytes) : res (option bytes) :=
  if decide (length buffer < TAG_SIZE) then Panic
  else
    let tag_pos := length buffer - TAG_SIZE in
    Ok (aead_open a key nonce aad (take tag_pos buffer) (drop tag_pos buffer)).

(** [CipherKind::new]: [key.into()] panics on a key of the wrong length. *)
Definition CipherKind_new (k : CipherKind) (sub_key : bytes) : res (CipherAlg * bytes) :=
  match k with
  | CipherKind_None => Panic
  | Aes128Gcm => if decide (length sub_key = 16) then Ok (AlgAes128Gcm, sub_key) else Panic
  | Aes256Gcm => if decide (length sub_key = 32) then Ok (AlgAes256Gcm, sub_key) else Panic
  | ChaCha20Poly1305 => if decide (length sub_key = 32) then Ok (AlgChaCha20Poly1305, sub_key) else Panic
  end.

Definition ss_hkdf_sha1 (iv_or_salt key : bytes) : bytes := hkdf_sha1 iv_or_salt key (str "ss-subkey") 64.

Definition AeadCipher_new (kind : CipherKind) (key iv_or_salt : bytes) : res AeadCipher :=
  let sub_key := ss_hkdf_sha1 iv_or_salt key in
  if decide (length sub_key < length key) then Panic
  else
    '(a, k) ← CipherKind_new kind (take (length key) sub_key);
    Ok (mkAeadCipher a k (repeat x00 24) (nonce_len kind)).

(** [encrypt] and [decrypt] use the nonce, then increase it, also when the tag
is wrong. *)
Definition AeadCipher_encrypt (c : AeadCipher) (buffer : bytes) : res bytes * AeadCipher :=
  (encrypt_inplace_with_slice (ac_alg c) (ac_key c) (take (ac_nlen c) (ac_nonce c)) [] buffer,
    cipher_increase_nonce c).

Definition AeadCipher_decrypt (c : AeadCipher) (buffer : bytes) : res (option bytes) * AeadCipher :=
  (decrypt_inplace_with_slice (ac_alg c) (ac_key c) (take (ac_nlen c) (ac_nonce c)) [] buffer,
    cipher_increase_nonce c).

(** [openssl_bytes_to_key]: the chain of digests of the password, cut to the
length of the key; an iteration fills 16 bytes. *)
Fixpoint bytes_to_key_loop (fuel : nat) (password : bytes) (last_digest : option bytes) (key_len offset : nat)
  (key : bytes) : bytes :=
  if decide (offset < key_len) then
    match fuel with
    | O => key
    | S f =>
      let digest := md5 (default [] last_digest ++ password) in
      let amt := Nat.min (key_len - offset) 16 in
      bytes_to_key_loop f password (Some digest) key_len (offset + 16)
      (take offset key ++ take amt digest ++ drop (offset + amt) key)
    end
  else key.

Definition openssl_bytes_to_key (password : bytes) (key : bytes) : bytes :=
  bytes_to_key_loop (length key) password None (length key) 0 key.

(** ** The nonce is a counter *)

Lemma shiftr_8 c : Z.shiftr c 8 = (c / 256)%Z.
Proof. by rewrite Z.shiftr_div_pow2. Qed.

Lemma le_val_cons b l : le_val (b :: l) = (b2z b + 256 * le_val l)%Z.
Proof.
  unfold le_val. simpl. unfold be_val at 1. rewrite fold_left_app. cbn [fold_left].
  change (fold_left (fun acc b0 => acc * 256 + b2z b0)%Z (rev l) 0%Z) with (be_val (rev l)). lia.
Qed.

Lemma le_val_range l : (0 <= le_val l < 256 ^ Z.of_nat (length l))%Z.
Proof. unfold le_val. pose proof (be_val_range (rev l)) as Hr. by rewrite length_rev in Hr. Qed.

Lemma increase_loop_val k c l :
  k <= length l -> (0 <= c)%Z ->
  le_val (take k (increase_loop k c l)) = ((le_val (take k l) + c) mod 256 ^ Z.of_nat k)%Z.
Proof.
  revert c l. induction k as [|k IH]; intros c [|b l] Hk Hc; simpl in *; try lia.
  - by rewrite Z.mod_1_r.
  - by rewrite Z.mod_1_r.
  - pose proof (b2z_range b).
    rewrite !le_val_cons, b2z_z2b, shiftr_8, IH by (first [lia | apply Z.div_pos; lia]).
    pose proof (le_val_range (take k l)).
    assert (0 < 256 ^ Z.of_nat k)%Z by (apply Z.pow_pos_nonneg; lia).
    replace (256 ^ Z.of_nat (S k))%Z with (256 * 256 ^ Z.of_nat k)%Z
      by (rewrite Nat2Z.inj_succ, Z.pow_succ_r by lia; lia).
    rewrite (Z.rem_mul_r (_ + _)) by lia.
    replace (b2z b + 256 * le_val (take k l) + c)%Z with (c + b2z b + le_val (take k l) * 256)%Z by lia.
    rewrite Z.mod_add, Z.div_add by lia. f_equal. f_equal. f_equal. lia.
Qed.

Lemma increase_nonce_val n nonce :
  1 <= n <= length nonce ->
  le_val (take n (increase_nonce n nonce)) = ((le_val (take n nonce) + 1) mod 256 ^ Z.of_nat n)%Z.
Proof.
  intros Hn. destruct nonce as [|b l]; simpl in Hn; [lia|].
  pose proof (increase_loop_val n 1 (b :: l)) as Hv. destruct n as [|n]; [lia|].
  simpl in Hv. simpl. rewrite Nat.sub_0_r, (Z.add_comm (b2z b)). apply Hv; lia.
Qed.

Lemma length_increase_nonce n nonce : length (increase_nonce n nonce) = length nonce.
Proof.
  assert (forall k c l, length (increase_loop k c l) = length l) as Hl.
  { induction k as [|k IH]; intros c [|b l]; simpl; auto. }
  destruct nonce; simpl; auto.
Qed.

Lemma le_val_inj l1 l2 : length l1 = length l2 -> le_val l1 = le_val l2 -> l1 = l2.
Proof.
  intros Hl Hv. rewrite <- (rev_involutive l1), <- (rev_involutive l2). f_equal.
  apply be_val_inj; [by rewrite !length_rev|done].
Qed.

(** The nonce of the [i]-th use of a cipher. *)
Definition nth_nonce (c : AeadCipher) (i : nat) : bytes :=
  take (ac_nlen c) (ac_nonce (Nat.iter i cipher_increase_nonce c)).

Lemma iter_cipher c i :
  ac_alg (Nat.iter i cipher_increase_nonce c) = ac_alg c /\ ac_key (Nat.iter i cipher_increase_nonce c) = ac_key c
  /\ ac_nlen (Nat.iter i cipher_increase_nonce c) = ac_nlen c
  /\ length (ac_nonce (Nat.iter i cipher_increase_nonce c)) = length (ac_nonce c).
Proof. induction i as [|i IH]; simpl; [done|]. rewrite length_increase_nonce. intuition. Qed.

Lemma nth_nonce_val c i :
  1 <= ac_nlen c <= length (ac_nonce c) ->
  le_val (nth_nonce c i) = ((le_val (nth_nonce c 0) + Z.of_nat i) mod 256 ^ Z.of_nat (ac_nlen c))%Z.
Proof.
  intros Hn. unfold nth_nonce. induction i as [|i IH].
  - rewrite Z.add_0_r. simpl. rewrite Z.mod_small; [done|].
    pose proof (le_val_range (take (ac_nlen c) (ac_nonce c))) as Hr. rewrite length_take, Nat.min_l in Hr by lia. done.
  - destruct (iter_cipher c i) as (_ & _ & Hlen & Hl).
    change (Nat.iter (S i) cipher_increase_nonce c) with (cipher_increase_nonce (Nat.iter i cipher_increase_nonce c)).
    cbn [cipher_increase_nonce ac_nonce].
    rewrite Hlen, increase_nonce_val by (rewrite Hl; lia). rewrite IH.
    rewrite Zplus_mod_idemp_l. f_equal. lia.
Qed.

(** ** Sealing and opening *)

Lemma AeadCipher_encrypt_ok c buffer :
  16 <= length buffer ->
  exists out, fst (AeadCipher_encrypt c buffer) = Ok out /\ length out = length buffer
  /\ fst (AeadCipher_decrypt c out) = Ok (Some (take (length buffer - 16) buffer)).
Proof.
  intros Hb. unfold AeadCipher_encrypt, AeadCipher_decrypt, encrypt_inplace_with_slice, decrypt_inplace_with_slice.
  unfold TAG_SIZE. cbn [fst]. rewrite decide_False by lia.
  set (m := take (length buffer - 16) buffer).
  pose proof (aead_seal_length (ac_alg c) (ac_key c) (take (ac_nlen c) (ac_nonce c)) [] m) as [Hl Ht].
  pose proof (aead_open_seal (ac_alg c) (ac_key c) (take (ac_nlen c) (ac_nonce c)) [] m) as Ho.
  destruct (aead_seal _ _ _ _ m) as [ct tg]. simpl in *.
  assert (length m = length buffer - 16) as Hm by (unfold m; rewrite length_take; lia).
  exists (ct ++ tg). split; [done|]. rewrite length_app. split; [lia|].
  rewrite decide_False by lia.
  destruct (take_drop_app_eq (length ct + length tg - 16) (ct ++ tg) ct tg) as [-> ->]; [done|lia|]. by rewrite Ho.
Qed.

Lemma AeadCipher_decrypt_length c buffer m :
  fst (AeadCipher_decrypt c buffer) = Ok (Some m) -> length buffer = length m + 16.
Proof.
  unfold AeadCipher_decrypt, decrypt_inplace_with_slice, TAG_SIZE. cbn [fst]. case_decide; [done|].
  intros [= Ho]. apply aead_open_length in Ho. rewrite length_take in Ho. lia.
Qed.

Lemma AeadCipher_decrypt_cases c buffer :
  16 <= length buffer -> exists o, fst (AeadCipher_decrypt c buffer) = Ok o.
Proof.
  intros. unfold AeadCipher_decrypt, decrypt_inplace_with_slice, TAG_SIZE. cbn [fst].
  rewrite decide_False by lia. eauto.
Qed.

(** ** Key derivation *)

(** The digest chain of [EVP_BytesToKey] with one iteration and no salt. *)
Fixpoint digest_chain (n : nat) (password last : bytes) : bytes :=
  match n with
  | O => []
  | S n' => let d := md5 (last ++ password) in d ++ digest_chain n' password d
  end.

Lemma bytes_to_key_loop_spec fuel password last key_len offset key :
  length key = key_len -> key_len <= fuel * 16 + offset ->
  bytes_to_key_loop fuel password last key_len offset key
  = take offset key ++ take (key_len - offset) (digest_chain fuel password (default [] last)).
Proof.
  revert last offset key. induction fuel as [|f IH]; intros last offset key Hk Hf; cbn [bytes_to_key_loop];
    (case_decide; [|by rewrite (take_ge key), (proj2 (Nat.sub_0_le _ _)), take_0, app_nil_r by lia]).
  - lia.
  - set (d := md5 _). pose proof (md5_length (default [] last ++ password)) as Hd. fold d in Hd.
    rewrite IH; [|rewrite !length_app, !length_take, length_drop; lia|lia].
    cbn [digest_chain default]. fold d. rewrite (take_app d), Hd.
    destruct (Nat.le_ge_cases (key_len - offset) 16).
    + rewrite Nat.min_l by lia. rewrite (drop_ge key) by lia. rewrite app_nil_r.
      rewrite (proj2 (Nat.sub_0_le key_len (offset + 16))), (proj2 (Nat.sub_0_le (key_len - offset) 16)), !take_0, !app_nil_r by lia.
      rewrite take_ge; [done|]. rewrite length_app, !length_take. lia.
    + rewrite Nat.min_r, (take_ge d 16), (take_ge d) by lia. rewrite app_assoc, take_app_length'.
      * rewrite <- app_assoc. do 2 f_equal. f_equal. lia.
      * rewrite length_app, length_take. lia.
Qed.

(** ** Properties *)

(** The nonces of a cipher are those of the protocol and never repeat
within its range: the [i]-th message of a stream is sealed under the
little-endian counter [i] in [nlen] bytes, so two messages among the first
[2^96] have different nonces. *)
Theorem nonce_is_counter kind key salt c :
  AeadCipher_new kind key salt = Ok c ->
  (forall i, le_val (nth_nonce c i) = (Z.of_nat i mod 2 ^ 96)%Z /\ length (nth_nonce c i) = 12) /\
  (forall i j, (Z.of_nat i < 2 ^ 96)%Z -> (Z.of_nat j < 2 ^ 96)%Z -> nth_nonce c i = nth_nonce c j -> i = j).
Proof.
  intros E.
  assert (ac_nlen c = 12 /\ ac_nonce c = repeat x00 24) as [Hn Hz].
  { unfold AeadCipher_new in E. destruct (decide _); [done|].
    destruct kind; simpl in E; try case_decide; simplify_eq/=; done. }
  assert (forall i, le_val (nth_nonce c i) = (Z.of_nat i mod 2 ^ 96)%Z) as Hv.
  { intros i. rewrite nth_nonce_val by (rewrite Hn, Hz; simpl; lia). unfold nth_nonce at 1. simpl Nat.iter.
    by rewrite Hn, Hz. }
  split.
  - intros i. split; [done|]. unfold nth_nonce. destruct (iter_cipher c i) as (_ & _ & _ & Hl).
    rewrite length_take, Hl, Hn, Hz. done.
  - intros i j Hi Hj E'. apply (f_equal le_val) in E'. rewrite !Hv, !Z.mod_small in E' by lia. lia.
Qed.

(** [openssl_bytes_to_key] fills the whole key with the prefix of the
digest chain MD5(p), MD5(d1 ++ p), MD5(d2 ++ p), ..., whatever the key
held. *)
Theorem openssl_bytes_to_key_chain password key :
  openssl_bytes_to_key password key = take (length key) (digest_chain (length key) password []).
Proof.
  unfold openssl_bytes_to_key. rewrite bytes_to_key_loop_spec by lia. by rewrite take_0, Nat.sub_0_r.
Qed.
End Aead.

(** ** An instance for the witnesses *)

Definition toy_tag (k n : bytes) : bytes := take 16 (k ++ n ++ repeat x00 16).

Program Definition toy_crypto : AeadCrypto := {|
  aead_seal a k n ad m := (m, toy_tag k n);
  aead_open a k n ad c t := if decide (t = toy_tag k n) then Some c else None;
  hkdf_sha1 s k i n := take n (s ++ k ++ repeat x00 n);
  md5 m := take 16 (m ++ repeat x00 16)
|}.
Next Obligation. intros. split; [done|]. simpl. unfold toy_tag. rewrite length_take, !length_app, repeat_length. lia. Qed.
Next Obligation. intros a k n ad c t m E. simpl in E. case_decide; [|done]. congruence. Qed.
Next Obligation. intros. simpl. by rewrite decide_True. Qed.
Next Obligation. intros. simpl. rewrite length_take, !length_app, repeat_length. lia. Qed.
Next Obligation. intros. simpl. rewrite length_take, length_app. cbn [length]. lia. Qed.

(** ** Witnesses *)

#[local] Existing Instance toy_crypto.

Lemma nonce_is_counter_witness :
  exists c, AeadCipher_new Aes128Gcm (repeat x01 16) (repeat x02 16) = Ok c /\
    le_val (nth_nonce c 300) = 300%Z.
Proof.
  eexists. split; [reflexivity|].
  match goal with |- le_val (nth_nonce ?c 300) = _ =>
    destruct (nonce_is_counter Aes128Gcm (repeat x01 16) (repeat x02 16) c) as [Hv _]; [reflexivity|] end.
  rewrite (proj1 (Hv 300)). reflexivity.
Defined.
