(* ===== verification/FrameReader.v ===== *)
(** * Readers of encrypted frames

    The generator that src/src/proxy/shadowsocks/aead.rs and
    src/src/proxy/vmess/aead.rs share, [poll_read_decrypted]: read a header of
    fixed length, read the payload it announces, decrypt it and hand it out
    as the destination has room.  What differs, the header and the ciphers, is
    the class [FrameFormat]; ShadowStream.v and VmessStream.v give the
    instances.

    [co_await] returns [Pending] to the poller and repeats the awaited poll on
    the next call; [co_yield] returns, and the next call continues behind it;
    [return] and `?` end the generator, which then answers the [ret_val] of
    its attribute.  The resume point is the field [state].

    The specification is [decode]: the plaintext of the frames of the
    received bytes, and how the frames end. *)

From S2P Require Import Prelude Io.
From Stdlib Require Import ZArith Lia List.
From stdpp Require Import base option list strings.

Class FrameFormat (C : Type) := {
  ff_header_len : nat;
  ff_header_len_pos : 0 < ff_header_len;
  (* the length of payload and tag that a header announces *)
  ff_header : C -> bytes -> res nat * C;
  (* payload without its tag; [None]: the tag does not verify *)
  ff_payload : C -> bytes -> res (option bytes) * C;
  ff_payload_length c l m c' : ff_payload c l = (Ok (Some m), c') -> length l = length m + 16
}.

Definition err_aead_tag : io_error := IoError Other "invalid aead tag".

Inductive dec_state := DecLength | DecPayload | DecYield | DecDone.

(** The fields of both readers; [minimal_data_to_put] and [read_res] are set
    before they are read, within one poll. *)
Record DecryptedReader (C : Type) := mkDecryptedReader {
  dr_buffer : bytes;
  dr_cipher : C;
  dr_state : dec_state;
  dr_data_length : nat;
  dr_read_zero : bool
}.
Arguments mkDecryptedReader {C} _ _ _ _ _.
Arguments dr_buffer {C} _.
Arguments dr_cipher {C} _.
Arguments dr_state {C} _.
Arguments dr_data_length {C} _.
Arguments dr_read_zero {C} _.

(** What a part of the body does: answer the poll, or go on. *)
Inductive dec_flow (R C : Type) :=
| DecReturn (p : Poll (res bytes)) (s : R) (st : DecryptedReader C)
| DecGo (s : R) (st : DecryptedReader C).
Arguments DecReturn {R C} _ _ _.
Arguments DecGo {R C} _ _.

(** How a sequence of frames ends. *)
Inductive ending := EndShort | EndErr (e : io_error) | EndPanic.

(** *** The body, over any inner stream

The stream is known by its [read_at_least]: on the scripts of Io.v it is the
loop there; Stack.v reads through another layer. *)
Section Body.
Context {C : Type} `{FrameFormat C}.
Context {R : Type} (read_at_least : R -> bytes -> bool -> nat -> Poll (res unit) * R * bytes * bool).
Implicit Type st : DecryptedReader C.

Definition dec_end (p : Poll (res bytes)) (s : R) (st : DecryptedReader C) : dec_flow R C :=
  DecReturn p s (mkDecryptedReader (dr_buffer st) (dr_cipher st) DecDone (dr_data_length st) (dr_read_zero st)).

(** The test of the inner [while], its body up to [co_yield] when there is
room and data, and the end of the loop otherwise: the tag is dropped. *)
Definition dec_yield (cap : nat) (s : R) (st : DecryptedReader C) : dec_flow R C :=
  let n := Nat.min (dr_data_length st) cap in
  if decide (n <> 0)
  then DecReturn (Ready (Ok (take n (dr_buffer st)))) s
  (mkDecryptedReader (drop n (dr_buffer st)) (dr_cipher st) DecYield (dr_data_length st - n) (dr_read_zero st))
  else DecGo s (mkDecryptedReader (drop 16 (dr_buffer st)) (dr_cipher st) DecLength (dr_data_length st) (dr_read_zero st)).

(** From the second [co_await]. *)
Definition dec_payload (cap : nat) (s : R) (st : DecryptedReader C) : dec_flow R C :=
  let '(p, s, b, z) := read_at_least s (dr_buffer st) (dr_read_zero st) (dr_data_length st) in
  let st := mkDecryptedReader b (dr_cipher st) DecPayload (dr_data_length st) z in
  match p with
  | Pending => DecReturn Pending s st
  | Ready Panic => dec_end (Ready Panic) s st
  | Ready (Err e) => dec_end (Ready (if z then Ok [] else Err e)) s st
  | Ready (Ok _) =>
    let '(r, c) := ff_payload (dr_cipher st) (take (dr_data_length st) b) in
    match r with
    | Ok (Some m) =>
      dec_yield cap s (mkDecryptedReader (m ++ drop (length m) b) c DecYield (dr_data_length st - 16) z)
    | Ok None => dec_end (Ready (Err err_aead_tag)) s (mkDecryptedReader b c DecPayload (dr_data_length st) z)
    | Err e => dec_end (Ready (Err e)) s st
    | Panic => dec_end (Ready Panic) s st
    end
  end.

(** From the head of the loop. *)
Definition dec_head (cap : nat) (s : R) (st : DecryptedReader C) : dec_flow R C :=
  let '(p, s, b, z) := read_at_least s (dr_buffer st) (dr_read_zero st) ff_header_len in
  let st := mkDecryptedReader b (dr_cipher st) DecLength (dr_data_length st) z in
  match p with
  | Pending => DecReturn Pending s st
  | Ready Panic => dec_end (Ready Panic) s st
  | Ready (Err e) => dec_end (Ready (if z then Ok [] else Err e)) s st
  | Ready (Ok _) =>
    let '(r, c) := ff_header (dr_cipher st) (take ff_header_len b) in
    let st := mkDecryptedReader b c DecLength (dr_data_length st) z in
    match r with
    | Ok len => dec_payload cap s (mkDecryptedReader (drop ff_header_len b) c DecPayload len z)
    | Err e => dec_end (Ready (Err e)) s st
    | Panic => dec_end (Ready Panic) s st
    end
  end.

Definition dec_resume (cap : nat) (s : R) (st : DecryptedReader C) : dec_flow R C :=
  match dr_state st with
  | DecLength => dec_head cap s st
  | DecPayload => dec_payload cap s st
  | DecYield => dec_yield cap s st
  | DecDone => DecReturn (Ready (Err unexpected_eof)) s st
  end.

(** [poll_read_decrypted]: the answer carries the bytes put into [dst], which
has room for [cap].  A turn of the loop takes at least a tag from the
received bytes, so their number is enough fuel. *)
Fixpoint dec_loop (fuel : nat) (cap : nat) (s : R) (st : DecryptedReader C)
  : Poll (res bytes) * R * DecryptedReader C :=
  match fuel with
  | O => (Ready Panic, s, st)
  | S f =>
    match dec_resume cap s st with
    | DecReturn p s st => (p, s, st)
    | DecGo s st => dec_loop f cap s st
    end
  end.
End Body.

Section FrameReader.
Context {C : Type} `{FrameFormat C}.
Implicit Type st : DecryptedReader C.

Definition poll_read_decrypted (cap : nat) (s : rd_script) (st : DecryptedReader C)
  : Poll (res bytes) * rd_script * DecryptedReader C :=
  dec_loop read_at_least (S (length (dr_buffer st) + length (rd_bytes s))) cap s st.

(** ** Specification *)

Definition header_step (c : C) (l : bytes) : (nat * C * bytes) + ending :=
  if decide (length l < ff_header_len) then inr EndShort
  else match ff_header c (take ff_header_len l) with
  | (Ok n, c') => inl (n, c', drop ff_header_len l)
  | (Err e, _) => inr (EndErr e)
  | (Panic, _) => inr EndPanic
  end.

Definition payload_step (c : C) (n : nat) (l : bytes) : (bytes * C * bytes) + ending :=
  if decide (length l < n) then inr EndShort
  else match ff_payload c (take n l) with
  | (Ok (Some m), c') => inl (m, c', drop n l)
  | (Ok None, _) => inr (EndErr err_aead_tag)
  | (Err e, _) => inr (EndErr e)
  | (Panic, _) => inr EndPanic
  end.

Definition out_app (m : bytes) (o : bytes * ending) : bytes * ending := (m ++ o.1, o.2).

Fixpoint decode_loop (fuel : nat) (c : C) (l : bytes) : bytes * ending :=
  match fuel with
  | O => ([], EndShort)
  | S f =>
    match header_step c l with
    | inl (n, c1, l1) =>
      match payload_step c1 n l1 with
      | inl (m, c2, l2) => out_app m (decode_loop f c2 l2)
      | inr e => ([], e)
      end
    | inr e => ([], e)
    end
  end.

Definition decode (c : C) (l : bytes) : bytes * ending := decode_loop (S (length l)) c l.

(** Polls of a reader with the given room. *)
Fixpoint read_polls (caps : list nat) (s : rd_script) (st : DecryptedReader C)
  : list (Poll (res bytes)) * rd_script * DecryptedReader C :=
  match caps with
  | [] => ([], s, st)
  | cap :: caps =>
    let '(p, s, st) := poll_read_decrypted cap s st in
    let '(ps, s, st) := read_polls caps s st in
    (p :: ps, s, st)
  end.

Definition poll_data (p : Poll (res bytes)) : bytes := match p with Ready (Ok d) => d | _ => [] end.

(** A poll that ends the stream for its caller. *)
Definition poll_final (p : Poll (res bytes)) : bool :=
  match p with Ready (Ok []) => true | Ready (Err _) => true | Ready Panic => true | _ => false end.

(** What a reader will still deliver, and the end it will see. *)
Definition future (st : DecryptedReader C) (s : rd_script) : bytes * ending :=
  let l := dr_buffer st ++ rd_bytes s in
  match dr_state st with
  | DecLength => decode (dr_cipher st) l
  | DecPayload =>
    match payload_step (dr_cipher st) (dr_data_length st) l with
    | inl (m, c, l) => out_app m (decode c l)
    | inr e => ([], e)
    end
  | DecYield => out_app (take (dr_data_length st) l) (decode (dr_cipher st) (drop (dr_data_length st + 16) l))
  | DecDone => ([], EndShort)
  end.

Definition reader_ok (st : DecryptedReader C) : Prop :=
  match dr_state st with
  | DecYield => dr_data_length st + 16 <= length (dr_buffer st)
  | _ => True
  end.

(** ** Lemmas on the specification *)

Lemma header_step_shrink c l n c' l' : header_step c l = inl (n, c', l') -> length l = length l' + ff_header_len.
Proof.
  unfold header_step. case_decide; [done|].
  destruct (ff_header c _) as [[m|e|] c1]; intros; simplify_eq. rewrite length_drop. lia.
Qed.

Lemma payload_step_shrink c n l m c' l' :
  payload_step c n l = inl (m, c', l') -> length l = length l' + n /\ n = length m + 16.
Proof.
  unfold payload_step. case_decide; [done|].
  destruct (ff_payload c (take n l)) as [[[p|]|e|] c1] eqn:E; intros; simplify_eq.
  rewrite length_drop. split; [lia|]. apply ff_payload_length in E. rewrite length_take in E. lia.
Qed.

Lemma decode_loop_fuel f1 f2 c l :
  length l < f1 -> length l < f2 -> decode_loop f1 c l = decode_loop f2 c l.
Proof.
  revert f2 c l. induction f1 as [|f1 IH]; intros [|f2] c l H1 H2; simpl; try lia.
  destruct (header_step c l) as [[[n c1] l1]|] eqn:E; [|done]. apply header_step_shrink in E.
  destruct (payload_step c1 n l1) as [[[m c2] l2]|] eqn:E'; [|done]. apply payload_step_shrink in E'.
  f_equal. apply IH; lia.
Qed.

Lemma decode_unfold c l :
  decode c l = match header_step c l with
  | inl (n, c1, l1) =>
    match payload_step c1 n l1 with
    | inl (m, c2, l2) => out_app m (decode c2 l2)
    | inr e => ([], e)
    end
  | inr e => ([], e)
  end.
Proof.
  unfold decode at 1. cbn [decode_loop].
  destruct (header_step c l) as [[[n c1] l1]|] eqn:E; [|done]. apply header_step_shrink in E.
  destruct (payload_step c1 n l1) as [[[m c2] l2]|] eqn:E'; [|done]. apply payload_step_shrink in E'.
  f_equal. apply decode_loop_fuel; lia.
Qed.

Lemma out_app_app a b o : out_app a (out_app b o) = out_app (a ++ b) o.
Proof. unfold out_app. simpl. by rewrite app_assoc. Qed.

Lemma out_app_nil o : out_app [] o = o.
Proof. by destruct o. Qed.

Lemma decode_length c l : length (decode c l).1 <= length l.
Proof.
  remember (length l) as n eqn:Hn. revert c l Hn. induction (lt_wf n) as [n _ IH]. intros c l ->. rewrite decode_unfold.
  destruct (header_step c l) as [[[m c1] l1]|e] eqn:Eh; [|simpl; lia]. apply header_step_shrink in Eh. pose proof ff_header_len_pos.
  destruct (payload_step c1 m l1) as [[[d c2] l2]|e] eqn:Ep; [|simpl; lia]. apply payload_step_shrink in Ep.
  cbn [fst out_app]. rewrite length_app. pose proof (IH (length l2) ltac:(lia) c2 l2 eq_refl). lia.
Qed.

(** ** One turn of the reader *)

(** The bytes a turn or a poll may still take. *)
Definition stock (st : DecryptedReader C) (s : rd_script) : nat := length (dr_buffer st) + length (rd_bytes s).

(** An answer, against the future it had: an error is that of the frames, or
of the stream, or that of a reader that has ended ([over]). *)
Definition answer_ok (f : bytes * ending) (over : Prop) (s : rd_script) (cap : nat) (p : Poll (res bytes)) (s' : rd_script)
  (st' : DecryptedReader C) : Prop :=
  s' `suffix_of` s /\
  match p with
  | Pending => f = future st' s' /\ length s' < length s /\ dr_state st' <> DecDone
  | Ready (Ok []) => f = ([], EndShort) /\ dr_state st' = DecDone
  | Ready (Ok d) => length d <= cap /\ f = out_app d (future st' s') /\ dr_state st' <> DecDone
  | Ready (Err e) => (f = ([], EndErr e) \/ f = ([], EndShort) /\ (RdErr e ∈ s \/ over)) /\ dr_state st' = DecDone
  | Ready Panic => f = ([], EndPanic) /\ dr_state st' = DecDone
  end.

(** What a turn guarantees when the destination has room. *)
Definition flow_ok (st : DecryptedReader C) (s : rd_script) (cap : nat) (f : dec_flow rd_script C) : Prop :=
  match f with
  | DecReturn p s' st' => reader_ok st' /\ answer_ok (future st s) (dr_state st = DecDone) s cap p s' st'
  | DecGo s' st' => s' `suffix_of` s /\ reader_ok st' /\ future st s = future st' s' /\ dr_state st' = DecLength /\ stock st' s' < stock st s
  end.

Arguments flow_ok : simpl never.

(** A turn that goes on from a later state. *)
Lemma flow_ok_from st s st1 s1 cap f :
  future st s = future st1 s1 -> s1 `suffix_of` s -> stock st1 s1 <= stock st s -> dr_state st1 <> DecDone ->
  flow_ok st1 s1 cap f -> flow_ok st s cap f.
Proof.
  intros Hf Hs Hst Hd. unfold flow_ok, answer_ok. rewrite Hf. destruct f as [p s' st'|s' st'].
  - intros (Hok & Hs' & Ha). split; [done|]. split; [by etrans|]. pose proof (suffix_length _ _ Hs).
    destruct p as [[[|x d]|e|]|]; [exact Ha..| |exact Ha|].
    + destruct Ha as [[->|[-> [He|He]]] Hst']; [by auto| |done]. split; [|done]. right. split; [done|]. left.
      destruct Hs as [k ->]. apply elem_of_app. by right.
    + destruct Ha as (? & ? & ?). split_and!; [done|lia|done].
  - intros (Hs' & Hok & Ha & Hd' & Hst'). split_and!; [by etrans|done..|lia].
Qed.

Lemma future_done st s : dr_state st = DecDone -> future st s = ([], EndShort).
Proof. unfold future. by intros ->. Qed.

Lemma dec_yield_ok st s cap :
  dr_state st = DecYield -> reader_ok st -> 0 < cap -> flow_ok st s cap (dec_yield cap s st).
Proof.
  intros Hs Hb Hcap. unfold reader_ok in Hb. rewrite Hs in Hb. unfold dec_yield. case_decide as Hn.
  - unfold flow_ok, reader_ok. simpl. split; [rewrite length_drop; lia|].
    assert (future st s = out_app (take (Nat.min (dr_data_length st) cap) (dr_buffer st))
      (future (mkDecryptedReader (drop (Nat.min (dr_data_length st) cap) (dr_buffer st)) (dr_cipher st) DecYield
      (dr_data_length st - Nat.min (dr_data_length st) cap) (dr_read_zero st)) s)) as Hf.
    { unfold future. simpl. rewrite Hs, out_app_app. f_equal.
      - rewrite (take_app_le (dr_buffer st)), (take_app_le (drop _ _)) by (rewrite ?length_drop; lia).
        rewrite <- (take_drop (Nat.min (dr_data_length st) cap) (take _ (dr_buffer st))) at 1.
        rewrite take_take, Nat.min_l by lia. f_equal. rewrite <- skipn_firstn_comm. done.
      - f_equal. rewrite <- (drop_app_le (dr_buffer st)), drop_drop by lia. f_equal. lia. }
    unfold answer_ok. destruct (take _ (dr_buffer st)) as [|x d] eqn:Ed.
    + apply (f_equal length) in Ed. rewrite length_take in Ed. simpl in Ed. lia.
    + rewrite <- Ed at 1. rewrite length_take. split; [done|]. split_and!; [lia|done..].
  - assert (dr_data_length st = 0) as Hz by lia. unfold flow_ok, reader_ok, future, stock. simpl.
    rewrite Hs, Hz, length_drop. split_and!; try done; [|lia].
    simpl. rewrite out_app_nil. by rewrite <- drop_app_le by lia.
Qed.

Lemma dec_payload_ok st s cap :
  dr_state st = DecPayload -> 0 < cap ->
  flow_ok st s cap (dec_payload read_at_least cap s st).
Proof.
  intros Hs Hcap. unfold dec_payload.
  destruct (read_at_least s (dr_buffer st) (dr_read_zero st) (dr_data_length st)) as [[[p s1] b] z] eqn:Er.
  pose proof (read_at_least_suffix _ _ _ _ _ _ _ _ Er) as [Hsuf Herr].
  apply read_at_least_spec in Er. destruct p as [[[]|e|]|]; cbn [dr_cipher dr_data_length dr_read_zero].
  - destruct Er as (Hlen & Hb1 & -> & _).
    assert (future st s = match ff_payload (dr_cipher st) (take (dr_data_length st) b) with
      | (Ok (Some m), c') => out_app m (decode c' (drop (dr_data_length st) (b ++ rd_bytes s1)))
      | (Ok None, _) => ([], EndErr err_aead_tag) | (Err e, _) => ([], EndErr e) | (Panic, _) => ([], EndPanic) end) as Hf.
    { unfold future. rewrite Hs, <- Hb1. unfold payload_step.
      rewrite decide_False by (rewrite length_app; lia). rewrite take_app_le by lia.
      by destruct (ff_payload _ _) as [[[]| |] ?]. }
    destruct (ff_payload _ _) as [[[m|]|e|] c1] eqn:E; try (unfold flow_ok, dec_end, answer_ok, reader_ok; simpl; rewrite Hf; by auto 10).
    apply ff_payload_length in E. rewrite length_take in E.
    match goal with |- flow_ok _ _ _ (dec_yield _ _ ?st2) => assert (future st s = future st2 s1 /\ stock st2 s1 = stock st s) as [Hf2 Hst];
      [|assert (reader_ok st2) as Hok; [|pose proof (dec_yield_ok st2 s1 cap eq_refl Hok Hcap) as Hflow]] end.
    + rewrite Hf. unfold future, stock. simpl. rewrite Nat.sub_add by lia.
      replace (dr_data_length st - 16) with (length m) by lia.
      rewrite <- app_assoc, take_app_length. split.
      * f_equal. f_equal. replace (dr_data_length st) with (length m + 16) by lia. rewrite <- (drop_drop (m ++ _) 16), drop_app_length.
        rewrite <- (drop_app_le b) by lia. by rewrite drop_drop.
      * apply (f_equal length) in Hb1. rewrite !length_app in *. rewrite length_drop. lia.
    + unfold reader_ok. simpl. rewrite length_app, length_drop. lia.
    + eapply flow_ok_from; [exact Hf2|done|lia|done|exact Hflow].
  - destruct Er as (Hlen & -> & _).
    assert (future st s = ([], EndShort)) as Hf.
    { unfold future. rewrite Hs. unfold payload_step. by rewrite decide_True by done. }
    destruct (Herr e eq_refl) as [->|Hin]; unfold flow_ok, dec_end, answer_ok, reader_ok; rewrite Hf; [|destruct z]; simpl; auto 10.
  - done.
  - destruct Er as (Hlen & Hb1 & -> & Hl). unfold flow_ok, answer_ok, reader_ok. split; [done|]. split; [done|]. split_and!; [|done..].
    unfold future. simpl. by rewrite Hs, Hb1.
Qed.

Lemma dec_head_ok st s cap :
  dr_state st = DecLength -> 0 < cap -> flow_ok st s cap (dec_head read_at_least cap s st).
Proof.
  intros Hs Hcap. unfold dec_head.
  destruct (read_at_least s (dr_buffer st) (dr_read_zero st) ff_header_len) as [[[p s1] b] z] eqn:Er.
  pose proof (read_at_least_suffix _ _ _ _ _ _ _ _ Er) as [Hsuf Herr].
  apply read_at_least_spec in Er. destruct p as [[[]|e|]|]; cbn [dr_cipher].
  - destruct Er as (Hlen & Hb1 & -> & _).
    assert (future st s = match ff_header (dr_cipher st) (take ff_header_len b) with
      | (Ok n, c1) => match payload_step c1 n (drop ff_header_len (b ++ rd_bytes s1)) with
      | inl (m, c2, l2) => out_app m (decode c2 l2) | inr e => ([], e) end
      | (Err e, _) => ([], EndErr e) | (Panic, _) => ([], EndPanic) end) as Hf.
    { unfold future. rewrite Hs, <- Hb1, decode_unfold. unfold header_step.
      rewrite decide_False by (rewrite length_app; lia). rewrite take_app_le by lia.
      by destruct (ff_header _ _) as [[| |] ?]. }
    destruct (ff_header _ _) as [[n|e|] c1] eqn:E; try (unfold flow_ok, dec_end, answer_ok, reader_ok; simpl; rewrite Hf; by auto 10).
    match goal with |- flow_ok _ _ _ (dec_payload read_at_least _ _ ?st2) => assert (future st s = future st2 s1 /\ stock st2 s1 <= stock st s) as [Hf2 Hst];
      [|pose proof (dec_payload_ok st2 s1 cap eq_refl Hcap) as Hflow] end.
    + rewrite Hf. unfold future, stock. simpl. rewrite <- drop_app_le by lia. split; [done|].
      apply (f_equal length) in Hb1. rewrite !length_app in *. rewrite length_drop. lia.
    + eapply flow_ok_from; [exact Hf2|done|lia|done|exact Hflow].
  - destruct Er as (Hlen & -> & _).
    assert (future st s = ([], EndShort)) as Hf.
    { unfold future. rewrite Hs, decode_unfold. unfold header_step. by rewrite decide_True by done. }
    destruct (Herr e eq_refl) as [->|Hin]; unfold flow_ok, dec_end, answer_ok, reader_ok; rewrite Hf; [|destruct z]; simpl; auto 10.
  - done.
  - destruct Er as (Hlen & Hb1 & -> & Hl). unfold flow_ok, answer_ok, reader_ok. split; [done|]. split; [done|]. split_and!; [|done..].
    unfold future. simpl. by rewrite Hs, Hb1.
Qed.

Lemma dec_resume_ok st s cap : reader_ok st -> 0 < cap -> flow_ok st s cap (dec_resume read_at_least cap s st).
Proof.
  intros Hok Hcap. unfold dec_resume. destruct (dr_state st) eqn:E.
  - by apply dec_head_ok.
  - by apply dec_payload_ok.
  - by apply dec_yield_ok.
  - unfold flow_ok, answer_ok. rewrite future_done by done. auto 10.
Qed.

Lemma dec_loop_ok fuel st s cap :
  reader_ok st -> 0 < cap -> stock st s < fuel ->
  let '(p, s', st') := dec_loop read_at_least fuel cap s st in flow_ok st s cap (DecReturn p s' st').
Proof.
  revert st s. induction fuel as [|f IH]; intros st s Hok Hcap Hf; [lia|]. simpl.
  pose proof (dec_resume_ok st s cap Hok Hcap) as Hr. destruct (dec_resume read_at_least cap s st) as [p s' st'|s' st']; [exact Hr|].
  destruct Hr as (Hs & Hok' & Hfut & Hd & Hst).
  specialize (IH st' s' Hok' Hcap ltac:(lia)). destruct (dec_loop read_at_least f cap s' st') as [[p s2] st2].
  eapply flow_ok_from; [exact Hfut|done|lia| |exact IH]. by rewrite Hd.
Qed.

Lemma poll_read_decrypted_ok st s cap :
  reader_ok st -> 0 < cap ->
  let '(p, s', st') := poll_read_decrypted cap s st in
  reader_ok st' /\ answer_ok (future st s) (dr_state st = DecDone) s cap p s' st'.
Proof. intros Hok Hcap. pose proof (dec_loop_ok (S (stock st s)) st s cap Hok Hcap) as Hl. apply Hl. lia. Qed.

(** Once the reader has ended, a poll is an error that carries nothing. *)
Lemma read_polls_done caps st s ps s' st' :
  dr_state st = DecDone -> read_polls caps s st = (ps, s', st') -> flat_map poll_data ps = [] /\ (Ready Panic ∉ ps).
Proof.
  intros Hd. revert ps. induction caps as [|cap caps IH]; intros ps; cbn [read_polls].
  - intros [= <- <- <-]. split; [done|apply not_elem_of_nil].
  - assert (poll_read_decrypted cap s st = (Ready (Err unexpected_eof), s, st)) as ->
      by (unfold poll_read_decrypted; cbn [dec_loop]; unfold dec_resume; by rewrite Hd).
    destruct (read_polls caps s st) as [[ps1 s2] st2]. intros [= <- -> ->]. destruct (IH _ eq_refl) as [Hn ?].
    split; [exact Hn|]. by apply not_elem_of_cons.
Qed.

(** What the first final poll says: end of file is an input that ended, an
error is that of a frame or, before an input ends, that of the stream. *)
Definition final_ok (f : bytes * ending) (s : rd_script) (p : Poll (res bytes)) : Prop :=
  match p with
  | Ready (Ok _) => f.2 = EndShort
  | Ready (Err e) => f.2 = EndErr e \/ f.2 = EndShort /\ RdErr e ∈ s
  | Ready Panic => f.2 = EndPanic
  | Pending => False
  end.

(** A sequence of polls: as long as no poll is final, what is delivered and
what is still to come; each of them shortens the script or delivers.  The
first final poll delivered the rest. *)
Lemma read_polls_run caps st s ps s' st' :
  reader_ok st -> Forall (fun cap => 0 < cap) caps -> dr_state st <> DecDone -> read_polls caps s st = (ps, s', st') ->
  (Forall (fun p => poll_final p = false) ps /\ future st s = out_app (flat_map poll_data ps) (future st' s') /\
    length caps + length s' + length (future st' s').1 <= length s + length (future st s).1) \/
  (exists ps1 p ps2, ps = ps1 ++ p :: ps2 /\ Forall (fun p => poll_final p = false) ps1 /\ poll_final p = true /\
    flat_map poll_data ps = (future st s).1 /\ flat_map poll_data (ps1 ++ [p]) = (future st s).1 /\ final_ok (future st s) s p /\
    (Ready Panic ∈ ps -> p = Ready Panic)).
Proof.
  intros Hok Hc. revert st s ps Hok. induction Hc as [|cap caps Hcap Hc IH]; intros st s ps Hok Hd E; simpl in E.
  { simplify_eq. left. rewrite out_app_nil. split_and!; [done..|simpl; lia]. }
  pose proof (poll_read_decrypted_ok st s cap Hok Hcap) as Hp.
  destruct (poll_read_decrypted cap s st) as [[p s1] st1] eqn:Ep. destruct (read_polls caps s1 st1) as [[ps1 s2] st2] eqn:E1.
  simplify_eq. destruct Hp as [Hok1 [Hsuf Ha]]. pose proof (suffix_length _ _ Hsuf) as Hlen.
  assert (poll_final p = true -> dr_state st1 = DecDone /\ (future st s).1 = [] /\ final_ok (future st s) s p) as Hfin.
  { destruct p as [[[|x d]|e|]|]; try done; intros _; unfold final_ok; cbn [answer_ok] in Ha.
    - by destruct Ha as [-> ?].
    - destruct Ha as [[->|[-> [He|He]]] ?]; cbn; [by auto..|done].
    - by destruct Ha as [-> ?]. }
  destruct (poll_final p) eqn:Epf.
  - destruct (Hfin eq_refl) as (Hd1 & Hf & Hfo). destruct (read_polls_done _ _ _ _ _ _ Hd1 E1) as [Hn Hnp].
    assert (poll_data p = []) as Hp by (destruct p as [[[|x d]|e|]|]; done).
    right. exists [], p, ps1. cbn [app flat_map]. rewrite Hn, Hp, Hf. split_and!; try done.
    intros [->|Hin]%elem_of_cons; [done|by destruct Hnp].
  - assert (future st s = out_app (poll_data p) (future st1 s1) /\ dr_state st1 <> DecDone /\
      S (length s1 + length (future st1 s1).1) <= length s + length (future st s).1) as (Hf & Hd1 & Hm).
    { destruct p as [[[|x d]|e|]|]; try done; cbn [poll_data].
      - destruct Ha as (_ & -> & Hd1). split_and!; [done..|]. cbn [out_app fst]. rewrite length_app. cbn [length]. lia.
      - destruct Ha as (-> & ? & Hd1). rewrite out_app_nil. split_and!; [done..|lia]. }
    destruct (IH _ _ _ Hok1 Hd1 E1) as [(HF & Hf1 & Hm1)|(q1 & q & q2 & -> & HF & Hq & Hall & Hall1 & Hqo & Hqp)].
    + left. split_and!; [by constructor| |cbn [length]; lia]. cbn [flat_map]. by rewrite Hf, Hf1, out_app_app.
    + right. exists (p :: q1), q, q2. rewrite Hf. cbn [out_app fst snd flat_map app]. rewrite Hall, Hall1.
      split_and!; [done|by constructor|done..| |].
      * unfold final_ok in *. cbn [out_app snd]. destruct q as [[?|e|]|]; try done. destruct Hqo as [?|[? Hin]]; [by left|right].
        split; [done|]. destruct Hsuf as [k ->]. apply elem_of_app. by right.
      * intros [<-|Hin]%elem_of_cons; [done|by apply Hqp].
Qed.

(** What polls deliver is a prefix, and everything once one of them is final; a
panic is that of the frames. *)
Lemma read_polls_ok caps st s ps s' st' :
  reader_ok st -> Forall (fun cap => 0 < cap) caps -> read_polls caps s st = (ps, s', st') ->
  (flat_map poll_data ps `prefix_of` (future st s).1) /\
  ((exists p, p ∈ ps /\ poll_final p = true) -> flat_map poll_data ps = (future st s).1) /\
  (Ready Panic ∈ ps -> (future st s).2 = EndPanic).
Proof.
  intros Hok Hc E. assert (dr_state st = DecDone \/ dr_state st <> DecDone) as [Hd|Hd] by (destruct (dr_state st); auto).
  - destruct (read_polls_done _ _ _ _ _ _ Hd E) as [-> Hp]. rewrite (future_done _ s Hd). split_and!; [apply prefix_nil|done|by intros ?%Hp].
  - destruct (read_polls_run _ _ _ _ _ _ Hok Hc Hd E) as [(HF & Hf & _)|(ps1 & p & ps2 & -> & HF & Hp & Hall & _ & Hpo & Hpan)].
    + rewrite Hf. split_and!; [by eexists| |].
      * intros (p & Hin & Hp). rewrite Forall_forall in HF. by rewrite (HF _ Hin) in Hp.
      * rewrite Forall_forall in HF. by intros Hin%HF.
    + rewrite Hall. split_and!; [done..|]. intros Hin. rewrite (Hpan Hin) in Hpo. exact Hpo.
Qed.

(** A complete first frame that panics, panics the poll. *)
Lemma poll_panic st l cap n c1 c2 :
  dr_state st = DecLength -> dr_buffer st = [] -> ff_header_len + n <= length l ->
  ff_header (dr_cipher st) (take ff_header_len l) = (Ok n, c1) ->
  ff_payload c1 (take n (drop ff_header_len l)) = (Panic, c2) ->
  exists st', poll_read_decrypted cap [RdData l] st = (Ready Panic, [], st').
Proof.
  intros Hs Hb Hl Hh Hp. unfold poll_read_decrypted. cbn [dec_loop]. unfold dec_resume. rewrite Hs.
  pose proof ff_header_len_pos as Hpos. unfold dec_head. rewrite Hb.
  assert (read_at_least [RdData l] [] (dr_read_zero st) ff_header_len = (Ready (Ok tt), [], l, dr_read_zero st)) as ->.
  { destruct l as [|b l]; [simpl in Hl; lia|]. cbn [read_at_least]. rewrite decide_False by (simpl; lia).
    by rewrite app_nil_l, decide_True by lia. }
  cbn [dr_cipher]. rewrite Hh. unfold dec_payload. cbn [dr_buffer dr_data_length dr_read_zero dr_cipher].
  rewrite read_at_least_enough by (rewrite length_drop; lia). rewrite Hp. by eexists.
Qed.

(** A poll with no room in the middle of a payload loses data: the inner
loop ends as if the payload had been delivered, and the next 16 bytes of
the plaintext are dropped in place of the tag. *)
Lemma empty_destination_drops_plaintext st s :
  dr_state st = DecYield ->
  exists st', dec_resume read_at_least 0 s st = DecGo s st' /\ dr_state st' = DecLength /\ dr_buffer st' = drop 16 (dr_buffer st).
Proof.
  intros Hs. unfold dec_resume, dec_yield. rewrite Hs, Nat.min_0_r, decide_False by (by intros []). by eexists.
Qed.
End FrameReader.
