(* ===== verification/FrameWriter.v ===== *)
(** * Writers of encrypted frames

    The generator that src/src/proxy/shadowsocks/aead.rs and
    src/src/proxy/vmess/aead.rs share, [poll_write_encrypted]: cut the data to the
    size of a frame, encrypt it into the buffer, hand the buffer to the inner
    writer.  What differs is the class [FrameEncoder].

    [co_await] returns [Pending] to the poller and repeats the awaited poll on
    the next call, [co_yield] returns and continues behind it on the next call,
    [return] ends the generator.

    The specification is [encode_all]: the frames of a list of payloads. *)

From S2P Require Import Prelude Io.
From Stdlib Require Import ZArith Lia List.
From stdpp Require Import base option list strings.

Class FrameEncoder (C : Type) := {
  fe_max : nat;
  fe_max_pos : 0 < fe_max;
  (* does a poll with no data end the generator, with the answer 0? *)
  fe_empty_ends : bool;
  fe_encode : C -> bytes -> res (bytes * C)
}.

Inductive enc_state := EncStart | EncAwait | EncYield | EncDone.

Record EncryptedWriter (C : Type) := mkEncryptedWriter {
  ew_cipher : C;
  ew_state : enc_state;
  ew_buf : bytes;
  ew_pos : nat;
  ew_data_len : nat
}.
Arguments mkEncryptedWriter {C} _ _ _ _ _.
Arguments ew_cipher {C} _.
Arguments ew_state {C} _.
Arguments ew_buf {C} _.
Arguments ew_pos {C} _.
Arguments ew_data_len {C} _.

(** *** The body, over any inner stream

The stream is known by its [write_data] loop: Io.v has it for a scripted
writer, Stack.v for another layer. *)
Section Body.
Context {C : Type} `{FrameEncoder C}.
Context {W : Type} (write_data : W -> bytes -> nat -> Poll (res unit) * W * nat).
Implicit Type e : EncryptedWriter C.

(** [encrypted_buffer]: append the frame of [data] to the buffer. *)
Definition encrypted_buffer (e : EncryptedWriter C) (data : bytes) : res (EncryptedWriter C) :=
  '(f, c) ← fe_encode (ew_cipher e) data;
  Ok (mkEncryptedWriter c (ew_state e) (ew_buf e ++ f) 0 (length data)).

(** [write_data], awaited: its answer is [data_len]. *)
Definition enc_write (w : W) (e : EncryptedWriter C) : Poll (res nat) * W * EncryptedWriter C :=
  let '(p, w, pos) := write_data w (ew_buf e) (ew_pos e) in
  let upd st b := mkEncryptedWriter (ew_cipher e) st b pos (ew_data_len e) in
  match p with
  | Pending => (Pending, w, upd EncAwait (ew_buf e))
  | Ready (Ok _) => (Ready (Ok (ew_data_len e)), w, upd EncYield [])
  | Ready (Err x) => (Ready (Err x), w, upd EncYield [])
  | Ready Panic => (Ready Panic, w, upd EncYield [])
  end.

(** [poll_write_encrypted]: a suspended write goes on with the buffer it had,
whatever [data] is now. *)
Definition poll_write_encrypted (data : bytes) (w : W) (e : EncryptedWriter C)
  : Poll (res nat) * W * EncryptedWriter C :=
  match ew_state e with
  | EncAwait => enc_write w e
  | EncDone => (Ready (Err unexpected_eof), w, e)
  | _ =>
    if fe_empty_ends && bool_decide (data = [])
    then (Ready (Ok 0), w, mkEncryptedWriter (ew_cipher e) EncDone (ew_buf e) (ew_pos e) (ew_data_len e))
    else
      match encrypted_buffer e (take (Nat.min fe_max (length data)) data) with
      | Ok e' => enc_write w e'
      | Err x => (Ready (Err x), w, e)
      | Panic => (Ready Panic, w, e)
      end
  end.
End Body.

Section FrameWriter.
Context {C : Type} `{FrameEncoder C}.
Implicit Type e : EncryptedWriter C.

(** ** Specification *)

Fixpoint encode_all (c : C) (ds : list bytes) : res (bytes * C) :=
  match ds with
  | [] => Ok ([], c)
  | d :: ds => '(f, c1) ← fe_encode c d; '(fs, c2) ← encode_all c1 ds; Ok (f ++ fs, c2)
  end.

(** Polls with the same data until the answer is not [Pending]; a pending poll
uses an event of the writer's script. *)
Fixpoint write_op (fuel : nat) (data : bytes) (w : Writer) (e : EncryptedWriter C)
  : res nat * Writer * EncryptedWriter C :=
  match poll_write_encrypted write_data data w e with
  | (Ready r, w, e) => (r, w, e)
  | (Pending, w, e) => match fuel with O => (Panic, w, e) | S f => write_op f data w e end
  end.

(** [write_all] on the stream. *)
Fixpoint enc_write_all (fuel : nat) (data : bytes) (w : Writer) (e : EncryptedWriter C)
  : res unit * Writer * EncryptedWriter C :=
  match data, fuel with
  | [], _ => (Ok tt, w, e)
  | _, O => (Panic, w, e)
  | _, S f =>
    match write_op (length (wr_script w)) data w e with
    | (Ok n, w, e) => if decide (n = 0) then (Err (IoError WriteZero ""), w, e) else enc_write_all f (drop n data) w e
    | (Err x, w, e) => (Err x, w, e)
    | (Panic, w, e) => (Panic, w, e)
    end
  end.

(** The payloads [write_all] cuts its data into. *)
Fixpoint chunks (fuel : nat) (data : bytes) : list bytes :=
  match data, fuel with
  | [], _ => []
  | _, O => []
  | _, S f => take fe_max data :: chunks f (drop fe_max data)
  end.

Definition at_boundary (e : EncryptedWriter C) : Prop := ew_state e = EncStart \/ ew_state e = EncYield.

(** ** Lemmas *)

Lemma await_poll data w e :
  writes_ok w -> ew_state e = EncAwait -> ew_pos e <= length (ew_buf e) ->
  exists w' pos, writes_ok w' /\
  (poll_write_encrypted write_data data w e = (Ready (Ok (ew_data_len e)), w', mkEncryptedWriter (ew_cipher e) EncYield [] pos (ew_data_len e))
    /\ wr_log w' = wr_log w ++ drop (ew_pos e) (ew_buf e)
    \/ poll_write_encrypted write_data data w e = (Pending, w', mkEncryptedWriter (ew_cipher e) EncAwait (ew_buf e) pos (ew_data_len e))
    /\ length (wr_script w') < length (wr_script w) /\ pos <= length (ew_buf e)
    /\ wr_log w' ++ drop pos (ew_buf e) = wr_log w ++ drop (ew_pos e) (ew_buf e)).
Proof.
  intros Hw Hs Hp. unfold poll_write_encrypted. rewrite Hs. unfold enc_write.
  destruct (write_data w (ew_buf e) (ew_pos e)) as [[p w1] pos] eqn:E.
  pose proof (write_data_spec _ _ _ _ _ _ E Hp) as (Hpos & Hlog & Hr).
  destruct (write_data_good _ _ _ _ _ _ Hw E) as [Hw1 [->|[-> Hlt]]]; exists w1, pos; (split; [done|]).
  - left. split; [done|]. subst pos. rewrite Hlog, (take_ge (drop _ _)); [done|rewrite length_drop; lia].
  - right. split_and!; [done|done|lia|]. rewrite Hlog, <- app_assoc. f_equal.
    rewrite <- (take_drop (pos - ew_pos e) (drop (ew_pos e) (ew_buf e))) at 2. rewrite drop_drop.
    do 2 f_equal. lia.
Qed.

(** A suspended writer has handed over [pos] bytes of its buffer. *)
Lemma enc_write_await fuel data w e :
  writes_ok w -> ew_state e = EncAwait -> ew_pos e <= length (ew_buf e) -> length (wr_script w) <= fuel ->
  exists w' e', write_op fuel data w e = (Ok (ew_data_len e), w', e') /\ writes_ok w' /\ ew_state e' = EncYield
  /\ ew_buf e' = [] /\ ew_cipher e' = ew_cipher e
  /\ wr_log w' = wr_log w ++ drop (ew_pos e) (ew_buf e).
Proof.
  revert w e. induction fuel as [|f IH]; intros w e Hw Hs Hp Hf; simpl;
    destruct (await_poll data w e Hw Hs Hp) as (w1 & pos & Hw1 & [[-> Hlog]|(-> & Hlt & Hpos & Hlog)]); try lia;
    [by do 2 eexists; split_and!|by do 2 eexists; split_and!|].
  destruct (IH w1 (mkEncryptedWriter (ew_cipher e) EncAwait (ew_buf e) pos (ew_data_len e)))
    as (w' & e' & E' & ? & ? & ? & ? & Hl); [done|done|simpl; lia|lia|].
  exists w', e'. split_and!; try done. simpl in Hl. by rewrite Hl, Hlog.
Qed.

Lemma write_op_ok fuel data w e f c :
  writes_ok w -> at_boundary e -> data <> [] -> length (wr_script w) <= fuel ->
  let d := take (Nat.min fe_max (length data)) data in
  fe_encode (ew_cipher e) d = Ok (f, c) ->
  exists w' e', write_op fuel data w e = (Ok (length d), w', e') /\ writes_ok w' /\ at_boundary e'
  /\ ew_buf e' = [] /\ ew_cipher e' = c /\ wr_log w' = wr_log w ++ ew_buf e ++ f.
Proof.
  intros Hw Hs Hne Hfuel d Hf. set (e1 := mkEncryptedWriter c EncAwait (ew_buf e ++ f) 0 (length d)).
  assert (forall n, write_op n data w e = write_op n data w e1) as E.
  { intros n. assert (poll_write_encrypted write_data data w e = poll_write_encrypted write_data data w e1) as E.
    { unfold poll_write_encrypted, e1. cbn [ew_state]. rewrite (bool_decide_eq_false_2 (data = [])), andb_false_r by done.
      fold d. unfold encrypted_buffer. rewrite Hf. cbn [mbind res_bind]. by destruct Hs as [-> | ->]. }
    destruct n; simpl; by rewrite E. }
  rewrite E. destruct (enc_write_await fuel data w e1) as (w' & e' & -> & ? & ? & ? & ? & Hl);
    [done|done|simpl; lia|done|].
  exists w', e'. split_and!; try done. by right.
Qed.

Lemma enc_write_all_ok fuel data w e f c :
  writes_ok w -> at_boundary e -> length data <= fuel -> data <> [] ->
  encode_all (ew_cipher e) (chunks fuel data) = Ok (f, c) ->
  exists w' e', enc_write_all fuel data w e = (Ok tt, w', e') /\ writes_ok w' /\ at_boundary e' /\ ew_buf e' = []
  /\ ew_cipher e' = c /\ wr_log w' = wr_log w ++ ew_buf e ++ f.
Proof.
  revert data w e f c. induction fuel as [|n IH]; intros data w e f c Hw He Hl Hne Hf; destruct data as [|b data]; try done; [simpl in Hl; lia|].
  cbn [enc_write_all chunks encode_all] in *. pose proof fe_max_pos as Hmax.
  set (d := take (Nat.min fe_max (length (b :: data))) (b :: data)) in *.
  assert (take fe_max (b :: data) = d) as Hd.
  { unfold d. destruct (Nat.le_ge_cases fe_max (length (b :: data))); [by rewrite Nat.min_l|].
    by rewrite Nat.min_r, !take_ge. }
  assert (length d <> 0) as Hd0 by (rewrite <- Hd, length_take; simpl; lia).
  assert (drop (length d) (b :: data) = drop fe_max (b :: data)) as Hdrop.
  { rewrite <- Hd, length_take. destruct (Nat.le_ge_cases fe_max (length (b :: data))); [by rewrite Nat.min_l|].
    by rewrite Nat.min_r, !drop_ge. }
  rewrite Hd in Hf. destruct (fe_encode (ew_cipher e) d) as [[f1 c1]|x|] eqn:Ef; [|done..].
  cbn [mbind res_bind] in Hf. destruct (encode_all c1 _) as [[f2 c2]|x|] eqn:Ef2; [|done..].
  cbn [mbind res_bind] in Hf. injection Hf as <- <-.
  destruct (write_op_ok (length (wr_script w)) (b :: data) w e f1 c1 Hw He Hne (le_n _) Ef) as (w1 & e1 & -> & Hw1 & He1 & Hb1 & Hc1 & Hl1).
  fold d. rewrite decide_False by done. rewrite Hdrop.
  destruct (decide (drop fe_max (b :: data) = [])) as [Hz|Hz].
  - rewrite Hz in *. assert (encode_all c1 [] = Ok (f2, c2)) as [= <- <-] by (by destruct n).
    exists w1, e1. split_and!; [by destruct n|done|done|done|done|]. by rewrite Hl1, app_nil_r.
  - destruct (IH (drop fe_max (b :: data)) w1 e1 f2 c2 Hw1 He1) as (w2 & e2 & E & ? & ? & ? & ? & Hl2);
      [rewrite length_drop; simpl in *; lia|done|by rewrite Hc1|].
    exists w2, e2. split_and!; [exact E|done..|]. rewrite Hl2, Hl1, Hb1. simpl. by rewrite <- !app_assoc.
Qed.

Lemma chunks_spec fuel data :
  length data <= fuel -> concat (chunks fuel data) = data /\ Forall (fun d => length d <= fe_max) (chunks fuel data).
Proof.
  revert data. induction fuel as [|f IH]; intros [|b data] Hl; try (by split; [|constructor]); [simpl in Hl; lia|].
  cbn [chunks]. pose proof fe_max_pos. destruct (IH (drop fe_max (b :: data))) as [E HF].
  { rewrite length_drop. simpl in *. lia. }
  simpl concat. rewrite E, take_drop. split; [done|]. constructor; [|done]. rewrite length_take. lia.
Qed.
End FrameWriter.
