(* ===== verification/ShadowStream.v ===== *)
(** * The Shadowsocks TCP stream (src/src/proxy/shadowsocks/aead.rs)

    [DecryptedReader] and [EncryptedWriter] as instances of FrameReader.v and
    FrameWriter.v: a frame is the length of the payload, encrypted, with its
    tag, then the payload, encrypted, with its tag. *)

From S2P Require Import Prelude Io StdText Aead FrameReader FrameWriter.
From Stdlib Require Import ZArith Lia List Strings.Byte.
From stdpp Require Import base option list strings.

Definition MAX_PACKET_SIZE : nat := Z.to_nat 0x3FFF.

(** ** [DecryptedReader] *)

Section ShadowStream.
Context `{AeadCrypto}.

Definition err_tag_in : io_error := IoError Other "invalid tag-in".
Definition err_too_large (plen : nat) : io_error :=
  IoError InvalidData ("buffer size too large (0x" ++ bytes_to_string (show_hex (Z.of_nat plen)) ++
    "), AEAD encryption protocol requires buffer to be smaller than 0x3FFF, the higher two bits must be set to zero").

(** [decrypt_length]; [None] of the inner decryption is a wrong tag. *)
Definition decrypt_length (c : AeadCipher) (m : bytes) : res nat * AeadCipher :=
  let '(r, c') := AeadCipher_decrypt c m in
  (match r with
  | Ok None => Err err_tag_in
  | Ok (Some p) =>
    let plen := Z.to_nat (be_val (take 2 p)) in
    if decide (MAX_PACKET_SIZE < plen) then Err (err_too_large plen) else Ok plen
  | Err e => Err e
  | Panic => Panic
  end, c').

(** A header is an encrypted length and its tag; the payload has a tag. *)
#[export] Program Instance shadow_format : FrameFormat AeadCipher := {|
    ff_header_len := TAG_SIZE + 2;
    ff_header c m := let '(r, c') := decrypt_length c m in (plen ← r; Ok (plen + TAG_SIZE), c');
    ff_payload c l := AeadCipher_decrypt c l
  |}.
Next Obligation. unfold TAG_SIZE. lia. Qed.
Next Obligation. intros c l m c' E. apply (f_equal fst) in E. by apply AeadCipher_decrypt_length in E. Qed.

Definition DecryptedReader_new (method : CipherKind) (key iv_or_salt : bytes) : res (DecryptedReader AeadCipher) :=
  c ← AeadCipher_new method key iv_or_salt;
  Ok (mkDecryptedReader [] c DecLength 0 false).

(** ** [EncryptedWriter] *)

(** What [encrypted_buffer] appends: the slices handed to the cipher are the
data and room for the tag. *)
Definition shadow_frame (c : AeadCipher) (data : bytes) : res (bytes * AeadCipher) :=
  let '(r1, c1) := AeadCipher_encrypt c (be_bytes 2 (Z.of_nat (length data)) ++ repeat x00 TAG_SIZE) in
  let '(r2, c2) := AeadCipher_encrypt c1 (data ++ repeat x00 TAG_SIZE) in
  o1 ← r1; o2 ← r2; Ok (o1 ++ o2, c2).

#[export] Program Instance shadow_encoder : FrameEncoder AeadCipher := {|
    fe_max := MAX_PACKET_SIZE;
    fe_empty_ends := false;
    fe_encode := shadow_frame
  |}.
Next Obligation. unfold MAX_PACKET_SIZE. lia. Qed.

(** The salt is sent with the first packet. *)
Definition EncryptedWriter_new (method : CipherKind) (key iv_or_salt : bytes) : res (EncryptedWriter AeadCipher) :=
  c ← AeadCipher_new method key iv_or_salt;
  Ok (mkEncryptedWriter c EncStart iv_or_salt 0 0).

(** ** Lemmas on the specification *)

Lemma MAX_PACKET_SIZE_Z : Z.of_nat MAX_PACKET_SIZE = 16383%Z.
Proof. unfold MAX_PACKET_SIZE. by rewrite Z2Nat.id. Qed.

Lemma MAX_PACKET_SIZE_pos : 0 < MAX_PACKET_SIZE.
Proof. pose proof MAX_PACKET_SIZE_Z. lia. Qed.

#[local] Opaque MAX_PACKET_SIZE.

(** The frames of a peer never make the reader panic. *)
Lemma decrypt_length_range c l n c' :
  decrypt_length c l = (Ok n, c') -> n <= MAX_PACKET_SIZE.
Proof.
  unfold decrypt_length. destruct (AeadCipher_decrypt c l) as [[[p|]|e|] c1]; intros; simplify_eq.
  case_decide; simplify_eq. lia.
Qed.

Lemma decode_never_panics c l : (decode c l).2 <> EndPanic.
Proof.
  unfold decode. generalize (S (length l)) as f. intros f. revert c l. induction f as [|f IH]; intros c l; [done|].
  cbn [decode_loop]. unfold header_step. simpl ff_header_len. change (TAG_SIZE + 2) with 18.
  case_decide as Hl; [done|]. unfold ff_header, shadow_format.
  destruct (decrypt_length c (take 18 l)) as [[n|e|] c1] eqn:E; cbn [mbind res_bind]; [|done|].
  - unfold payload_step. case_decide; [done|]. unfold ff_payload.
    destruct (AeadCipher_decrypt_cases c1 (take (n + TAG_SIZE) (drop 18 l))) as [o Ho]; [rewrite length_take; unfold TAG_SIZE in *; lia|].
    destruct (AeadCipher_decrypt _ _) as [r c2]. simpl in Ho. subst r. destruct o as [m|]; [|done]. apply IH.
  - unfold decrypt_length in E. destruct (AeadCipher_decrypt_cases c (take 18 l)) as [o Ho]; [rewrite length_take; lia|].
    destruct (AeadCipher_decrypt _ _) as [r c2]. simpl in Ho. subst r. destruct o as [m|]; [|done]. case_decide; done.
Qed.

(** ** The writer *)

Lemma encrypt_room c (m : bytes) :
  exists o, fst (AeadCipher_encrypt c (m ++ repeat x00 16)) = Ok o /\ length o = length m + 16
  /\ fst (AeadCipher_decrypt c o) = Ok (Some m).
Proof.
  destruct (AeadCipher_encrypt_ok c (m ++ repeat x00 16)) as (o & E & Hl & Hd);
    [rewrite length_app, repeat_length; lia|].
  exists o. rewrite length_app, repeat_length in *. split_and!; [done|done|].
  rewrite Nat.add_sub, take_app_length in Hd. done.
Qed.

(** The frame of a payload decodes to it, and the ciphers stay in step. *)
Lemma shadow_frame_decode c d :
  length d <= MAX_PACKET_SIZE ->
  exists f c', shadow_frame c d = Ok (f, c') /\ forall r, decode c (f ++ r) = out_app d (decode c' r).
Proof.
  intros Hd. unfold shadow_frame, TAG_SIZE.
  destruct (encrypt_room c (be_bytes 2 (Z.of_nat (length d)))) as (o1 & E1 & Hl1 & Ho1).
  unfold AeadCipher_encrypt in *. cbn [fst] in *. rewrite E1.
  destruct (encrypt_room (cipher_increase_nonce c) d) as (o2 & E2 & Hl2 & Ho2).
  unfold AeadCipher_encrypt in E2. cbn [fst] in E2. rewrite E2. cbn [mbind res_bind].
  do 2 eexists. split; [done|]. intros r.
  rewrite length_be_bytes in Hl1. rewrite decode_unfold. unfold header_step.
  simpl ff_header_len. change (TAG_SIZE + 2) with 18.
  rewrite decide_False by (rewrite !length_app; lia).
  unfold ff_header, shadow_format, decrypt_length. rewrite <- app_assoc, take_app_le, (take_ge o1) by lia.
  unfold AeadCipher_decrypt in *. cbn [fst] in *. rewrite Ho1.
  rewrite (take_ge (be_bytes 2 _)) by (by rewrite length_be_bytes).
  pose proof MAX_PACKET_SIZE_Z. rewrite be_val_be_bytes_small by lia. rewrite Nat2Z.id, decide_False by lia.
  cbn [mbind res_bind]. unfold TAG_SIZE, payload_step, ff_payload. rewrite (drop_app_length' o1) by lia.
  rewrite decide_False by (rewrite !length_app; lia). unfold AeadCipher_decrypt.
  rewrite take_app_length', drop_app_length' by lia. rewrite Ho2. done.
Qed.

Lemma shadow_encode_decode c ds :
  Forall (fun d => length d <= MAX_PACKET_SIZE) ds ->
  exists f c', encode_all c ds = Ok (f, c') /\ decode c f = (concat ds, EndShort).
Proof.
  intros Hd. revert c. induction Hd as [|d ds Hd Hds IH]; intros c; [by do 2 eexists|].
  cbn [encode_all fe_encode shadow_encoder].
  destruct (shadow_frame_decode c d Hd) as (f & c1 & -> & Hdec). cbn [mbind res_bind].
  destruct (IH c1) as (fs & c2 & -> & Hfs). cbn [mbind res_bind].
  do 2 eexists. split; [done|]. by rewrite Hdec, Hfs.
Qed.

Lemma EncryptedWriter_new_ok method key salt c :
  AeadCipher_new method key salt = Ok c ->
  EncryptedWriter_new method key salt = Ok (mkEncryptedWriter c EncStart salt 0 0)
  /\ DecryptedReader_new method key salt = Ok (mkDecryptedReader [] c DecLength 0 false).
Proof. intros E. unfold EncryptedWriter_new, DecryptedReader_new. rewrite E. done. Qed.

(** Writing a whole buffer through a new stream. *)
Lemma new_stream_write method key salt c data w :
  AeadCipher_new method key salt = Ok c -> writes_ok w -> data <> [] ->
  exists f c' w' e', encode_all c (chunks (length data) data) = Ok (f, c') /\ decode c f = (data, EndShort) /\
  enc_write_all (length data) data w (mkEncryptedWriter c EncStart salt 0 0) = (Ok tt, w', e') /\
  wr_log w' = wr_log w ++ salt ++ f.
Proof.
  intros Hc Hw Hd. destruct (chunks_spec (length data) data ltac:(lia)) as [Hcat Hall].
  destruct (shadow_encode_decode c _ Hall) as (f & c' & Ef & Hdec). rewrite Hcat in Hdec.
  destruct (enc_write_all_ok (length data) data w (mkEncryptedWriter c EncStart salt 0 0) f c')
    as (w' & e' & E & _ & _ & _ & _ & Hl); [done|by left|done|done|exact Ef|].
  exists f, c', w', e'. split_and!; done.
Qed.

(** ** Properties *)

(** C3: the reader delivers the decoding of the received bytes: for every
cipher, every byte sequence an adversary may send, and every
fragmentation into reads and suspensions, polls with a non-empty
destination never panic, and the bytes they deliver are a prefix of the
payloads of the frames that verify, in order up to the first that does
not.  The first poll that answers end of file or an error comes when all of
them are delivered, and says how they end: end of file only where the input
ends, in front of a frame or within one; an error where the frame at that
place fails, with the error of that frame, or where the stream below
reported that error before the frame was whole.  A frame that does not verify is
never an end of file.  Such a poll comes after as many polls as the stream
below has events and bytes, at the latest. *)
Theorem reader_delivers_decoding method key salt c caps s ps s' st' :
  AeadCipher_new method key salt = Ok c -> Forall (fun cap => 0 < cap) caps ->
  read_polls caps s (mkDecryptedReader [] c DecLength 0 false) = (ps, s', st') ->
  DecryptedReader_new method key salt = Ok (mkDecryptedReader [] c DecLength 0 false) /\
  (Ready Panic ∉ ps) /\
  (flat_map poll_data ps `prefix_of` (decode c (rd_bytes s)).1) /\
  (forall ps1 p ps2, ps = ps1 ++ p :: ps2 -> Forall (fun q => poll_final q = false) ps1 -> poll_final p = true ->
    flat_map poll_data ps1 = (decode c (rd_bytes s)).1 /\ flat_map poll_data ps2 = [] /\
    match p with
    | Ready (Err e) => (decode c (rd_bytes s)).2 = EndErr e \/ (decode c (rd_bytes s)).2 = EndShort /\ RdErr e ∈ s
    | _ => (decode c (rd_bytes s)).2 = EndShort
    end) /\
  (length s + length (rd_bytes s) < length caps -> exists p, p ∈ ps /\ poll_final p = true).
Proof.
  intros Hc Hcaps E. split; [by apply EncryptedWriter_new_ok|].
  destruct (read_polls_ok _ _ _ _ _ _ (I : reader_ok (mkDecryptedReader [] c DecLength 0 false)) Hcaps E) as (Hpre & _ & Hpan).
  assert (Ready Panic ∉ ps) as Hnp by (intros Hp; by apply Hpan, decode_never_panics in Hp).
  split_and!; [done..| |]; destruct (read_polls_run _ _ _ _ _ _ (I : reader_ok (mkDecryptedReader [] c DecLength 0 false)) Hcaps ltac:(done) E)
    as [(HF & _ & Hm)|(qs1 & q & qs2 & Eps & HF & Hq & Hall & Hall1 & Hqo & _)].
  - intros ps1 p ps2 -> _ Hp. apply Forall_app in HF as [_ HF]. inversion HF. congruence.
  - intros ps1 p ps2 Eps1 HF1 Hp. rewrite Eps in Eps1.
    destruct (split_first _ _ _ _ _ _ _ Eps1 HF HF1 Hq Hp) as (-> & -> & ->).
    assert (poll_data q = []) as Hd by (by destruct q as [[[|]| |]|]).
    rewrite flat_map_app in Hall1. cbn [flat_map] in Hall1. rewrite Hd, !app_nil_r in Hall1.
    split; [exact Hall1|]. split.
    + rewrite Eps, flat_map_app in Hall. cbn [flat_map] in Hall. rewrite Hd, Hall1 in Hall.
      rewrite <- (app_nil_r (future _ _).1) in Hall at 2. by apply app_inv_head in Hall.
    + destruct q as [[d|e|]|]; [exact Hqo|exact Hqo| |done]. destruct Hnp. rewrite Eps. apply elem_of_app. right. by left.
  - intros Hl. pose proof (decode_length c (rd_bytes s)).
    change (future (mkDecryptedReader [] c DecLength 0 false) s) with (decode c (rd_bytes s)) in Hm. lia.
  - intros _. exists q. split; [|done]. rewrite Eps. apply elem_of_app. right. by left.
Qed.

(** The writer puts on the wire exactly the salt and the frames of its
data: on every writer that keeps accepting bytes, however slowly,
[write_all] succeeds, and what was written is the salt once, then the
frames of payloads of at most 0x3FFF bytes whose concatenation is the data,
in order and under successive nonces. *)
Theorem writer_emits_frames method key salt c data w :
  AeadCipher_new method key salt = Ok c -> writes_ok w -> data <> [] ->
  exists e w' e' ds f c', EncryptedWriter_new method key salt = Ok e /\
  enc_write_all (length data) data w e = (Ok tt, w', e') /\
  wr_log w' = wr_log w ++ salt ++ f /\
  encode_all c ds = Ok (f, c') /\ concat ds = data /\ Forall (fun d => length d <= MAX_PACKET_SIZE) ds.
Proof.
  intros Hc Hw Hd. destruct (EncryptedWriter_new_ok _ _ _ _ Hc) as [He _].
  destruct (new_stream_write _ _ _ _ _ _ Hc Hw Hd) as (f & c' & w' & e' & Ef & _ & E & Hl).
  exists (mkEncryptedWriter c EncStart salt 0 0), w', e', (chunks (length data) data), f, c'.
  destruct (chunks_spec (length data) data ltac:(lia)). split_and!; done.
Qed.

(** C2: the two directions agree: a reader with the key and the salt of a
writer, fed what the writer put on the wire behind the salt, in any
pieces, delivers the data written, and a reader that answered end of file
has delivered all of it. *)
Theorem stream_roundtrip method key salt c data w :
  AeadCipher_new method key salt = Ok c -> writes_ok w -> data <> [] ->
  exists e w' e', EncryptedWriter_new method key salt = Ok e /\
  enc_write_all (length data) data w e = (Ok tt, w', e') /\
  forall caps s ps s' st',
  wr_log w' = wr_log w ++ salt ++ rd_bytes s -> Forall (fun cap => 0 < cap) caps ->
  read_polls caps s (mkDecryptedReader [] c DecLength 0 false) = (ps, s', st') ->
  flat_map poll_data ps `prefix_of` data /\
  ((exists p, p ∈ ps /\ poll_final p = true) -> flat_map poll_data ps = data).
Proof.
  intros Hc Hw Hd. destruct (EncryptedWriter_new_ok _ _ _ _ Hc) as [He _].
  destruct (new_stream_write _ _ _ _ _ _ Hc Hw Hd) as (f & c' & w' & e' & Ef & Hdec & E' & Hl).
  exists (mkEncryptedWriter c EncStart salt 0 0), w', e'. split; [exact He|]. split; [exact E'|]. intros caps s ps s' st' Hwire Hcaps E.
  rewrite Hl in Hwire. apply app_inv_head, app_inv_head in Hwire.
  destruct (read_polls_ok _ _ _ _ _ _ (I : reader_ok (mkDecryptedReader [] c DecLength 0 false)) Hcaps E) as (Hpre & Hfin & _).
  unfold future in Hpre, Hfin. simpl in Hpre, Hfin, Hwire. rewrite <- Hwire, Hdec in Hpre, Hfin.
  split; [exact Hpre|exact Hfin].
Qed.
End ShadowStream.

(** ** Witnesses *)

#[local] Existing Instance toy_crypto.

Definition wit_key : bytes := repeat x01 16.
Definition wit_salt : bytes := repeat x02 16.
Definition wit_cipher : AeadCipher := mkAeadCipher AlgAes128Gcm (take 16 (wit_salt ++ wit_key)) (repeat x00 24) 12.

Definition wit_wire : bytes := match encode_all wit_cipher [str "hello"; str "world"] with Ok (f, _) => f | _ => [] end.

(** The tag behind the second frame is forged. *)
Definition wit_forged : bytes := take (length wit_wire - 1) wit_wire ++ [xff].

Lemma reader_delivers_decoding_witness :
  let s := [RdPending; RdData (take 20 wit_forged); RdPending; RdData (drop 20 wit_forged)] in
  let '(ps, _, _) := read_polls [3; 3; 3; 9; 9; 9] s (mkDecryptedReader [] wit_cipher DecLength 0 false) in
  flat_map poll_data (take 4 ps) = (decode wit_cipher wit_forged).1 /\ ps !! 4 = Some (Ready (Err err_aead_tag)) /\
  (decode wit_cipher wit_forged).2 = EndErr err_aead_tag.
Proof.
  intros s.
  destruct (read_polls [3; 3; 3; 9; 9; 9] s (mkDecryptedReader [] wit_cipher DecLength 0 false)) as [[ps s'] st'] eqn:E.
  destruct (reader_delivers_decoding Aes128Gcm wit_key wit_salt wit_cipher [3; 3; 3; 9; 9; 9] s ps s' st')
    as (_ & _ & _ & H & _); [reflexivity|repeat constructor; lia|exact E|]. clear -E H.
  vm_compute in E. injection E as <- _ _.
  destruct (H [Pending; Pending; Ready (Ok (str "hel")); Ready (Ok (str "lo"))] (Ready (Err err_aead_tag)) _ eq_refl)
    as (Hd & _ & [He|[_ Hin]]); [by repeat constructor|done|..].
  - split; [exact Hd|]. split; [reflexivity|exact He].
  - unfold s in Hin. rewrite !elem_of_cons in Hin. destruct_or? Hin; try discriminate. by apply not_elem_of_nil in Hin.
Defined.

Definition wit_writer : Writer := mkWriter [WrPending; WrAccept 7; WrPending; WrAccept 1] [] [] 0 [] 0.

Lemma writer_emits_frames_witness :
  exists e w' e', EncryptedWriter_new Aes128Gcm wit_key wit_salt = Ok e /\
    enc_write_all 5 (str "hello") wit_writer e = (Ok tt, w', e') /\ exists f, wr_log w' = wit_salt ++ f.
Proof.
  destruct (writer_emits_frames Aes128Gcm wit_key wit_salt wit_cipher (str "hello") wit_writer)
    as (e & w' & e' & ds & f & c' & He & E & Hl & _ & _); [reflexivity|repeat constructor|done|].
  exists e, w', e'. split; [exact He|]. split; [exact E|]. exists f. exact Hl.
Defined.

Lemma stream_roundtrip_witness :
  let s := [RdData (take 39 wit_wire)] in
  let '(ps, _, _) := read_polls [3; 3; 3] s (mkDecryptedReader [] wit_cipher DecLength 0 false) in
  flat_map poll_data ps = str "hello".
Proof.
  intros s.
  destruct (read_polls [3; 3; 3] s (mkDecryptedReader [] wit_cipher DecLength 0 false)) as [[ps s'] st'] eqn:E.
  destruct (stream_roundtrip Aes128Gcm wit_key wit_salt wit_cipher (str "hello") wit_writer)
    as (e & w' & e' & He & Ew & H); [reflexivity|repeat constructor|done|].
  apply (H [3; 3; 3] s ps s' st'); [|repeat constructor; lia|exact E|].
  - vm_compute in He. injection He as <-. vm_compute in Ew. injection Ew as <- _. vm_compute. reflexivity.
  - vm_compute in E. injection E as <- _ _. exists (Ready (Ok [])). split; [|reflexivity].
    do 2 apply list_elem_of_further. apply list_elem_of_here.
Defined.
