(* ===== verification/Replay.v ===== *)
(** * Replay protection (src/src/proxy/shadowsocks/context.rs)

    [PingPongBloom], two Bloom filters used as a ring, and [BloomContext] around it;
    [random_iv_or_salt] of src/src/common/mod.rs.

    The filter is the crate bloomfilter's: the class [Bloom] states that it
    has no false negative.  Random bytes are an oracle, the list of the draws of the
    generator; [None] says that the draws are used up, so that the loop is
    still drawing. *)

From S2P Require Import Prelude Io StdText.
From Stdlib Require Import ZArith QArith Lia List Strings.Byte.
From stdpp Require Import base option list strings.

Class Bloom (B : Type) := {
  bloom_new_for_fp_rate : nat -> Q -> B;
  bloom_check : B -> bytes -> bool;
  bloom_set : B -> bytes -> B;
  bloom_clear : B -> B;
  bloom_check_set b x : bloom_check (bloom_set b x) x = true;
  bloom_check_mono b x y : bloom_check b x = true -> bloom_check (bloom_set b y) x = true
}.

(** [blooms: [Bloom; 2]] and [bloom_count: [usize; 2]] as pairs; [current] is 0
    or 1. *)
Record PingPongBloom (B : Type) := mkPingPong {
  blooms : B * B;
  bloom_count : nat * nat;
  item_count : nat;
  current : nat
}.
Arguments mkPingPong {B} _ _ _ _.
Arguments blooms {B} _.
Arguments bloom_count {B} _.
Arguments item_count {B} _.
Arguments current {B} _.

Definition arr_get {A} (a : A * A) (i : nat) : A := if decide (i = 0) then a.1 else a.2.
Definition arr_set {A} (a : A * A) (i : nat) (x : A) : A * A := if decide (i = 0) then (x, a.2) else (a.1, x).

Definition BF_NUM_ENTRIES_FOR_SERVER : nat := Z.to_nat 1000000.
Definition BF_NUM_ENTRIES_FOR_CLIENT : nat := Z.to_nat 10000.
Definition BF_ERROR_RATE_FOR_SERVER : Q := 1 # (10 ^ 6).
Definition BF_ERROR_RATE_FOR_CLIENT : Q := 1 # (10 ^ 15).

(** [random_iv_or_salt]: [n] bytes of each draw, until they are not all zero. *)
Fixpoint random_iv_or_salt (n : nat) (rng : list bytes) : option (bytes * list bytes) :=
  if decide (n = 0) then Some ([], rng)
  else match rng with
  | [] => None
  | d :: rng' =>
      let iv := take n (d ++ repeat x00 n) in
      if forallb (fun b => bool_decide (b = x00)) iv then random_iv_or_salt n rng' else Some (iv, rng')
  end.

Section Replay.
Context {B : Type} `{Bloom B}.

Definition PingPongBloom_new (is_local : bool) : PingPongBloom B :=
  let '(item_count, fp_p) := if is_local then (BF_NUM_ENTRIES_FOR_CLIENT, BF_ERROR_RATE_FOR_CLIENT)
  else (BF_NUM_ENTRIES_FOR_SERVER, BF_ERROR_RATE_FOR_SERVER) in
  let item_count := Nat.div item_count 2 in
  mkPingPong (bloom_new_for_fp_rate item_count fp_p, bloom_new_for_fp_rate item_count fp_p) (0, 0) item_count 0.

(** [true]: the data may be in one of the filters. *)
Definition check_and_set (p : PingPongBloom B) (buf : bytes) : bool * PingPongBloom B :=
  if bloom_check (blooms p).1 buf || bloom_check (blooms p).2 buf then (true, p)
  else
    let p := if decide (item_count p <= arr_get (bloom_count p) (current p))
    then let current := (current p + 1) mod 2 in
    mkPingPong (arr_set (blooms p) current (bloom_clear (arr_get (blooms p) current)))
    (arr_set (bloom_count p) current 0) (item_count p) current
    else p in
    (false, mkPingPong (arr_set (blooms p) (current p) (bloom_set (arr_get (blooms p) (current p)) buf))
      (arr_set (bloom_count p) (current p) (arr_get (bloom_count p) (current p) + 1)) (item_count p) (current p)).

(** [BloomContext]: the lock is held for the call, so the calls are in sequence. *)
Definition BloomContext_new (is_local : bool) : PingPongBloom B := PingPongBloom_new is_local.

Definition check_nonce_and_set (ctx : PingPongBloom B) (nonce : bytes) : bool * PingPongBloom B :=
  match nonce with
  | [] => (false, ctx)
  | _ => check_and_set ctx nonce
  end.

(** [generate_nonce] fills a slice of [n] bytes. *)
Fixpoint generate_nonce (fuel : nat) (ctx : PingPongBloom B) (n : nat) (unique : bool) (rng : list bytes)
  : option (bytes * PingPongBloom B * list bytes) :=
  if decide (n = 0) then Some ([], ctx, rng)
  else match random_iv_or_salt n rng with
  | None => None
  | Some (nonce, rng) =>
    if unique then
      let '(seen, ctx) := check_nonce_and_set ctx nonce in
      if seen then match fuel with O => None | S f => generate_nonce f ctx n unique rng end
      else Some (nonce, ctx, rng)
    else Some (nonce, ctx, rng)
  end.

(** Nonces presented one after the other: the answers. *)
Fixpoint check_all (p : PingPongBloom B) (xs : list bytes) : list bool * PingPongBloom B :=
  match xs with
  | [] => ([], p)
  | x :: xs => let '(b, p) := check_nonce_and_set p x in let '(bs, p) := check_all p xs in (b :: bs, p)
  end.

Definition accepted (bs : list bool) : nat := length (filter (fun b => b = false) bs).

(** ** Lemmas *)

(** The counters never pass the limit, and [current] is an index. *)
Definition pp_ok (p : PingPongBloom B) : Prop :=
  (current p = 0 \/ current p = 1) /\ 0 < item_count p /\
  (bloom_count p).1 <= item_count p /\ (bloom_count p).2 <= item_count p.

(** [x] was set when [n] accepted insertions ago, and is still remembered. *)
Definition remembers (p : PingPongBloom B) (x : bytes) (n : nat) : Prop :=
  bloom_check (arr_get (blooms p) (current p)) x = true \/
  bloom_check (arr_get (blooms p) (1 - current p)) x = true /\ arr_get (bloom_count p) (current p) <= n.

Lemma remembers_check p x n :
  pp_ok p -> remembers p x n -> check_and_set p x = (true, p).
Proof.
  intros ([Hc|Hc] & _) Hr; unfold remembers, arr_get in Hr; rewrite Hc in Hr; simpl in Hr; unfold check_and_set;
    destruct Hr as [->|[-> _]]; by rewrite ?orb_true_r.
Qed.

Lemma check_and_set_step p y b p' :
  pp_ok p -> check_and_set p y = (b, p') ->
  pp_ok p' /\ item_count p' = item_count p /\ (b = true -> p' = p) /\ (b = false -> remembers p' y 0) /\
  forall x n, remembers p x n -> n < item_count p -> remembers p' x (if b then n else S n).
Proof.
  intros (Hc & Hi & H1 & H2) E. unfold check_and_set in E.
  destruct (bloom_check (blooms p).1 y || bloom_check (blooms p).2 y) eqn:Ey; simplify_eq.
  { by split_and!. }
  destruct p as [[b0 b1] [c0 c1] it cur]; simpl in *.
  split_and!; [|by case_decide| done| |].
  - unfold pp_ok, arr_get, arr_set. destruct Hc as [->| ->]; simpl;
      [destruct (decide (it <= c0))|destruct (decide (it <= c1))]; simpl; split_and!; auto; lia.
  - intros _. left. unfold arr_get, arr_set. destruct Hc as [->| ->]; simpl;
      [destruct (decide (it <= c0))|destruct (decide (it <= c1))]; simpl; apply bloom_check_set.
  - intros x n Hr Hn. unfold remembers, arr_get, arr_set in *.
    destruct Hc as [->| ->]; simpl in *; [destruct (decide (it <= c0))|destruct (decide (it <= c1))]; simpl;
      destruct Hr as [Hr|[Hr Hle]]; try lia; first [by left; apply bloom_check_mono|right; split; [done|lia]].
Qed.

Lemma check_all_remembers p xs bs p' x n :
  pp_ok p -> check_all p xs = (bs, p') -> remembers p x n -> n + accepted bs <= item_count p ->
  pp_ok p' /\ remembers p' x (n + accepted bs).
Proof.
  revert p bs n. induction xs as [|y xs IH]; intros p bs n Hok E Hr Hn; simpl in E.
  - simplify_eq. unfold accepted in *. simpl. rewrite Nat.add_0_r. done.
  - destruct (check_nonce_and_set p y) as [b p1] eqn:Ey. destruct (check_all p1 xs) as [bs1 p2] eqn:Exs. simplify_eq.
    destruct y as [|c y]; simpl in Ey.
    + simplify_eq. destruct (IH p1 bs1 n Hok Exs Hr) as [? ?].
      { unfold accepted in *. rewrite filter_cons_True in Hn by done. simpl in Hn. lia. }
      split; [done|]. unfold accepted in *. rewrite filter_cons_True in * by done. simpl in *.
      destruct H1 as [|[]]; [by left|right; split; [done|lia]].
    + destruct (check_and_set_step _ _ _ _ Hok Ey) as (Hok1 & Hit & _ & _ & Hstep).
      destruct b.
      * destruct (IH p1 bs1 n Hok1 Exs) as [? Hr'].
        { destruct (check_and_set_step _ _ _ _ Hok Ey) as (_ & _ & Hp & _). rewrite (Hp eq_refl). done. }
        { rewrite Hit. unfold accepted in *. rewrite filter_cons_False in Hn by done. done. }
        split; [done|]. unfold accepted in *. rewrite filter_cons_False by done. done.
      * unfold accepted in *. rewrite filter_cons_True in * by done. simpl in *.
        destruct (IH p1 bs1 (S n) Hok1 Exs) as [? Hr']; [apply Hstep; [done|lia]|lia|].
        split; [done|]. by replace (n + S (length (filter (fun b => b = false) bs1))) with (S n + length (filter (fun b => b = false) bs1)) by lia.
Qed.

Lemma PingPongBloom_new_ok is_local : pp_ok (PingPongBloom_new is_local).
Proof.
  unfold pp_ok, PingPongBloom_new.
  destruct is_local; cbn [item_count bloom_count current fst snd]; split_and!; auto using Nat.le_0_l.
  - apply Nat.div_str_pos. unfold BF_NUM_ENTRIES_FOR_CLIENT. lia.
  - apply Nat.div_str_pos. unfold BF_NUM_ENTRIES_FOR_SERVER. lia.
Qed.

Lemma check_all_ok p xs bs p' : pp_ok p -> check_all p xs = (bs, p') -> pp_ok p' /\ item_count p' = item_count p.
Proof.
  revert p bs. induction xs as [|y xs IH]; intros p bs Hok E; simpl in E; [by simplify_eq|].
  destruct (check_nonce_and_set p y) as [b p1] eqn:Ey. destruct (check_all p1 xs) as [bs1 p2] eqn:Exs. simplify_eq.
  destruct y as [|c y]; simpl in Ey; [simplify_eq; by eapply IH|].
  destruct (check_and_set_step _ _ _ _ Hok Ey) as (Hok1 & Hit & _). rewrite <- Hit. by eapply IH.
Qed.

Lemma check_nonce_known ctx x ctx' :
  pp_ok ctx -> x <> [] -> check_nonce_and_set ctx x = (false, ctx') -> check_nonce_and_set ctx' x = (true, ctx').
Proof.
  intros Hok Hx Ec. destruct x as [|c x]; [done|]. simpl in *.
  destruct (check_and_set_step _ _ _ _ Hok Ec) as (Hok1 & _ & _ & Hrem & _). by eapply remembers_check, Hrem.
Qed.

Lemma check_nonce_seen ctx x ctx' : pp_ok ctx -> check_nonce_and_set ctx x = (true, ctx') -> ctx' = ctx.
Proof.
  intros Hok Ec. destruct x as [|c x]; [done|]. simpl in *.
  destruct (check_and_set_step _ _ _ _ Hok Ec) as (_ & _ & Hp & _). by apply Hp.
Qed.

Lemma random_iv_nonzero n rng iv rng' :
  0 < n -> random_iv_or_salt n rng = Some (iv, rng') -> length iv = n /\ exists b, b ∈ iv /\ b <> x00.
Proof.
  intros Hn. induction rng as [|d rng IH]; simpl; rewrite decide_False by lia; [done|].
  destruct (forallb _ _) eqn:Ef; [done|]. intros [= <- <-]. split.
  - rewrite length_take, length_app, repeat_length. lia.
  - apply not_true_iff_false in Ef. rewrite forallb_forall in Ef.
    destruct (decide (Exists (fun b => b <> x00) (take n (d ++ repeat x00 n)))) as [He|He].
    + apply Exists_exists in He as (b & Hb & ?). eauto.
    + exfalso. apply Ef. intros b Hb. apply bool_decide_eq_true. apply not_Exists_Forall in He; [|intros ?; apply _].
      rewrite Forall_forall in He. specialize (He b). apply list_elem_of_In in Hb. apply He in Hb. by apply dec_stable.
Qed.

(** ** Properties *)

(** C28: a nonce that was accepted is refused as a replay for at least the
next [item_count] accepted ones, whatever is presented in between, from any
state a context can reach; the counters stay within their bound. *)
Theorem replay_window is_local before bs0 p x p1 after bs p2 :
  check_all (BloomContext_new is_local) before = (bs0, p) -> x <> [] ->
  check_nonce_and_set p x = (false, p1) -> check_all p1 after = (bs, p2) ->
  accepted bs <= item_count (BloomContext_new is_local) ->
  check_nonce_and_set p2 x = (true, p2) /\
  (bloom_count p2).1 <= item_count p2 /\ (bloom_count p2).2 <= item_count p2.
Proof.
  intros E0 Hx Ex E2 Hacc. destruct (check_all_ok _ _ _ _ (PingPongBloom_new_ok is_local) E0) as [Hok Hit].
  destruct x as [|c x]; [done|]. simpl in Ex.
  destruct (check_and_set_step _ _ _ _ Hok Ex) as (Hok1 & Hit1 & _ & Hrem & _).
  destruct (check_all_remembers _ _ _ _ _ _ Hok1 E2 (Hrem eq_refl)) as [Hok2 Hr2].
  { rewrite Hit1, Hit. exact Hacc. }
  split; [|by destruct Hok2 as (_ & _ & ? & ?)]. simpl. by eapply remembers_check.
Qed.
End Replay.

(** ** An instance for the witnesses: an exact set *)

Program Definition list_Bloom : Bloom (list bytes) := {|
  bloom_new_for_fp_rate _ _ := [];
  bloom_check b x := bool_decide (x ∈ b);
  bloom_set b x := x :: b;
  bloom_clear _ := []
|}.
Next Obligation. intros. apply bool_decide_eq_true. left. Qed.
Next Obligation. intros b x y E. apply bool_decide_eq_true in E. apply bool_decide_eq_true. by right. Qed.

(** ** Witnesses *)

#[local] Existing Instance list_Bloom.

Lemma replay_window_witness :
  exists p1 p2, check_nonce_and_set (BloomContext_new true) [x01] = (false, p1) /\
    check_all p1 [[x02]; [x03]; [x02]] = ([false; false; true], p2) /\
    check_nonce_and_set p2 [x01] = (true, p2).
Proof.
  destruct (check_nonce_and_set (BloomContext_new true) [x01]) as [b p1] eqn:E1.
  destruct (check_all p1 [[x02]; [x03]; [x02]]) as [bs p2] eqn:E2.
  assert (b = false) as -> by (vm_compute in E1; congruence).
  assert (bs = [false; false; true]) as -> by (vm_compute in E1; injection E1 as <-; vm_compute in E2; congruence).
  exists p1, p2. split; [reflexivity|]. split; [exact E2|].
  apply (replay_window true [] [] (BloomContext_new true) [x01] p1 [[x02]; [x03]; [x02]] [false; false; true] p2);
    [reflexivity|done|exact E1|exact E2|vm_compute; lia].
Defined.
