(* ===== verification/Shadowsocks.v ===== *)
(** * Shadowsocks (src/src/proxy/shadowsocks/)

    [CryptoStream] of crypto_io.rs over the reader and writer of ShadowStream.v:
    the salt of each direction, the replay check, and plain mode; the UDP
    packets of udp_crypto_io.rs; the builder of mod.rs. *)

From S2P Require Import Prelude Io StdText Address Aead FrameReader FrameWriter ShadowStream Replay.
From Stdlib Require Import ZArith Lia List Strings.Byte.
From stdpp Require Import base option list strings.

Section Shadowsocks.
Context `{AeadCrypto} {B : Type} `{Bloom B}.
Abbreviation Ctx := (PingPongBloom B).

(** [enum DecryptedReader] and [enum EncryptedWriter]: [None] is plain mode. *)
Inductive StreamReader := ReaderNone | ReaderAead (r : DecryptedReader AeadCipher).
Inductive StreamWriter := WriterNone | WriterAead (w : EncryptedWriter AeadCipher).

(** [WaitIv] holds the bytes read, with the capacity of the buffer. *)
Inductive ReadStatus := WaitIv (buf : bytes) (capacity : nat) (method : CipherKind) (key : bytes) | Established.

Record CryptoStream := mkCryptoStream {
  cs_dec : option StreamReader;
  cs_enc : StreamWriter;
  cs_status : ReadStatus
}.

Definition new_none : CryptoStream := mkCryptoStream (Some ReaderNone) WriterNone Established.

(** The salt loop of [new]: draws until the context has not seen the salt. *)
Fixpoint fresh_salt (fuel : nat) (ctx : Ctx) (prev_len : nat) (rng : list bytes) : option (bytes * Ctx * list bytes) :=
  match (if decide (0 < prev_len) then random_iv_or_salt prev_len rng else Some ([], rng)) with
  | None => None
  | Some (salt, rng) =>
    let '(seen, ctx) := check_nonce_and_set ctx salt in
    if seen then match fuel with O => None | S f => fresh_salt f ctx prev_len rng end
    else Some (salt, ctx, rng)
  end.

(** [CryptoStream::new]; [None]: the draws are used up. *)
Definition CryptoStream_new (ctx : Ctx) (key : bytes) (method : CipherKind) (rng : list bytes)
  : option (res (CryptoStream * Ctx) * list bytes) :=
  if decide (method = CipherKind_None) then Some (Ok (new_none, ctx), rng)
  else
    let prev_len := salt_len method in
    match fresh_salt (length rng) ctx prev_len rng with
    | None => None
    | Some (iv, ctx, rng) =>
      Some (enc ← EncryptedWriter_new method key iv;
        Ok (mkCryptoStream None (WriterAead enc) (WaitIv [] prev_len method key), ctx), rng)
    end.

(** *** Polls, over any inner stream

The inner stream is known by its polls and by the loops of the readers and
writers over it: on the scripts of Io.v those of Io.v, in ShadowLayer.v those
of Stack.v.  The context of salts is shared by all connections, so it is
behind the stream; [check] is its [check_nonce_and_set]. *)
Section Over.
Context {R W : Type} (poll_read : nat -> R -> Poll (res bytes) * R) (check : bytes -> R -> bool * R).
Context (poll_read_decrypted : nat -> R -> DecryptedReader AeadCipher -> Poll (res bytes) * R * DecryptedReader AeadCipher).
Context (poll_write : W -> bytes -> Poll (res nat) * W) (write_data : W -> bytes -> nat -> Poll (res unit) * W * nat).

(** The loop of [poll_read_handshake]: reads into the free part of the buffer
until it is full; each turn reads a byte. *)
Fixpoint handshake_loop (fuel : nat) (s : R) (buf : bytes) (capacity : nat)
  : Poll (res unit) * R * bytes :=
  if decide (length buf = capacity) then (Ready (Ok tt), s, buf)
  else match fuel with
  | O => (Ready Panic, s, buf)
  | S f =>
    match poll_read (capacity - length buf) s with
    | (Pending, s) => (Pending, s, buf)
    | (Ready (Ok []), s) => (Ready (Err unexpected_eof), s, buf)
    | (Ready (Ok d), s) => handshake_loop f s (buf ++ d) capacity
    | (Ready (Err e), s) => (Ready (Err e), s, buf)
    | (Ready Panic, s) => (Ready Panic, s, buf)
    end
  end.

Definition err_repeated : io_error := IoError Other "detected repeated iv/salt".

(** [poll_read_handshake]. *)
Definition poll_read_handshake (s : R) (c : CryptoStream) : Poll (res unit) * R * CryptoStream :=
  match cs_status c with
  | Established => (Ready (Ok tt), s, c)
  | WaitIv buf capacity method key =>
    let '(p, s, buf) := handshake_loop (capacity - length buf) s buf capacity in
    let wait := mkCryptoStream (cs_dec c) (cs_enc c) (WaitIv buf capacity method key) in
    match p with
    | Ready (Ok _) =>
      let '(seen, s) := check buf s in
      if seen then (Ready (Err err_repeated), s, wait)
      else
        let dec := if decide (method = CipherKind_None) then Ok ReaderNone
        else r ← DecryptedReader_new method key buf; Ok (ReaderAead r) in
        match dec with
        | Ok dec => (Ready (Ok tt), s, mkCryptoStream (Some dec) (cs_enc c) Established)
        | Err e => (Ready (Err e), s, wait)
        | Panic => (Ready Panic, s, wait)
        end
    | _ => (p, s, wait)
    end
  end.

(** [poll_read] of the stream. *)
Definition crypto_poll_read (cap : nat) (s : R) (c : CryptoStream) : Poll (res bytes) * R * CryptoStream :=
  let '(p, s, c) := poll_read_handshake s c in
  match p with
  | Pending => (Pending, s, c)
  | Ready (Err e) => (Ready (Err e), s, c)
  | Ready Panic => (Ready Panic, s, c)
  | Ready (Ok _) =>
    match cs_dec c with
    | None => (Ready Panic, s, c)       (* unwrap *)
    | Some ReaderNone => let '(p, s) := poll_read cap s in (p, s, c)
    | Some (ReaderAead r) =>
      let '(p, s, r) := poll_read_decrypted cap s r in
      (p, s, mkCryptoStream (Some (ReaderAead r)) (cs_enc c) (cs_status c))
    end
  end.

(** [poll_write] of the stream; flush and shutdown are those of the inner one. *)
Definition crypto_poll_write (buf : bytes) (w : W) (c : CryptoStream) : Poll (res nat) * W * CryptoStream :=
  match cs_enc c with
  | WriterNone => let '(p, w) := poll_write w buf in (p, w, c)
  | WriterAead e =>
    let '(p, w, e) := poll_write_encrypted write_data buf w e in
    (p, w, mkCryptoStream (cs_dec c) (WriterAead e) (cs_status c))
  end.
End Over.

(** ** UDP packets *)

Definition err_parse_udp : io_error := IoError InvalidData "parse udp packet Address failed".

(** [encrypt_payload_aead]; the trailing room for the tag is filled by the
cipher. *)
Definition encrypt_payload_aead (method : CipherKind) (key : bytes) (addr : Address) (payload dst : bytes)
  (rng : list bytes) : option (res bytes * list bytes) :=
  let salt_len := salt_len method in
  let dst := take salt_len (dst ++ repeat x00 salt_len) in
  match (if decide (0 < salt_len) then random_iv_or_salt salt_len rng else Some (dst, rng)) with
  | None => None
  | Some (salt, rng) =>
    Some (cipher ← AeadCipher_new method key salt;
      let dst := write_to_buf addr salt ++ payload ++ repeat x00 (tag_len method) in
      m ← fst (AeadCipher_encrypt cipher (drop salt_len dst));
      Ok (take salt_len dst ++ m), rng)
  end.

Definition encrypt_payload (method : CipherKind) (key : bytes) (addr : Address) (payload dst : bytes)
  (rng : list bytes) : option (res bytes * list bytes) :=
  if decide (method = CipherKind_None) then Some (Ok (write_to_buf addr dst ++ payload), rng)
  else encrypt_payload_aead method key addr payload dst rng.

(** [parse_packet]: the position behind the address. *)
Definition parse_packet (buf : bytes) : res (nat * Address) :=
  match read_from_cursor (mkCursor buf 0) with
  | Ok (a, cur) => Ok (cur_position cur, a)
  | Err _ => Err err_parse_udp
  | Panic => Panic
  end.

(** [decrypt_payload]: the payload is moved to the front of the packet; the
result is that prefix and the address. *)
Definition decrypt_payload_aead (method : CipherKind) (key payload : bytes) : res (bytes * Address) :=
  let salt_len := salt_len method in
  if decide (length payload < salt_len) then Err (IoError InvalidData "udp packet too short for salt") else
    let salt := take salt_len payload in
    let data := drop salt_len payload in
    cipher ← AeadCipher_new method key salt;
    if decide (length data < tag_len method) then Err (IoError Other "udp packet too short for tag") else
      m ← fst (AeadCipher_decrypt cipher data);
      match m with
      | None => Err (IoError Other "invalid tag-in")
      | Some data =>
        '(dn, addr) ← parse_packet data;
        Ok (drop dn data, addr)
      end.

Definition decrypt_payload (method : CipherKind) (key payload : bytes) : res (bytes * Address) :=
  if decide (method = CipherKind_None) then
    '(pos, a) ← parse_packet payload; Ok (drop pos payload, a)
  else decrypt_payload_aead method key payload.

(** [ShadowSocksUdpStream]; [poll_recv_from] on the packet that the inner
socket put into the destination. *)
Definition ss_recv_from (method : CipherKind) (key : bytes) (inner : Poll (res bytes)) : Poll (res (bytes * Address)) :=
  match inner with
  | Pending => Pending
  | Ready (Err e) => Ready (Err e)
  | Ready Panic => Ready Panic
  | Ready (Ok filled) => Ready (decrypt_payload method key filled)
  end.

Record SsUdpWriter := mkSsUdpWriter {
  su_suspended : bool;
  su_write_buffer : bytes
}.

(** [priv_poll_write]: a poll offers the encrypted buffer to the inner socket,
which answers [inner]; the last component is what was offered.  A
suspended send offers the buffer it has. *)
Definition ss_send_to (method : CipherKind) (key : bytes) (data : bytes) (addr : Address) (rng : list bytes)
  (inner : Poll (res nat)) (u : SsUdpWriter) : option (Poll (res nat) * SsUdpWriter * list bytes * bytes) :=
  let offer buf rng :=
  match inner with
  | Pending => (Pending, mkSsUdpWriter true buf, rng, buf)
  | r => (r, mkSsUdpWriter false [], rng, buf)
  end in
  if su_suspended u then Some (offer (su_write_buffer u) rng)
  else match encrypt_payload method key addr data (su_write_buffer u) rng with
  | None => None
  | Some (Ok buf, rng) => Some (offer buf rng)
  | Some (Err e, rng) => Some (Ready (Err e), u, rng, [])
  | Some (Panic, rng) => Some (Ready Panic, u, rng, [])
  end.

(** ** The builder *)

Record ShadowsocksBuilder := mkSsBuilder {
  sb_addr : Address;
  sb_method : CipherKind;
  sb_key : bytes
}.

(** [new_from_config]; the key's initial contents are unspecified. *)
Definition new_from_config (addr : Address) (password : bytes) (method : CipherKind) (uninit : bytes)
  : ShadowsocksBuilder :=
  mkSsBuilder addr method (openssl_bytes_to_key password (take (key_len method) (uninit ++ repeat x00 (key_len method)))).

(** ** Lemmas *)

Lemma parse_packet_encode a r :
  Address_ok a = true -> parse_packet (encode a ++ r) = Ok (length (encode a), wire_norm a).
Proof.
  intros Ha. unfold parse_packet.
  destruct (read_from_cursor_encode a (mkCursor (encode a ++ r) 0) r Ha) as (cur & E & Hr); [done|].
  rewrite E. f_equal. f_equal. apply read_from_cursor_position in E as [Hi Hp]. simpl in Hi, Hp, Hr.
  rewrite Hi in *. apply (f_equal length) in Hr. rewrite length_drop, length_app in Hr.
  rewrite length_app in Hp. lia.
Qed.

(** A handshake reads exactly up to the capacity. *)
Lemma handshake_loop_spec fuel s buf capacity p s' buf' :
  handshake_loop poll_read fuel s buf capacity = (p, s', buf') -> length buf <= capacity -> capacity - length buf <= fuel ->
  match p with
  | Ready (Ok _) => length buf' = capacity /\ buf ++ rd_bytes s = buf' ++ rd_bytes s'
  | Ready (Err _) => length (buf ++ rd_bytes s) < capacity
  | Ready Panic => False
  | Pending => length buf' < capacity /\ buf ++ rd_bytes s = buf' ++ rd_bytes s'
  end.
Proof.
  revert s buf. induction fuel as [|f IH]; intros s buf; simpl; case_decide as Hc; [by intros; simplify_eq|lia|by intros; simplify_eq|].
  intros E Hb Hf. pose proof (poll_read_spec (capacity - length buf) s) as Hp.
  destruct (poll_read (capacity - length buf) s) as [q s1] eqn:Eq. specialize (Hp _ _ eq_refl).
  destruct q as [[[|x d]|e|]|]; simplify_eq.
  - destruct Hp as [|Hp]; [lia|]. rewrite Hp, app_nil_r. lia.
  - destruct Hp as [Hd Hp]. apply IH in E; [|rewrite length_app; simpl in *; lia..]. by rewrite <- app_assoc, <- Hp in E.
  - rewrite Hp, app_nil_r. lia.
  - destruct Hp as [Hp ?]. rewrite Hp. split; [lia|done].
Qed.

Lemma fresh_salt_spec fuel ctx n rng salt ctx' rng' :
  pp_ok ctx -> 0 < n -> fresh_salt fuel ctx n rng = Some (salt, ctx', rng') ->
  length salt = n /\ (exists b, b ∈ salt /\ b <> x00) /\
  check_nonce_and_set ctx salt = (false, ctx') /\ check_nonce_and_set ctx' salt = (true, ctx').
Proof.
  intros Hok Hn. revert rng. induction fuel as [|f IH]; intros rng; simpl; rewrite decide_True by done;
    destruct (random_iv_or_salt n rng) as [[iv rng1]|] eqn:Er; try done;
    pose proof (random_iv_nonzero _ _ _ _ Hn Er) as [Hl Hz];
    destruct (check_nonce_and_set ctx iv) as [seen ctx1] eqn:Ec; destruct seen; try done.
  - intros; simplify_eq. split_and!; [done|done|done|]. apply (check_nonce_known ctx); [done| |done].
    intros ->. simpl in *. lia.
  - assert (ctx1 = ctx) as -> by (by eapply check_nonce_seen). apply IH.
  - intros; simplify_eq. split_and!; [done|done|done|]. apply (check_nonce_known ctx); [done| |done].
    intros ->. simpl in *. lia.
Qed.

Lemma AeadCipher_new_ok method key salt :
  method <> CipherKind_None -> length key = key_len method ->
  exists a, AeadCipher_new method key salt =
  Ok (mkAeadCipher a (take (length key) (ss_hkdf_sha1 salt key)) (repeat x00 24) (nonce_len method)).
Proof.
  intros Hm Hk. unfold AeadCipher_new.
  assert (length (ss_hkdf_sha1 salt key) = 64) as Hh by apply hkdf_sha1_length.
  rewrite decide_False by (rewrite Hh, Hk; destruct method; simpl; lia).
  assert (length (take (length key) (ss_hkdf_sha1 salt key)) = length key) as Ht.
  { rewrite length_take, Hh, Hk. destruct method; simpl; lia. }
  destruct method; [done|..]; unfold CipherKind_new; rewrite decide_True by (by rewrite Ht, Hk);
    simpl; eauto.
Qed.

(** A script of Io.v with the context behind it. *)
Definition ctx_poll_read (cap : nat) (s : rd_script * Ctx) : Poll (res bytes) * (rd_script * Ctx) :=
  let '(p, r) := poll_read cap s.1 in (p, (r, s.2)).
Definition ctx_check (nonce : bytes) (s : rd_script * Ctx) : bool * (rd_script * Ctx) :=
  let '(seen, ctx) := check_nonce_and_set s.2 nonce in (seen, (s.1, ctx)).

Lemma ctx_handshake_loop fuel s ctx buf capacity : handshake_loop ctx_poll_read fuel (s, ctx) buf capacity =
  let '(p, s, buf) := handshake_loop poll_read fuel s buf capacity in (p, (s, ctx), buf).
Proof.
  revert s buf. induction fuel as [|f IH]; intros s buf; cbn [handshake_loop]; case_decide; try done.
  unfold ctx_poll_read. cbn [fst snd]. destruct (poll_read _ s) as [[[[|x d]|e|]|] s1]; done || apply IH.
Qed.

(** ** Properties *)

(** A stream opens with a new salt: the salt has the length of the
method, is not all zero, was not known to the replay context, and is
known to it afterwards; it is what the writer sends first. *)
Theorem crypto_stream_new_salt ctx key method rng c ctx' rng' :
  pp_ok ctx -> method <> CipherKind_None -> length key = key_len method ->
  CryptoStream_new ctx key method rng = Some (Ok (c, ctx'), rng') ->
  exists e, cs_enc c = WriterAead e /\ length (ew_buf e) = salt_len method /\
  EncryptedWriter_new method key (ew_buf e) = Ok e /\
  (exists b, b ∈ ew_buf e /\ b <> x00) /\
  check_nonce_and_set ctx (ew_buf e) = (false, ctx') /\ check_nonce_and_set ctx' (ew_buf e) = (true, ctx') /\
  cs_status c = WaitIv [] (salt_len method) method key.
Proof.
  intros Hok Hm Hk. unfold CryptoStream_new. rewrite decide_False by done.
  destruct (fresh_salt _ _ _ _) as [[[iv ctx1] rng1]|] eqn:Ef; [|done].
  assert (0 < salt_len method) as Hn by (destruct method; [done|simpl; lia..]).
  destruct (fresh_salt_spec _ _ _ _ _ _ _ Hok Hn Ef) as (Hl & Hz & Hc & Hc').
  destruct (AeadCipher_new_ok method key iv Hm Hk) as [a Ea].
  destruct (EncryptedWriter_new_ok _ _ _ _ Ea) as [He _]. rewrite He. intros [= <- <- <-].
  eexists. split; [done|]. split_and!; done.
Qed.

(** The reading side of a stream takes the peer's salt and nothing
else: in any fragmentation, the handshake either waits, or fails because the stream ended
before a whole salt, or refuses a salt that the replay context knows, or
installs the decryption under exactly that salt, leaving exactly the bytes that follow, the salt
becoming known; it never panics. *)
Theorem crypto_handshake ctx s c buf method key p s' c' ctx' :
  pp_ok ctx -> method <> CipherKind_None -> length key = key_len method -> length buf <= salt_len method ->
  cs_status c = WaitIv buf (salt_len method) method key ->
  poll_read_handshake ctx_poll_read ctx_check (s, ctx) c = (p, (s', ctx'), c') ->
  match p with
  | Pending => exists buf', cs_status c' = WaitIv buf' (salt_len method) method key /\ length buf' < salt_len method
    /\ buf ++ rd_bytes s = buf' ++ rd_bytes s' /\ ctx' = ctx
  | Ready (Err e) =>
    length (buf ++ rd_bytes s) < salt_len method /\ ctx' = ctx \/
    exists salt r, buf ++ rd_bytes s = salt ++ r /\ length salt = salt_len method /\
    check_nonce_and_set ctx salt = (true, ctx') /\ e = err_repeated
  | Ready (Ok _) => exists salt r, buf ++ rd_bytes s = salt ++ rd_bytes s' /\ length salt = salt_len method /\
    check_nonce_and_set ctx salt = (false, ctx') /\ check_nonce_and_set ctx' salt = (true, ctx') /\
    DecryptedReader_new method key salt = Ok r /\ cs_dec c' = Some (ReaderAead r) /\ cs_status c' = Established
  | Ready Panic => False
  end.
Proof.
  intros Hok Hm Hk Hb Hs. unfold poll_read_handshake. rewrite Hs.
  rewrite ctx_handshake_loop. destruct (handshake_loop poll_read _ s buf _) as [[q s1] b1] eqn:Eh. apply handshake_loop_spec in Eh; [|done|lia].
  destruct q as [[[]|e|]|]; [|intros; simplify_eq; by left|done|intros; simplify_eq; destruct Eh as (? & ?); eauto].
  destruct Eh as [Hl Hbytes]. unfold ctx_check. cbn [fst snd]. destruct (check_nonce_and_set ctx b1) as [seen ctx1] eqn:Ec. destruct seen.
  { intros; simplify_eq. right. eauto 10. }
  rewrite decide_False by done. destruct (AeadCipher_new_ok method key b1 Hm Hk) as [a Ea].
  destruct (EncryptedWriter_new_ok _ _ _ _ Ea) as [_ Hr]. rewrite Hr. simpl. intros; simplify_eq/=.
  exists b1, (mkDecryptedReader [] (mkAeadCipher a (take (length key) (ss_hkdf_sha1 b1 key)) (repeat x00 24) (nonce_len method)) DecLength 0 false).
  split_and!; try done. apply (check_nonce_known ctx); [done| |done].
  intros ->. by destruct method.
Qed.

(** C36: a UDP packet decrypts to its payload and its address, for every
method, key, payload and salt the generator draws. *)
Theorem udp_packet_roundtrip method key addr payload rng out rng' :
  length key = key_len method -> Address_ok addr = true ->
  encrypt_payload method key addr payload [] rng = Some (out, rng') ->
  exists packet, out = Ok packet /\ decrypt_payload method key packet = Ok (payload, wire_norm addr).
Proof.
  intros Hk Ha. unfold encrypt_payload, decrypt_payload. case_decide as Hm.
  - intros [= <- _]. eexists. split; [done|]. rewrite write_to_buf_list, app_nil_l.
    rewrite parse_packet_encode by done. simpl. by rewrite drop_app_length.
  - unfold encrypt_payload_aead.
    assert (0 < salt_len method) as Hn by (destruct method; simpl; first [done|lia]). rewrite decide_True by done.
    destruct (random_iv_or_salt _ rng) as [[salt rng1]|] eqn:Er; [|done].
    apply random_iv_nonzero in Er as [Hl _]; [|done]. intros [= <- _].
    destruct (AeadCipher_new_ok method key salt Hm Hk) as [a Ea]. rewrite Ea. cbn [mbind res_bind].
    set (c := mkAeadCipher _ _ _ _). rewrite write_to_buf_list, <- !app_assoc.
    rewrite drop_app_length', take_app_length' by done.
    destruct (encrypt_room c (encode addr ++ payload)) as (o & Eo & Hlo & Hd). rewrite <- app_assoc in Eo.
    change (encrypt_inplace_with_slice _ _ _ _ _) with (AeadCipher_encrypt c (encode addr ++ payload ++ repeat x00 16)).1.
    rewrite Eo. cbn [mbind res_bind]. eexists. split; [done|]. unfold decrypt_payload_aead.
    rewrite decide_False by (rewrite length_app; lia). rewrite take_app_length', drop_app_length' by done.
    rewrite Ea. cbn [mbind res_bind]. rewrite decide_False by (unfold tag_len; lia).
    fold c. rewrite Hd. cbn [mbind res_bind].
    rewrite parse_packet_encode by done. simpl. by rewrite drop_app_length.
Qed.

(** In plain mode a packet from the network can stop the program: the
decoder panics on a domain address cut inside its port. *)
Theorem udp_plain_packet_panic key : decrypt_payload CipherKind_None key [x03; x01; x61] = Panic.
Proof. reflexivity. Qed.
End Shadowsocks.

(** ** Witnesses *)

#[local] Existing Instance toy_crypto.
#[local] Existing Instance list_Bloom.

Definition wit_ctx : PingPongBloom (list bytes) := mkPingPong ([], []) (0, 0) 4 0.
Definition wit_ss_key : bytes := repeat x01 16.

Lemma wit_ctx_ok : pp_ok wit_ctx.
Proof. unfold pp_ok. simpl. lia. Qed.

Lemma crypto_stream_new_salt_witness :
  exists c ctx', CryptoStream_new wit_ctx wit_ss_key Aes128Gcm [[]; [x07]] = Some (Ok (c, ctx'), []) /\
    exists e, cs_enc c = WriterAead e /\ length (ew_buf e) = 16.
Proof.
  destruct (CryptoStream_new wit_ctx wit_ss_key Aes128Gcm [[]; [x07]]) as [[[[c ctx']|e|] rng']|] eqn:E;
    [|vm_compute in E; discriminate E..].
  assert (rng' = []) as -> by (vm_compute in E; congruence).
  exists c, ctx'. split; [reflexivity|].
  destruct (crypto_stream_new_salt wit_ctx wit_ss_key Aes128Gcm [[]; [x07]] c ctx' [])
    as (e & He & Hl & _); [exact wit_ctx_ok|done|reflexivity|exact E|].
  exists e. split; [exact He|exact Hl].
Defined.

Lemma crypto_handshake_witness :
  let c := mkCryptoStream None WriterNone (WaitIv [x05] 16 Aes128Gcm wit_ss_key) in
  let s := [RdData (repeat x05 10); RdPending; RdData (repeat x05 9)] in
  exists p s' c' ctx', poll_read_handshake ctx_poll_read ctx_check (s, wit_ctx) c = (p, (s', ctx'), c') /\ p = Pending
    /\ exists buf', cs_status c' = WaitIv buf' 16 Aes128Gcm wit_ss_key.
Proof.
  intros c s. destruct (poll_read_handshake ctx_poll_read ctx_check (s, wit_ctx) c) as [[p [s' ctx']] c'] eqn:E.
  pose proof (crypto_handshake wit_ctx s c [x05] Aes128Gcm wit_ss_key p s' c' ctx' wit_ctx_ok) as H.
  assert (p = Pending) as -> by (vm_compute in E; congruence).
  exists Pending, s', c', ctx'. split; [reflexivity|]. split; [reflexivity|].
  destruct H as (buf' & Hb & _); [done|reflexivity|simpl; lia|reflexivity|exact E|].
  exists buf'. exact Hb.
Defined.

Lemma udp_packet_roundtrip_witness :
  let a := DomainNameAddress (str "example.org") 443 in
  exists packet, encrypt_payload Aes128Gcm wit_ss_key a (str "payload") [] [[x09]] = Some (Ok packet, []) /\
    decrypt_payload Aes128Gcm wit_ss_key packet = Ok (str "payload", a).
Proof.
  intros a. destruct (encrypt_payload Aes128Gcm wit_ss_key a (str "payload") [] [[x09]]) as [[out rng']|] eqn:E;
    [|vm_compute in E; discriminate E].
  assert (rng' = []) as -> by (vm_compute in E; congruence).
  destruct (udp_packet_roundtrip Aes128Gcm wit_ss_key a (str "payload") [[x09]] out []) as (packet & -> & Hd);
    [reflexivity|reflexivity|exact E|].
  exists packet. split; [reflexivity|exact Hd].
Defined.
