(* ===== verification/VmessKdf.v ===== *)
(** * VMess key derivation (src/src/proxy/vmess/kdf.rs)

    [VmessKdf1] and the two structs of the macro [impl_hmac_with_hasher!] are
    the record [VmessKdf] over an incremental hasher; each is a hasher again.
    HMAC-SHA256 is the crate's, a parameter.

    The specification is [hmac_of], the HMAC construction of RFC 2104 over
    a hash function with 64-byte blocks: the structs compute it, nested. *)

From S2P Require Import Prelude Io StdText.
From Stdlib Require Import ZArith Lia List Strings.Byte.
From stdpp Require Import base option list strings.

Definition IPAD : byte := x36.
Definition OPAD : byte := x5c.

Definition KDF_SALT_CONST_AUTH_ID_ENCRYPTION_KEY : bytes := str "AES Auth ID Encryption".
Definition KDF_SALT_CONST_AEAD_RESP_HEADER_LEN_KEY : bytes := str "AEAD Resp Header Len Key".
Definition KDF_SALT_CONST_AEAD_RESP_HEADER_LEN_IV : bytes := str "AEAD Resp Header Len IV".
Definition KDF_SALT_CONST_AEAD_RESP_HEADER_PAYLOAD_KEY : bytes := str "AEAD Resp Header Key".
Definition KDF_SALT_CONST_AEAD_RESP_HEADER_PAYLOAD_IV : bytes := str "AEAD Resp Header IV".
Definition KDF_SALT_CONST_VMESS_AEAD_KDF : bytes := str "VMess AEAD KDF".
Definition KDF_SALT_CONST_VMESS_HEADER_PAYLOAD_AEAD_KEY : bytes := str "VMess Header AEAD Key".
Definition KDF_SALT_CONST_VMESS_HEADER_PAYLOAD_AEAD_IV : bytes := str "VMess Header AEAD Nonce".
Definition KDF_SALT_CONST_VMESS_HEADER_PAYLOAD_LENGTH_AEAD_KEY : bytes := str "VMess Header AEAD Key_Length".
Definition KDF_SALT_CONST_VMESS_HEADER_PAYLOAD_LENGTH_AEAD_IV : bytes := str "VMess Header AEAD Nonce_Length".

(** HMAC-SHA256 of the crates hmac and sha2: key, message. *)
Class HmacSha256Crypto := {
  hmac_sha256 : bytes -> bytes -> bytes;
  hmac_sha256_length k m : length (hmac_sha256 k m) = 32
}.

(** The incremental interface. *)
Class Hasher (H : Type) := {
  h_update : H -> bytes -> H;
  h_finalize : H -> bytes
}.

(** [Hmac<Sha256>]: its key and what it was fed. *)
Record HmacSha256 := mkHmacSha256 { hs_key : bytes; hs_fed : bytes }.
Definition HmacSha256_new_from_slice (key : bytes) : HmacSha256 := mkHmacSha256 key [].

#[export] Instance HmacSha256_Hasher `{HmacSha256Crypto} : Hasher HmacSha256 := {|
  h_update h m := mkHmacSha256 (hs_key h) (hs_fed h ++ m);
  h_finalize h := hmac_sha256 (hs_key h) (hs_fed h)
|}.

Definition BLOCK_LEN : nat := 64.
Definition TAG_LEN : nat := 32.

Record VmessKdf (H : Type) := mkKdf { okey : bytes; hasher : H; hasher_outer : H }.
Arguments mkKdf {H} _ _ _.
Arguments okey {H} _.
Arguments hasher {H} _.
Arguments hasher_outer {H} _.

Definition xor_byte (a b : byte) : byte := z2b (Z.lxor (b2z a) (b2z b)).

(** [[0u8; 64]] with [k] copied to its front. *)
Definition pad_block (k : bytes) : bytes := take BLOCK_LEN (k ++ repeat x00 BLOCK_LEN).

Section Kdf.
Context {H : Type} `{Hasher H}.

Definition kdf_new (hasher : H) (key : bytes) : VmessKdf H :=
  let hasher_outer := hasher in
  let k := if decide (BLOCK_LEN < length key) then take TAG_LEN (h_finalize (h_update hasher key)) else key in
  let ikey := map (fun b => xor_byte b IPAD) (pad_block k) in
  let okey := map (fun b => xor_byte b OPAD) (pad_block k) in
  mkKdf okey (h_update hasher ikey) hasher_outer.

Definition kdf_update (k : VmessKdf H) (m : bytes) : VmessKdf H :=
  mkKdf (okey k) (h_update (hasher k) m) (hasher_outer k).

Definition kdf_finalize (k : VmessKdf H) : bytes :=
  let h1 := h_finalize (hasher k) in
  h_finalize (h_update (h_update (hasher_outer k) (okey k)) h1).

#[export] Instance VmessKdf_Hasher : Hasher (VmessKdf H) := {| h_update := kdf_update; h_finalize := kdf_finalize |}.
End Kdf.

Abbreviation VmessKdf1 := (VmessKdf HmacSha256).
Abbreviation VmessKdf2 := (VmessKdf VmessKdf1).
Abbreviation VmessKdf3 := (VmessKdf VmessKdf2).

(** ** Specification *)

(** HMAC over the hash function [f]. *)
Definition hmac_of (f : bytes -> bytes) (key m : bytes) : bytes :=
  let k := pad_block (if decide (BLOCK_LEN < length key) then take TAG_LEN (f key) else key) in
  f (map (fun b => xor_byte b OPAD) k ++ f (map (fun b => xor_byte b IPAD) k ++ m)).

(** The derivation of the protocol: HMAC-SHA256 keyed by the VMess constant, and
one HMAC over the function so far for each key of the path. *)
Definition kdf_spec `{HmacSha256Crypto} (path : list bytes) (id : bytes) : bytes :=
  fold_left hmac_of path (hmac_sha256 (str "VMess AEAD KDF")) id.

(** A hasher state that computes [f] of all it is fed. *)
Definition denotes {H} `{Hasher H} (h : H) (f : bytes -> bytes) : Prop :=
  forall ms, h_finalize (fold_left h_update ms h) = f (concat ms).

Section OneShot.
Context `{HmacSha256Crypto}.

Definition get_vmess_kdf_1 (key1 : bytes) : VmessKdf1 :=
  kdf_new (HmacSha256_new_from_slice KDF_SALT_CONST_VMESS_AEAD_KDF) key1.
Definition vmess_kdf_1_one_shot (id key1 : bytes) : bytes := h_finalize (h_update (get_vmess_kdf_1 key1) id).
Definition get_vmess_kdf_2 (key1 key2 : bytes) : VmessKdf2 := kdf_new (get_vmess_kdf_1 key1) key2.
Definition get_vmess_kdf_3 (key1 key2 key3 : bytes) : VmessKdf3 := kdf_new (get_vmess_kdf_2 key1 key2) key3.
Definition vmess_kdf_3_one_shot (id key1 key2 key3 : bytes) : bytes :=
  h_finalize (h_update (get_vmess_kdf_3 key1 key2 key3) id).
End OneShot.

(** ** Lemmas *)

Lemma denotes_nil {H} `{Hasher H} (h : H) f : denotes h f -> h_finalize h = f [].
Proof. intros Hd. exact (Hd []). Qed.

Lemma denotes_one {H} `{Hasher H} (h : H) f m : denotes h f -> h_finalize (h_update h m) = f m.
Proof. intros Hd. specialize (Hd [m]). simpl in Hd. by rewrite app_nil_r in Hd. Qed.

Lemma denotes_two {H} `{Hasher H} (h : H) f a b : denotes h f -> h_finalize (h_update (h_update h a) b) = f (a ++ b).
Proof. intros Hd. specialize (Hd [a; b]). simpl in Hd. by rewrite app_nil_r in Hd. Qed.

Lemma HmacSha256_denotes `{HmacSha256Crypto} key : denotes (HmacSha256_new_from_slice key) (hmac_sha256 key).
Proof.
  intros ms. simpl. assert (forall h, hs_key (fold_left (fun h m => mkHmacSha256 (hs_key h) (hs_fed h ++ m)) ms h) = hs_key h
    /\ hs_fed (fold_left (fun h m => mkHmacSha256 (hs_key h) (hs_fed h ++ m)) ms h) = hs_fed h ++ concat ms) as Hf.
  { induction ms as [|m ms IH]; intros h; simpl; [by rewrite app_nil_r|].
    destruct (IH (mkHmacSha256 (hs_key h) (hs_fed h ++ m))) as [-> ->]. simpl. by rewrite <- app_assoc. }
  by destruct (Hf (HmacSha256_new_from_slice key)) as [-> ->].
Qed.

(** One layer computes HMAC over the function of the layer below. *)
Lemma kdf_new_denotes {H} `{Hasher H} (h : H) f key : denotes h f -> denotes (kdf_new h key) (hmac_of f key).
Proof.
  intros Hd ms.
  assert (forall k, okey (fold_left kdf_update ms k) = okey k /\ hasher_outer (fold_left kdf_update ms k) = hasher_outer k
    /\ hasher (fold_left kdf_update ms k) = fold_left h_update ms (hasher k)) as Hf.
  { induction ms as [|m ms IH]; intros k; [done|]. simpl. by destruct (IH (kdf_update k m)) as (-> & -> & ->). }
  simpl. unfold kdf_finalize. destruct (Hf (kdf_new h key)) as (-> & -> & ->). unfold kdf_new. cbn [okey hasher hasher_outer].
  rewrite (denotes_two h f) by done. unfold hmac_of. rewrite (denotes_one h f key Hd).
  f_equal. f_equal. exact (Hd (_ :: ms)).
Qed.

Lemma kdf_1_denotes `{HmacSha256Crypto} key1 : denotes (get_vmess_kdf_1 key1) (kdf_spec [key1]).
Proof. apply kdf_new_denotes, HmacSha256_denotes. Qed.

Lemma kdf_1_spec `{HmacSha256Crypto} id key1 : vmess_kdf_1_one_shot id key1 = kdf_spec [key1] id.
Proof. apply (denotes_one (get_vmess_kdf_1 key1)), kdf_1_denotes. Qed.

Lemma kdf_3_spec `{HmacSha256Crypto} id key1 key2 key3 : vmess_kdf_3_one_shot id key1 key2 key3 = kdf_spec [key1; key2; key3] id.
Proof. apply (denotes_one (get_vmess_kdf_3 key1 key2 key3)). exact (kdf_new_denotes _ _ _ (kdf_new_denotes _ _ _ (kdf_1_denotes key1))). Qed.

(** ** Properties *)

(** C38: the nested hashers of the key derivation compute nested HMAC: the
    one-key derivation is HMAC over HMAC-SHA256 keyed by the VMess constant, and the
    three-key derivation is HMAC over HMAC over that, for keys and data of any
    length. *)
Theorem vmess_kdf_is_nested_hmac `{HmacSha256Crypto} id key1 key2 key3 :
  let h1 := hmac_of (hmac_sha256 (str "VMess AEAD KDF")) key1 in
  vmess_kdf_1_one_shot id key1 = h1 id /\
  vmess_kdf_3_one_shot id key1 key2 key3 = hmac_of (hmac_of h1 key2) key3 id.
Proof.
  intros h1. assert (denotes (get_vmess_kdf_1 key1) h1) as H1 by apply kdf_new_denotes, HmacSha256_denotes.
  split; [by apply (denotes_one _ _ id H1)|].
  apply (denotes_one (get_vmess_kdf_3 key1 key2 key3)). by apply kdf_new_denotes, kdf_new_denotes.
Qed.

(** ** An instance for the witnesses *)

Program Definition toy_hmac : HmacSha256Crypto := {| hmac_sha256 k m := take 32 (k ++ m ++ repeat x00 32) |}.
Next Obligation. intros. simpl. rewrite length_take, !length_app. cbn [length]. lia. Qed.
