(* ===== verification/VmessBody.v ===== *)
(** * The VMess body (src/src/proxy/vmess/aead.rs)

    [VmessAeadReader] and [VmessAeadWriter] as instances of FrameReader.v and
    FrameWriter.v.  A frame is its length in clear, 2 bytes, and the payload,
    encrypted, with its tag; the nonce is a 16-bit counter and ten bytes of the
    IV.  [count += 1] is checked arithmetic: [oc] says whether overflow checks are on. *)

From S2P Require Import Prelude Io StdText Aead FrameReader FrameWriter.
From Stdlib Require Import ZArith Lia List Strings.Byte.
From stdpp Require Import base option list strings.

Definition MAX_SIZE : nat := Z.to_nat (17 * 1024).
Definition CHUNK_SIZE : nat := Z.to_nat (2 ^ 14).

(** [VmessSecurity] is an algorithm and its key; with it, the IV and the
    counter of a direction. *)
Record VmessCipher := mkVmessCipher {
  vc_alg : CipherAlg;
  vc_key : bytes;
  vc_iv : bytes;
  vc_count : Z
}.

Definition overhead_len : nat := 16.
Definition vmess_nonce_len : nat := 12.
Definition vmess_tag_len : nat := 16.

(** [nonce[0..2]] and [nonce[2..12]]; slicing a shorter IV panics. *)
Definition vmess_nonce (c : VmessCipher) : res bytes :=
  if decide (length (vc_iv c) < 12) then Panic
  else Ok (be_bytes 2 (vc_count c) ++ take 10 (drop 2 (vc_iv c))).

Section VmessBody.
Context `{AeadCrypto} (oc : bool).

Definition count_next (c : VmessCipher) : res VmessCipher :=
  n ← chk oc 16 (vc_count c + 1); Ok (mkVmessCipher (vc_alg c) (vc_key c) (vc_iv c) n).

Definition err_too_large : io_error := IoError InvalidData "buffer size too large!".

Definition vmess_header (c : VmessCipher) (l : bytes) : res nat * VmessCipher :=
  let data_length := Z.to_nat (be_val (take 2 l)) in
  (if decide (MAX_SIZE < data_length) then Err err_too_large else Ok data_length, c).

(** [decrypted_data], and [count += 1] when it succeeds. *)
Definition vmess_decrypt (c : VmessCipher) (l : bytes) : res (option bytes) * VmessCipher :=
  match (nonce ← vmess_nonce c; decrypt_inplace_with_slice (vc_alg c) (vc_key c) nonce [] l) with
  | Ok (Some m) =>
    match count_next c with
    | Ok c' => (Ok (Some m), c')
    | Err e => (Err e, c)
    | Panic => (Panic, c)
    end
  | r => (r, c)
  end.

(** [encrypted_buffer]. *)
Definition vmess_frame (c : VmessCipher) (data : bytes) : res (bytes * VmessCipher) :=
  nonce ← vmess_nonce c;
  m ← encrypt_inplace_with_slice (vc_alg c) (vc_key c) nonce [] (data ++ repeat x00 vmess_tag_len);
  c' ← count_next c;
  Ok (be_bytes 2 (Z.of_nat (length data + vmess_tag_len)) ++ m, c').

#[export] Program Instance vmess_format : FrameFormat VmessCipher := {|
    ff_header_len := 2;
    ff_header := vmess_header;
    ff_payload := vmess_decrypt
  |}.
Next Obligation. lia. Qed.
Next Obligation.
  intros c l m c'. unfold vmess_decrypt, vmess_nonce, decrypt_inplace_with_slice, TAG_SIZE.
  destruct (decide (length (vc_iv c) < 12)); cbn [mbind res_bind]; [done|].
  destruct (decide (length l < 16)); [done|].
  destruct (aead_open _ _ _ _ _ _) as [p|] eqn:E; [|done].
  destruct (count_next c); intros; simplify_eq. apply aead_open_length in E. rewrite length_take in E. lia.
Qed.

(** The writer ends on a poll without data. *)
#[export] Program Instance vmess_encoder : FrameEncoder VmessCipher := {|
    fe_max := CHUNK_SIZE - overhead_len;
    fe_empty_ends := true;
    fe_encode := vmess_frame
  |}.
Next Obligation. unfold CHUNK_SIZE, overhead_len. lia. Qed.

Definition VmessAeadWriter_new (iv : bytes) (security : CipherAlg * bytes) : EncryptedWriter VmessCipher :=
  mkEncryptedWriter (mkVmessCipher security.1 security.2 iv 0) EncStart [] 0 0.

Definition VmessAeadReader_new (iv : bytes) (security : CipherAlg * bytes) : DecryptedReader VmessCipher :=
  mkDecryptedReader [] (mkVmessCipher security.1 security.2 iv 0) DecLength 0 false.

(** ** Lemmas *)

Lemma sizes : Z.of_nat MAX_SIZE = 17408%Z /\ Z.of_nat CHUNK_SIZE = 16384%Z /\ CHUNK_SIZE - overhead_len + 16 = CHUNK_SIZE.
Proof. unfold MAX_SIZE, CHUNK_SIZE, overhead_len. lia. Qed.

Definition counted (c : VmessCipher) (n : nat) : VmessCipher :=
  mkVmessCipher (vc_alg c) (vc_key c) (vc_iv c) (vc_count c + Z.of_nat n).

#[local] Opaque MAX_SIZE CHUNK_SIZE.

Lemma count_next_ok c : (0 <= vc_count c < 65535)%Z -> count_next c = Ok (counted c 1).
Proof. intros Hc. unfold count_next, chk. by rewrite decide_True by lia. Qed.

(** A frame decodes to its payload, when the counter can be advanced. *)
Lemma vmess_frame_decode_next c c' d :
  12 <= length (vc_iv c) -> count_next c = Ok c' -> length d <= CHUNK_SIZE - overhead_len ->
  exists f, vmess_frame c d = Ok (f, c') /\ length f = length d + 18 /\
  forall r, decode c (f ++ r) = out_app d (decode c' r).
Proof.
  intros Hiv Hc Hd. destruct sizes as (Hmax & Hchunk & Hsum).
  unfold vmess_frame. unfold vmess_nonce. rewrite decide_False by lia. cbn [mbind res_bind].
  set (nonce := be_bytes 2 (vc_count c) ++ _).
  unfold encrypt_inplace_with_slice, TAG_SIZE, vmess_tag_len.
  rewrite length_app, repeat_length, decide_False, Nat.add_sub, take_app_length by lia.
  pose proof (aead_seal_length (vc_alg c) (vc_key c) nonce [] d) as [Hl Ht].
  pose proof (aead_open_seal (vc_alg c) (vc_key c) nonce [] d) as Ho.
  destruct (aead_seal _ _ _ _ d) as [ct tg]. simpl in Hl, Ht, Ho. cbn [mbind res_bind].
  rewrite Hc. cbn [mbind res_bind]. eexists. split; [done|].
  split; [rewrite !length_app, length_be_bytes; lia|]. intros r.
  rewrite decode_unfold. unfold header_step. simpl ff_header_len.
  rewrite decide_False by (rewrite !length_app, length_be_bytes; lia).
  rewrite <- app_assoc, take_app_length', drop_app_length' by (by rewrite length_be_bytes).
  unfold ff_header, vmess_format, vmess_header.
  rewrite (take_ge (be_bytes 2 _)) by (by rewrite length_be_bytes).
  rewrite be_val_be_bytes_small, Nat2Z.id, decide_False by (simpl; lia).
  unfold payload_step, ff_payload. rewrite decide_False by (rewrite !length_app; lia).
  rewrite take_app_length', drop_app_length' by (rewrite length_app; lia).
  unfold vmess_decrypt, vmess_nonce. rewrite decide_False by lia. cbn [mbind res_bind]. fold nonce.
  unfold decrypt_inplace_with_slice, TAG_SIZE. rewrite length_app, decide_False by lia.
  destruct (take_drop_app_eq (length ct + length tg - 16) (ct ++ tg) ct tg) as [-> ->]; [done|lia|].
  by rewrite Ho, Hc.
Qed.

(** In both profiles, as long as the counter does not overflow. *)
Lemma vmess_frame_decode c d :
  12 <= length (vc_iv c) -> (0 <= vc_count c < 65535)%Z -> length d <= CHUNK_SIZE - overhead_len ->
  exists f, vmess_frame c d = Ok (f, counted c 1) /\ length f = length d + 18 /\
  forall r, decode c (f ++ r) = out_app d (decode (counted c 1) r).
Proof. intros Hiv Hc. apply vmess_frame_decode_next; [done|by apply count_next_ok]. Qed.

Lemma counted_counted c n m : counted (counted c n) m = counted c (n + m).
Proof. unfold counted. simpl. f_equal. lia. Qed.

Lemma vmess_encode_decode c ds :
  12 <= length (vc_iv c) -> (0 <= vc_count c)%Z -> (vc_count c + Z.of_nat (length ds) <= 65535)%Z ->
  Forall (fun d => length d <= CHUNK_SIZE - overhead_len) ds ->
  exists f, encode_all c ds = Ok (f, counted c (length ds)) /\ decode c f = (concat ds, EndShort).
Proof.
  intros Hiv H0 Hn Hd. revert c Hiv H0 Hn. induction Hd as [|d ds Hd Hds IH]; intros c Hiv H0 Hn.
  - exists []. split; [|done]. simpl. unfold counted. rewrite Z.add_0_r. by destruct c.
  - cbn [encode_all fe_encode vmess_encoder]. simpl in Hn.
    destruct (vmess_frame_decode c d Hiv) as (f & -> & _ & Hdec); [lia|done|]. cbn [mbind res_bind].
    destruct (IH (counted c 1)) as (fs & -> & Hfs); [done|simpl; lia..|]. cbn [mbind res_bind].
    exists (f ++ fs). rewrite counted_counted. split; [done|]. by rewrite Hdec, Hfs.
Qed.

Lemma vmess_decrypt_panic c body :
  12 <= length (vc_iv c) -> (0 <= vc_count c < 65535)%Z ->
  fst (vmess_decrypt c body) = Panic <-> length body < 16.
Proof.
  intros Hiv Hc. unfold vmess_decrypt, vmess_nonce. rewrite decide_False by lia. cbn [mbind res_bind].
  unfold decrypt_inplace_with_slice, TAG_SIZE. case_decide; [done|].
  destruct (aead_open _ _ _ _ _ _); [|split; [done|lia]]. rewrite count_next_ok by done. split; [done|lia].
Qed.

(** A server's reader decodes what a writer encoded, in a release build also
beyond the 65536 frames after which the counter starts again. *)
Lemma vmess_encode_decode_next (fit : VmessCipher -> Prop) c ds :
  (forall c, fit c -> 12 <= length (vc_iv c) /\ exists c', count_next c = Ok c' /\ fit c') -> fit c ->
  Forall (fun d => length d <= CHUNK_SIZE - overhead_len) ds ->
  exists f c', encode_all c ds = Ok (f, c') /\ fit c' /\ decode c f = (concat ds, EndShort).
Proof.
  intros Hfit Hc Hd. revert c Hc. induction Hd as [|d ds Hd Hds IH]; intros c Hc; [by exists [], c|].
  destruct (Hfit c Hc) as (Hiv & c1 & Hn & Hc1). cbn [encode_all fe_encode vmess_encoder].
  destruct (vmess_frame_decode_next c c1 d Hiv Hn Hd) as (f & -> & _ & Hdec). cbn [mbind res_bind].
  destruct (IH c1 Hc1) as (fs & c2 & -> & Hc2 & Hfs). cbn [mbind res_bind]. exists (f ++ fs), c2. split_and!; [done..|]. by rewrite Hdec, Hfs.
Qed.

(** ** Properties *)

(** C4: writer and reader of a direction agree: with the same key and IV, on any
writer that keeps accepting bytes and any fragmentation of
what it was handed, the reader delivers the data written, up to 65535 frames. *)
Theorem vmess_body_roundtrip sec iv data w :
  12 <= length iv -> writes_ok w -> data <> [] -> (Z.of_nat (length (chunks (length data) data)) <= 65535)%Z ->
  exists w' e' wire, enc_write_all (length data) data w (VmessAeadWriter_new iv sec) = (Ok tt, w', e') /\
  wr_log w' = wr_log w ++ wire /\
  forall caps s ps s' st', rd_bytes s = wire -> Forall (fun cap => 0 < cap) caps ->
  read_polls caps s (VmessAeadReader_new iv sec) = (ps, s', st') ->
  (Ready Panic ∉ ps) /\ flat_map poll_data ps `prefix_of` data /\
  ((exists p, p ∈ ps /\ poll_final p = true) -> flat_map poll_data ps = data).
Proof.
  intros Hiv Hw Hd Hn. set (c := mkVmessCipher sec.1 sec.2 iv 0).
  destruct (chunks_spec (length data) data ltac:(lia)) as [Hcat Hall].
  destruct (vmess_encode_decode c (chunks (length data) data) Hiv) as (f & Ef & Hdec); [simpl; lia|simpl; lia|exact Hall|].
  rewrite Hcat in Hdec.
  destruct (enc_write_all_ok (length data) data w (VmessAeadWriter_new iv sec) f _ Hw (or_introl eq_refl) ltac:(lia) Hd Ef)
    as (w' & e' & E & _ & _ & _ & _ & Hl).
  exists w', e', f. split_and!; [exact E|exact Hl|]. intros caps s ps s' st' Hwire Hcaps Er.
  destruct (read_polls_ok _ _ _ _ _ _ (I : reader_ok (VmessAeadReader_new iv sec)) Hcaps Er) as (Hpre & Hfin & Hpan).
  unfold future in Hpre, Hfin, Hpan. simpl in Hpre, Hfin, Hpan. fold c in Hpre, Hfin, Hpan. rewrite Hwire, Hdec in Hpre, Hfin, Hpan.
  split_and!; [|exact Hpre|exact Hfin]. intros Hp. by apply Hpan in Hp.
Qed.

(** What a server sends decides whether a client survives: the reader
panics on a frame exactly when it announces fewer bytes than a tag has (and sends
them), in both build profiles; no other first frame, whatever it holds, makes it panic. *)
Theorem vmess_short_frame_panics sec iv n body cap :
  12 <= length iv -> n <= MAX_SIZE -> length body = n -> 0 < cap ->
  let '(p, _, _) := poll_read_decrypted cap [RdData (be_bytes 2 (Z.of_nat n) ++ body)] (VmessAeadReader_new iv sec) in
  p = Ready Panic <-> n < 16.
Proof.
  intros Hiv Hn Hb Hcap. destruct sizes as (Hmax & _).
  set (st := VmessAeadReader_new iv sec). set (l := be_bytes 2 (Z.of_nat n) ++ body).
  destruct (take_drop_app_eq 2 l (be_bytes 2 (Z.of_nat n)) body) as [Ht Hd]; [done|by rewrite length_be_bytes|].
  assert (length l = 2 + n) as Hl by (unfold l; rewrite length_app, length_be_bytes; lia).
  assert (vmess_header (dr_cipher st) (be_bytes 2 (Z.of_nat n)) = (Ok n, dr_cipher st)) as Hh.
  { unfold vmess_header. rewrite take_ge by (by rewrite length_be_bytes).
    by rewrite be_val_be_bytes_small, Nat2Z.id, decide_False by (simpl; lia). }
  pose proof (vmess_decrypt_panic (dr_cipher st) body Hiv ltac:(simpl; lia)) as Hpan. rewrite Hb in Hpan.
  pose proof (poll_read_decrypted_ok st [RdData l] cap I Hcap) as Hp.
  destruct (poll_read_decrypted cap [RdData l] st) as [[p s'] st'] eqn:Ep. destruct Hp as (_ & _ & Ha). split.
  - intros ->. destruct Ha as [Ha _]. apply Hpan. unfold future in Ha. rewrite rd_bytes_one, decode_unfold in Ha.
    unfold header_step, ff_header_len, ff_header, vmess_format in Ha. simpl dr_buffer in Ha. rewrite app_nil_l, Ht, Hd in Ha.
    simpl dr_state in Ha. cbn iota in Ha. rewrite decide_False, Hh in Ha by lia.
    unfold payload_step, ff_payload in Ha. rewrite decide_False, take_ge in Ha by lia.
    destruct (vmess_decrypt (dr_cipher st) body) as [[[m|]|e|] c1]; try done.
    injection Ha as Ha Ha'. rewrite drop_ge in Ha' by lia. done.
  - intros Hlt. apply Hpan in Hlt. destruct (vmess_decrypt (dr_cipher st) body) as [r c2] eqn:Ed. simpl in Hlt. subst r.
    destruct (poll_panic st l cap n (dr_cipher st) c2) as [st2 E]; [done|done|by rewrite Hl| | |].
    + unfold ff_header_len, ff_header, vmess_format. by rewrite Ht.
    + unfold ff_header_len, ff_payload, vmess_format. by rewrite Hd, take_ge by lia.
    + rewrite E in Ep. by injection Ep as <-.
Qed.
End VmessBody.

(** ** Witnesses *)

#[local] Existing Instance toy_crypto.

Definition wit_sec : CipherAlg * bytes := (AlgAes128Gcm, repeat x01 16).
Definition wit_iv : bytes := repeat x02 16.

Lemma vmess_body_roundtrip_witness :
  exists w' e' wire, @enc_write_all _ (vmess_encoder true) 5 (str "hello")
      (mkWriter [WrPending; WrAccept 3] [] [] 0 [] 0) (VmessAeadWriter_new wit_iv wit_sec) = (Ok tt, w', e') /\
    wr_log w' = [] ++ wire.
Proof.
  destruct (vmess_body_roundtrip true wit_sec wit_iv (str "hello") (mkWriter [WrPending; WrAccept 3] [] [] 0 [] 0))
    as (w' & e' & wire & E & Hl & _); [simpl; lia|repeat constructor|done|vm_compute; discriminate|].
  exists w', e', wire. split; [exact E|exact Hl].
Defined.

Lemma vmess_short_frame_panics_witness :
  let '(p, _, _) := @poll_read_decrypted _ (vmess_format false) 100 [RdData (be_bytes 2 3 ++ [x01; x02; x03])]
    (VmessAeadReader_new wit_iv wit_sec) in p = Ready Panic.
Proof.
  pose proof (vmess_short_frame_panics false wit_sec wit_iv 3 [x01; x02; x03] 100) as H.
  destruct (poll_read_decrypted 100 _ _) as [[p s] st].
  apply H; [simpl; lia|unfold MAX_SIZE; lia|reflexivity|lia|lia].
Defined.
