(* ===== verification/VmessHeader.v ===== *)
(** * The VMess AEAD headers (src/src/proxy/vmess/aead_header.rs)

    [create_auth_id] and [seal_vmess_aead_header] of the request;
    [VmessHeaderReader] of the response, a generator that ends when the header
    is read.

    The specification of the request is [open_vmess_aead_header], the steps of
    a server in the protocol, with keys by the nested HMAC of the protocol
    ([kdf_spec]) and not by the functions of the client; AES-128 and CRC-32 are
    parameters. *)

From S2P Require Import Prelude Io StdText Aead VmessKdf.
From Stdlib Require Import ZArith Lia List Strings.Byte.
From stdpp Require Import base option list strings.

Class BlockCrypto := {
  aes128_encrypt : bytes -> bytes -> bytes;      (* key, block *)
  aes128_decrypt : bytes -> bytes -> bytes;
  crc32 : bytes -> Z;
  aes128_decrypt_encrypt k b : length b = 16 -> aes128_decrypt k (aes128_encrypt k b) = b;
  aes128_encrypt_length k b : length (aes128_encrypt k b) = length b
}.

Definition AES_128_GCM_TAG_LEN : nat := 16.

Section VmessHeader.
Context `{AeadCrypto} `{HmacSha256Crypto} `{BlockCrypto}.

Lemma vmess_kdf_length id key1 : length (vmess_kdf_1_one_shot id key1) = 32.
Proof. apply hmac_sha256_length. Qed.

Lemma vmess_kdf_3_length id key1 key2 key3 : length (vmess_kdf_3_one_shot id key1 key2 key3) = 32.
Proof. apply hmac_sha256_length. Qed.

(** [create_auth_id]; [random_bytes] are the four of [random_iv_or_salt]. *)
Definition create_auth_id (cmd_key time random_bytes : bytes) : bytes :=
  let buf := time ++ random_bytes in
  let buf := put_u32 buf (crc32 buf) in
  let key := vmess_kdf_1_one_shot cmd_key KDF_SALT_CONST_AUTH_ID_ENCRYPTION_KEY in
  aes128_encrypt (take 16 key) buf.

(** The key and the nonce that a pair of salts gives for an auth id and a
connection nonce. *)
Definition header_key (cmd_key salt auth_id nonce : bytes) : bytes := take 16 (vmess_kdf_3_one_shot cmd_key salt auth_id nonce).
Definition header_nonce (cmd_key salt auth_id nonce : bytes) : bytes := take 12 (vmess_kdf_3_one_shot cmd_key salt auth_id nonce).

(** [seal_vmess_aead_header]: auth id, sealed length, connection nonce, sealed
data; the associated data is the auth id.  [rand4] and [rand8] are the
random bytes drawn. *)
Definition seal_vmess_aead_header (cmd_key data time rand4 rand8 : bytes) : res bytes :=
  let auth_id := create_auth_id cmd_key time rand4 in
  let connection_nonce := rand8 in
  let tag := repeat x00 AES_128_GCM_TAG_LEN in
  l ← encrypt_inplace_with_slice AlgAes128Gcm
  (header_key cmd_key KDF_SALT_CONST_VMESS_HEADER_PAYLOAD_LENGTH_AEAD_KEY auth_id connection_nonce)
  (header_nonce cmd_key KDF_SALT_CONST_VMESS_HEADER_PAYLOAD_LENGTH_AEAD_IV auth_id connection_nonce)
  auth_id (be_bytes 2 (Z.of_nat (length data)) ++ tag);
  d ← encrypt_inplace_with_slice AlgAes128Gcm
  (header_key cmd_key KDF_SALT_CONST_VMESS_HEADER_PAYLOAD_AEAD_KEY auth_id connection_nonce)
  (header_nonce cmd_key KDF_SALT_CONST_VMESS_HEADER_PAYLOAD_AEAD_IV auth_id connection_nonce)
  auth_id (data ++ tag);
  Ok (auth_id ++ l ++ connection_nonce ++ d).

(** ** The response *)

Inductive header_state := HrLength | HrData | HrDone.

Record VmessHeaderReader := mkHeaderReader {
  hr_buffer : bytes;
  hr_state : header_state;
  hr_len_key : bytes;
  hr_len_iv : bytes;
  hr_payload_key : bytes;
  hr_payload_iv : bytes;
  hr_respv : byte;
  hr_data_length : nat;
  hr_received_resp : bool;
  hr_read_zero : bool
}.

Definition VmessHeaderReader_new (resp_body_key resp_body_iv : bytes) (respv : byte) : VmessHeaderReader :=
  mkHeaderReader [] HrLength
  (take 16 (vmess_kdf_1_one_shot resp_body_key KDF_SALT_CONST_AEAD_RESP_HEADER_LEN_KEY))
  (take 12 (vmess_kdf_1_one_shot resp_body_iv KDF_SALT_CONST_AEAD_RESP_HEADER_LEN_IV))
  (take 16 (vmess_kdf_1_one_shot resp_body_key KDF_SALT_CONST_AEAD_RESP_HEADER_PAYLOAD_KEY))
  (take 12 (vmess_kdf_1_one_shot resp_body_iv KDF_SALT_CONST_AEAD_RESP_HEADER_PAYLOAD_IV))
  respv 0 false false.

(** [get_buffer] takes the buffer away. *)
Definition get_buffer (r : VmessHeaderReader) : bytes * VmessHeaderReader :=
  (hr_buffer r, mkHeaderReader [] (hr_state r) (hr_len_key r) (hr_len_iv r) (hr_payload_key r) (hr_payload_iv r)
    (hr_respv r) (hr_data_length r) (hr_received_resp r) (hr_read_zero r)).

Definition hr_set (r : VmessHeaderReader) (b : bytes) (st : header_state) (n : nat) (rcv z : bool) : VmessHeaderReader :=
  mkHeaderReader b st (hr_len_key r) (hr_len_iv r) (hr_payload_key r) (hr_payload_iv r) (hr_respv r) n rcv z.

Definition err_resp (m : string) : io_error := IoError InvalidData m.

(** *** The body, over any inner stream *)
Section Over.
Context {R : Type} (read_at_least : R -> bytes -> bool -> nat -> Poll (res unit) * R * bytes * bool).

(** From the second [co_await]. *)
Definition header_data (s : R) (r : VmessHeaderReader) : Poll (res unit) * R * VmessHeaderReader :=
  let n := hr_data_length r in
  let '(p, s, b, z) := read_at_least s (hr_buffer r) (hr_read_zero r) (n + 16) in
  let stop p b := (Ready p, s, hr_set r b HrDone n false z) in
  match p with
  | Pending => (Pending, s, hr_set r b HrData n false z)
  | Ready Panic => stop Panic b
  | Ready (Err e) => stop (if z then Ok tt else Err e) b
  | Ready (Ok _) =>
    match decrypt_inplace_with_slice AlgAes128Gcm (hr_payload_key r) (hr_payload_iv r) [] (take (n + 16) b) with
    | Ok (Some m) =>
      let b := m ++ drop (length m) b in
      if decide (length b < 20) then stop (Err (err_resp "unexpected buffer length!")) b
      else if decide (nth 0 b x00 <> hr_respv r) then stop (Err (err_resp "unexpected response header!")) b
      else if decide (nth 2 b x00 <> x00) then stop (Err (err_resp "dynamic port is not supported now!")) b
      else let b := drop (n + 16) b in (Ready (Ok tt), s, hr_set r b HrDone (length b) true z)
    | Ok None => stop (Err (err_resp "decrypted resp header payload failed!")) b
    | Err e => stop (Err e) b
    | Panic => stop Panic b
    end
  end.

Definition header_length (s : R) (r : VmessHeaderReader) : Poll (res unit) * R * VmessHeaderReader :=
  let '(p, s, b, z) := read_at_least s (hr_buffer r) (hr_read_zero r) 18 in
  let stop p := (Ready p, s, hr_set r b HrDone (hr_data_length r) false z) in
  match p with
  | Pending => (Pending, s, hr_set r b HrLength (hr_data_length r) false z)
  | Ready Panic => stop Panic
  | Ready (Err e) => stop (if z then Ok tt else Err e)
  | Ready (Ok _) =>
    match decrypt_inplace_with_slice AlgAes128Gcm (hr_len_key r) (hr_len_iv r) [] (take 18 b) with
    | Ok (Some m) => header_data s (hr_set r (drop 18 b) HrData (Z.to_nat (be_val (take 2 m))) false z)
    | Ok None => stop (Err (err_resp "decrypted resp header len failed!"))
    | Err e => stop (Err e)
    | Panic => stop Panic
    end
  end.

(** [poll_read_decrypted] of the header. *)
Definition header_poll (s : R) (r : VmessHeaderReader) : Poll (res unit) * R * VmessHeaderReader :=
  match hr_state r with
  | HrLength => header_length s r
  | HrData => header_data s r
  | HrDone => (Ready (Err unexpected_eof), s, r)
  end.
End Over.

(** ** Specification *)

(** A server's reading of a request: the auth id must be the AES encryption of
a time, four random bytes and their checksum; then length, nonce and data.
The keys are those of the protocol: the first bytes of the derivation along
the path label, auth id, connection nonce. *)
Definition open_auth_id (cmd_key auth_id : bytes) : option bytes :=
  let p := aes128_decrypt (take 16 (kdf_spec [str "AES Auth ID Encryption"] cmd_key)) auth_id in
  if decide (be_bytes 4 (crc32 (take 12 p)) = drop 12 p) then Some (take 8 p) else None.

Definition open_sealed (cmd_key key_label nonce_label auth_id nonce l : bytes) : option bytes :=
  let tag_pos := length l - 16 in
  aead_open AlgAes128Gcm (take 16 (kdf_spec [key_label; auth_id; nonce] cmd_key)) (take 12 (kdf_spec [nonce_label; auth_id; nonce] cmd_key)) auth_id
  (take tag_pos l) (drop tag_pos l).

(** The time of the request, its data, and what follows the header. *)
Definition open_vmess_aead_header (cmd_key l : bytes) : option (bytes * bytes * bytes) :=
  let auth_id := take 16 l in
  let nonce := take 8 (drop 34 l) in
  time ← open_auth_id cmd_key auth_id;
  n ← open_sealed cmd_key (str "VMess Header AEAD Key_Length") (str "VMess Header AEAD Nonce_Length")
  auth_id nonce (take 18 (drop 16 l));
  let n := Z.to_nat (be_val n) in
  d ← open_sealed cmd_key (str "VMess Header AEAD Key") (str "VMess Header AEAD Nonce")
  auth_id nonce (take (n + 16) (drop 42 l));
  Some (time, d, drop (42 + n + 16) l).

(** The response header a server sends, sealed under its two keys. *)
Definition seal_response (r : VmessHeaderReader) (payload : bytes) : bytes :=
  let l := aead_seal AlgAes128Gcm (hr_len_key r) (hr_len_iv r) [] (be_bytes 2 (Z.of_nat (length payload))) in
  let d := aead_seal AlgAes128Gcm (hr_payload_key r) (hr_payload_iv r) [] payload in
  l.1 ++ l.2 ++ d.1 ++ d.2.

(** ** Lemmas *)

Lemma seal_room a k n ad m :
  exists o, encrypt_inplace_with_slice a k n ad (m ++ repeat x00 16) = Ok o /\ length o = length m + 16 /\
  aead_open a k n ad (take (length o - 16) o) (drop (length o - 16) o) = Some m.
Proof.
  unfold encrypt_inplace_with_slice, TAG_SIZE.
  rewrite length_app, repeat_length, decide_False, Nat.add_sub, take_app_length by lia.
  pose proof (aead_seal_length a k n ad m) as [Hl Ht]. pose proof (aead_open_seal a k n ad m) as Ho.
  destruct (aead_seal a k n ad m) as [c x]. simpl in *. eexists. split; [done|]. rewrite length_app. split; [lia|].
  by destruct (take_drop_app_eq (length c + length x - 16) (c ++ x) c x) as [-> ->]; [|lia|].
Qed.

Lemma create_auth_id_opens cmd_key time rand4 :
  length time = 8 -> length rand4 = 4 ->
  length (create_auth_id cmd_key time rand4) = 16 /\ open_auth_id cmd_key (create_auth_id cmd_key time rand4) = Some time.
Proof.
  intros Ht Hr. unfold open_auth_id, create_auth_id, put_u32. rewrite kdf_1_spec. simpl put_slice.
  assert (length ((time ++ rand4) ++ be_bytes 4 (crc32 (time ++ rand4))) = 16) as Hlen
    by (rewrite !length_app, length_be_bytes; lia).
  rewrite aes128_encrypt_length. split; [done|]. rewrite aes128_decrypt_encrypt by done.
  rewrite take_app_length', drop_app_length' by (rewrite length_app; lia).
  rewrite decide_True by done. rewrite <- app_assoc, take_app_length' by done. done.
Qed.

(** A response is on its way: the part of it not yet read is in the buffer or
is [left]. *)
Definition sealed_payload (r : VmessHeaderReader) (payload : bytes) : bytes :=
  let d := aead_seal AlgAes128Gcm (hr_payload_key r) (hr_payload_iv r) [] payload in d.1 ++ d.2.

Definition response_left (r : VmessHeaderReader) (left payload rest : bytes) : Prop :=
  match hr_state r with
  | HrLength => hr_buffer r ++ left = seal_response r payload ++ rest
  | HrData => hr_data_length r = length payload /\ hr_buffer r ++ left = sealed_payload r payload ++ rest
  | HrDone => False
  end.

Definition response_pending (r : VmessHeaderReader) (s : rd_script) : bytes -> bytes -> Prop := response_left r (rd_bytes s).

Lemma sealed_opens a k n m :
  let d := aead_seal a k n [] m in
  length (d.1 ++ d.2) = length m + 16 /\ decrypt_inplace_with_slice a k n [] (d.1 ++ d.2) = Ok (Some m).
Proof.
  intros d. pose proof (aead_seal_length a k n [] m) as [Hl Ht]. pose proof (aead_open_seal a k n [] m) as Ho.
  fold d in Hl, Ht, Ho. rewrite length_app. split; [lia|]. unfold decrypt_inplace_with_slice, TAG_SIZE.
  rewrite length_app, decide_False by lia.
  destruct (take_drop_app_eq (length d.1 + length d.2 - 16) (d.1 ++ d.2) d.1 d.2) as [-> ->]; [done|lia|]. by rewrite Ho.
Qed.

(** *** Over any inner stream

[holds s left]: [s] has the bytes [left]; a [read_at_least] keeps them, and
fails at their end, or for another reason if it [may_fail]. *)
Section Accepts.
Context {R : Type} {read_at_least : R -> bytes -> bool -> nat -> Poll (res unit) * R * bytes * bool}.
Context {holds : R -> bytes -> Prop} {may_fail : Prop}.
Context (read_ok : forall s l b n p s' b' z, holds s l -> read_at_least s b false n = (p, s', b', z) ->
    match p with
    | Ready (Ok _) => n <= length b' /\ z = false /\ exists l', b' ++ l' = b ++ l /\ holds s' l'
    | Ready (Err _) => length (b ++ l) < n \/ may_fail /\ z = false
    | Ready Panic => False
    | Pending => z = false /\ exists l', b' ++ l' = b ++ l /\ holds s' l'
    end).
Context (payload rest : bytes).
Implicit Type r : VmessHeaderReader.

(** The header is on its way, or was read and what follows it is left. *)
Definition header_answer r (p : Poll (res unit)) (s' : R) r' : Prop :=
  (p = Pending /\ hr_respv r' = hr_respv r /\ hr_received_resp r' = false /\ hr_read_zero r' = false /\ exists l', response_left r' l' payload rest /\ holds s' l') \/
  (p = Ready (Ok tt) /\ hr_received_resp r' = true /\ exists l', hr_buffer r' ++ l' = rest /\ holds s' l') \/
  (may_fail /\ exists e, p = Ready (Err e)).

Lemma header_data_accepts s l r p s' r' :
  holds s l -> hr_read_zero r = false -> hr_data_length r = length payload -> hr_buffer r ++ l = sealed_payload r payload ++ rest ->
  nth 0 payload x00 = hr_respv r -> nth 2 payload x00 = x00 -> 4 <= length payload ->
  header_data read_at_least s r = (p, s', r') -> header_answer r p s' r'.
Proof.
  intros Hs Hz Hn Hw Hp0 Hp2 Hp4. unfold header_data. rewrite Hn, Hz.
  destruct (sealed_opens AlgAes128Gcm (hr_payload_key r) (hr_payload_iv r) payload) as [Hl Ho].
  fold (sealed_payload r payload) in Hl, Ho.
  destruct (read_at_least s (hr_buffer r) false (length payload + 16)) as [[[q s1] b] z] eqn:Er.
  pose proof (read_ok _ _ _ _ _ _ _ _ Hs Er) as Hq. destruct q as [[[]|e|]|]; [| |done|].
  - destruct Hq as (Hb & -> & l1 & Hb1 & Hs1). rewrite Hw in Hb1.
    assert (take (length payload + 16) b = sealed_payload r payload) as Htk.
    { rewrite <- (take_app_le b l1), Hb1, take_app_length' by lia. done. }
    rewrite Htk, Ho.
    assert (length (payload ++ drop (length payload) b) = length b) as Hlb by (rewrite length_app, length_drop; lia).
    rewrite decide_False by lia.
    rewrite !app_nth1, Hp0, Hp2, !decide_False by (first [lia | by intros []]). intros; simplify_eq/=. right. left. split_and!; [done|done|].
    exists l1. split; [|done]. rewrite <- (drop_drop (payload ++ _) 16), drop_app_length.
    cbn [hr_buffer hr_set]. rewrite drop_drop, <- (drop_app_le b) by lia. by rewrite Hb1, drop_app_length' by lia.
  - destruct Hq as [Hq|[Hm ->]]; [rewrite Hw, length_app in Hq; lia|]. intros [= <- _ _]. right. right. eauto.
  - destruct Hq as (-> & l1 & Hb1 & Hs1). intros; simplify_eq. left. split_and!; [done..|]. exists l1. split; [|done].
    unfold response_left. simpl. split; [done|]. by rewrite Hb1.
Qed.

Lemma header_length_accepts s l r p s' r' :
  holds s l -> hr_read_zero r = false -> hr_buffer r ++ l = seal_response r payload ++ rest -> hr_state r = HrLength ->
  nth 0 payload x00 = hr_respv r -> nth 2 payload x00 = x00 -> 4 <= length payload -> (Z.of_nat (length payload) < 65536)%Z ->
  header_length read_at_least s r = (p, s', r') -> header_answer r p s' r'.
Proof.
  intros Hh Hz Hw Hs Hp0 Hp2 Hp4 Hlt. unfold header_length. rewrite Hz.
  destruct (sealed_opens AlgAes128Gcm (hr_len_key r) (hr_len_iv r) (be_bytes 2 (Z.of_nat (length payload)))) as [Hl Ho].
  set (sl := aead_seal AlgAes128Gcm (hr_len_key r) (hr_len_iv r) [] (be_bytes 2 (Z.of_nat (length payload)))) in *.
  rewrite length_be_bytes in Hl.
  assert (seal_response r payload = (sl.1 ++ sl.2) ++ sealed_payload r payload) as Hseal.
  { unfold seal_response, sealed_payload. fold sl. by rewrite <- app_assoc. }
  rewrite Hseal, <- (app_assoc (sl.1 ++ sl.2)) in Hw.
  destruct (read_at_least s (hr_buffer r) false 18) as [[[q s1] b] z] eqn:Er.
  pose proof (read_ok _ _ _ _ _ _ _ _ Hh Er) as Hq. destruct q as [[[]|e|]|]; [| |done|].
  - destruct Hq as (Hb & -> & l1 & Hb1 & Hs1). rewrite Hw in Hb1.
    assert (take 18 b = sl.1 ++ sl.2) as Htk.
    { rewrite <- (take_app_le b l1), Hb1, take_app_length' by lia. done. }
    rewrite Htk, Ho. rewrite (take_ge (be_bytes 2 _)) by (by rewrite length_be_bytes).
    rewrite be_val_be_bytes_small, Nat2Z.id by (simpl; lia). intros E.
    eapply (header_data_accepts s1 l1) in E; [exact E|done..| |done|done|done].
    simpl. rewrite <- drop_app_le by lia. rewrite Hb1, drop_app_length' by lia. done.
  - destruct Hq as [Hq|[Hm ->]]; [rewrite Hw, length_app in Hq; lia|]. intros [= <- _ _]. right. right. eauto.
  - destruct Hq as (-> & l1 & Hb1 & Hs1). intros; simplify_eq. left. split_and!; [done..|]. exists l1. split; [|done].
    unfold response_left. simpl. rewrite Hb1, Hw. rewrite (app_assoc (sl.1 ++ sl.2)). by rewrite <- Hseal.
Qed.

Lemma header_poll_accepts s l r p s' r' :
  holds s l -> hr_read_zero r = false -> response_left r l payload rest ->
  nth 0 payload x00 = hr_respv r -> nth 2 payload x00 = x00 -> 4 <= length payload -> (Z.of_nat (length payload) < 65536)%Z ->
  header_poll read_at_least s r = (p, s', r') -> header_answer r p s' r'.
Proof.
  intros Hh Hz Hpend Hp0 Hp2 Hp4 Hlt. unfold header_poll. unfold response_left in Hpend.
  destruct (hr_state r) eqn:Hs; [| |done]; intros E.
  - eapply header_length_accepts; eauto.
  - destruct Hpend as [Hn Hw]. eapply header_data_accepts; eauto.
Qed.
End Accepts.

(** On a script. *)
Lemma response_header_step r s payload rest p s' r' :
  response_pending r s payload rest -> hr_read_zero r = false ->
  nth 0 payload x00 = hr_respv r -> nth 2 payload x00 = x00 ->
  4 <= length payload -> (Z.of_nat (length payload) < 65536)%Z ->
  header_poll read_at_least s r = (p, s', r') ->
  (p = Pending /\ response_pending r' s' payload rest /\ hr_respv r' = hr_respv r /\ hr_received_resp r' = false /\ hr_read_zero r' = false) \/
  (p = Ready (Ok tt) /\ hr_received_resp r' = true /\ hr_buffer r' ++ rd_bytes s' = rest).
Proof.
  intros Hpend Hz Hp0 Hp2 Hp4 Hlt Hp. unfold response_pending in *.
  destruct (header_poll_accepts (read_at_least := read_at_least) (holds := fun s l => rd_bytes s = l) (may_fail := False)) with (payload := payload) (rest := rest)
    (s := s) (l := rd_bytes s) (r := r) (p := p) (s' := s') (r' := r') as [(-> & ? & ? & ? & l & ? & <-)|[(-> & ? & l & ? & <-)|[[] _]]]; try done; [|by left|by right].
  intros s1 l b n q s2 b' z <- Hr. apply read_at_least_spec in Hr. destruct q as [[[]|e|]|]; [| |done|].
  - destruct Hr as (? & ? & -> & _). split_and!; [done..|]. by exists (rd_bytes s2).
  - destruct Hr as (Hb & -> & _). by left.
  - destruct Hr as (? & ? & -> & _). split; [done|]. by exists (rd_bytes s2).
Qed.

(** A server's steps on a sealed header. *)
Lemma sealed_header_opens cmd_key data time rand4 rand8 r :
  length time = 8 -> length rand4 = 4 -> length rand8 = 8 -> (Z.of_nat (length data) < 65536)%Z ->
  exists h, seal_vmess_aead_header cmd_key data time rand4 rand8 = Ok h /\
  open_vmess_aead_header cmd_key (h ++ r) = Some (time, data, r).
Proof.
  intros Ht H4 H8 Hd. unfold seal_vmess_aead_header, AES_128_GCM_TAG_LEN.
  destruct (create_auth_id_opens cmd_key time rand4 Ht H4) as [Hal Hao].
  set (id := create_auth_id cmd_key time rand4) in *.
  match goal with |- context [encrypt_inplace_with_slice ?a ?k ?n ?ad (be_bytes 2 ?z ++ _)] =>
    destruct (seal_room a k n ad (be_bytes 2 z)) as (l & -> & Hl & Hlo) end.
  cbn [mbind res_bind].
  match goal with |- context [encrypt_inplace_with_slice ?a ?k ?n ?ad (data ++ _)] =>
    destruct (seal_room a k n ad data) as (d & -> & Hdl & Hdo) end.
  cbn [mbind res_bind]. eexists. split; [done|]. rewrite length_be_bytes in Hl.
  set (L := (id ++ l ++ rand8 ++ d) ++ r).
  assert (take 16 L = id) as E1 by (unfold L; rewrite <- app_assoc; by apply take_app_length').
  assert (take 18 (drop 16 L) = l) as E2.
  { unfold L. rewrite <- app_assoc, (drop_app_length' id), <- app_assoc by done. by apply take_app_length'. }
  assert (drop 34 L = rand8 ++ d ++ r) as E3.
  { unfold L. replace ((id ++ l ++ rand8 ++ d) ++ r) with ((id ++ l) ++ rand8 ++ d ++ r) by (by rewrite <- !app_assoc).
    apply drop_app_length'. rewrite length_app. lia. }
  assert (drop 42 L = d ++ r) as E4.
  { replace 42 with (34 + 8) by lia. rewrite <- drop_drop, E3. by apply drop_app_length'. }
  assert (drop (42 + length data + 16) L = r) as E5.
  { unfold L. apply drop_app_length'. rewrite !length_app. lia. }
  unfold open_vmess_aead_header. rewrite E1, E2, E3, E4, (take_app_length' rand8) by done.
  unfold header_key, header_nonce, KDF_SALT_CONST_VMESS_HEADER_PAYLOAD_LENGTH_AEAD_KEY, KDF_SALT_CONST_VMESS_HEADER_PAYLOAD_LENGTH_AEAD_IV,
    KDF_SALT_CONST_VMESS_HEADER_PAYLOAD_AEAD_KEY, KDF_SALT_CONST_VMESS_HEADER_PAYLOAD_AEAD_IV in Hlo, Hdo. rewrite !kdf_3_spec in Hlo, Hdo.
  rewrite Hao. cbn [mbind option_bind]. unfold open_sealed. rewrite Hlo. cbn [mbind option_bind].
  rewrite be_val_be_bytes_small, Nat2Z.id by (simpl; lia).
  rewrite (take_app_length' d), Hdo by lia. cbn [mbind option_bind]. by rewrite E5.
Qed.

(** ** Properties *)

(** C29: a server opens the request header: whatever the key, the header data
shorter than 64 KiB, the time and the random bytes, the sealed header
decodes by the steps of the protocol, with the keys and nonces that the nested
HMAC of the protocol gives along label, auth id and connection nonce, to the
time and the data, and leaves exactly what follows it. *)
Theorem seal_header_opens cmd_key data time rand4 rand8 r :
  length time = 8 -> length rand4 = 4 -> length rand8 = 8 -> (Z.of_nat (length data) < 65536)%Z ->
  exists h, seal_vmess_aead_header cmd_key data time rand4 rand8 = Ok h /\
  open_vmess_aead_header cmd_key (h ++ r) = Some (time, data, r).
Proof. apply sealed_header_opens. Qed.

End VmessHeader.

(** ** An instance for the witnesses *)

Program Definition toy_block : BlockCrypto := {|
  aes128_encrypt k b := b;
  aes128_decrypt k b := b;
  crc32 l := be_val l
|}.
Next Obligation. done. Qed.
Next Obligation. done. Qed.

(** ** Witnesses *)

#[local] Existing Instance toy_crypto.
#[local] Existing Instance toy_hmac.
#[local] Existing Instance toy_block.

Lemma seal_header_opens_witness :
  exists h, seal_vmess_aead_header (repeat x05 16) (str "vmess") (repeat x00 8) (repeat x07 4) (repeat x08 8) = Ok h /\
    open_vmess_aead_header (repeat x05 16) (h ++ str "body") = Some (repeat x00 8, str "vmess", str "body").
Proof. apply seal_header_opens; [reflexivity|reflexivity|reflexivity|simpl; lia]. Defined.
