(* ===== verification/VmessStream.v ===== *)
(** * The VMess stream (src/src/proxy/vmess/vmess_stream.rs, vmess_option.rs, mod.rs)

    [VmessStream]: the keys, the request header and the two generators
    [poll_read_header] and [poll_write_header] over the header reader and the
    body of VmessHeader.v and VmessBody.v; [Fnv1aHasher] of
    src/src/common/fnv1a.rs.

    [flush] and [shutdown] are those of the inner stream.  The UDP methods are the
    stream methods with the address of the option. *)

From S2P Require Import Prelude Io StdText Address Aead FrameReader FrameWriter VmessKdf VmessBody VmessHeader.
From Stdlib Require Import ZArith Lia List Strings.Byte.
From stdpp Require Import base option list strings.

Class Sha256Crypto := {
  sha256 : bytes -> bytes;
  sha256_length m : length (sha256 m) = 32
}.

(** ** [Fnv1aHasher] *)

Definition fnv1a_default : Z := 0x811c9dc5.
Definition fnv1a_write (hash : Z) (l : bytes) : Z :=
  fold_left (fun hash byte => wrap 32 (Z.lxor hash (b2z byte) * 0x01000193)) l hash.

(** ** The stream *)

Definition VERSION : Z := 1.
Definition OPT_CHUNK_STREAM : Z := 1.
Definition COMMAND_UDP : Z := 2.
Definition COMMAND_TCP : Z := 1.
Definition AES_128_GCM_SECURITY_NUM : Z := 3.
Definition CHACHA20POLY1305_SECURITY_NUM : Z := 4.
Definition NONE_SECURITY_NUM : Z := 5.

Record VmessOption := mkVmessOption {
  vo_uuid : bytes;
  vo_alter_id : Z;
  vo_addr : Address;
  vo_security_num : Z;
  vo_is_udp : bool
}.

Inductive read_state := RWait | RBody | RDone.
Inductive write_state := WHeader | WBody | WDone.

Record VmessStream := mkVmessStream {
  vs_option : VmessOption;
  vs_reader : DecryptedReader VmessCipher;
  vs_writer : EncryptedWriter VmessCipher;
  vs_salt : bytes;
  vs_respv : byte;
  vs_header_reader : VmessHeaderReader;
  vs_header_buffer : bytes;
  vs_header_pos : nat;
  vs_state_1 : read_state;
  vs_state_2 : write_state
}.

(** The random draws of a stream and the clock. *)
Record VmessRandom := mkVmessRandom {
  rnd_salt : bytes;        (* 64 bytes *)
  rnd_x : Z;               (* random::<u8>() *)
  rnd_padding : bytes;     (* 16 bytes *)
  rnd_time : bytes;        (* 8 bytes *)
  rnd_4 : bytes;
  rnd_8 : bytes
}.

Section VmessStream.
Context `{AeadCrypto} `{HmacSha256Crypto} `{BlockCrypto} `{Sha256Crypto} (oc : bool).

Definition req_body_iv (salt : bytes) : bytes := take 16 salt.
Definition req_body_key (salt : bytes) : bytes := take 16 (drop 16 salt).

(** The plaintext that [construct_header_data] builds. *)
Definition header_plain (opt : VmessOption) (salt : bytes) (respv : byte) (r : VmessRandom) : bytes :=
  let buf := put_u8 ([] : bytes) VERSION in
  let buf := put_slice buf (req_body_iv salt) in
  let buf := put_slice buf (req_body_key salt) in
  let buf := put_slice buf [respv] in
  let buf := put_u8 buf OPT_CHUNK_STREAM in
  let x := (rnd_x r mod 16)%Z in
  let buf := put_u8 buf (Z.lor (wrap 8 (Z.shiftl x 4)) (vo_security_num opt)) in
  let buf := put_u8 buf 0 in
  let buf := put_u8 buf (if vo_is_udp opt then COMMAND_UDP else COMMAND_TCP) in
  let buf := write_to_buf_vmess (vo_addr opt) buf in
  let buf := if decide (0 < x)%Z then put_slice buf (take (Z.to_nat x) (rnd_padding r)) else buf in
  put_u32 buf (fnv1a_write fnv1a_default buf).

Definition vmess_cmd_key (uuid : bytes) : bytes := md5 (uuid ++ str "c48619fe-8f02-49e0-b9e9-edf763e17e21").

Definition construct_header_data (opt : VmessOption) (salt : bytes) (respv : byte) (r : VmessRandom) : res bytes :=
  seal_vmess_aead_header (vmess_cmd_key (vo_uuid opt)) (header_plain opt salt respv r) (rnd_time r) (rnd_4 r) (rnd_8 r).

(** The security of writer and reader: their algorithms and keys.  The
ChaCha20-Poly1305 keys are built in one array [key] of 32 bytes. *)
Definition chacha_keys (req_key resp_key : bytes) : bytes * bytes :=
  let key := repeat x00 32 in
  let key := md5 req_key ++ drop 16 key in
  let key := take 16 key ++ md5 (drop 16 key) in
  let writer_key := key in
  let key := md5 resp_key ++ drop 16 key in
  let key := take 16 key ++ md5 (drop 16 key) in
  (writer_key, key).

Definition vmess_security (security_num : Z) (req_key resp_key : bytes)
  : res ((CipherAlg * bytes) * (CipherAlg * bytes)) :=
  if decide (security_num = AES_128_GCM_SECURITY_NUM)
  then Ok ((AlgAes128Gcm, req_key), (AlgAes128Gcm, resp_key))
  else if decide (security_num = CHACHA20POLY1305_SECURITY_NUM)
  then let '(w, r) := chacha_keys req_key resp_key in Ok ((AlgChaCha20Poly1305, w), (AlgChaCha20Poly1305, r))
  else Panic.

(** [VmessStream::new]: the salt is the IV and key of the requests, then those
of the responses, which are digests of them; [respv] is the byte drawn at
32. *)
Definition VmessStream_new (opt : VmessOption) (r : VmessRandom) : res VmessStream :=
  let salt := rnd_salt r in
  let respv := nth 32 salt x00 in
  let resp_body_key := take 16 (sha256 (take 16 (drop 16 salt))) in
  let resp_body_iv := take 16 (sha256 (take 16 salt)) in
  let salt := take 32 salt ++ resp_body_key ++ resp_body_iv in
  '(writer_cipher, reader_cipher) ← vmess_security (vo_security_num opt) (req_body_key salt) resp_body_key;
  header ← construct_header_data opt salt respv r;
  Ok (mkVmessStream opt (VmessAeadReader_new resp_body_iv reader_cipher)
    (VmessAeadWriter_new (req_body_iv salt) writer_cipher) salt respv
    (VmessHeaderReader_new resp_body_key resp_body_iv respv) header 0 RWait WHeader).

(** The builder's streams: packets go through the stream unless a later layer
carries them over TCP. *)
Definition vmess_build_tcp (vmess_option : VmessOption) (r : VmessRandom) : res VmessStream := VmessStream_new vmess_option r.

Definition vmess_build_udp (vmess_option : VmessOption) (r : VmessRandom) (build_tcp_inside : bool) : res VmessStream :=
  VmessStream_new (mkVmessOption (vo_uuid vmess_option) (vo_alter_id vmess_option) (vo_addr vmess_option)
    (vo_security_num vmess_option) (negb build_tcp_inside)) r.

(** *** Reading *)

Definition vs_set_read (v : VmessStream) (hr : VmessHeaderReader) (rd : DecryptedReader VmessCipher) (st : read_state) : VmessStream :=
  mkVmessStream (vs_option v) rd (vs_writer v) (vs_salt v) (vs_respv v) hr (vs_header_buffer v) (vs_header_pos v)
  st (vs_state_2 v).

(** Over any inner stream, known by its [read_at_least] and by the polls of a
frame reader over it. *)
Section ReadOver.
Context {R : Type} (read_at_least : R -> bytes -> bool -> nat -> Poll (res unit) * R * bytes * bool).
Context (poll_read_decrypted : nat -> R -> DecryptedReader VmessCipher -> Poll (res bytes) * R * DecryptedReader VmessCipher).

(** The inner loop of [poll_read_header]: the body. *)
Definition vmess_read_body (cap : nat) (s : R) (v : VmessStream) : Poll (res bytes) * R * VmessStream :=
  let '(p, s, rd) := poll_read_decrypted cap s (vs_reader v) in
  (p, s, vs_set_read v (vs_header_reader v) rd RBody).

(** [this.reader.buffer = this.header_reader.get_buffer()]. *)
Definition steal_buffer (v : VmessStream) : VmessStream :=
  let '(b, hr) := get_buffer (vs_header_reader v) in
  let rd := vs_reader v in
  vs_set_read v hr (mkDecryptedReader b (dr_cipher rd) (dr_state rd) (dr_data_length rd) (dr_read_zero rd)) RBody.

(** [poll_read_header]: the response header first. *)
Definition vmess_poll_read (cap : nat) (s : R) (v : VmessStream) : Poll (res bytes) * R * VmessStream :=
  match vs_state_1 v with
  | RDone => (Ready (Err unexpected_eof), s, v)
  | RBody => vmess_read_body cap s v
  | RWait =>
    if hr_received_resp (vs_header_reader v) then vmess_read_body cap s (steal_buffer v)
    else
      let '(q, s, hr) := header_poll read_at_least s (vs_header_reader v) in
      let set st := vs_set_read v hr (vs_reader v) st in
      match q with
      | Ready (Err e) => (Ready (Err e), s, set RDone)
      | Ready Panic => (Ready Panic, s, set RDone)
      | Ready (Ok _) => vmess_read_body cap s (steal_buffer (set RWait))
      | Pending => (Pending, s, set RWait)
      end
  end.

(** [UdpRead]: a packet comes from the address of the request. *)
Definition vmess_poll_recv_from (cap : nat) (s : R) (v : VmessStream) : Poll (res (bytes * Address)) * R * VmessStream :=
  let addr := vo_addr (vs_option v) in
  match vmess_poll_read cap s v with
  | (Ready (Ok d), s, v) => (Ready (Ok (d, addr)), s, v)
  | (Ready (Err e), s, v) => (Ready (Err e), s, v)
  | (Ready Panic, s, v) => (Ready Panic, s, v)
  | (Pending, s, v) => (Pending, s, v)
  end.
End ReadOver.

(** *** Writing *)

Definition vs_set_write (v : VmessStream) (pos : nat) (ew : EncryptedWriter VmessCipher) (st : write_state) : VmessStream :=
  mkVmessStream (vs_option v) (vs_reader v) ew (vs_salt v) (vs_respv v) (vs_header_reader v) (vs_header_buffer v) pos
  (vs_state_1 v) st.

(** Over any inner stream, known by its polls and its [write_data] loop. *)
Section WriteOver.
Context {W : Type} (poll_write : W -> bytes -> Poll (res nat) * W) (write_data : W -> bytes -> nat -> Poll (res unit) * W * nat).

Definition vmess_write_body (buf : bytes) (w : W) (v : VmessStream) : Poll (res nat) * W * VmessStream :=
  let '(p, w, ew) := @poll_write_encrypted _ (vmess_encoder oc) _ write_data buf w (vs_writer v) in
  (p, w, vs_set_write v (vs_header_pos v) ew WBody).

(** [poll_write_header]: one poll offers the rest of the header once; when part
of it was accepted, or none, the answer is [Pending]. *)
Definition vmess_poll_write (buf : bytes) (w : W) (v : VmessStream) : Poll (res nat) * W * VmessStream :=
  match vs_state_2 v with
  | WDone => (Ready (Err unexpected_eof), w, v)
  | WBody => vmess_write_body buf w v
  | WHeader =>
    if decide (vs_header_pos v < length (vs_header_buffer v)) then
      let '(r, w) := poll_write w (drop (vs_header_pos v) (vs_header_buffer v)) in
      let v := vs_set_write v (vs_header_pos v + get_poll_res r) (vs_writer v) WHeader in
      if is_error r then (r, w, vs_set_write v (vs_header_pos v) (vs_writer v) WDone)
      else match r with
      | Ready Panic => (Ready Panic, w, v)
      | _ =>
        if decide (vs_header_pos v < length (vs_header_buffer v)) then (Pending, w, v)
        else vmess_write_body buf w v
      end
    else vmess_write_body buf w v
  end.

Definition err_vmess_target : io_error :=
  new_error "Vmess can't change target udp address different from first packet. Try using a full-cone protocol instead.".

(** [UdpWrite]; [strict] is the feature [strict-vmess-udp]. *)
Definition vmess_poll_send_to (strict : bool) (buf : bytes) (target : Address) (w : W) (v : VmessStream)
  : Poll (res nat) * W * VmessStream :=
  if strict && negb (bool_decide (vo_addr (vs_option v) = target)) then (Ready (Err err_vmess_target), w, v)
  else vmess_poll_write buf w v.

(** Only the feature looks at the target. *)
Lemma vmess_send_to_target buf target w v :
  vmess_poll_send_to false buf target w v = vmess_poll_write buf w v /\
  (target <> vo_addr (vs_option v) -> vmess_poll_send_to true buf target w v = (Ready (Err err_vmess_target), w, v)).
Proof. split; [done|]. intros Ht. unfold vmess_poll_send_to. by rewrite bool_decide_eq_false_2. Qed.
End WriteOver.

(** The polls over the scripts of Io.v. *)
Definition vs_poll_read : nat -> rd_script -> VmessStream -> Poll (res bytes) * rd_script * VmessStream :=
  vmess_poll_read read_at_least (@poll_read_decrypted _ (vmess_format oc)).
Definition vs_poll_write : bytes -> Writer -> VmessStream -> Poll (res nat) * Writer * VmessStream := vmess_poll_write poll_write write_data.

(** ** Runs *)

Fixpoint vmess_read_polls (caps : list nat) (s : rd_script) (v : VmessStream)
  : list (Poll (res bytes)) * rd_script * VmessStream :=
  match caps with
  | [] => ([], s, v)
  | cap :: caps =>
    let '(p, s, v) := vs_poll_read cap s v in
    let '(ps, s, v) := vmess_read_polls caps s v in
    (p :: ps, s, v)
  end.

(** Polls with the same data until the answer is not [Pending]. *)
Fixpoint vmess_write_op (fuel : nat) (data : bytes) (w : Writer) (v : VmessStream) : res nat * Writer * VmessStream :=
  match vs_poll_write data w v with
  | (Ready r, w, v) => (r, w, v)
  | (Pending, w, v) => match fuel with O => (Panic, w, v) | S f => vmess_write_op f data w v end
  end.

(** ** Lemmas *)

Lemma body_polls caps s v ps s' v' :
  vs_state_1 v = RBody -> vmess_read_polls caps s v = (ps, s', v') ->
  exists rd, @read_polls _ (vmess_format oc) caps s (vs_reader v) = (ps, s', rd).
Proof.
  revert s v ps. induction caps as [|cap caps IH]; intros s v ps Hs; simpl; [intros; simplify_eq; eauto|].
  unfold vs_poll_read, vmess_poll_read. rewrite Hs. unfold vmess_read_body.
  destruct (poll_read_decrypted cap s (vs_reader v)) as [[p s1] rd] eqn:E.
  destruct (vmess_read_polls caps s1 _) as [[ps1 s2] v2] eqn:E2. intros; simplify_eq.
  destruct (IH s1 (vs_set_read v (vs_header_reader v) rd RBody) ps1 eq_refl E2) as [rd' E']. simpl in E'. rewrite E'. eauto.
Qed.

Lemma body_op fuel data w v :
  vs_state_2 v = WBody ->
  vmess_write_op fuel data w v =
  (let '(r, w', ew) := @write_op _ (vmess_encoder oc) fuel data w (vs_writer v) in (r, w', vs_set_write v (vs_header_pos v) ew WBody)).
Proof.
  revert w v. induction fuel as [|n IH]; intros w v Hs; simpl; unfold vs_poll_write, vmess_poll_write; rewrite Hs; unfold vmess_write_body;
    destruct (poll_write_encrypted write_data data w (vs_writer v)) as [[[p|] w1] ew]; try done.
  by rewrite IH.
Qed.

Lemma body_first fuel data w v w1 v1 f c l :
  vs_poll_write data w v = vmess_write_body write_data data w1 v1 -> vs_writer v1 = vs_writer v ->
  writes_ok w1 -> at_boundary (vs_writer v) -> ew_buf (vs_writer v) = [] -> data <> [] ->
  length (wr_script w1) <= length (wr_script w) -> length (wr_script w) <= fuel -> wr_log w1 = wr_log w ++ l ->
  let d := take (Nat.min (CHUNK_SIZE - overhead_len) (length data)) data in
  vmess_frame oc (ew_cipher (vs_writer v)) d = Ok (f, c) ->
  exists w' v', vmess_write_op fuel data w v = (Ok (length d), w', v') /\ writes_ok w' /\ wr_log w' = wr_log w ++ l ++ f.
Proof.
  intros E Hew Hw1 Hb Hbuf Hd Hle Hfu Hlog d Hf.
  assert (vmess_write_op fuel data w v = vmess_write_op fuel data w1 (vs_set_write v1 (vs_header_pos v1) (vs_writer v1) WBody)) as ->.
  { destruct fuel; cbn [vmess_write_op]; rewrite E; done. }
  rewrite body_op by done. simpl vs_writer. rewrite Hew.
  destruct (@write_op_ok _ (vmess_encoder oc) fuel data w1 (vs_writer v) f c) as (w' & e' & E' & Hw' & _ & _ & _ & Hl);
    [done|done|done|lia|exact Hf|].
  rewrite E'. do 2 eexists. split; [done|]. split; [done|]. by rewrite Hl, Hbuf, Hlog, <- app_assoc.
Qed.

(** One poll of the header: suspended with part of it sent, or done with it. *)
Lemma header_poll_write data w v :
  writes_ok w -> vs_state_2 v = WHeader -> vs_header_pos v <= length (vs_header_buffer v) ->
  exists w1 v1, writes_ok w1 /\ vs_writer v1 = vs_writer v /\ vs_header_buffer v1 = vs_header_buffer v /\
  (vs_poll_write data w v = (Pending, w1, v1) /\ vs_state_2 v1 = WHeader /\
    vs_header_pos v1 <= length (vs_header_buffer v) /\ length (wr_script w1) < length (wr_script w) /\
    wr_log w1 ++ drop (vs_header_pos v1) (vs_header_buffer v) = wr_log w ++ drop (vs_header_pos v) (vs_header_buffer v)
    \/ vs_poll_write data w v = vmess_write_body write_data data w1 v1 /\ length (wr_script w1) <= length (wr_script w) /\
    wr_log w1 = wr_log w ++ drop (vs_header_pos v) (vs_header_buffer v)).
Proof.
  intros Hw Hs Hp. unfold vs_poll_write, vmess_poll_write. rewrite Hs. case_decide as Hlt.
  2:{ exists w, v. split_and!; [done..|]. right. split_and!; [done|done|]. by rewrite drop_ge, app_nil_r by lia. }
  set (hb := vs_header_buffer v) in *. set (pos := vs_header_pos v) in *.
  pose proof (poll_write_spec w (drop pos hb)) as Hspec. unfold poll_write, writes_ok in *.
  destruct (wr_script w) as [|[|n|e] ws] eqn:Ew; [| | |by apply Forall_cons in Hw as [Hn _]].
  - simpl. rewrite decide_False by (unfold hb, pos in *; simpl; rewrite length_drop; lia). do 2 eexists.
    split; [|split; [|split; [|right; split; [reflexivity|]]]]; simpl; auto.
  - simpl. apply Forall_cons in Hw as [_ Hw]. rewrite decide_True by (unfold hb, pos in *; simpl; lia).
    do 2 eexists. split; [|split; [|split; [|left; split; [reflexivity|]]]]; simpl; auto.
    rewrite Nat.add_0_r, app_nil_r. split_and!; [done|done|lia|done].
  - simpl. apply Forall_cons in Hw as [Hn Hw]. simpl in Hn. apply negb_true_iff, Nat.eqb_neq in Hn.
    rewrite length_take, length_drop. case_decide as Hmore; simpl in Hmore.
    + do 2 eexists. split; [|split; [|split; [|left; split; [reflexivity|]]]]; simpl; auto.
      split_and!; [done|lia|lia|]. rewrite <- app_assoc. f_equal.
      rewrite <- drop_drop. unfold hb, pos in *. rewrite Nat.min_l by lia. apply take_drop.
    + do 2 eexists. split; [|split; [|split; [|right; split; [reflexivity|]]]]; simpl; auto.
      split; [lia|]. rewrite take_ge; [done|]. rewrite length_drop. unfold hb, pos in *. lia.
Qed.

(** The rest of the header, then the first frame. *)
Lemma header_then_body fuel data w v f c :
  writes_ok w -> vs_state_2 v = WHeader -> vs_header_pos v <= length (vs_header_buffer v) ->
  at_boundary (vs_writer v) -> ew_buf (vs_writer v) = [] -> data <> [] -> length (wr_script w) <= fuel ->
  let d := take (Nat.min (CHUNK_SIZE - overhead_len) (length data)) data in
  vmess_frame oc (ew_cipher (vs_writer v)) d = Ok (f, c) ->
  exists w' v', vmess_write_op fuel data w v = (Ok (length d), w', v') /\ writes_ok w' /\
  wr_log w' = wr_log w ++ drop (vs_header_pos v) (vs_header_buffer v) ++ f.
Proof.
  revert w v. induction fuel as [|n IH]; intros w v Hw Hs Hp Hb Hbuf Hd Hfu d Hf;
    destruct (header_poll_write data w v Hw Hs Hp) as (w1 & v1 & Hw1 & Hew & Hhb & [(E & Hs1 & Hp1 & Hlt & Hlog)|(E & Hle & Hlog)]);
    [lia|by eapply body_first| |by eapply body_first].
  destruct (IH w1 v1) as (w' & v' & E' & ? & Hl); [done|done|by rewrite Hhb|by rewrite Hew..|done|lia|by rewrite Hew|].
  exists w', v'. split_and!; [cbn [vmess_write_op]; rewrite E; exact E'|done|].
  rewrite Hl, Hhb, app_assoc, Hlog. by rewrite <- app_assoc.
Qed.

(** While the response header is on its way, a stream delivers nothing; then it
delivers the decoding of what follows the header. *)
Lemma waiting_polls caps s v ps s' v' payload rest :
  vs_state_1 v = RWait -> hr_received_resp (vs_header_reader v) = false ->
  response_pending (vs_header_reader v) s payload rest -> hr_read_zero (vs_header_reader v) = false ->
  dr_state (vs_reader v) = DecLength ->
  nth 0 payload x00 = hr_respv (vs_header_reader v) -> nth 2 payload x00 = x00 ->
  4 <= length payload -> (Z.of_nat (length payload) < 65536)%Z ->
  Forall (fun cap => 0 < cap) caps -> vmess_read_polls caps s v = (ps, s', v') ->
  let o := @decode _ (vmess_format oc) (dr_cipher (vs_reader v)) rest in
  (flat_map poll_data ps `prefix_of` o.1) /\
  ((exists p, p ∈ ps /\ poll_final p = true) -> flat_map poll_data ps = o.1) /\
  (Ready Panic ∈ ps -> o.2 = EndPanic).
Proof.
  intros Hs Hr Hp Hz Hd Hp0 Hp2 Hp4 Hlt Hc. revert s v ps Hs Hr Hp Hz Hd Hp0.
  induction Hc as [|cap caps Hcap Hc IH]; intros s v ps Hs Hr Hp Hz Hd Hp0 E o.
  { simpl in E. simplify_eq. split_and!; [apply prefix_nil|intros (p & Hin & _)|intros Hin]; by apply not_elem_of_nil in Hin. }
  cbn [vmess_read_polls] in E. destruct (vs_poll_read cap s v) as [[p s1] v1] eqn:Ep.
  destruct (vmess_read_polls caps s1 v1) as [[ps1 s2] v2] eqn:E1. simplify_eq.
  pose proof Ep as Ep2. unfold vs_poll_read, vmess_poll_read in Ep2. rewrite Hs, Hr in Ep2.
  destruct (header_poll read_at_least s (vs_header_reader v)) as [[q sh] hr] eqn:Eh.
  destruct (response_header_step _ _ _ _ _ _ _ Hp Hz Hp0 Hp2 Hp4 Hlt Eh) as [(-> & Hp' & Hrv & Hrc & Hz')|(-> & _ & Hrest)].
  - simplify_eq. destruct (IH s1 (vs_set_read v hr (vs_reader v) RWait) ps1) as (Hpre & Hfin & Hpan);
      [done..|simpl; congruence|done|]. split_and!; [exact Hpre| |].
    + intros (q & Hq & Hqf). apply Hfin. apply elem_of_cons in Hq as [->|Hq]; [done|eauto].
    + intros Hq. apply elem_of_cons in Hq as [Hq|Hq]; [done|by apply Hpan].
  - set (vb := steal_buffer (vs_set_read v hr (vs_reader v) RWait)) in *.
    assert (vmess_read_polls (cap :: caps) sh vb = (p :: ps1, s', v')) as Eb.
    { cbn [vmess_read_polls]. unfold vs_poll_read, vmess_poll_read. change (vs_state_1 vb) with RBody. cbn iota. by rewrite Ep2, E1. }
    destruct (body_polls (cap :: caps) sh vb _ _ _ eq_refl Eb) as [rd Erd].
    assert (reader_ok (vs_reader vb)) as Hok by (unfold reader_ok; simpl; by rewrite Hd).
    assert (Forall (fun cap => 0 < cap) (cap :: caps)) as Hcs by (by constructor).
    destruct (@read_polls_ok _ (vmess_format oc) _ _ _ _ _ _ Hok Hcs Erd) as (Hpre & Hfin & Hpan).
    assert (@future _ (vmess_format oc) (vs_reader vb) sh = o) as Hf.
    { unfold future. simpl. rewrite Hd. by rewrite Hrest. }
    rewrite Hf in *. by split_and!.
Qed.

(** ** Properties *)

(** A stream opens for the two securities that the client implements, whatever
is drawn; the others are [unimplemented!()]. *)
Lemma VmessStream_new_total opt r :
  if decide (vo_security_num opt = 3 \/ vo_security_num opt = 4)%Z
  then exists v, VmessStream_new opt r = Ok v else VmessStream_new opt r = Panic.
Proof.
  unfold VmessStream_new, vmess_security, AES_128_GCM_SECURITY_NUM, CHACHA20POLY1305_SECURITY_NUM.
  assert (forall opt salt respv r, exists h, construct_header_data opt salt respv r = Ok h) as Hh.
  { intros o salt respv r'. unfold construct_header_data, seal_vmess_aead_header, AES_128_GCM_TAG_LEN.
    match goal with |- context [encrypt_inplace_with_slice ?a ?k ?n ?ad (?m ++ repeat x00 16)] =>
      destruct (seal_room a k n ad m) as (o1 & -> & _) end. cbn [mbind res_bind].
    match goal with |- context [encrypt_inplace_with_slice ?a ?k ?n ?ad (?m ++ repeat x00 16)] =>
      destruct (seal_room a k n ad m) as (o2 & -> & _) end. cbn [mbind res_bind]. eauto. }
  repeat case_decide; try lia; try done; cbn [mbind res_bind chacha_keys];
    match goal with |- context [construct_header_data ?o ?s ?v ?r] => destruct (Hh o s v r) as [h ->] end; cbn [mbind res_bind]; eauto.
Qed.

(** C30: a stream reads the response header, then the body, under every
fragmentation of the two: while the header is on its way it delivers nothing,
then the payloads of the frames that follow it, in order up to the first
that does not verify, all of them once a poll is final; it panics only where
the frames do. *)
Theorem vmess_stream_reads opt r v payload rest caps s ps s' v' :
  VmessStream_new opt r = Ok v ->
  nth 0 payload x00 = vs_respv v -> nth 2 payload x00 = x00 -> 4 <= length payload -> (Z.of_nat (length payload) < 65536)%Z ->
  rd_bytes s = seal_response (vs_header_reader v) payload ++ rest ->
  Forall (fun cap => 0 < cap) caps -> vmess_read_polls caps s v = (ps, s', v') ->
  let o := @decode _ (vmess_format oc) (dr_cipher (vs_reader v)) rest in
  (flat_map poll_data ps `prefix_of` o.1) /\
  ((exists p, p ∈ ps /\ poll_final p = true) -> flat_map poll_data ps = o.1) /\
  (Ready Panic ∈ ps -> o.2 = EndPanic).
Proof.
  intros Hv Hp0 Hp2 Hp4 Hlt Hw Hc E. unfold VmessStream_new in Hv.
  destruct (vmess_security _ _ _) as [[wc rc]|e|]; [|done..]. cbn [mbind res_bind] in Hv.
  destruct (construct_header_data _ _ _ _) as [h|e|]; [|done..]. cbn [mbind res_bind] in Hv. injection Hv as <-.
  eapply waiting_polls; try done; simpl; done.
Qed.

(** C31: the first write of a stream sends the request header, once and whole,
before the first frame: on every writer that keeps accepting bytes the
write completes with the size of the first payload, and the bytes written are the sealed header, which a server
opens to the header data, and the frame. *)
Theorem vmess_stream_first_write opt r v data w :
  VmessStream_new opt r = Ok v -> length (rnd_salt r) = 64 ->
  length (rnd_time r) = 8 -> length (rnd_4 r) = 4 -> length (rnd_8 r) = 8 ->
  (Z.of_nat (length (header_plain opt (vs_salt v) (vs_respv v) r)) < 65536)%Z ->
  writes_ok w -> data <> [] ->
  exists h f w' v', vmess_write_op (length (wr_script w)) data w v
  = (Ok (Nat.min (CHUNK_SIZE - overhead_len) (length data)), w', v') /\
  wr_log w' = wr_log w ++ h ++ f /\ writes_ok w' /\
  (forall l, open_vmess_aead_header (vmess_cmd_key (vo_uuid opt)) (h ++ l)
    = Some (rnd_time r, header_plain opt (vs_salt v) (vs_respv v) r, l)) /\
  (forall l, exists c, @decode _ (vmess_format oc) (ew_cipher (vs_writer v)) (f ++ l)
    = out_app (take (CHUNK_SIZE - overhead_len) data) (@decode _ (vmess_format oc) c l)).
Proof.
  intros Hv Hsalt Ht H4 H8 Hlen Hw Hd. unfold VmessStream_new in Hv.
  set (salt := take 32 (rnd_salt r) ++ _ ++ _) in Hv.
  assert (length (req_body_iv salt) = 16) as Hiv.
  { unfold req_body_iv, salt. rewrite length_take, !length_app, !length_take, !sha256_length, Hsalt. done. }
  destruct (vmess_security _ _ _) as [[wc rc]|e|]; [|done..]. cbn [mbind res_bind] in Hv.
  destruct (construct_header_data _ _ _ _) as [h|e|] eqn:Eh; [|done..]. cbn [mbind res_bind] in Hv.
  set (v0 := mkVmessStream _ _ _ _ _ _ _ _ _ _) in Hv. injection Hv as <-.
  unfold construct_header_data in Eh.
  set (d := take (Nat.min (CHUNK_SIZE - overhead_len) (length data)) data).
  assert (length d = Nat.min (CHUNK_SIZE - overhead_len) (length data)) as Hdl by (unfold d; rewrite length_take; lia).
  destruct (vmess_frame_decode oc (ew_cipher (vs_writer v0)) d) as (f & Hf & _ & Hdec);
    [change (12 <= length (req_body_iv salt)); lia|simpl; lia|lia|].
  destruct (header_then_body (length (wr_script w)) data w v0 f (counted (ew_cipher (vs_writer v0)) 1)) as (w' & v' & E & Hw' & Hl);
    [done|done|simpl; lia|by left|done|done|done|exact Hf|].
  exists h, f, w', v'. fold d in E. rewrite Hdl in E. split; [exact E|]. split; [exact Hl|]. split; [done|]. split.
  - intros l. destruct (sealed_header_opens (vmess_cmd_key (vo_uuid opt)) (header_plain opt (vs_salt v0) (vs_respv v0) r)
      (rnd_time r) (rnd_4 r) (rnd_8 r) l) as (h' & Eh' & Ho); [done..|]. change (seal_vmess_aead_header (vmess_cmd_key (vo_uuid opt)) (header_plain opt salt (vs_respv v0) r)
      (rnd_time r) (rnd_4 r) (rnd_8 r) = Ok h') in Eh'. unfold v0 in Eh'. simpl vs_respv in Eh'. rewrite Eh in Eh'. by injection Eh' as <-.
  - intros l. eexists. rewrite Hdec. f_equal. unfold d.
    destruct (Nat.le_ge_cases (CHUNK_SIZE - overhead_len) (length data)); [by rewrite Nat.min_l|by rewrite Nat.min_r, !take_ge].
Qed.

(** The upper halves of the ChaCha20-Poly1305 keys are constants: they do
not depend on the keys of the request, for which the protocol
takes the digest of the lower half. *)
Theorem chacha_key_halves_constant req_key resp_key :
  chacha_keys req_key resp_key
  = (md5 req_key ++ md5 (repeat x00 16), md5 resp_key ++ md5 (md5 (repeat x00 16))).
Proof.
  unfold chacha_keys. change (drop 16 (repeat x00 32)) with (repeat x00 16).
  rewrite !take_app_length', !drop_app_length' by (by rewrite md5_length). done.
Qed.
End VmessStream.

(** ** An instance for the witnesses *)

Program Definition toy_sha256 : Sha256Crypto := {| sha256 m := take 32 (m ++ repeat x00 32) |}.
Next Obligation. intros. simpl. rewrite length_take, length_app. cbn [length]. lia. Qed.

(** ** Witnesses *)

#[local] Existing Instance toy_crypto.
#[local] Existing Instance toy_hmac.
#[local] Existing Instance toy_block.
#[local] Existing Instance toy_sha256.

Definition wit_option : VmessOption :=
  mkVmessOption (repeat x09 16) 0 (DomainNameAddress (str "example.org") 443) 3 false.
Definition wit_random : VmessRandom :=
  mkVmessRandom (repeat x03 64) 5 (repeat x04 16) (repeat x00 8) (repeat x05 4) (repeat x06 8).

Lemma vmess_stream_reads_witness :
  exists v, VmessStream_new wit_option wit_random = Ok v /\
    let s := [RdPending; RdData (seal_response (vs_header_reader v) [x03; x00; x00; x00] ++ [x00])] in
    let '(ps, _, _) := vmess_read_polls true [9; 9; 9] s v in flat_map poll_data ps = [].
Proof.
  destruct (VmessStream_new wit_option wit_random) as [v|e|] eqn:E; [|vm_compute in E; discriminate E..].
  exists v. split; [reflexivity|]. cbn zeta.
  set (w := seal_response (vs_header_reader v) [x03; x00; x00; x00]). set (s := [RdPending; RdData (w ++ [x00])]).
  destruct (vmess_read_polls true [9; 9; 9] s v) as [[ps s'] v'] eqn:Er.
  assert (rd_bytes s = w ++ [x00]) as Hs by exact (rd_bytes_one (w ++ [x00])).
  destruct (vmess_stream_reads true wit_option wit_random v [x03; x00; x00; x00] [x00] [9; 9; 9] s ps s' v')
    as (Hpre & _ & _); [exact E|vm_compute in E; injection E as <-; reflexivity|reflexivity|simpl; lia|simpl; lia|exact Hs
      |repeat constructor; lia|exact Er|].
  cbn in Hpre. destruct Hpre as [k Hk]. symmetry in Hk. by apply app_nil in Hk as [? _].
Defined.

Lemma vmess_stream_first_write_witness :
  exists v w' v', VmessStream_new wit_option wit_random = Ok v /\
    vmess_write_op true 3 (str "hello") (mkWriter [WrPending; WrAccept 10; WrAccept 1] [] [] 0 [] 0) v = (Ok 5, w', v').
Proof.
  destruct (VmessStream_new wit_option wit_random) as [v|e|] eqn:E; [|vm_compute in E; discriminate E..].
  destruct (vmess_stream_first_write true wit_option wit_random v (str "hello")
    (mkWriter [WrPending; WrAccept 10; WrAccept 1] [] [] 0 [] 0)) as (h & f & w' & v' & Hw & _);
    [exact E|reflexivity|reflexivity|reflexivity|reflexivity| |repeat constructor|discriminate|].
  - vm_compute in E. injection E as <-. vm_compute. reflexivity.
  - exists v, w', v'. split; [reflexivity|]. exact Hw.
Defined.
