(* ===== verification/Trojan.v ===== *)
(** * Trojan (src/src/proxy/trojan/)

    The request header ([RequestHeader::read_from], [write_to]), the client
    builder of mod.rs (hex of the password's SHA-224, [build_tcp],
    [build_udp]) and the UDP-over-stream framing of [TrojanUdpReader] and
    [TrojanUdpWriter], two generators in the style of FrameReader.v.

    SHA-224 (crate sha2) is a parameter. *)

From S2P Require Import Prelude Io StdText Address.
From Stdlib Require Import ZArith Lia List Strings.Byte.
From stdpp Require Import base option list strings.

Definition CMD_TCP_CONNECT : Z := 1.
Definition CMD_UDP_ASSOCIATE : Z := 3.
Definition HASH_STR_LEN : nat := 56.

Definition crlf : bytes := [x0d; x0a].

Inductive RequestHeader :=
| TcpConnect (hash : bytes) (addr : Address)
| UdpAssociate (hash : bytes).

(** [read_from]: the second component is [first_packet] after the call. *)
Definition header_rest (hash_buf : bytes) : IO RequestHeader :=
  _ ← read_exact 2;
  cmd_buf ← read_exact 1;
  addr ← read_from_stream;
  _ ← read_exact 2;
  let cmd := be_val cmd_buf in
  if decide (cmd = CMD_TCP_CONNECT) then mret (TcpConnect hash_buf addr)
  else if decide (cmd = CMD_UDP_ASSOCIATE) then mret (UdpAssociate hash_buf)
  else io_err (new_error "invalid command").

Definition read_from (valid_hash first_packet : bytes) (s : Stream) : res RequestHeader * bytes * Stream :=
  match read HASH_STR_LEN s with
  | (Err e, s) => (Err e, first_packet, s)
  | (Panic, s) => (Panic, first_packet, s)
  | (Ok hash_buf, s) =>
      if decide (length hash_buf <> HASH_STR_LEN)
      then (Err (new_error "first packet too short"), first_packet ++ hash_buf, s)
      else if decide (valid_hash <> hash_buf)
      then (Err (new_error ("invalid password hash: " ++ bytes_to_string hash_buf)), first_packet ++ hash_buf, s)
      else let '(r, s) := header_rest hash_buf s in (r, first_packet, s)
  end.

Definition header_bytes (h : RequestHeader) : bytes :=
  let '(hash, addr, cmd) :=
    match h with
    | TcpConnect hash addr => (hash, addr, CMD_TCP_CONNECT)
    | UdpAssociate hash => (hash, new_dummy_address, CMD_UDP_ASSOCIATE)
    end in
  let cursor := put_slice ([] : bytes) hash in
  let cursor := put_slice cursor crlf in
  let cursor := put_u8 cursor cmd in
  let cursor := write_to_buf addr cursor in
  put_slice cursor crlf.

Definition write_to (h : RequestHeader) : IO unit := write_all (header_bytes h).

(** ** The client's builder *)

Definition HEX_CHARS_LOWER : bytes := str "0123456789abcdef".

Definition hex_char (z : Z) : byte := nth (Z.to_nat z) HEX_CHARS_LOWER x00.

(** The two hex digits of a byte. *)
Definition hex_pair (t : byte) : bytes :=
  [hex_char (Z.shiftr (b2z t) 4); hex_char (Z.land (b2z t) 15)].

Record TrojanStreamBuilder := mkTrojanBuilder { tb_password : bytes; tb_addr : Address }.

Section Builder.
Context (sha224 : bytes -> bytes).

Definition TrojanStreamBuilder_new (addr : Address) (password : bytes) : TrojanStreamBuilder :=
  mkTrojanBuilder (flat_map hex_pair (sha224 password)) addr.
End Builder.

Definition build_tcp (b : TrojanStreamBuilder) : IO unit :=
  write_to (TcpConnect (tb_password b) (tb_addr b)).

(** The stream a UDP build answers: the transport itself, or wrapped in a
    [TrojanUdpStream]. *)
Inductive udp_layer := UdpPlain | UdpTrojan.

Definition build_udp (b : TrojanStreamBuilder) (build_tcp_inside : bool) : IO udp_layer :=
  if build_tcp_inside
  then _ ← write_to (TcpConnect (tb_password b) (tb_addr b)); mret UdpPlain
  else _ ← write_to (UdpAssociate (tb_password b)); mret UdpTrojan.

(** ** The UDP reader *)

Inductive tr_state := TrHead | TrAddr | TrData | TrYield | TrDone.

(** [minimal_data_to_put] and [read_res] are set before they are read, within
    one poll. *)
Record TrojanUdpReader := mkTrReader {
  tr_read_state : tr_state;
  tr_addr : Address;
  tr_buffer : bytes;
  tr_data_length : nat;
  tr_read_zero : bool
}.

Definition TrojanUdpReader_new : TrojanUdpReader := mkTrReader TrHead new_dummy_address [] 0 false.

Inductive tr_flow :=
| TrReturn (p : Poll (res bytes)) (s : rd_script) (st : TrojanUdpReader)
| TrGo (s : rd_script) (st : TrojanUdpReader).

Definition tr_end (p : Poll (res bytes)) (s : rd_script) (st : TrojanUdpReader) : tr_flow :=
  TrReturn p s (mkTrReader TrDone (tr_addr st) (tr_buffer st) (tr_data_length st) (tr_read_zero st)).

(** The inner [while], to its next [co_yield] or its end. *)
Definition tr_yield (cap : nat) (s : rd_script) (st : TrojanUdpReader) : tr_flow :=
  let n := Nat.min (tr_data_length st) cap in
  if decide (n <> 0)
  then TrReturn (Ready (Ok (take n (tr_buffer st)))) s
         (mkTrReader TrYield (tr_addr st) (drop n (tr_buffer st)) (tr_data_length st - n) (tr_read_zero st))
  else TrGo s (mkTrReader TrHead (tr_addr st) (tr_buffer st) (tr_data_length st) (tr_read_zero st)).

(** A [co_await] of [read_at_least] with the error handling that follows it;
    [k] is the code after it. *)
Definition tr_await (here : tr_state) (len : nat) (k : rd_script -> TrojanUdpReader -> tr_flow)
    (s : rd_script) (st : TrojanUdpReader) : tr_flow :=
  let '(p, s, b, z) := read_at_least s (tr_buffer st) (tr_read_zero st) len in
  let st := mkTrReader here (tr_addr st) b (tr_data_length st) z in
  match p with
  | Pending => TrReturn Pending s st
  | Ready Panic => tr_end (Ready Panic) s st
  | Ready (Err e) => tr_end (Ready (if z then Ok [] else Err e)) s st
  | Ready (Ok _) => k s st
  end.

(** From the third [co_await]: the packet's data. *)
Definition tr_data (cap : nat) (s : rd_script) (st : TrojanUdpReader) : tr_flow :=
  tr_await TrData (tr_data_length st) (tr_yield cap) s st.

(** From the second [co_await]: address, length and CRLF. *)
Definition tr_address (cap : nat) (s : rd_script) (st : TrojanUdpReader) : tr_flow :=
  tr_await TrAddr (tr_data_length st)
    (fun s st =>
       match read_from_buf (tr_buffer st) with
       | Err e => tr_end (Ready (Err e)) s st
       | Panic => tr_end (Ready Panic) s st
       | Ok a =>
         let b := drop (serialized_len a) (tr_buffer st) in
         match get_u16 b with
         | Ok (len, b) =>
             if decide (2 <= length b)
             then tr_data cap s (mkTrReader TrData a (drop 2 b) (Z.to_nat len) (tr_read_zero st))
             else tr_end (Ready Panic) s st
         | _ => tr_end (Ready Panic) s st
         end
       end) s st.

(** The length of the packet's header, from its first two bytes. *)
Definition tr_header_len (buffer : bytes) : option nat :=
  match buffer with
  | t :: l :: _ =>
      if decide (b2z t = 1)%Z then Some (1 + 4 + 2 + 4)
      else if decide (b2z t = 4)%Z then Some (1 + 16 + 2 + 4)
      else if decide (b2z t = 3)%Z then Some (2 + Z.to_nat (b2z l) + 2 + 4)
      else None
  | _ => None
  end.

Definition err_atyp (buffer : bytes) : io_error :=
  IoError Other ("not supported address type " ++ hex_msg (hd x00 buffer)).

Definition tr_head (cap : nat) (s : rd_script) (st : TrojanUdpReader) : tr_flow :=
  tr_await TrHead 2
    (fun s st =>
       match tr_header_len (tr_buffer st) with
       | None => tr_end (Ready (Err (err_atyp (tr_buffer st)))) s st
       | Some n => tr_address cap s (mkTrReader TrAddr (tr_addr st) (tr_buffer st) n (tr_read_zero st))
       end) s st.

Definition tr_resume (cap : nat) (s : rd_script) (st : TrojanUdpReader) : tr_flow :=
  match tr_read_state st with
  | TrHead => tr_head cap s st
  | TrAddr => tr_address cap s st
  | TrData => tr_data cap s st
  | TrYield => tr_yield cap s st
  | TrDone => TrReturn (Ready (Err unexpected_eof)) s st
  end.

(** [priv_poll_read]: a turn of the loop consumes a header, so the number of
    received bytes is enough fuel. *)
Fixpoint tr_loop (fuel cap : nat) (s : rd_script) (st : TrojanUdpReader) : Poll (res bytes) * rd_script * TrojanUdpReader :=
  match fuel with
  | O => (Ready Panic, s, st)
  | S f =>
    match tr_resume cap s st with
    | TrReturn p s st => (p, s, st)
    | TrGo s st => tr_loop f cap s st
    end
  end.

Definition tr_poll_read (cap : nat) (s : rd_script) (st : TrojanUdpReader) : Poll (res bytes) * rd_script * TrojanUdpReader :=
  tr_loop (2 + (length (tr_buffer st) + length (rd_bytes s))) cap s st.

(** [poll_recv_from]: [take_addr] leaves the default address behind. *)
Definition tr_poll_recv_from (cap : nat) (s : rd_script) (st : TrojanUdpReader)
    : Poll (res (bytes * Address)) * rd_script * TrojanUdpReader :=
  match tr_poll_read cap s st with
  | (Ready (Ok d), s, st) =>
      (Ready (Ok (d, tr_addr st)), s,
       mkTrReader (tr_read_state st) new_dummy_address (tr_buffer st) (tr_data_length st) (tr_read_zero st))
  | (Ready (Err e), s, st) => (Ready (Err e), s, st)
  | (Ready Panic, s, st) => (Ready Panic, s, st)
  | (Pending, s, st) => (Pending, s, st)
  end.

(** [recv_from(..).await]: polls until an answer. *)
Fixpoint tr_recv_from (fuel cap : nat) (s : rd_script) (st : TrojanUdpReader)
    : option (res (bytes * Address)) * rd_script * TrojanUdpReader :=
  match fuel with
  | O => (None, s, st)
  | S f =>
    match tr_poll_recv_from cap s st with
    | (Pending, s, st) => tr_recv_from f cap s st
    | (Ready r, s, st) => (Some r, s, st)
    end
  end.

Fixpoint tr_recv_many (n cap : nat) (s : rd_script) (st : TrojanUdpReader)
    : list (option (res (bytes * Address))) * rd_script * TrojanUdpReader :=
  match n with
  | O => ([], s, st)
  | S m =>
    let '(r, s, st) := tr_recv_from (S (length s)) cap s st in
    let '(rs, s, st) := tr_recv_many m cap s st in
    (r :: rs, s, st)
  end.

(** ** The UDP writer *)

Inductive tw_state := TwHead | TwHeader | TwData | TwDone.

Record TrojanUdpWriter := mkTrWriter {
  tw_st : tw_state;
  tw_buffer : bytes;
  tw_pos : nat;
  tw_data_len : nat
}.

Definition TrojanUdpWriter_new : TrojanUdpWriter := mkTrWriter TwHead [] 0 0.

(** The inner loop: [write_data]; a ready answer is yielded with [pos] reset,
    and the next call starts a new packet. *)
Definition tw_write_data (w : Writer) (data : bytes) (st : TrojanUdpWriter) : Poll (res nat) * Writer * TrojanUdpWriter :=
  match write_data w data (tw_pos st) with
  | (Pending, w, pos) => (Pending, w, mkTrWriter TwData (tw_buffer st) pos (tw_data_len st))
  | (Ready (Ok _), w, _) => (Ready (Ok (tw_data_len st)), w, mkTrWriter TwHead (tw_buffer st) 0 (tw_data_len st))
  | (Ready (Err e), w, _) => (Ready (Err e), w, mkTrWriter TwHead (tw_buffer st) 0 (tw_data_len st))
  | (Ready Panic, w, _) => (Ready Panic, w, mkTrWriter TwHead (tw_buffer st) 0 (tw_data_len st))
  end.

(** From the [co_await] on [write_buffer_data]: its result is not looked at. *)
Definition tw_header (w : Writer) (data : bytes) (st : TrojanUdpWriter) : Poll (res nat) * Writer * TrojanUdpWriter :=
  match write_data w (tw_buffer st) (tw_pos st) with
  | (Pending, w, pos) => (Pending, w, mkTrWriter TwHeader (tw_buffer st) pos (tw_data_len st))
  | (Ready _, w, _) => tw_write_data w data (mkTrWriter TwData [] 0 (tw_data_len st))
  end.

Definition tw_start (w : Writer) (data : bytes) (addr : Address) (st : TrojanUdpWriter) : Poll (res nat) * Writer * TrojanUdpWriter :=
  if decide (length data = 0)
  then (Ready (Ok 0), w, mkTrWriter TwDone (tw_buffer st) (tw_pos st) 0)
  else
    let buffer := write_to_buf addr (tw_buffer st) in
    let buffer := put_u16 buffer (Z.of_nat (length data)) in
    let buffer := put_slice buffer crlf in
    tw_header w data (mkTrWriter TwHeader buffer (tw_pos st) (length data)).

Definition tr_poll_send_to (w : Writer) (data : bytes) (addr : Address) (st : TrojanUdpWriter)
    : Poll (res nat) * Writer * TrojanUdpWriter :=
  match tw_st st with
  | TwHead => tw_start w data addr st
  | TwHeader => tw_header w data st
  | TwData => tw_write_data w data st
  | TwDone => (Ready (Err unexpected_eof), w, st)
  end.

(** [send_to(..).await]. *)
Fixpoint tr_send_to (fuel : nat) (w : Writer) (data : bytes) (addr : Address) (st : TrojanUdpWriter)
    : option (res nat) * Writer * TrojanUdpWriter :=
  match fuel with
  | O => (None, w, st)
  | S f =>
    match tr_poll_send_to w data addr st with
    | (Pending, w, st) => tr_send_to f w data addr st
    | (Ready r, w, st) => (Some r, w, st)
    end
  end.

Fixpoint tr_send_all (w : Writer) (ps : list (Address * bytes)) (st : TrojanUdpWriter)
    : list (option (res nat)) * Writer * TrojanUdpWriter :=
  match ps with
  | [] => ([], w, st)
  | (a, d) :: ps =>
    let '(r, w, st) := tr_send_to (S (length (wr_script w))) w d a st in
    let '(rs, w, st) := tr_send_all w ps st in
    (r :: rs, w, st)
  end.

(** ** The request header on the wire *)

Lemma header_bytes_eq h :
  header_bytes h = match h with
    | TcpConnect hash a => hash ++ crlf ++ z2b 1 :: encode a ++ crlf
    | UdpAssociate hash => hash ++ crlf ++ z2b 3 :: encode new_dummy_address ++ crlf
    end.
Proof.
  destruct h; unfold header_bytes, put_u8; cbn [put_slice list_BufMut]; rewrite write_to_buf_list;
    simpl; by rewrite <- !app_assoc.
Qed.

(** The parts of a header: hash, command byte, address. *)
Lemma header_rest_ok hash cmd a s r :
  Address_ok a = true -> (0 <= cmd < 256)%Z ->
  rd_bytes (st_rd s) = crlf ++ z2b cmd :: encode a ++ crlf ++ r ->
  exists rd, rd_bytes rd = r /\
    header_rest hash s = ((if decide (cmd = CMD_TCP_CONNECT) then Ok (TcpConnect hash (wire_norm a))
      else if decide (cmd = CMD_UDP_ASSOCIATE) then Ok (UdpAssociate hash)
      else Err (new_error "invalid command")), mkStream rd (st_wr s)).
Proof.
  intros Ha Hc Hs. unfold header_rest, mbind, IO_bind.
  destruct (read_exact_ok 2 s _ _ Hs eq_refl) as (rd1 & -> & H1). cbn [app] in H1.
  destruct (read_exact_ok 1 (mkStream rd1 (st_wr s)) [z2b cmd] _ H1 eq_refl) as (rd2 & -> & H2). cbn [st_wr].
  destruct (read_from_stream_encode a (mkStream rd2 (st_wr s)) _ Ha H2) as (rd3 & -> & H3). cbn [st_wr].
  destruct (read_exact_ok 2 (mkStream rd3 (st_wr s)) crlf _ H3 eq_refl) as (rd4 & -> & H4).
  exists rd4. split; [done|]. rewrite be_val_byte, b2z_small by done.
  by repeat case_decide.
Qed.

(** What the first read of a script gives: at most [cap] bytes of its first
    chunk. *)
Lemma read_first s cap bs rest n :
  st_rd s = replicate n RdPending ++ RdData bs :: rest ->
  exists rd, read cap s = (Ok (take cap bs), mkStream rd (st_wr s))
    /\ (cap < length bs -> rd_bytes rd = drop cap bs ++ rd_bytes rest)
    /\ (length bs <= cap -> rd = rest).
Proof.
  intros E. unfold read. rewrite E. clear E. induction n as [|n IH]; [|exact IH]. simpl. case_decide.
  - eexists. rewrite take_ge by done. split_and!; [done|lia|done].
  - eexists. split_and!; [done| |lia]. intros Hl. simpl.
    destruct (drop cap bs) eqn:E; [|done]. apply (f_equal length) in E. rewrite length_drop in E.
    simpl in E. lia.
Qed.

Lemma header_bytes_hash h :
  exists hash t, header_bytes h = hash ++ t /\ (h = UdpAssociate hash \/ exists a, h = TcpConnect hash a).
Proof. destruct h as [hash a|hash]; rewrite header_bytes_eq; eauto 6. Qed.

Lemma length_flat_map_hex_pair l : length (flat_map hex_pair l) = 2 * length l.
Proof. induction l as [|b l IH]; [done|]. cbn [flat_map]. rewrite length_app, IH. simpl. lia. Qed.

Lemma hex_pair_inj a b : hex_pair a = hex_pair b -> a = b.
Proof.
  assert (forallb (fun a => forallb (fun b => negb (bool_decide (hex_pair a = hex_pair b)) || bool_decide (a = b))
    (map z2b (map Z.of_nat (seq 0 256)))) (map z2b (map Z.of_nat (seq 0 256))) = true) as Hall
    by (vm_compute; reflexivity).
  assert (forall x, In x (map z2b (map Z.of_nat (seq 0 256)))) as Hin.
  { intros x. rewrite map_map, in_map_iff. exists (Z.to_nat (b2z x)). pose proof (b2z_range x).
    split; [rewrite Z2Nat.id by lia; apply z2b_b2z|]. apply in_seq. lia. }
  rewrite forallb_forall in Hall. specialize (Hall a (Hin a)). rewrite forallb_forall in Hall.
  specialize (Hall b (Hin b)). intros E. rewrite bool_decide_true in Hall by done. simpl in Hall.
  by apply bool_decide_eq_true in Hall.
Qed.

Lemma flat_map_hex_inj l1 l2 : flat_map hex_pair l1 = flat_map hex_pair l2 -> l1 = l2.
Proof.
  revert l2. induction l1 as [|a l1 IH]; intros [|b l2]; [done..|]. cbn [flat_map]. intros E.
  apply app_inj_1 in E as [Ea El]; [|done]. apply hex_pair_inj in Ea as ->. f_equal. by apply IH.
Qed.

(** ** UDP packets on the wire *)

Definition packet (p : Address * bytes) : bytes :=
  encode p.1 ++ be_bytes 2 (Z.of_nat (length p.2)) ++ crlf ++ p.2.

Definition packet_ok (cap : nat) (p : Address * bytes) : bool :=
  Address_ok p.1 && (1 <=? length p.2) && (Z.of_nat (length p.2) <? 65536)%Z && (length p.2 <=? cap).

Lemma packet_ok_inv cap a d :
  packet_ok cap (a, d) = true ->
  Address_ok a = true /\ 1 <= length d /\ (Z.of_nat (length d) < 65536)%Z /\ length d <= cap.
Proof.
  unfold packet_ok. cbn [fst snd]. rewrite !andb_true_iff. intros [[[? ?%Nat.leb_le] ?%Z.ltb_lt] ?%Nat.leb_le]. done.
Qed.

Lemma serialized_len_norm a : serialized_len (wire_norm a) = serialized_len a.
Proof. by destruct a as [[]|]. Qed.

Lemma read_from_buf_encode a r : Address_ok a = true -> read_from_buf (encode a ++ r) = Ok (wire_norm a).
Proof.
  intros Ha. unfold read_from_buf.
  destruct (read_from_cursor_encode a (mkCursor (encode a ++ r) 0) r Ha) as (c & -> & _); done.
Qed.

Lemma tr_header_len_encode a r :
  Address_ok a = true -> tr_header_len (encode a ++ r) = Some (serialized_len a + 4).
Proof.
  intros Ha. destruct a as [[[] p|[] p f sc]|d p]; [done..|].
  apply Address_ok_domain in Ha as (_ & _ & Hl). unfold tr_header_len. cbn [encode app].
  rewrite (decide_False (P := b2z (z2b 3) = 1%Z)), (decide_False (P := b2z (z2b 3) = 4%Z)) by done.
  rewrite decide_True by done. rewrite b2z_small by lia. rewrite Nat2Z.id. simpl. f_equal; lia.
Qed.

(** ** The UDP reader *)

Definition tr_stream (st : TrojanUdpReader) (s : rd_script) : bytes := tr_buffer st ++ rd_bytes s.

(** The reader is somewhere in the packet [(a, d)], with [r] behind it. *)
Definition tr_in_packet (a : Address) (d r : bytes) (st : TrojanUdpReader) (s : rd_script) : Prop :=
  match tr_read_state st with
  | TrHead => tr_stream st s = packet (a, d) ++ r
  | TrAddr => tr_stream st s = packet (a, d) ++ r /\ tr_data_length st = serialized_len a + 4
  | TrData => tr_stream st s = d ++ r /\ tr_addr st = wire_norm a /\ tr_data_length st = length d
  | TrYield => tr_stream st s = packet (a, d) ++ r /\ tr_data_length st = 0
  | TrDone => False
  end.

(** Between two packets. *)
Definition tr_between (r : bytes) (st : TrojanUdpReader) (s : rd_script) : Prop :=
  (tr_read_state st = TrHead \/ tr_read_state st = TrYield /\ tr_data_length st = 0) /\ tr_stream st s = r.

(** What a turn does inside a packet: it is suspended there, or delivers it. *)
Definition tr_turn_ok (a : Address) (d r : bytes) (s : rd_script) (f : tr_flow) : Prop :=
  match f with
  | TrReturn Pending s' st' => tr_in_packet a d r st' s' /\ length s' < length s
  | TrReturn (Ready q) s' st' => q = Ok d /\ tr_addr st' = wire_norm a /\ tr_between r st' s' /\ length s' <= length s
  | TrGo s' st' => False
  end.

Lemma tr_await_ok here len k s st (P : tr_flow -> Prop) :
  len <= length (tr_stream st s) ->
  (forall s' st', tr_stream st' s' = tr_stream st s -> tr_addr st' = tr_addr st ->
     tr_data_length st' = tr_data_length st -> tr_read_state st' = here ->
     (length s' < length s -> P (TrReturn Pending s' st')) /\
     (length s' <= length s -> len <= length (tr_buffer st') -> P (k s' st'))) ->
  P (tr_await here len k s st).
Proof.
  intros Hl HP. unfold tr_await. unfold tr_stream in Hl. rewrite length_app in Hl.
  destruct (read_at_least _ _ _ _) as [[[p s1] b] z] eqn:Er. apply read_at_least_spec in Er.
  specialize (HP s1 (mkTrReader here (tr_addr st) b (tr_data_length st) z)).
  unfold tr_stream in HP. simpl in HP.
  destruct p as [[[]|e|]|]; [| |done|].
  - destruct Er as (? & E & _ & ?). by apply HP.
  - destruct Er as (Hs & -> & _). rewrite length_app in Hs. lia.
  - destruct Er as (? & E & _ & ?). by apply HP.
Qed.

Section InPacket.
Context (cap : nat) (a : Address) (d r : bytes) (Hok : packet_ok cap (a, d) = true).

Lemma tr_data_ok st s :
  tr_stream st s = d ++ r -> tr_addr st = wire_norm a -> tr_data_length st = length d ->
  tr_turn_ok a d r s (tr_data cap s st).
Proof.
  apply packet_ok_inv in Hok as (Ha & Hn & Hd & Hcap). intros Hs Hadr Hlen. unfold tr_data.
  apply tr_await_ok; [rewrite Hs, Hlen, length_app; lia|].
  intros s1 st1 Hs1 Ha1 Hl1 Hst1. rewrite Hs in Hs1. rewrite Hadr in Ha1. rewrite Hlen in Hl1. split.
  - intros ?. simpl. unfold tr_in_packet. by rewrite Hst1.
  - intros Hle Hb. rewrite Hlen in Hb. unfold tr_yield. rewrite Hl1, Nat.min_l, decide_True by lia.
    unfold tr_stream in Hs1.
    assert (take (length d) (tr_buffer st1) = d /\ drop (length d) (tr_buffer st1) ++ rd_bytes s1 = r) as [E1 E2].
    { rewrite <- (take_drop (length d) (tr_buffer st1)), <- app_assoc in Hs1.
      apply app_inj_1 in Hs1; [done|]. rewrite length_take. lia. }
    simpl. rewrite E1. split_and!; [done..| |done]. split; [right; split; [done|simpl; lia]|exact E2].
Qed.

Lemma tr_address_ok st s :
  tr_stream st s = packet (a, d) ++ r -> tr_data_length st = serialized_len a + 4 ->
  tr_turn_ok a d r s (tr_address cap s st).
Proof.
  pose proof (packet_ok_inv _ _ _ Hok) as (Ha & Hn & Hd & Hcap). intros Hs Hlen. unfold tr_address.
  apply tr_await_ok.
  { rewrite Hs, Hlen. unfold packet. simpl. rewrite !length_app, length_encode. simpl. lia. }
  intros s1 st1 Hs1 _ Hl1 Hst1. rewrite Hs in Hs1. rewrite Hlen in Hl1. split.
  - intros ?. simpl. unfold tr_in_packet. by rewrite Hst1.
  - intros Hle Hb. rewrite Hlen in Hb.
    assert (exists t, tr_buffer st1 = encode a ++ be_bytes 2 (Z.of_nat (length d)) ++ crlf ++ t
      /\ t ++ rd_bytes s1 = d ++ r) as (t & Et & Hr).
    { unfold tr_stream, packet in Hs1. cbn [fst snd] in Hs1.
      exists (drop (serialized_len a + 4) (tr_buffer st1)).
      rewrite <- (take_drop (serialized_len a + 4) (tr_buffer st1)) in Hs1 at 1.
      rewrite <- !(app_assoc _ _ r), <- (app_assoc (take _ _)) in Hs1.
      rewrite 2!(app_assoc _ _ (d ++ r)) in Hs1. apply app_inj_1 in Hs1 as [E1 E2].
      - split; [|done]. rewrite 2!app_assoc, <- (app_assoc (encode a)), <- E1. by rewrite take_drop.
      - rewrite !length_app, length_take, length_encode. simpl. lia. }
    rewrite Et, read_from_buf_encode, serialized_len_norm by done.
    rewrite <- (length_encode a), drop_app_length.
    destruct (get_be_ok 2 (be_bytes 2 (Z.of_nat (length d)) ++ crlf ++ t) (be_bytes 2 (Z.of_nat (length d))) (crlf ++ t)
      ltac:(done) eq_refl) as [E Er].
    unfold get_u16. rewrite E, be_val_be_bytes_small by (simpl; lia). clear E.
    cbn [buf_rest list_Buf] in Er. rewrite Er. rewrite decide_True by (simpl; lia).
    rewrite Nat2Z.id. match goal with |- tr_turn_ok _ _ _ _ (tr_data _ _ ?st2) =>
      assert (tr_turn_ok a d r s1 (tr_data cap s1 st2)) as Hturn by (by apply tr_data_ok) end.
    revert Hturn. generalize (tr_data cap s1 (mkTrReader TrData (wire_norm a) (drop 2 (crlf ++ t)) (length d) (tr_read_zero st1))).
    intros [[q|] s2 st2|s2 st2]; simpl; intuition lia.
Qed.

Lemma tr_head_ok st s :
  tr_stream st s = packet (a, d) ++ r -> tr_turn_ok a d r s (tr_head cap s st).
Proof.
  pose proof (packet_ok_inv _ _ _ Hok) as (Ha & Hn & Hd & Hcap). intros Hs. unfold tr_head.
  assert (2 <= serialized_len a) as Hse by (destruct a as [[]|]; simpl; lia).
  apply tr_await_ok.
  { rewrite Hs. unfold packet. simpl. rewrite !length_app, length_encode. lia. }
  intros s1 st1 Hs1 _ _ Hst1. rewrite Hs in Hs1. split.
  - intros ?. simpl. unfold tr_in_packet. by rewrite Hst1.
  - intros Hle Hb.
    assert (tr_header_len (tr_buffer st1) = Some (serialized_len a + 4)) as ->.
    { rewrite <- (tr_header_len_encode a (be_bytes 2 (Z.of_nat (length d)) ++ crlf ++ d ++ r)) by done.
      unfold tr_stream, packet in Hs1. cbn [fst snd] in Hs1. rewrite <- !(app_assoc _ _ r) in Hs1.
      rewrite <- Hs1. by destruct (tr_buffer st1) as [|? [|? ?]]; simpl in Hb; try lia. }
    match goal with |- tr_turn_ok _ _ _ _ (tr_address _ _ ?st2) =>
      assert (tr_turn_ok a d r s1 (tr_address cap s1 st2)) as Hturn by (by apply tr_address_ok) end.
    revert Hturn. destruct (tr_address _ _ _) as [[q|] s2 st2|s2 st2]; simpl; intuition lia.
Qed.

(** One poll in a packet. *)
Lemma tr_poll_in_packet st s :
  tr_in_packet a d r st s ->
  match tr_poll_recv_from cap s st with
  | (Pending, s', st') => tr_in_packet a d r st' s' /\ length s' < length s
  | (Ready q, s', st') => q = Ok (d, wire_norm a) /\ tr_between r st' s'
  end.
Proof.
  intros Hin. unfold tr_poll_recv_from, tr_poll_read.
  assert (tr_turn_ok a d r s (tr_resume cap s st) \/
    exists st', tr_resume cap s st = TrGo s st' /\ tr_turn_ok a d r s (tr_resume cap s st')) as Hturn.
  { unfold tr_in_packet in Hin. unfold tr_resume at 1 2. destruct (tr_read_state st).
    - left. by apply tr_head_ok.
    - left. destruct Hin. by apply tr_address_ok.
    - left. destruct Hin as (? & ? & ?). by apply tr_data_ok.
    - right. destruct Hin as [Hs Hl]. unfold tr_yield. rewrite Hl. rewrite Nat.min_0_l, decide_False by lia.
      eexists. split; [done|]. by apply tr_head_ok.
    - done. }
  cbn [tr_loop Nat.add].
  destruct Hturn as [Hturn|(st' & -> & Hturn)].
  - destruct (tr_resume cap s st) as [[q|] s1 st1|]; simpl in Hturn; [|done..].
    destruct Hturn as (-> & Ha & Hb & _). rewrite <- Ha. done.
  - destruct (tr_resume cap s st') as [[q|] s1 st1|]; simpl in Hturn; [|done..].
    destruct Hturn as (-> & Ha & Hb & _). rewrite <- Ha. done.
Qed.

Lemma tr_recv_in_packet fuel st s :
  tr_in_packet a d r st s -> length s < fuel ->
  exists s' st', tr_recv_from fuel cap s st = (Some (Ok (d, wire_norm a)), s', st') /\ tr_between r st' s'.
Proof.
  revert st s. induction fuel as [|f IH]; intros st s Hin Hf; [lia|]. cbn [tr_recv_from].
  pose proof (tr_poll_in_packet st s Hin) as Hp.
  destruct (tr_poll_recv_from cap s st) as [[[q|] s1] st1].
  - destruct Hp as [-> Hb]. eauto.
  - destruct Hp as [Hin1 Hlt]. apply IH; [done|lia].
Qed.
End InPacket.

(** ** The UDP writer *)

Definition tw_hdr (a : Address) (d : bytes) : bytes := encode a ++ be_bytes 2 (Z.of_nat (length d)) ++ crlf.

Lemma packet_hdr a d : packet (a, d) = tw_hdr a d ++ d.
Proof. unfold packet, tw_hdr. by rewrite <- !app_assoc. Qed.

Definition tw_idle (st : TrojanUdpWriter) : Prop := tw_st st = TwHead /\ tw_buffer st = [] /\ tw_pos st = 0.

(** The writer is somewhere in the packet [(a, d)]; [base] was written before. *)
Definition tw_in_packet (base : bytes) (a : Address) (d : bytes) (w : Writer) (st : TrojanUdpWriter) : Prop :=
  writes_ok w /\
  match tw_st st with
  | TwHead => tw_idle st /\ wr_log w = base
  | TwHeader => tw_buffer st = tw_hdr a d /\ tw_pos st <= length (tw_hdr a d) /\ tw_data_len st = length d
                /\ wr_log w = base ++ take (tw_pos st) (tw_hdr a d)
  | TwData => tw_buffer st = [] /\ tw_pos st <= length d /\ tw_data_len st = length d
              /\ wr_log w = base ++ tw_hdr a d ++ take (tw_pos st) d
  | TwDone => False
  end.

Definition tw_turn_ok (base : bytes) (a : Address) (d : bytes) (n : nat) (f : Poll (res nat) * Writer * TrojanUdpWriter) : Prop :=
  match f with
  | (Pending, w, st) => tw_in_packet base a d w st /\ length (wr_script w) < n
  | (Ready q, w, st) => q = Ok (length d) /\ tw_idle st /\ writes_ok w /\ wr_log w = base ++ packet (a, d)
                        /\ length (wr_script w) <= n
  end.

Lemma write_data_from w buf pos base :
  writes_ok w -> pos <= length buf -> wr_log w = base ++ take pos buf ->
  exists p w' pos', write_data w buf pos = (p, w', pos') /\ writes_ok w' /\ pos' <= length buf
    /\ wr_log w' = base ++ take pos' buf /\ length (wr_script w') <= length (wr_script w)
    /\ (p = Ready (Ok tt) /\ pos' = length buf \/ p = Pending /\ length (wr_script w') < length (wr_script w)).
Proof.
  intros Hw Hp Hl. destruct (write_data w buf pos) as [[p w'] pos'] eqn:E.
  pose proof (write_data_good _ _ _ _ _ _ Hw E) as (Hw' & Hp').
  pose proof (write_data_script _ _ _ _ _ _ E) as Hs.
  apply write_data_spec in E as (Hpos & Hlog & Hend); [|done].
  exists p, w', pos'. split_and!; try done; [lia| |].
  - rewrite Hlog, Hl, <- app_assoc. f_equal.
    rewrite <- (drop_0 (take pos buf)), <- (drop_0 buf) at 1. rewrite drop_0.
    replace pos with (0 + pos) at 2 3 by lia. rewrite take_add_drop. rewrite drop_0. f_equal. lia.
  - destruct Hp' as [->|[-> ?]]; auto.
Qed.

Lemma tw_write_data_ok base a d w st :
  tw_in_packet base a d w st -> tw_st st = TwData ->
  tw_turn_ok base a d (length (wr_script w)) (tw_write_data w d st).
Proof.
  unfold tw_in_packet. intros [Hw Hin] Hst. rewrite Hst in Hin. destruct Hin as (Hb & Hp & Hl & Hlog).
  rewrite app_assoc in Hlog. unfold tw_write_data.
  destruct (write_data_from w d (tw_pos st) _ Hw Hp Hlog) as (p & w' & pos' & -> & Hw' & Hp' & Hlog' & Hsc & Hend).
  rewrite <- app_assoc in Hlog'. destruct Hend as [[-> ->]|[-> Hlt]].
  - simpl. rewrite Hl. split_and!; [done|by split_and!|done| |done].
    by rewrite Hlog', take_ge, packet_hdr by done.
  - simpl. unfold tw_in_packet. simpl. by split_and!.
Qed.

Lemma tw_header_ok base a d w st :
  tw_in_packet base a d w st -> tw_st st = TwHeader ->
  tw_turn_ok base a d (length (wr_script w)) (tw_header w d st).
Proof.
  unfold tw_in_packet. intros [Hw Hin] Hst. rewrite Hst in Hin. destruct Hin as (Hb & Hp & Hl & Hlog).
  unfold tw_header. rewrite Hb.
  destruct (write_data_from w _ (tw_pos st) _ Hw Hp Hlog) as (p & w' & pos' & -> & Hw' & Hp' & Hlog' & Hsc & Hend).
  destruct Hend as [[-> ->]|[-> Hlt]].
  - rewrite take_ge in Hlog' by done.
    pose proof (tw_write_data_ok base a d w' (mkTrWriter TwData [] 0 (tw_data_len st))) as Ht.
    assert (tw_in_packet base a d w' (mkTrWriter TwData [] 0 (tw_data_len st))) as Hin.
    { unfold tw_in_packet. simpl. rewrite take_0, app_nil_r. auto with lia. }
    specialize (Ht Hin eq_refl). revert Ht.
    destruct (tw_write_data w' d _) as [[[q|] w2] st2]; simpl; intuition lia.
  - simpl. unfold tw_in_packet. simpl. by split_and!.
Qed.

Lemma tw_poll_ok base a d w st :
  0 < length d -> tw_in_packet base a d w st ->
  tw_turn_ok base a d (length (wr_script w)) (tr_poll_send_to w d a st).
Proof.
  intros Hd Hin. unfold tr_poll_send_to. destruct (tw_st st) eqn:Hst.
  - unfold tw_in_packet in Hin. rewrite Hst in Hin. destruct Hin as (Hw & (_ & Hb & Hp) & Hlog).
    unfold tw_start. rewrite decide_False by lia. apply tw_header_ok; [|done].
    unfold tw_in_packet. simpl. rewrite Hb, Hp, write_to_buf_list. unfold put_u16. simpl put_slice.
    rewrite take_0, app_nil_r. split; [done|]. split; [|auto with lia]. unfold tw_hdr. simpl. by rewrite <- app_assoc.
  - by apply tw_header_ok.
  - by apply tw_write_data_ok.
  - destruct Hin as [_ Hin]. by rewrite Hst in Hin.
Qed.

Lemma tw_send_ok base a d fuel w st :
  0 < length d -> tw_in_packet base a d w st -> length (wr_script w) < fuel ->
  exists w' st', tr_send_to fuel w d a st = (Some (Ok (length d)), w', st') /\ tw_idle st' /\ writes_ok w'
    /\ wr_log w' = base ++ packet (a, d).
Proof.
  intros Hd. revert w st. induction fuel as [|f IH]; intros w st Hin Hf; [lia|]. cbn [tr_send_to].
  pose proof (tw_poll_ok base a d w st Hd Hin) as Hp.
  destruct (tr_poll_send_to w d a st) as [[[q|] w1] st1]; simpl in Hp.
  - destruct Hp as (-> & ? & ? & ? & _). eauto 6.
  - destruct Hp as [? ?]. apply IH; [done|lia].
Qed.

Lemma tw_send_all_ok ps w st :
  Forall (fun p => 0 < length p.2) ps -> writes_ok w -> tw_idle st ->
  exists w' st', tr_send_all w ps st = (map (fun p => Some (Ok (length p.2))) ps, w', st')
    /\ wr_log w' = wr_log w ++ flat_map packet ps.
Proof.
  revert w st. induction ps as [|[a d] ps IH]; intros w st Hps Hw Hi.
  - simpl. rewrite app_nil_r. eauto.
  - apply Forall_cons in Hps as [Hd Hps]. simpl in Hd. cbn [tr_send_all].
    destruct (tw_send_ok (wr_log w) a d (S (length (wr_script w))) w st Hd) as (w1 & st1 & -> & Hi1 & Hw1 & Hl1); [|lia|].
    { destruct Hi as (Hs & ?). unfold tw_in_packet. rewrite Hs. split; [done|]. by split. }
    destruct (IH w1 st1 Hps Hw1 Hi1) as (w2 & st2 & -> & Hl2).
    exists w2, st2. split; [done|]. rewrite Hl2, Hl1. cbn [flat_map]. by rewrite app_assoc.
Qed.

Lemma tr_recv_many_ok cap ps r s st :
  Forall (fun p => packet_ok cap p = true) ps -> tr_between (flat_map packet ps ++ r) st s ->
  exists s' st', tr_recv_many (length ps) cap s st = (map (fun p => Some (Ok (p.2, wire_norm p.1))) ps, s', st')
    /\ tr_between r st' s'.
Proof.
  revert s st. induction ps as [|[a d] ps IH]; intros s st Hps Hb; [simpl; eauto|].
  apply Forall_cons in Hps as [Hp Hps]. cbn [length tr_recv_many].
  assert (tr_in_packet a d (flat_map packet ps ++ r) st s) as Hin.
  { destruct Hb as [Hst Hs]. cbn [flat_map] in Hs. rewrite <- app_assoc in Hs. unfold tr_in_packet.
    destruct Hst as [->|[-> ?]]; [done|]. by split. }
  destruct (tr_recv_in_packet cap a d _ Hp (S (length s)) st s Hin ltac:(lia)) as (s1 & st1 & -> & Hb1).
  destruct (IH s1 st1 Hps Hb1) as (s2 & st2 & -> & Hb2). eauto.
Qed.

(** ** Theorems *)

(** The request header round-trips between [build_tcp]/[build_udp] and
    [read_from].  The client writes one header; a server whose first read
    receives at least the 56 bytes of the hash accepts it exactly when its own
    password hashes to the same digest, then returns the requested address (up
    to the IPv6 flow label and scope) and leaves the stream at the payload.  A
    first read shorter than the hash is refused even when the header is right:
    what it read is handed over in [first_packet]. *)
Theorem trojan_header_roundtrip (sha224 : bytes -> bytes) addr password server_password w rd n chunk rest payload first_packet :
  let b := TrojanStreamBuilder_new sha224 addr password in
  let valid := tb_password (TrojanStreamBuilder_new sha224 addr server_password) in
  (forall p, length (sha224 p) = 28) -> Address_ok addr = true -> writes_ok w ->
  exists w', build_tcp b (mkStream rd w) = (Ok tt, mkStream rd w') /\
  (forall srv, wr_log w' ++ payload = wr_log w ++ chunk ++ rd_bytes rest ->
     st_rd srv = replicate n RdPending ++ RdData chunk :: rest ->
     (length chunk < HASH_STR_LEN ->
        read_from valid first_packet srv =
          (Err (new_error "first packet too short"), first_packet ++ chunk, mkStream rest (st_wr srv))) /\
     (HASH_STR_LEN <= length chunk -> sha224 password <> sha224 server_password ->
        exists e srv', read_from valid first_packet srv = (Err e, first_packet ++ tb_password b, srv')) /\
     (HASH_STR_LEN <= length chunk -> sha224 password = sha224 server_password ->
        exists srv', read_from valid first_packet srv =
          (Ok (TcpConnect (tb_password b) (wire_norm addr)), first_packet, srv')
          /\ rd_bytes (st_rd srv') = payload)).
Proof.
  intros b valid Hsha Ha Hw. unfold build_tcp, write_to.
  destruct (write_all_ok (header_bytes (TcpConnect (tb_password b) (tb_addr b))) (mkStream rd w) Hw)
    as (w' & -> & Hlog & _). exists w'. split; [done|]. intros srv Hsent Hsrv.
  assert (forall p, length (flat_map hex_pair (sha224 p)) = HASH_STR_LEN) as Hlen
    by (intros p; by rewrite length_flat_map_hex_pair, Hsha).
  simpl in Hlog. rewrite Hlog, <- app_assoc, header_bytes_eq in Hsent. apply app_inv_head in Hsent.
  cbn [tb_addr b TrojanStreamBuilder_new] in Hsent. rewrite <- app_assoc in Hsent.
  destruct (read_first srv HASH_STR_LEN chunk rest n Hsrv) as (rd1 & Hread & Hlong & Hshort).
  unfold read_from. rewrite Hread. split_and!.
  - intros Hl. rewrite take_ge by lia. rewrite decide_True by lia. by rewrite Hshort by lia.
  - intros Hl Hne. rewrite decide_False by (rewrite length_take; lia).
    assert (take HASH_STR_LEN chunk = tb_password b) as ->.
    { apply (f_equal (take HASH_STR_LEN)) in Hsent. rewrite (take_app_le chunk) in Hsent by done.
      rewrite <- Hsent, <- (Hlen password). by rewrite take_app_length. }
    rewrite decide_True; [eauto|]. intros E. apply flat_map_hex_inj in E. by symmetry in E.
  - intros Hl He. rewrite decide_False by (rewrite length_take; lia).
    assert (take HASH_STR_LEN chunk = tb_password b) as E1.
    { apply (f_equal (take HASH_STR_LEN)) in Hsent. rewrite (take_app_le chunk) in Hsent by done.
      rewrite <- Hsent, <- (Hlen password). by rewrite take_app_length. }
    rewrite E1. rewrite decide_False by (intros E; apply E; unfold valid, b; simpl; by rewrite He).
    assert (rd_bytes rd1 = crlf ++ z2b 1 :: encode addr ++ crlf ++ payload) as Hrest.
    { rewrite <- (take_drop HASH_STR_LEN chunk), E1, <- (app_assoc (tb_password b)) in Hsent.
      apply app_inv_head in Hsent. cbn [app] in Hsent. rewrite <- app_assoc in Hsent.
      transitivity (drop HASH_STR_LEN chunk ++ rd_bytes rest); [|rewrite <- Hsent; simpl; by rewrite <- ?app_assoc].
      destruct (decide (HASH_STR_LEN < length chunk)) as [Hlt|Hge]; [by apply Hlong|].
      rewrite Hshort, drop_ge by lia. done. }
    destruct (header_rest_ok (tb_password b) 1 addr (mkStream rd1 (st_wr srv)) payload Ha ltac:(lia) Hrest)
      as (rd2 & Hr2 & ->). cbn [st_wr]. rewrite decide_True by done. eauto.
Qed.

(** C32: UDP packets over a Trojan stream.  Whatever sequence of non-empty
    packets [send_to] writes, over any writer that never fails, [recv_from]
    with a large enough buffer returns the same packets with their addresses,
    one per call, under any fragmentation of the stream, and both sides end
    ready for the next packet. *)
Theorem trojan_udp_roundtrip cap ps w r s :
  Forall (fun p => packet_ok cap p = true) ps -> writes_ok w -> wr_log w = [] ->
  exists w' st', tr_send_all w ps TrojanUdpWriter_new = (map (fun p => Some (Ok (length p.2))) ps, w', st') /\
  (rd_bytes s = wr_log w' ++ r ->
   exists s' rst, tr_recv_many (length ps) cap s TrojanUdpReader_new
                    = (map (fun p => Some (Ok (p.2, wire_norm p.1))) ps, s', rst)
                  /\ tr_buffer rst ++ rd_bytes s' = r).
Proof.
  intros Hps Hw Hl. destruct (tw_send_all_ok ps w TrojanUdpWriter_new) as (w' & st' & Hs & Hlog); [|done|done|].
  { eapply Forall_impl; [exact Hps|]. intros [a d] Hp. apply packet_ok_inv in Hp. simpl. lia. }
  exists w', st'. split; [done|]. intros Hrd. rewrite Hlog, Hl in Hrd.
  destruct (tr_recv_many_ok cap ps r s TrojanUdpReader_new Hps) as (s' & rst & Hr & _ & Hb).
  { split; [by left|]. exact Hrd. }
  eauto.
Qed.

(** Where the packet framing breaks.  A header write that fails is not
    reported: the generator writes the data without its header and answers
    success.  An empty packet ends the writer, so every later packet fails.
    And a packet longer than the receiver's buffer is delivered in pieces, of
    which only the first carries its address: the next pieces come with the
    dummy address 0.0.0.0:0. *)
Theorem trojan_udp_anomalies :
  (forall d a e, 0 < length d ->
     exists st', tr_poll_send_to (mkWriter [WrErr e] [] [] 0 [] 0) d a TrojanUdpWriter_new
       = (Ready (Ok (length d)), mkWriter [] d [] 0 [] 0, st')) /\
  (forall w a, exists st', tr_poll_send_to w [] a TrojanUdpWriter_new = (Ready (Ok 0), w, st') /\
     forall d a', tr_poll_send_to w d a' st' = (Ready (Err unexpected_eof), w, st')) /\
  (let a := SocketAddress (V4 (mkIpv4 x01 x02 x03 x04) 53) in
   (tr_recv_many 2 3 [RdData (packet (a, str "hello"))] TrojanUdpReader_new).1.1
     = [Some (Ok (str "hel", a)); Some (Ok (str "lo", new_dummy_address))]).
Proof.
  split_and!.
  - intros d a e Hd. unfold tr_poll_send_to. simpl tw_st. cbv iota. unfold tw_start.
    rewrite decide_False by lia. unfold tw_header, write_data. cbn [tw_buffer tw_pos wr_script length].
    set (buf := put_slice _ crlf). cbn [write_data_loop].
    assert (~ length buf <= 0) as Hb.
    { subst buf. unfold put_u16. rewrite write_to_buf_list. simpl put_slice. rewrite !length_app. simpl. lia. }
    rewrite decide_False by done. unfold poll_write at 1. cbn [wr_script]. unfold tw_write_data, write_data.
    cbn [tw_pos wr_script length write_data_loop]. rewrite decide_False by lia.
    unfold poll_write. cbn [wr_script]. rewrite drop_0, decide_False by lia.
    rewrite decide_True by lia. eexists. reflexivity.
  - intros w a. eexists. split; [reflexivity|]. done.
  - vm_compute. reflexivity.
Qed.

(** ** Witnesses *)

Definition wit_writer : Writer := mkWriter [WrAccept 3; WrPending] [] [] 0 [] 0.

Lemma trojan_header_roundtrip_witness :
  let sha := fun p : bytes => take 28 (p ++ repeat x00 28) in
  let addr := DomainNameAddress (str "example.org") 443 in
  exists w', build_tcp (TrojanStreamBuilder_new sha addr (str "pw")) (mkStream [] wit_writer) = (Ok tt, mkStream [] w')
    /\ exists srv', read_from (tb_password (TrojanStreamBuilder_new sha addr (str "pw"))) []
         (mkStream [RdPending; RdData (wr_log w')] wit_writer)
       = (Ok (TcpConnect (tb_password (TrojanStreamBuilder_new sha addr (str "pw"))) addr), [], srv').
Proof.
  intros sha addr.
  assert (forall p, length (sha p) = 28) as Hsha.
  { intros p. unfold sha. rewrite length_take, length_app, repeat_length. lia. }
  destruct (trojan_header_roundtrip sha addr (str "pw") (str "pw") wit_writer [] 1
    (header_bytes (TcpConnect (flat_map hex_pair (sha (str "pw"))) addr)) [] [] [] Hsha eq_refl
    ltac:(unfold writes_ok; repeat constructor)) as (w' & Hb & Hr).
  vm_compute in Hb. injection Hb as Hw'. subst w'.
  eexists. split; [vm_compute; reflexivity|].
  edestruct (Hr (mkStream [RdPending; RdData (header_bytes (TcpConnect (flat_map hex_pair (sha (str "pw"))) addr))] wit_writer))
    as (_ & _ & H); [vm_compute; reflexivity|reflexivity|].
  destruct (H ltac:(vm_compute; lia) eq_refl) as (srv' & E & _). exists srv'.
  exact E.
Defined.

Lemma trojan_udp_roundtrip_witness :
  let ps := [(SocketAddress (V4 (mkIpv4 x01 x02 x03 x04) 53), str "hi"); (DomainNameAddress (str "a.b") 80, str "x")] in
  Forall (fun p => packet_ok 100 p = true) ps /\
  exists w', tr_send_all wit_writer ps TrojanUdpWriter_new = ([Some (Ok 2); Some (Ok 1)], w', mkTrWriter TwHead [] 0 1).
Proof.
  intros ps. assert (Forall (fun p => packet_ok 100 p = true) ps) as Hps by (repeat constructor).
  split; [exact Hps|].
  destruct (trojan_udp_roundtrip 100 ps wit_writer [] [] Hps ltac:(unfold writes_ok; repeat constructor) eq_refl)
    as (w' & st' & E & _).
  exists w'. vm_compute in E. vm_compute. injection E as <- <-. reflexivity.
Defined.
