(* ===== verification/Socks5.v ===== *)
(** * The SOCKS5 inbound (src/src/proxy/socks/)

    [Socks5Stream::init]: method negotiation, username/password
    sub-negotiation and request, over any fragmentation of the client's bytes;
    and [Socks5UdpCodec].  The datagram session is in Socks5Udp.v.

    The method loop calls [read_buf] until enough bytes came; a read at end of
    file adds nothing, so the loop then never ends: [None] is that outcome.
    Binding the UDP socket is the environment's: its answer is a parameter. *)

From S2P Require Import Prelude Io StdText Address.
From Stdlib Require Import ZArith Lia List Strings.Byte.
From stdpp Require Import base option list strings.

Definition SOCKS_VERSION : Z := 5.
Definition NO_AUTH : Z := 0.
Definition USER_PASS : Z := 2.
Definition NO_METHODS : Z := 255.
Definition SUCCESS : Z := 0.
Definition FAILURE : Z := 1.
Definition COMMAND_NOT_SUPPORTED : Z := 7.
Definition CONNECT : Z := 1.
Definition UDP_ASSOSIATE : Z := 3.

Record Socks5Stream := mkSocks5Stream {
  s5_authed_users : list (bytes * bytes);
  s5_local_addr : Address
}.

Definition Socks5Stream_new (local_addr : SocketAddr) : Socks5Stream :=
  mkSocks5Stream [] (SocketAddress local_addr).

Definition err_version (v : byte) : io_error :=
  IoError Other ("socks version " ++ hex_msg v ++ " is not supported").
Definition err_auth : io_error := IoError Other "socks5 client auth failure".
Definition err_command (c : byte) : io_error :=
  IoError Other ("socks command " ++ hex_msg c ++ " is not supported").

(** [methods.contains(&m)]. *)
Definition contains (m : Z) (methods : bytes) : bool := existsb (fun b => (b2z b =? m)%Z) methods.

Definition response (l : list Z) : bytes := map z2b l.

(** [while len < n { len += read_buf(..) }]. *)
Fixpoint read_methods (s : rd_script) (n : nat) (read_buf : bytes) : option (res bytes * rd_script) :=
  if decide (n <= length read_buf) then Some (Ok read_buf, s)
  else match s with
  | [] => None
  | RdPending :: s' => read_methods s' n read_buf
  | RdErr e :: s' => Some (Err e, s')
  | RdData bs :: s' => read_methods s' n (read_buf ++ bs)
  end.

(** The username and password of the sub-negotiation: [split_at] is called
    with the whole length of the buffer, so the first half is everything. *)
Definition user_pass (st : Socks5Stream) : IO unit :=
  header ← read_exact 2;
  let n := Z.to_nat (be_val (drop 1 header)) in
  name ← read_exact n;
  password_len ← read_exact 1;
  pass ← read_exact (Z.to_nat (be_val password_len));
  let read_buf := name ++ pass in
  let username := take (length read_buf) read_buf in
  let password := drop (length read_buf) read_buf in
  if decide (length username = 0 /\ length password = 0)
  then write_all (response [1; SUCCESS]%Z)
  else match snd <$> find (fun e => bool_decide (e.1 = username)) (s5_authed_users st) with
       | Some saved_pass =>
           if decide (saved_pass = password) then write_all (response [1; SUCCESS]%Z)
           else _ ← write_all (response [1; FAILURE]%Z); _ ← shutdown; io_err err_auth
       | None => _ ← write_all (response [1; FAILURE]%Z); _ ← shutdown; io_err err_auth
       end.

(** The negotiation after the methods are read. *)
Definition select_method (st : Socks5Stream) (methods : bytes) : IO unit :=
  if contains USER_PASS methods
  then _ ← write_all (response [SOCKS_VERSION; USER_PASS]); user_pass st
  else if contains NO_AUTH methods
  then write_all (response [SOCKS_VERSION; NO_AUTH])
  else _ ← write_all (response [SOCKS_VERSION; NO_METHODS]); _ ← shutdown; io_err err_auth.

Definition negotiate (st : Socks5Stream) (s : Stream) : option (res unit * Stream) :=
  match read_exact 2 s with
  | (Err e, s) => Some (Err e, s)
  | (Panic, s) => Some (Panic, s)
  | (Ok header, s) =>
      let version := hd x00 header in
      if decide (b2z version <> SOCKS_VERSION)
      then Some ((_ ← shutdown; io_err (err_version version)) s)
      else
        match read_methods (st_rd s) (Z.to_nat (be_val (drop 1 header))) [] with
        | None => None
        | Some (Err e, rd) => Some (Err e, mkStream rd (st_wr s))
        | Some (Panic, rd) => Some (Panic, mkStream rd (st_wr s))
        | Some (Ok methods, rd) => Some (select_method st methods (mkStream rd (st_wr s)))
        end
  end.

(** The reply: version, code, reserved byte and an address. *)
Definition reply (code : Z) (a : Address) : bytes :=
  write_to_buf a (put_slice ([] : bytes) (response [SOCKS_VERSION; code; 0%Z])).

(** The request; the second component is the caller's [udp_socket] after the
    call, by the address it is bound to. *)
Definition request (st : Socks5Stream) (udp_addr : option SocketAddr) (bind : SocketAddr -> res SocketAddr)
    (udp_socket : option SocketAddr) (s : Stream) : res Address * option SocketAddr * Stream :=
  match read_exact 3 s with
  | (Err e, s) => (Err e, udp_socket, s)
  | (Panic, s) => (Panic, udp_socket, s)
  | (Ok buf, s) =>
    let version := nth 0 buf x00 in
    let cmd := nth 1 buf x00 in
    if decide (b2z version <> SOCKS_VERSION) then (Err (err_version version), udp_socket, s) else
    match read_from_stream s with
    | (Err e, s) => (Err e, udp_socket, s)
    | (Panic, s) => (Panic, udp_socket, s)
    | (Ok address, s) =>
      if decide (b2z cmd = CONNECT) then
        let '(r, s) := (_ ← write_all (reply SUCCESS (s5_local_addr st)); mret address) s in (r, udp_socket, s)
      else
        match (if decide (b2z cmd = UDP_ASSOSIATE) then udp_addr else None) with
        | Some ua =>
            match bind ua with
            | Err e => (Err e, udp_socket, s)
            | Panic => (Panic, udp_socket, s)
            | Ok bound =>
                let '(r, s) := (_ ← write_all (reply SUCCESS (SocketAddress bound)); mret (SocketAddress bound)) s in
                (r, Some bound, s)
            end
        | None =>
            let '(r, s) := (_ ← write_all (reply COMMAND_NOT_SUPPORTED address); io_err (err_command cmd)) s in
            (r, udp_socket, s)
        end
    end
  end.

Definition init (st : Socks5Stream) (udp_addr : option SocketAddr) (bind : SocketAddr -> res SocketAddr)
    (udp_socket : option SocketAddr) (s : Stream) : option (res Address * option SocketAddr * Stream) :=
  match negotiate st s with
  | None => None
  | Some (Err e, s) => Some (Err e, udp_socket, s)
  | Some (Panic, s) => Some (Panic, udp_socket, s)
  | Some (Ok _, s) => Some (request st udp_addr bind udp_socket s)
  end.

(** ** The datagram codec *)

Definition codec_encode (item : bytes * Address) (dst : bytes) : bytes :=
  let dst := put_slice dst (response [0; 0; 0]%Z) in
  let dst := write_to_buf (snd item) dst in
  put_slice dst (fst item).

(** [decode]: the second component is [src] after the call. *)
Definition codec_decode (src : bytes) : res (option (Address * bytes)) * bytes :=
  if decide (length src < 3) then (Ok None, src)
  else if decide (b2z (nth 2 src x00) <> 0)%Z
  then (Err (new_error "socks5 frag packet is not supported!"), src)
  else
    let src := drop 3 src in
    match read_from_buf src with
    | Err e => (Err e, src)
    | Panic => (Panic, src)
    | Ok dst_addr => (Ok (Some (dst_addr, drop (serialized_len dst_addr) src)), [])
    end.

(** ** Lemmas *)

(** Read from the front of a flowing script, the rest still flows and what
    follows it is not touched. *)
Lemma read_exact_flowing n s1 s2 w p r :
  flowing s1 -> rd_bytes s1 = p ++ r -> length p = n ->
  exists s1', read_exact n (mkStream (s1 ++ s2) w) = (Ok p, mkStream (s1' ++ s2) w)
    /\ flowing s1' /\ rd_bytes s1' = r.
Proof.
  intros Hs Hr Hn. unfold read_exact. cbn [st_rd st_wr].
  enough (forall acc, exists s1', read_exact_loop (s1 ++ s2) n acc = (Ok (acc ++ p), s1' ++ s2)
    /\ flowing s1' /\ rd_bytes s1' = r) as Hgen.
  { destruct (Hgen []) as (s1' & -> & ? & ?). eauto. }
  revert n p r Hr Hn. induction Hs as [|e s1 He Hs IH]; intros n p r Hr Hn acc.
  - simpl in Hr. symmetry in Hr. apply app_nil in Hr as [-> ->]. exists [].
    subst n. destruct s2; simpl; rewrite app_nil_r; (split_and!; [done|constructor|done]).
  - destruct (decide (n = 0)) as [->|Hnz].
    { destruct p; [|done]. exists (e :: s1). simpl. rewrite app_nil_r. split_and!; [done| |done]. by constructor. }
    cbn [app read_exact_loop]. rewrite decide_False by done.
    destruct e as [|[|b bs]|e]; try done.
    + simpl in Hr. destruct (IH n p r Hr Hn acc) as (s1' & E & ? & ?). eauto.
    + change (rd_bytes (RdData (b :: bs) :: s1)) with ((b :: bs) ++ rd_bytes s1) in Hr. case_decide as Hle.
      * assert (exists p', p = (b :: bs) ++ p') as [p' ->].
        { exists (drop (length (b :: bs)) p). rewrite <- (take_drop (length (b :: bs)) p) at 1. f_equal.
          apply (f_equal (take (length (b :: bs)))) in Hr. rewrite take_app_length in Hr.
          by rewrite take_app_le in Hr by lia. }
        rewrite <- app_assoc in Hr. apply app_inv_head in Hr. rewrite length_app in Hn.
        destruct (IH (n - length (b :: bs)) p' r Hr ltac:(lia) (acc ++ b :: bs)) as (s1' & E & ? & ?).
        rewrite E, <- app_assoc. eauto.
      * assert (p = take n (b :: bs) /\ r = drop n (b :: bs) ++ rd_bytes s1) as [-> ->].
        { rewrite <- (take_drop n (b :: bs)), <- app_assoc in Hr. apply app_inj_1 in Hr; [by destruct Hr as [<- <-]|].
          rewrite length_take. lia. }
        exists (RdData (drop n (b :: bs)) :: s1). split_and!; [done| |].
        -- constructor; [|done]. intros E. apply (f_equal length) in E. rewrite length_drop in E. simpl in *. lia.
        -- simpl. destruct (drop n (b :: bs)) eqn:E; [|done]. apply (f_equal length) in E.
           rewrite length_drop in E. simpl in *. lia.
Qed.

Lemma read_methods_flowing s1 s2 n acc :
  flowing s1 -> n = length acc + length (rd_bytes s1) ->
  exists s1', read_methods (s1 ++ s2) n acc = Some (Ok (acc ++ rd_bytes s1), s1' ++ s2)
    /\ flowing s1' /\ rd_bytes s1' = [].
Proof.
  intros Hs. revert acc. induction Hs as [|e s1 He Hs IH]; intros acc Hn.
  - exists []. simpl in *. rewrite app_nil_r. destruct s2; simpl; rewrite decide_True by lia; (split_and!; [done|constructor|done]).
  - cbn [app read_methods]. case_decide as Hle.
    + exists (e :: s1). assert (rd_bytes (e :: s1) = []) as E by (apply length_zero_iff_nil; lia).
      rewrite E, app_nil_r. split_and!; [done|by constructor|done].
    + destruct e as [|[|b bs]|e]; try done; cbn [rd_bytes] in *.
      * destruct (IH acc Hn) as (s1' & E & ? & ?). eauto.
      * destruct (IH (acc ++ b :: bs)) as (s1' & E & ? & ?).
        { rewrite Hn, !length_app. simpl. lia. }
        rewrite E, <- app_assoc. eauto.
Qed.

(** The loop ends exactly when the bytes suffice or an error comes. *)
Lemma read_methods_diverges s n acc :
  Forall (fun e => match e with RdErr _ => False | _ => True end) s ->
  length acc + length (flat_map (fun e => match e with RdData bs => bs | _ => [] end) s) < n ->
  read_methods s n acc = None.
Proof.
  intros Hs. revert acc. induction Hs as [|e s He Hs IH]; intros acc Hn; simpl in *.
  - by rewrite decide_False by lia.
  - rewrite decide_False by lia. destruct e as [|bs|e]; [by apply IH| |done].
    apply IH. rewrite !length_app in *. lia.
Qed.

Lemma reply_eq code a : reply code a = response [SOCKS_VERSION; code; 0%Z] ++ encode a.
Proof. unfold reply. by rewrite write_to_buf_list. Qed.

Lemma codec_encode_eq d a : codec_encode (d, a) [] = response [0; 0; 0]%Z ++ encode a ++ d.
Proof. unfold codec_encode. rewrite write_to_buf_list. simpl. by rewrite <- ?app_assoc. Qed.

(** The negotiation of a client that offers "no authentication" and sends
    nothing after its methods before the answer. *)
Lemma negotiate_no_auth st s1 s2 w methods :
  flowing s1 -> rd_bytes s1 = response [SOCKS_VERSION; Z.of_nat (length methods)] ++ methods ->
  length methods < 256 -> contains USER_PASS methods = false -> contains NO_AUTH methods = true -> writes_ok w ->
  exists s1' w', negotiate st (mkStream (s1 ++ s2) w) = Some (Ok tt, mkStream (s1' ++ s2) w')
    /\ flowing s1' /\ rd_bytes s1' = [] /\ writes_ok w' /\ wr_log w' = wr_log w ++ response [SOCKS_VERSION; NO_AUTH].
Proof.
  intros Hs Hr Hl Hu Hn Hw. unfold negotiate.
  destruct (read_exact_flowing 2 s1 s2 w _ _ Hs Hr eq_refl) as (s1a & -> & Hsa & Hra).
  rewrite decide_False by (intros Hc; by apply Hc). cbn [drop response map].
  rewrite be_val_byte, b2z_small, Nat2Z.id by lia. cbn [st_rd st_wr].
  destruct (read_methods_flowing s1a s2 (length methods) [] Hsa ltac:(by rewrite Hra)) as (s1b & -> & Hsb & Hrb).
  rewrite Hra. cbn [app]. unfold select_method. rewrite Hu, Hn.
  destruct (write_all_ok (response [SOCKS_VERSION; NO_AUTH]) (mkStream (s1b ++ s2) w) Hw) as (w' & -> & ? & ? & _).
  eauto 10.
Qed.

(** What each request does, on a client that sends it whole. *)
Lemma request_spec st udp_addr bind us cmd rsv a r s :
  Address_ok a = true -> writes_ok (st_wr s) ->
  rd_bytes (st_rd s) = [z2b SOCKS_VERSION; cmd; rsv] ++ encode a ++ r ->
  exists s', rd_bytes (st_rd s') = r /\
    ((b2z cmd = CONNECT -> request st udp_addr bind us s = (Ok (wire_norm a), us, s')
        /\ wr_log (st_wr s') = wr_log (st_wr s) ++ reply SUCCESS (s5_local_addr st)) /\
     (forall ua bound, b2z cmd = UDP_ASSOSIATE -> udp_addr = Some ua -> bind ua = Ok bound ->
        request st udp_addr bind us s = (Ok (SocketAddress bound), Some bound, s')
        /\ wr_log (st_wr s') = wr_log (st_wr s) ++ reply SUCCESS (SocketAddress bound)) /\
     (b2z cmd <> CONNECT -> (b2z cmd = UDP_ASSOSIATE -> udp_addr = None) ->
        request st udp_addr bind us s = (Err (err_command cmd), us, s')
        /\ wr_log (st_wr s') = wr_log (st_wr s) ++ reply COMMAND_NOT_SUPPORTED (wire_norm a))).
Proof.
  intros Ha Hw Hs. unfold request.
  destruct (read_exact_ok 3 s _ _ Hs eq_refl) as (rd1 & -> & H1).
  cbn [nth]. rewrite (decide_False (P := b2z (z2b SOCKS_VERSION) <> SOCKS_VERSION)) by (intros Hne; by apply Hne).
  destruct (read_from_stream_encode a (mkStream rd1 (st_wr s)) r Ha H1) as (rd2 & -> & H2). cbn [st_wr].
  destruct (decide (b2z cmd = CONNECT)) as [Hc|Hc].
  - destruct (write_all_ok (reply SUCCESS (s5_local_addr st)) (mkStream rd2 (st_wr s)) Hw) as (w & E & Hl & _).
    exists (mkStream rd2 w). unfold mbind, IO_bind. rewrite E. split_and!; [done| |intros ??; by rewrite Hc|done].
    intros _. by split.
  - destruct (decide (b2z cmd = UDP_ASSOSIATE)) as [Hu|Hu].
    + destruct udp_addr as [ua|].
      * destruct (bind ua) as [bound|e|] eqn:Hb.
        -- destruct (write_all_ok (reply SUCCESS (SocketAddress bound)) (mkStream rd2 (st_wr s)) Hw) as (w & E & Hl & _).
           exists (mkStream rd2 w). unfold mbind, IO_bind. rewrite E.
           split_and!; [done|done| |intros _ Hn; by specialize (Hn Hu)].
           intros ua' bound' _ [= <-]. rewrite Hb. intros [= <-]. by split.
        -- exists (mkStream rd2 (st_wr s)). split_and!; [done|done| |intros _ Hn; by specialize (Hn Hu)].
           intros ?? _ [= <-]. by rewrite Hb.
        -- exists (mkStream rd2 (st_wr s)). split_and!; [done|done| |intros _ Hn; by specialize (Hn Hu)].
           intros ?? _ [= <-]. by rewrite Hb.
      * destruct (write_all_ok (reply COMMAND_NOT_SUPPORTED (wire_norm a)) (mkStream rd2 (st_wr s)) Hw) as (w & E & Hl & _).
        exists (mkStream rd2 w). unfold mbind, IO_bind. rewrite E. by split_and!.
    + destruct (write_all_ok (reply COMMAND_NOT_SUPPORTED (wire_norm a)) (mkStream rd2 (st_wr s)) Hw) as (w & E & Hl & _).
      exists (mkStream rd2 w). unfold mbind, IO_bind. rewrite E. by split_and!.
Qed.

(** ** Theorems *)

(** C33: the SOCKS5 handshake of a client that offers "no authentication" (and
    not username/password), for any fragmentation of its bytes.  The server
    answers the method selection, then by command: CONNECT is answered with the
    local address and yields the requested one; UDP ASSOCIATE, when UDP is
    enabled, binds a socket, answers with its address and hands it to the
    caller; anything else is answered "command not supported" and fails.  The
    stream is left at the first byte after the request. *)
Theorem socks5_handshake st udp_addr bind us s1 s2 w methods cmd rsv a r :
  flowing s1 -> rd_bytes s1 = response [SOCKS_VERSION; Z.of_nat (length methods)] ++ methods ->
  length methods < 256 -> contains USER_PASS methods = false -> contains NO_AUTH methods = true -> writes_ok w ->
  Address_ok a = true -> rd_bytes s2 = [z2b SOCKS_VERSION; cmd; rsv] ++ encode a ++ r ->
  exists s', rd_bytes (st_rd s') = r /\
    ((b2z cmd = CONNECT -> init st udp_addr bind us (mkStream (s1 ++ s2) w) = Some (Ok (wire_norm a), us, s')
        /\ wr_log (st_wr s') = wr_log w ++ response [SOCKS_VERSION; NO_AUTH] ++ reply SUCCESS (s5_local_addr st)) /\
     (forall ua bound, b2z cmd = UDP_ASSOSIATE -> udp_addr = Some ua -> bind ua = Ok bound ->
        init st udp_addr bind us (mkStream (s1 ++ s2) w) = Some (Ok (SocketAddress bound), Some bound, s')
        /\ wr_log (st_wr s') = wr_log w ++ response [SOCKS_VERSION; NO_AUTH] ++ reply SUCCESS (SocketAddress bound)) /\
     (b2z cmd <> CONNECT -> (b2z cmd = UDP_ASSOSIATE -> udp_addr = None) ->
        init st udp_addr bind us (mkStream (s1 ++ s2) w) = Some (Err (err_command cmd), us, s')
        /\ wr_log (st_wr s') = wr_log w ++ response [SOCKS_VERSION; NO_AUTH] ++ reply COMMAND_NOT_SUPPORTED (wire_norm a))).
Proof.
  intros Hs Hr Hl Hu Hn Hw Ha Hr2. unfold init.
  destruct (negotiate_no_auth st s1 s2 w methods Hs Hr Hl Hu Hn Hw) as (s1' & w' & -> & Hs' & Hr' & Hw' & Hlog).
  destruct (request_spec st udp_addr bind us cmd rsv a r (mkStream (s1' ++ s2) w') Ha Hw') as (s' & Hrest & H1 & H2 & H3).
  { cbn [st_rd]. by rewrite rd_bytes_app, Hr', Hr2. }
  exists s'. cbn [st_wr] in *. rewrite Hlog in *. rewrite !app_assoc. rewrite <- !(app_assoc _ _ (reply _ _)) in *.
  split; [done|]. rewrite !(app_assoc (wr_log w)). split_and!.
  - intros Hc. destruct (H1 Hc) as [-> ?]. by rewrite app_assoc in *.
  - intros ua bound Hc Hua Hb. destruct (H2 ua bound Hc Hua Hb) as [-> ?]. by rewrite app_assoc in *.
  - intros Hc Hua. destruct (H3 Hc Hua) as [-> ?]. by rewrite app_assoc in *.
Qed.

(** Username/password authentication.  With no configured users (the only
    way a [Socks5Stream] is built) the sub-negotiation succeeds exactly for an
    empty name with an empty password; any other pair is answered with a
    failure, the stream is shut down and the handshake fails.  Even with
    configured users the password is never compared: the whole buffer is taken
    for the name and the empty rest for the password. *)
Theorem socks5_user_pass st name pass v r s :
  length name < 256 -> length pass < 256 -> writes_ok (st_wr s) -> sd_script (st_wr s) = [] ->
  rd_bytes (st_rd s) = [v; z2b (Z.of_nat (length name))] ++ name ++ [z2b (Z.of_nat (length pass))] ++ pass ++ r ->
  exists s', rd_bytes (st_rd s') = r /\
  (user_pass st s = (Ok tt, s') /\ wr_log (st_wr s') = wr_log (st_wr s) ++ response [1; SUCCESS]%Z
     /\ (name ++ pass = [] \/ snd <$> find (fun e => bool_decide (e.1 = name ++ pass)) (s5_authed_users st) = Some [])
   \/ user_pass st s = (Err err_auth, s') /\ wr_log (st_wr s') = wr_log (st_wr s) ++ response [1; FAILURE]%Z
     /\ sd_count (st_wr s') = S (sd_count (st_wr s))
     /\ name ++ pass <> [] /\ snd <$> find (fun e => bool_decide (e.1 = name ++ pass)) (s5_authed_users st) <> Some []).
Proof.
  intros Hln Hlp Hw Hsd Hs. unfold user_pass, mbind, IO_bind.
  destruct (read_exact_ok 2 s _ _ Hs eq_refl) as (rd1 & -> & H1). cbn [drop].
  rewrite be_val_byte, b2z_small, Nat2Z.id by lia.
  destruct (read_exact_ok (length name) (mkStream rd1 (st_wr s)) name _ H1 eq_refl) as (rd2 & -> & H2). cbn [st_wr].
  destruct (read_exact_ok 1 (mkStream rd2 (st_wr s)) [z2b (Z.of_nat (length pass))] _ H2 eq_refl) as (rd3 & -> & H3). cbn [st_wr].
  rewrite be_val_byte, b2z_small, Nat2Z.id by lia.
  destruct (read_exact_ok (length pass) (mkStream rd3 (st_wr s)) pass _ H3 eq_refl) as (rd4 & -> & H4). cbn [st_wr].
  rewrite take_ge, drop_all by done.
  destruct (write_all_ok (response [1; SUCCESS]%Z) (mkStream rd4 (st_wr s)) Hw) as (w & Es & Hl & _).
  assert (exists s', (_ ← write_all (response [1; FAILURE]%Z); _ ← shutdown; io_err err_auth) (mkStream rd4 (st_wr s)) = (Err err_auth : res unit, s')
    /\ st_rd s' = rd4 /\ wr_log (st_wr s') = wr_log (st_wr s) ++ response [1; FAILURE]%Z /\ sd_count (st_wr s') = S (sd_count (st_wr s)))
    as (sf & Ef & Hrf & Hlf & Hcf).
  { unfold mbind, IO_bind.
    destruct (write_all_ok (response [1; FAILURE]%Z) (mkStream rd4 (st_wr s)) Hw) as (w2 & -> & Hl2 & _ & Hsd2 & Hc2).
    unfold shutdown. cbn [st_wr st_rd] in *. rewrite Hsd2, Hsd. simpl. eexists. split_and!; [done..|].
    simpl. rewrite Hc2. lia. }
  destruct (decide (name ++ pass = [])) as [E|E].
  - rewrite E, decide_True by done. rewrite Es. exists (mkStream rd4 w). split; [done|]. left. auto.
  - rewrite decide_False.
    2: { intros [Hz _]. by apply length_zero_iff_nil in Hz. }
    destruct (snd <$> find _ _) as [[|c p]|].
    + rewrite decide_True by done. rewrite Es. exists (mkStream rd4 w). split; [done|]. left. auto.
    + rewrite decide_False by done. unfold mbind, IO_bind in Ef. rewrite Ef. exists sf. rewrite Hrf. split; [done|]. right. auto.
    + unfold mbind, IO_bind in Ef. rewrite Ef. exists sf. rewrite Hrf. split; [done|]. right. auto.
Qed.

(** The method loop trusts the peer.  A client that closes the stream
    before sending the methods it announced leaves [init] in an endless loop;
    and a client that sends its request together with its methods loses it:
    the loop takes everything that arrived for methods. *)
Theorem socks5_methods_loop st udp_addr bind us w n :
  (forall methods, length methods < Z.to_nat (b2z n) ->
     init st udp_addr bind us (mkStream [RdData (z2b SOCKS_VERSION :: n :: methods)] w) = None) /\
  (forall req, writes_ok w ->
     exists s', init st udp_addr bind us (mkStream [RdData (response [SOCKS_VERSION; 1%Z; NO_AUTH] ++ req)] w)
       = Some (Err unexpected_eof, us, s')).
Proof.
  split.
  - intros methods Hn. unfold init, negotiate.
    unfold read_exact. cbn [st_rd st_wr read_exact_loop]. rewrite decide_False by done.
    cbn [length]. destruct (decide (S (S (length methods)) <= 2)) as [Hle|Hle].
    + destruct methods; [|simpl in Hle; lia]. simpl.
      rewrite be_val_byte. simpl in Hn. rewrite decide_False by lia. done.
    + cbn [hd drop app take]. rewrite decide_False by (intros Hc; by apply Hc). rewrite be_val_byte. cbn [st_rd].
      rewrite read_methods_diverges; [done| |].
      * repeat constructor.
      * cbn [length flat_map]. rewrite drop_0, app_nil_r. exact Hn.
  - intros req Hw. unfold init, negotiate, read_exact. cbn [st_rd st_wr read_exact_loop response map app length].
    rewrite decide_False by done. rewrite decide_False by lia.
    cbn [take drop app hd st_rd st_wr]. rewrite decide_False by (intros Hc; by apply Hc).
    change (Z.to_nat (be_val [z2b 1])) with 1. cbn [read_methods length]. rewrite decide_False by lia.
    cbn [app]. rewrite decide_True by (simpl; lia). unfold select_method.
    change (contains USER_PASS (z2b NO_AUTH :: req)) with (contains USER_PASS req).
    destruct (contains USER_PASS req).
    + unfold mbind, IO_bind.
      destruct (write_all_ok (response [SOCKS_VERSION; USER_PASS]) (mkStream [] w) Hw) as (w' & -> & _).
      unfold user_pass, mbind, IO_bind. unfold read_exact. simpl. eauto.
    + change (contains NO_AUTH (z2b NO_AUTH :: req)) with true. cbv iota.
      destruct (write_all_ok (response [SOCKS_VERSION; NO_AUTH]) (mkStream [] w) Hw) as (w' & -> & _).
      unfold request, read_exact. simpl. eauto.
Qed.

(** The datagram codec.  [decode] inverts [encode] for every address and
    payload and empties the buffer; a shorter buffer waits for more; a
    fragmented datagram is refused and left in place; what is decoded was
    exactly the datagram.  A datagram that ends inside the port of a domain
    address panics. *)
Theorem socks5_codec :
  (forall d a, Address_ok a = true -> codec_decode (codec_encode (d, a) []) = (Ok (Some (wire_norm a, d)), [])) /\
  (forall src, length src < 3 -> codec_decode src = (Ok None, src)) /\
  (forall r0 r1 frag t, b2z frag <> 0%Z ->
     codec_decode (r0 :: r1 :: frag :: t) = (Err (new_error "socks5 frag packet is not supported!"), r0 :: r1 :: frag :: t)) /\
  (forall src a d src', codec_decode src = (Ok (Some (a, d)), src') ->
     exists r0 r1, src = r0 :: r1 :: z2b 0 :: encode a ++ d /\ src' = []) /\
  (forall r0 r1 n d t, length d = Z.to_nat (b2z n) -> length t < 2 ->
     (codec_decode (r0 :: r1 :: z2b 0 :: z2b 3 :: n :: d ++ t)).1 = Panic).
Proof.
  split_and!.
  - intros d a Ha. rewrite codec_encode_eq. unfold codec_decode. rewrite decide_False by (simpl; lia).
    rewrite decide_False by (intros Hc; by apply Hc).
    change (drop 3 (response [0; 0; 0]%Z ++ encode a ++ d)) with (encode a ++ d). unfold read_from_buf.
    destruct (read_from_cursor_encode a (mkCursor (encode a ++ d) 0) d Ha) as (c & -> & _); [done|].
    cbn [mbind res_bind]. rewrite <- (length_encode (wire_norm a)).
    assert (length (encode (wire_norm a)) = length (encode a)) as -> by (rewrite !length_encode; by destruct a as [[]|]).
    by rewrite drop_app_length.
  - intros src Hl. unfold codec_decode. by rewrite decide_True.
  - intros r0 r1 frag t Hf. unfold codec_decode. rewrite decide_False by (simpl; lia). by rewrite decide_True.
  - intros src a d src'. unfold codec_decode. case_decide; [done|]. case_decide as Hfr; [done|].
    destruct src as [|r0 [|r1 [|fr t]]]; try (simpl in *; lia). cbn [nth] in *.
    change (drop 3 (r0 :: r1 :: fr :: t)) with t. unfold read_from_buf.
    destruct (read_from_cursor (mkCursor t 0)) as [[a' c]|e|] eqn:E; cbn [mbind res_bind]; [|done..].
    intros [= <- <- <-]. exists r0, r1. apply read_from_cursor_inv in E as (Ht & _ & _). cbn [buf_rest Cursor_Buf cur_position cur_inner] in Ht.
    rewrite drop_0 in Ht. split; [|done]. f_equal. f_equal. f_equal.
    + apply b2z_inj. rewrite b2z_small by lia. exact Hfr.
    + rewrite <- (length_encode a'). rewrite Ht at 2. by rewrite drop_app_length.
  - intros r0 r1 n d t Hd Ht. unfold codec_decode. rewrite decide_False by (simpl; lia).
    rewrite decide_False by (intros Hc; by apply Hc).
    change (drop 3 (r0 :: r1 :: z2b 0 :: z2b 3 :: n :: d ++ t)) with (z2b 3 :: n :: d ++ t). unfold read_from_buf.
    rewrite read_from_cursor_port_cut; [done|]. by exists n, d, t.
Qed.

(** ** Witnesses *)

Definition wit_local : SocketAddr := V4 (mkIpv4 x7f x00 x00 x01) 1080.

Lemma socks5_handshake_witness :
  let a := DomainNameAddress (str "example.org") 443 in
  exists s', init (Socks5Stream_new wit_local) None (fun x => Ok x) None
    (mkStream ([RdData [x05]; RdPending; RdData [x01; x00]] ++ [RdData (response [5; 1; 0]%Z ++ encode a ++ [xff])])
       (mkWriter [] [] [] 0 [] 0))
    = Some (Ok a, None, s') /\ rd_bytes (st_rd s') = [xff].
Proof.
  intros a.
  destruct (socks5_handshake (Socks5Stream_new wit_local) None (fun x => Ok x) None
    [RdData [x05]; RdPending; RdData [x01; x00]] [RdData (response [5; 1; 0]%Z ++ encode a ++ [xff])]
    (mkWriter [] [] [] 0 [] 0) [x00] x01 x00 a [xff]) as (s' & Hr & Hc & _);
    try reflexivity; try (repeat constructor; done).
  - exists s'. split; [|exact Hr]. exact (proj1 (Hc eq_refl)).
Defined.

Lemma socks5_user_pass_witness :
  user_pass (Socks5Stream_new wit_local)
    (mkStream [RdData ([x01; x01] ++ str "u" ++ [x01] ++ str "p")] (mkWriter [] [] [] 0 [] 0))
  = (Err err_auth, mkStream [] (mkWriter [] [x01; x01] [] 0 [] 1)).
Proof.
  destruct (socks5_user_pass (Socks5Stream_new wit_local) (str "u") (str "p") x01 []
    (mkStream [RdData ([x01; x01] ++ str "u" ++ [x01] ++ str "p")] (mkWriter [] [] [] 0 [] 0)))
    as (s' & _ & [(_ & _ & [H|H])|(H & _)]); try discriminate.
  - simpl; lia.
  - simpl; lia.
  - constructor.
  - reflexivity.
  - reflexivity.
  - vm_compute in H. vm_compute. rewrite H. reflexivity.
Defined.
