(* ===== verification/Socks5Udp.v ===== *)
(** * The SOCKS5 datagram session (src/src/proxy/socks/socks5.rs)

    [Socks5UdpDatagram::run] spawns concurrent tasks: one receives the
    client's datagrams and hands each to the outbound its address is routed to,
    one per outbound sends them on, one per outbound collects the answers and
    one writes them back to the client.  A run is a sequence of turns of these
    tasks, in any order.

    Between the receiver and a sender stands a [watch] channel (crate tokio),
    which holds one value; its documented behaviour is the class [Watch].  The
    router and the outbound builders are parameters (Route.v and Chain.v model
    them). *)

From S2P Require Import Prelude Io StdText Address Socks5.
From Stdlib Require Import ZArith Lia List Strings.Byte Sorting.Sorted.
From stdpp Require Import base option list gmap strings.

(** A single-value channel: [channel(v)] is created with its value seen;
    [send] replaces the value; [changed] waits for an unseen value and marks
    it seen; [borrow] reads without marking. *)
Class Watch (V W : Type) := {
  watch_channel : V -> W;
  watch_send : V -> W -> W;
  watch_borrow : W -> V;
  watch_changed : W -> option W;
  watch_borrow_channel v : watch_borrow (watch_channel v) = v;
  watch_borrow_send v w : watch_borrow (watch_send v w) = v;
  watch_changed_send v w : is_Some (watch_changed (watch_send v w));
  watch_changed_channel v : watch_changed (watch_channel v) = None;
  watch_changed_spec w w' : watch_changed w = Some w' -> watch_borrow w' = watch_borrow w /\ watch_changed w' = None
}.

Abbreviation Packet := (Address * bytes)%type.

Inductive phase := Starting | Looping | Ended.

Section Session.
Context {W : Type} `{Watch Packet W}.
Context {Tag : Type} `{Countable Tag}.
Context (match_addr : Address -> Tag).
Context (inner_map : Tag -> option (Address -> res unit)).

(** An entry of [NatMap]: the outbound's channel, where its write task is and
the packets that task passed to [send_to]. *)
Record Outbound := mkOutbound { ob_sender : W; ob_phase : phase; ob_sent : list Packet }.

Abbreviation NatMap := (gmap Tag Outbound).

Definition get_mut_sender (nat : NatMap) (outbound_tag : Tag) : option W := ob_sender <$> nat !! outbound_tag.

Definition nat_insert (nat : NatMap) (outbound_tag : Tag) (sender : W) : NatMap :=
  <[outbound_tag := mkOutbound sender Starting []]> nat.

(** Dropping the map aborts both tasks of every outbound. *)
Definition nat_drop (nat : NatMap) : NatMap :=
  fmap (fun o => mkOutbound (ob_sender o) Ended (ob_sent o)) nat.

Record Session := mkSession {
  ss_nat : NatMap;
  ss_local : option SocketAddr;             (* the sender of the first datagram *)
  ss_channel : list (bytes * Address);      (* rx_remote_packet *)
  ss_written : list (bytes * SocketAddr)    (* datagrams written to the client *)
}.

Definition Session_new : Session := mkSession ∅ None [] [].

(** One turn of the receive loop: a datagram from [local_addr]. *)
Definition recv_turn (target_addr : Address) (buf : bytes) (local_addr : SocketAddr) (st : Session) : res Session :=
  let local := match ss_local st with Some l => Some l | None => Some local_addr end in
  let ob := match_addr target_addr in
  match get_mut_sender (ss_nat st) ob with
  | Some tx =>
    let upd o := mkOutbound (watch_send (target_addr, buf) tx) (ob_phase o) (ob_sent o) in
    Ok (mkSession (alter upd ob (ss_nat st)) local (ss_channel st) (ss_written st))
  | None =>
    match inner_map ob with
    | None => Panic
    | Some stream_builder =>
      _ ← stream_builder target_addr;
      Ok (mkSession (nat_insert (ss_nat st) ob (watch_channel (target_addr, buf))) local (ss_channel st) (ss_written st))
    end
  end.

(** One turn of an outbound's write task; [ok] is whether [send_to] succeeds.
Not enabled: unchanged. *)
Definition write_outbound (ok : bool) (o : Outbound) : Outbound :=
  match ob_phase o with
  | Starting => mkOutbound (ob_sender o) (if ok then Looping else Ended) (ob_sent o ++ [watch_borrow (ob_sender o)])
  | Looping =>
    match watch_changed (ob_sender o) with
    | Some w => mkOutbound w (if ok then Looping else Ended) (ob_sent o ++ [watch_borrow w])
    | None => o
    end
  | Ended => o
  end.

Definition write_turn (ob : Tag) (ok : bool) (st : Session) : Session :=
  mkSession (alter (write_outbound ok) ob (ss_nat st)) (ss_local st) (ss_channel st) (ss_written st).

(** One turn of an outbound's read task: an answer arrived. *)
Definition read_turn (buf : bytes) (addr : Address) (st : Session) : Session :=
  mkSession (ss_nat st) (ss_local st) (ss_channel st ++ [(buf, addr)]) (ss_written st).

(** One turn of the task that writes to the client: it waits for the first
client address, then for an answer. *)
Definition reply_turn (st : Session) : Session :=
  match ss_local st, ss_channel st with
  | Some local_addr, (buf, from_addr) :: rest =>
    mkSession (ss_nat st) (ss_local st) rest (ss_written st ++ [(codec_encode (buf, from_addr) [], local_addr)])
  | _, _ => st
  end.

(** A run of the session. *)
Inductive event :=
| EvRecv (target_addr : Address) (buf : bytes) (local_addr : SocketAddr)
| EvWrite (ob : Tag) (ok : bool)
| EvRead (buf : bytes) (addr : Address)
| EvReply.

Definition turn (e : event) (st : Session) : res Session :=
  match e with
  | EvRecv t b l => recv_turn t b l st
  | EvWrite ob ok => Ok (write_turn ob ok st)
  | EvRead b a => Ok (read_turn b a st)
  | EvReply => Ok (reply_turn st)
  end.

Fixpoint run (es : list event) (st : Session) : res Session :=
  match es with
  | [] => Ok st
  | e :: es => st ← turn e st; run es st
  end.

(** ** Specification *)

(** The packets the client sent to an outbound, in order. *)
Definition packets_for (ob : Tag) (es : list event) : list Packet :=
  flat_map (fun e => match e with
  | EvRecv t b _ => if decide (match_addr t = ob) then [(t, b)] else []
  | _ => []
  end) es.

Definition reads (es : list event) : list (bytes * Address) :=
  flat_map (fun e => match e with EvRead b a => [(b, a)] | _ => [] end) es.

Definition clients (es : list event) : list SocketAddr :=
  flat_map (fun e => match e with EvRecv _ _ l => [l] | _ => [] end) es.

(** [sent] follows [ps] in order, possibly leaving out and repeating. *)
Definition follows (ps sent : list Packet) (top : nat) : Prop :=
  exists idx, Sorted Nat.le idx /\ Forall2 (fun i p => ps !! i = Some p) idx sent /\ Forall (fun i => i <= top) idx.

Definition outbound_ok (ps : list Packet) (o : Outbound) : Prop :=
  last ps = Some (watch_borrow (ob_sender o)) /\
  follows ps (ob_sent o) (length ps - 1) /\
  (ob_phase o = Looping -> watch_changed (ob_sender o) = None -> last (ob_sent o) = last ps).

Definition session_ok (es : list event) (st : Session) : Prop :=
  (forall ob, match ss_nat st !! ob with
  | Some o => outbound_ok (packets_for ob es) o
  | None => packets_for ob es = []
  end) /\
  ss_local st = head (clients es) /\
  (exists l, map fst (ss_written st) = map (fun x => codec_encode x []) l /\ l ++ ss_channel st = reads es) /\
  Forall (fun x => Some (snd x) = ss_local st) (ss_written st).

(** ** Lemmas *)

Lemma packets_for_app ob es1 es2 : packets_for ob (es1 ++ es2) = packets_for ob es1 ++ packets_for ob es2.
Proof. apply flat_map_app. Qed.

Lemma sorted_snoc idx n : Sorted Nat.le idx -> Forall (fun i => i <= n) idx -> Sorted Nat.le (idx ++ [n]).
Proof.
  induction 1 as [|i idx Hs IH Hr]; intros Hf; [by repeat constructor|].
  apply Forall_cons in Hf as [Hi Hf]. simpl. constructor; [by apply IH|].
  destruct idx as [|j idx]; simpl; constructor; [done|]. by inversion Hr.
Qed.

Lemma follows_snoc ps sent p :
  last ps = Some p -> follows ps sent (length ps - 1) -> follows ps (sent ++ [p]) (length ps - 1).
Proof.
  intros Hl (idx & Hs & Hf & Hi). exists (idx ++ [length ps - 1]). split_and!.
  - by apply sorted_snoc.
  - apply Forall2_app; [done|]. constructor; [|constructor]. rewrite Nat.sub_1_r, <- last_lookup. done.
  - apply Forall_app. split; [done|]. by repeat constructor.
Qed.

Lemma follows_weaken ps sent p n :
  n <= length ps -> follows ps sent n -> follows (ps ++ [p]) sent (length (ps ++ [p]) - 1).
Proof.
  intros Hn (idx & Hs & Hf & Hi). exists idx. split_and!; [done| |].
  - eapply Forall2_impl; [exact Hf|]. intros i q Hq. by apply lookup_app_l_Some.
  - eapply Forall_impl; [exact Hi|]. intros i Hle. rewrite length_app. simpl in *. lia.
Qed.

Lemma outbound_send ps o p :
  outbound_ok ps o -> outbound_ok (ps ++ [p]) (mkOutbound (watch_send p (ob_sender o)) (ob_phase o) (ob_sent o)).
Proof.
  intros (Hl & Hf & _). unfold outbound_ok. simpl. rewrite last_snoc, watch_borrow_send. split_and!; [done| |].
  - eapply follows_weaken; [|exact Hf]. lia.
  - intros _ Hc. destruct (watch_changed_send p (ob_sender o)) as [w' E]. by rewrite Hc in E.
Qed.

Lemma outbound_write ps ok o : outbound_ok ps o -> outbound_ok ps (write_outbound ok o).
Proof.
  intros (Hl & Hf & Hd). unfold write_outbound, outbound_ok. destruct (ob_phase o) eqn:Hp.
  - simpl. split_and!; [done|by apply follows_snoc|]. intros _ _. by rewrite last_snoc.
  - destruct (watch_changed (ob_sender o)) as [w|] eqn:Hc.
    + apply watch_changed_spec in Hc as [Hb Hc]. simpl. rewrite Hb. split_and!; [done|by apply follows_snoc|].
      intros _ _. by rewrite last_snoc.
    + rewrite Hp, Hc. by split_and!.
  - rewrite Hp. by split_and!.
Qed.

Lemma outbound_new p : outbound_ok [p] (mkOutbound (watch_channel p) Starting []).
Proof.
  unfold outbound_ok. simpl. rewrite watch_borrow_channel. split_and!; [done| |done].
  exists []. repeat constructor.
Qed.

Lemma session_ok_new : session_ok [] Session_new.
Proof. split_and!; [done|done| |constructor]. by exists []. Qed.

Lemma clients_head_snoc es l :
  head (clients (es ++ l)) = match head (clients es) with Some x => Some x | None => head (clients l) end.
Proof. unfold clients. rewrite flat_map_app. by destruct (flat_map _ es). Qed.

Lemma head_snoc_local (st : Session) l (Hl : Forall (fun x => Some (snd x) = ss_local st) (ss_written st)) :
  Forall (fun x => Some (snd x) = match ss_local st with Some x => Some x | None => Some l end) (ss_written st).
Proof.
  destruct (ss_local st) as [a|] eqn:E; [done|].
  destruct (ss_written st) as [|x ws]; [constructor|]. apply Forall_cons in Hl as [? _]. done.
Qed.

Lemma recv_turn_ok es st t b l st' :
  session_ok es st -> recv_turn t b l st = Ok st' -> session_ok (es ++ [EvRecv t b l]) st'.
Proof.
  intros (Hn & Hl & Hc & Hw) Hr.
  assert (forall ob, packets_for ob (es ++ [EvRecv t b l])
    = packets_for ob es ++ if decide (match_addr t = ob) then [(t, b)] else []) as Hp.
  { intros ob. rewrite packets_for_app. simpl. by rewrite app_nil_r. }
  assert (reads (es ++ [EvRecv t b l]) = reads es) as Hrd.
  { unfold reads. by rewrite flat_map_app, app_nil_r. }
  unfold recv_turn in Hr.
  assert (match ss_local st with Some l => Some l | None => Some l end = head (clients (es ++ [EvRecv t b l]))) as Hloc
    by (by rewrite clients_head_snoc, Hl).
  unfold get_mut_sender in Hr. pose proof (Hn (match_addr t)) as Hob.
  destruct (ss_nat st !! match_addr t) as [o|] eqn:E; cbn [fmap option_fmap option_map] in Hr.
  - injection Hr as <-. split_and!; cbn [ss_nat ss_local ss_channel ss_written].
    + intros ob. rewrite Hp. case_decide as Hd.
      * subst ob. rewrite lookup_alter_eq, E. simpl. by apply outbound_send.
      * rewrite lookup_alter_ne, app_nil_r by done. apply Hn.
    + done.
    + by rewrite Hrd.
    + by apply head_snoc_local.
  - destruct (inner_map (match_addr t)) as [build|]; [|done]. destruct (build t) as [[]|e|]; cbn [mbind res_bind] in Hr; [|done..].
    injection Hr as <-. split_and!; cbn [ss_nat ss_local ss_channel ss_written].
    + intros ob. rewrite Hp. unfold nat_insert. case_decide as Hd.
      * subst ob. rewrite lookup_insert_eq, Hob. apply outbound_new.
      * rewrite lookup_insert_ne, app_nil_r by done. apply Hn.
    + done.
    + by rewrite Hrd.
    + by apply head_snoc_local.
Qed.

Lemma turn_ok es st e st' : session_ok es st -> turn e st = Ok st' -> session_ok (es ++ [e]) st'.
Proof.
  intros Hok. destruct e as [t b l|ob ok|b a|]; simpl; [by apply recv_turn_ok|intros [= <-]..].
  - destruct Hok as (Hn & Hl & Hc & Hw). split_and!; simpl; [|by rewrite clients_head_snoc, Hl; destruct (head _)| |done].
    + intros ob'. rewrite packets_for_app, app_nil_r. destruct (decide (ob = ob')) as [->|Hne].
      * rewrite lookup_alter_eq. specialize (Hn ob'). destruct (ss_nat st !! ob'); simpl; [by apply outbound_write|done].
      * rewrite lookup_alter_ne by done. apply Hn.
    + unfold reads in *. by rewrite flat_map_app, app_nil_r.
  - destruct Hok as (Hn & Hl & (q & Hq & Hr) & Hw). split_and!; simpl; [|by rewrite clients_head_snoc, Hl; destruct (head _)| |done].
    + intros ob. rewrite packets_for_app, app_nil_r. apply Hn.
    + exists q. split; [done|]. unfold reads in *. by rewrite flat_map_app, app_assoc, Hr.
  - destruct Hok as (Hn & Hl & (q & Hq & Hr) & Hw).
    assert (head (clients (es ++ [EvReply])) = head (clients es)) as Hc by (rewrite clients_head_snoc; by destruct (head _)).
    assert (reads (es ++ [EvReply]) = reads es) as Hrd by (unfold reads; by rewrite flat_map_app, app_nil_r).
    assert (forall ob, packets_for ob (es ++ [EvReply]) = packets_for ob es) as Hp
      by (intros ob; by rewrite packets_for_app, app_nil_r).
    assert (forall ob, match ss_nat st !! ob with Some o => outbound_ok (packets_for ob (es ++ [EvReply])) o
      | None => packets_for ob (es ++ [EvReply]) = [] end) as Hn' by (intros ob; rewrite Hp; apply Hn).
    unfold session_ok. rewrite Hc, Hrd. unfold reply_turn.
    destruct (ss_local st) as [la|] eqn:El; [|split_and!; [done|by rewrite El|by exists q|by rewrite El]].
    destruct (ss_channel st) as [|[b a] rest] eqn:Ech.
    + split_and!; [done|by rewrite El|exists q; by rewrite Ech|by rewrite El].
    + split_and!; simpl; [done|done| |].
      * exists (q ++ [(b, a)]). rewrite !map_app, Hq. split; [done|]. by rewrite <- app_assoc.
      * apply Forall_app. split; [done|]. by repeat constructor.
Qed.

Lemma run_app es1 es2 st : run (es1 ++ es2) st = (st' ← run es1 st; run es2 st').
Proof.
  revert st. induction es1 as [|e es1 IH]; intros st; [done|]. cbn [app run].
  destruct (turn e st) as [st'| |]; cbn [mbind res_bind]; [apply IH|done..].
Qed.

Lemma run_ok es st : run es Session_new = Ok st -> session_ok es st.
Proof.
  revert st. induction es as [|e es IH] using rev_ind; intros st; [intros [= <-]; apply session_ok_new|].
  rewrite run_app. destruct (run es Session_new) as [st1| |]; cbn [mbind res_bind run]; [|done..].
  destruct (turn e st1) as [st2| |] eqn:E; cbn [mbind res_bind]; [|done..]. intros [= <-].
  eapply turn_ok; [by apply IH|done].
Qed.

(** ** Theorems *)

(** C34: the session, for every interleaving of its tasks.  What an outbound's
task sends are packets the client addressed to that outbound, never
reordered; once that task has caught up, the last packet it sent is the last
one received for it; and the answers are written in the order they
arrived, each encoded, all to the client address of the first datagram. *)
Theorem socks5_session_sound es st :
  run es Session_new = Ok st ->
  (forall ob o, ss_nat st !! ob = Some o ->
    (exists idx, Sorted Nat.le idx /\ Forall2 (fun i p => packets_for ob es !! i = Some p) idx (ob_sent o)) /\
    (ob_phase o = Looping -> watch_changed (ob_sender o) = None -> last (ob_sent o) = last (packets_for ob es))) /\
  (exists l, map fst (ss_written st) = map (fun x => codec_encode x []) l /\ l ++ ss_channel st = reads es) /\
  Forall (fun x => Some (snd x) = head (clients es)) (ss_written st).
Proof.
  intros Hr. apply run_ok in Hr as (Hn & Hl & Hc & Hw). split_and!; [|done|by rewrite Hl in Hw].
  intros ob o Ho. specialize (Hn ob). rewrite Ho in Hn. destruct Hn as (_ & (idx & Hs & Hf & _) & Hd). eauto.
Qed.

(** *** What concerns one outbound *)

Inductive own_event := OwnRecv (p : Packet) | OwnWrite (ok : bool).

(** The part of an event in the life of the outbound [ob]; all others, among
them the packets and turns of other outbounds, the answers and the replies,
have none. *)
Definition own (ob : Tag) (e : event) : option own_event :=
  match e with
  | EvRecv t b _ => if decide (match_addr t = ob) then Some (OwnRecv (t, b)) else None
  | EvWrite ob' ok => if decide (ob' = ob) then Some (OwnWrite ok) else None
  | _ => None
  end.

Definition own_step (o : option Outbound) (e : own_event) : option Outbound :=
  match e, o with
  | OwnRecv p, None => Some (mkOutbound (watch_channel p) Starting [])
  | OwnRecv p, Some o => Some (mkOutbound (watch_send p (ob_sender o)) (ob_phase o) (ob_sent o))
  | OwnWrite ok, o => write_outbound ok <$> o
  end.

(** A turn changes the entry of an outbound by its own part only. *)
Lemma turn_own ob e st st' : turn e st = Ok st' ->
  ss_nat st' !! ob = match own ob e with Some x => own_step (ss_nat st !! ob) x | None => ss_nat st !! ob end.
Proof.
  destruct e as [t b l|ob' ok|b a|]; cbn [turn own].
  - unfold recv_turn, get_mut_sender. destruct (ss_nat st !! match_addr t) as [o|] eqn:Eo; cbn [fmap option_fmap option_map].
    + intros [= <-]. cbn [ss_nat]. destruct (decide (match_addr t = ob)) as [<-|Hne].
      * by rewrite lookup_alter_eq, Eo.
      * by rewrite lookup_alter_ne.
    + destruct (inner_map (match_addr t)) as [build|]; [|done]. destruct (build t) as [[]|e|]; cbn [mbind res_bind]; [|done..].
      intros [= <-]. cbn [ss_nat]. unfold nat_insert. destruct (decide (match_addr t = ob)) as [<-|Hne].
      * by rewrite lookup_insert_eq, Eo.
      * by rewrite lookup_insert_ne.
  - intros [= <-]. cbn [write_turn ss_nat]. case_decide as Hd; [subst; apply lookup_alter_eq|by rewrite lookup_alter_ne].
  - by intros [= <-].
  - intros [= <-]. unfold reply_turn. by destruct (ss_local st), (ss_channel st) as [|[]].
Qed.

Lemma run_own ob es st st' : run es st = Ok st' -> ss_nat st' !! ob = fold_left own_step (omap (own ob) es) (ss_nat st !! ob).
Proof.
  revert st. induction es as [|e es IH]; intros st; cbn [run omap list_omap]; [by intros [= <-]|].
  destruct (turn e st) as [st1|e'|] eqn:E; cbn [mbind res_bind]; [|done..]. intros Hr. rewrite (IH _ Hr), (turn_own ob e st st1 E).
  by destruct (own ob e).
Qed.

(** A session whose outbounds can all be opened goes on. *)
Lemma run_total es : (forall t b l, EvRecv t b l ∈ es -> exists build, inner_map (match_addr t) = Some build /\ build t = Ok tt) ->
  forall st, exists st', run es st = Ok st'.
Proof.
  induction es as [|e es IH]; intros Hes st; cbn [run]; [by eexists|].
  assert (exists st1, turn e st = Ok st1) as [st1 ->]; [|apply IH; intros t b l Hin; eapply Hes; by right].
  destruct e as [t b l|ob ok|b a|]; cbn [turn]; [|by eexists..].
  unfold recv_turn. destruct (get_mut_sender _ _); [by eexists|].
  destruct (Hes t b l) as (build & -> & ->); [by left|]. cbn [mbind res_bind]. by eexists.
Qed.

(** A packet and the turns of the task behind it: one that sends it and [n] idle
ones. *)
Definition served (p : Packet * nat) : list own_event := OwnRecv p.1 :: replicate (S p.2) (OwnWrite true).
Definition rounds (ps : list (Packet * nat)) : list own_event := flat_map served ps.

Definition caught_up (o : Outbound) : Prop := ob_phase o = Looping /\ watch_changed (ob_sender o) = None.

Lemma idle_turns o n : caught_up o -> fold_left own_step (replicate n (OwnWrite true)) (Some o) = Some o.
Proof.
  intros [Hp Hc]. induction n as [|n IH]; [done|]. cbn [replicate fold_left own_step fmap option_fmap option_map].
  assert (write_outbound true o = o) as -> by (unfold write_outbound; by rewrite Hp, Hc). exact IH.
Qed.

(** A turn after packets sends the last of them. *)
Lemma recvs_last ps p o : exists w, fold_left own_step (map OwnRecv (ps ++ [p])) (Some o)
  = Some (mkOutbound (watch_send p w) (ob_phase o) (ob_sent o)).
Proof.
  revert o. induction ps as [|q ps IH]; intros o; cbn [map app fold_left own_step]; [by eexists|].
  destruct (IH (mkOutbound (watch_send q (ob_sender o)) (ob_phase o) (ob_sent o))) as [w E]. by exists w.
Qed.

Lemma write_looping ok p w sent : exists o, write_outbound ok (mkOutbound (watch_send p w) Looping sent) = o /\
  ob_sent o = sent ++ [p] /\ ob_phase o = (if ok then Looping else Ended) /\ watch_changed (ob_sender o) = None.
Proof.
  unfold write_outbound. cbn [ob_phase ob_sender ob_sent]. destruct (watch_changed_send p w) as [w' Hw]. rewrite Hw. eexists. split; [done|].
  apply watch_changed_spec in Hw as [Hb Hc]. cbn [ob_sent ob_phase ob_sender]. by rewrite Hb, watch_borrow_send.
Qed.

Lemma write_starting ok w sent :
  write_outbound ok (mkOutbound w Starting sent) = mkOutbound w (if ok then Looping else Ended) (sent ++ [watch_borrow w]).
Proof. done. Qed.

Lemma served_caught_up p o : (match o with Some o => caught_up o | None => True end) ->
  exists o', fold_left own_step (served p) o = Some o' /\ caught_up o' /\ ob_sent o' = (match o with Some o => ob_sent o | None => [] end) ++ [p.1].
Proof.
  unfold served. destruct p as [p n]. cbn [fst snd replicate]. intros Ho. cbn [fold_left]. destruct o as [o|]; cbn [own_step fmap option_fmap option_map].
  - destruct Ho as [Hp Hc]. rewrite Hp. destruct (write_looping true p (ob_sender o) (ob_sent o)) as (o' & -> & Hs & Hl & Hw).
    exists o'. rewrite idle_turns by done. done.
  - set (o' := write_outbound true _). assert (caught_up o') as Hc by (split; [done|apply watch_changed_channel]).
    exists o'. rewrite idle_turns by done. split_and!; [done..|]. cbn. by rewrite watch_borrow_channel.
Qed.

Lemma rounds_caught_up ps o : (match o with Some o => caught_up o | None => True end) ->
  match fold_left own_step (rounds ps) o with
  | Some o' => caught_up o' /\ ob_sent o' = (match o with Some o => ob_sent o | None => [] end) ++ map fst ps
  | None => o = None /\ ps = []
  end.
Proof.
  unfold rounds. revert o. induction ps as [|p ps IH]; intros o Ho; cbn [flat_map map fold_left].
  - destruct o; [by rewrite app_nil_r|done].
  - rewrite fold_left_app. destruct (served_caught_up p o Ho) as (o1 & -> & Hc & Hs). specialize (IH (Some o1) Hc).
    destruct (fold_left _ _ _) as [o2|]; [|by destruct IH]. destruct IH as [Hc2 Hs2]. split; [done|]. by rewrite Hs2, Hs, <- app_assoc.
Qed.

Lemma ended_stays es o : ob_phase o = Ended -> exists o', fold_left own_step es (Some o) = Some o' /\ ob_sent o' = ob_sent o.
Proof.
  revert o. induction es as [|[p|ok] es IH]; intros o Ho; cbn [fold_left own_step fmap option_fmap option_map]; [by eexists|..].
  - by apply (IH (mkOutbound _ _ _)).
  - assert (write_outbound ok o = o) as -> by (unfold write_outbound; by rewrite Ho). by apply IH.
Qed.

End Session.

(** ** Witnesses *)

Section Witness.
(** A channel as the value and whether it is unseen. *)
#[local] Program Instance toy_watch : Watch Packet (Packet * bool) := {|
    watch_channel v := (v, false);
    watch_send v _ := (v, true);
    watch_borrow w := w.1;
    watch_changed w := if w.2 then Some (w.1, false) else None
  |}.
Next Obligation. done. Qed.
Next Obligation. done. Qed.
Next Obligation. intros. by eexists. Qed.
Next Obligation. done. Qed.
Next Obligation. intros [p []] w'; simpl; intros; by simplify_eq. Qed.

Definition wit_target : Address := DomainNameAddress (str "a.b") 53.
Definition wit_packet (b : Byte.byte) : Packet := (wit_target, [b]).
Definition wit_es : list event :=
  [EvRecv wit_target (str "x") wit_local; EvWrite "ob" true; EvRead (str "y") wit_target; EvReply].

Lemma socks5_session_sound_witness :
  exists st, run (fun _ => "ob"%string) (fun _ => Some (fun _ => Ok tt)) wit_es Session_new = Ok st
  /\ Forall (fun x => Some (snd x) = Some wit_local) (ss_written st).
Proof.
  eexists. split; [vm_compute; reflexivity|].
  exact (proj2 (proj2 (socks5_session_sound (fun _ => "ob"%string) (fun _ => Some (fun _ => Ok tt)) wit_es _
    ltac:(vm_compute; reflexivity)))).
Defined.

(** Two outbounds, by the target; the second one fails. *)
Definition wit_route (a : Address) : string := if decide (a = wit_target) then "ob"%string else "other"%string.
Definition wit_other : Address := DomainNameAddress (str "c.d") 53.
Definition wit_mixed : list event :=
  [EvRecv wit_target [x01] wit_local; EvRecv wit_other [x02] wit_local; EvWrite "ob" true; EvWrite "other" false; EvRead (str "y") wit_target;
   EvRecv wit_target [x03] wit_local; EvWrite "ob" true; EvRecv wit_other [x04] wit_local; EvReply].

End Witness.
