(* ===== verification/Chain.v ===== *)
(** * Chains of stream builders (src/src/proxy/mod.rs, src/src/proxy/utils/mod.rs)

    An outbound is a chain of layers, each a [ChainableStreamBuilder] that
    wraps a TCP or a UDP stream; the last one may be a configuration that is
    turned into a builder when the target is known.  [ChainStreamBuilder]
    holds the chain; [build_inner_markers] computes which layers must be built
    as TCP below a UDP-over-TCP layer, and the address a UDP packet layer is
    told to use.

    The two traits of the source are the classes here; Config.v gives the
    instances.  Streams, dialling and binding are the environment's. *)

From S2P Require Import Prelude StdText Address.
From Stdlib Require Import ZArith Lia List.
From stdpp Require Import base option list strings.

Inductive ProtocolType := SS | Tls | Vmess | Grpc | WS | Trojan | Direct | H2 | Blackhole | SimpleObfs.

#[export] Instance ProtocolType_eq_dec : EqDecision ProtocolType.
Proof. solve_decision. Defined.

(** UDP over TCP. *)
Definition is_uot (p : ProtocolType) : bool := match p with Vmess | Trojan => true | _ => false end.

(** The trait [ChainableStreamBuilder], over TCP streams [S] and UDP streams
    [U]. *)
Class ChainableStreamBuilder (B S U : Type) := {
  build_tcp : B -> S -> res S;
  build_udp : B -> U -> bool -> res U;
  protocol_type : B -> ProtocolType;
  get_addr : B -> option Address
}.

(** The trait [ToChainableStreamBuilder]. *)
Class ToChainableStreamBuilder (C B : Type) := {
  to_chainable_stream_builder : C -> option Address -> res B;
  get_protocol_type : C -> ProtocolType;
  cfg_get_addr : C -> option Address
}.

(** What a chain dials. *)
Class Dialer (S U Ip : Type) := {
  connect_tcp : Address -> res S;
  connect_tcp_u : Address -> res U;           (* a TCP stream as a UDP stream *)
  bind_connect_udp : Ip -> Address -> res U
}.

(** ** The iterator over the layers, right to left (proxy/utils/mod.rs) *)

Inductive iter_state := IterStart | IterPos | IterLoop | IterDone.

Record TypeIter := mkTypeIter { ti_ty : option ProtocolType; ti_pos : nat; ti_state : iter_state }.

Section Chain.
Context {B C S U Ip : Type} `{ChainableStreamBuilder B S U} `{ToChainableStreamBuilder C B} `{Dialer S U Ip}.

Definition TypeIter_new (builders : list B) (last_builder : option C) : TypeIter :=
  mkTypeIter (get_protocol_type <$> last_builder) (length builders) IterStart.

(** One turn of [while self.pos != 0], and the [return None] behind it. *)
Definition iter_loop (builders : list B) (it : TypeIter) : res (option ProtocolType) * TypeIter :=
  match ti_pos it with
  | O => (Ok None, mkTypeIter (ti_ty it) 0 IterDone)
  | Datatypes.S p =>
    (match builders !! p with Some b => Ok (Some (protocol_type b)) | None => Panic end,
      mkTypeIter (ti_ty it) p IterLoop)
  end.

Definition iter_pos (builders : list B) (it : TypeIter) : res (option ProtocolType) * TypeIter :=
  if decide (ti_pos it = 0) then (Ok None, mkTypeIter (ti_ty it) 0 IterDone) else iter_loop builders it.

Definition next (builders : list B) (it : TypeIter) : res (option ProtocolType) * TypeIter :=
  match ti_state it with
  | IterStart =>
    match ti_ty it with
    | Some ty => (Ok (Some ty), mkTypeIter (ti_ty it) (ti_pos it) IterPos)
    | None => iter_pos builders it
    end
  | IterPos => iter_pos builders it
  | IterLoop => iter_loop builders it
  | IterDone => (Ok None, it)
  end.

Definition size_hint (it : TypeIter) : nat * option nat :=
  match ti_ty it with
  | Some _ => (0, Some (ti_pos it + 1))
  | None => (0, Some (ti_pos it))
  end.

(** The items an iterator gives until its first [None]. *)
Fixpoint iter_collect (fuel : nat) (builders : list B) (it : TypeIter) : res (list ProtocolType) :=
  match fuel with
  | O => Panic
  | Datatypes.S f =>
    let '(r, it) := next builders it in
    r ← r;
    match r with
    | None => Ok []
    | Some t => ts ← iter_collect f builders it; Ok (t :: ts)
    end
  end.

(** ** The UDP markers *)

Fixpoint marker_loop (is_uot_seen : bool) (types : list ProtocolType) : list bool :=
  match types with
  | [] => []
  | ty :: types =>
    if is_uot ty && negb is_uot_seen then false :: marker_loop true types
    else is_uot_seen :: marker_loop is_uot_seen types
  end.

Definition build_udp_marker_impl (bit_vec : list bool) (types : list ProtocolType) : list bool :=
  reverse (bit_vec ++ marker_loop false types).

Record ChainStreamBuilder := mkChain {
  builders : list B;
  remote_addr : option Address;
  last_udp_addr : option Address;
  build_udp_marker : list bool;
  last_builder : option C;
  is_full_cone : bool;
  is_black_hole : bool
}.

Definition ChainStreamBuilder_new : ChainStreamBuilder := mkChain [] None None [] None true false.

Definition layer_types (c : ChainStreamBuilder) : res (list ProtocolType) :=
  iter_collect (length (builders c) + 2) (builders c) (TypeIter_new (builders c) (last_builder c)).

(** [Iterator::position]. *)
Fixpoint position_uot (types : list ProtocolType) : option nat :=
  match types with
  | [] => None
  | t :: ts => if is_uot t then Some 0 else Datatypes.S <$> position_uot ts
  end.

Definition build_inner_markers (c : ChainStreamBuilder) : res ChainStreamBuilder :=
  types ← layer_types c;
  let hole := existsb (fun x => bool_decide (x = Blackhole)) types in
  let marker := build_udp_marker_impl (build_udp_marker c) types in
  last_udp ← match position_uot types with
  | Some idx =>
    if decide (idx = 0) then Ok (last_udp_addr c)
    else match builders c !! (length (builders c) - idx) with
    | Some b => Ok (get_addr b)
    | None => Panic
    end
  | None => Ok (remote_addr c)
  end;
  Ok (mkChain (builders c) (remote_addr c) last_udp marker (last_builder c) (is_full_cone c) hole).

Definition push_remote_addr (addr : Address) (c : ChainStreamBuilder) : ChainStreamBuilder :=
  mkChain (builders c) (Some addr) (last_udp_addr c) (build_udp_marker c) (last_builder c) (is_full_cone c) (is_black_hole c).
Definition push_last_builder (b : C) (c : ChainStreamBuilder) : ChainStreamBuilder :=
  mkChain (builders c) (remote_addr c) (last_udp_addr c) (build_udp_marker c) (Some b) (is_full_cone c) (is_black_hole c).
Definition push (b : B) (c : ChainStreamBuilder) : ChainStreamBuilder :=
  mkChain (builders c ++ [b]) (remote_addr c) (last_udp_addr c) (build_udp_marker c) (last_builder c) (is_full_cone c) (is_black_hole c).
Definition remote_addr_is_none (c : ChainStreamBuilder) : bool :=
  match remote_addr c with None => true | Some _ => false end.

(** ** Building a stream *)

Fixpoint build_tcp_all (bs : list B) (outer_stream : S) : res S :=
  match bs with
  | [] => Ok outer_stream
  | b :: bs => s ← build_tcp b outer_stream; build_tcp_all bs s
  end.

Definition err_block : io_error := new_error "block connection".

Definition chain_build_tcp (c : ChainStreamBuilder) (proxy_addr : Address) : res S :=
  if is_black_hole c then Err err_block else
    outer_stream ← connect_tcp (match remote_addr c with Some a => a | None => proxy_addr end);
    outer_stream ← build_tcp_all (builders c) outer_stream;
    match last_builder c with
    | Some b => b ← to_chainable_stream_builder b (Some proxy_addr); build_tcp b outer_stream
    | None => Ok outer_stream
    end.

(** The [zip] of builders and markers. *)
Fixpoint build_udp_all (bs : list (B * bool)) (outer_stream : U) : res U :=
  match bs with
  | [] => Ok outer_stream
  | (b, build_tcp_inside) :: bs => s ← build_udp b outer_stream build_tcp_inside; build_udp_all bs s
  end.

Definition chain_build_udp (c : ChainStreamBuilder) (proxy_addr : Address) (udp_bind_ip : Ip) : res U :=
  if is_black_hole c then Err err_block else
    match head (build_udp_marker c) with
    | None => Panic
    | Some m =>
      let dial := match remote_addr c with Some a => a | None => proxy_addr end in
      outer_stream ← (if m then connect_tcp_u dial else bind_connect_udp udp_bind_ip dial);
      outer_stream ← build_udp_all (zip (builders c) (build_udp_marker c)) outer_stream;
      match last_builder c with
      | Some b =>
        match last (build_udp_marker c) with
        | None => Panic
        | Some m =>
          b ← to_chainable_stream_builder b (if is_uot (get_protocol_type b) then Some proxy_addr else last_udp_addr c);
          build_udp b outer_stream m
        end
      | None => Ok outer_stream
      end
    end.

(** ** Specification: the layers from the outside in *)

Definition layers (c : ChainStreamBuilder) : list ProtocolType :=
  map protocol_type (builders c) ++ match last_builder c with Some b => [get_protocol_type b] | None => [] end.

(** Whether a UDP-over-TCP layer comes after layer [i]. *)
Definition uot_after (types : list ProtocolType) (i : nat) : bool := existsb is_uot (drop (Datatypes.S i) types).

(** The address a packet layer at the end of the chain sends to: the one the
right-most UDP-over-TCP layer before it connects to, else the remote one. *)
Definition packet_target (c : ChainStreamBuilder) : option Address :=
  match last (filter (fun b => is_uot (protocol_type b) = true) (builders c)) with
  | Some b => get_addr b
  | None => remote_addr c
  end.

(** What [build_udp] has to do: dial, then put the layers on from the outside
in, a layer as TCP exactly when a UDP-over-TCP layer comes after it. *)
Definition udp_plan (c : ChainStreamBuilder) (target : Address) (ip : Ip) : res U :=
  if existsb (fun t => bool_decide (t = Blackhole)) (layers c) then Err err_block else
    match layers c with
    | [] => Panic
    | _ :: behind =>
      let dial := match remote_addr c with Some a => a | None => target end in
      s ← (if existsb is_uot behind then connect_tcp_u dial else bind_connect_udp ip dial);
      s ← build_udp_all (imap (fun i b => (b, uot_after (layers c) i)) (builders c)) s;
      match last_builder c with
      | None => Ok s
      | Some b =>
        b ← to_chainable_stream_builder b (if is_uot (get_protocol_type b) then Some target else packet_target c);
        build_udp b s false
      end
    end.

(** ** Lemmas *)

Lemma iter_loop_collect fuel bs ty p st :
  p <= length bs -> p < fuel -> st = IterLoop \/ st = IterPos \/ st = IterStart /\ ty = None ->
  iter_collect fuel bs (mkTypeIter ty p st) = Ok (reverse (map protocol_type (take p bs))).
Proof.
  revert p st. induction fuel as [|f IH]; intros p st Hp Hf Hst; [lia|]. cbn [iter_collect].
  assert (next bs (mkTypeIter ty p st) = iter_loop bs (mkTypeIter ty p st)) as ->.
  { destruct Hst as [->|[->|[-> ->]]]; unfold next, iter_pos; simpl; [done|..]; by destruct p. }
  unfold iter_loop. simpl. destruct p as [|p]; [done|].
  destruct (lookup_lt_is_Some_2 bs p) as [b Hb]; [lia|]. rewrite Hb. simpl.
  rewrite IH by (auto with lia). simpl. rewrite (take_S_r _ _ _ Hb), map_app. cbn [map]. by rewrite reverse_snoc.
Qed.

Lemma iter_collect_start f bs t p :
  iter_collect (Datatypes.S f) bs (mkTypeIter (Some t) p IterStart)
  = (ts ← iter_collect f bs (mkTypeIter (Some t) p IterPos); Ok (t :: ts)).
Proof. done. Qed.

(** The generator gives the layers from the last to the first. *)
Lemma layer_types_rev c : layer_types c = Ok (reverse (layers c)).
Proof.
  unfold layer_types, layers, TypeIter_new. destruct (last_builder c) as [b|];
    cbn [fmap option_fmap option_map].
  - rewrite Nat.add_comm. cbn [Nat.add]. rewrite iter_collect_start.
    rewrite iter_loop_collect by (auto with lia). rewrite take_ge by done. cbn [mbind res_bind]. by rewrite reverse_snoc.
  - rewrite iter_loop_collect by (auto with lia). by rewrite take_ge, app_nil_r by done.
Qed.

Lemma marker_loop_seen ts : marker_loop true ts = replicate (length ts) true.
Proof. induction ts as [|t ts IH]; [done|]. simpl. rewrite andb_false_r. by rewrite IH. Qed.

(** In reading order: whether a UDP-over-TCP layer was seen before. *)
Lemma marker_loop_lookup ts i :
  i < length ts -> marker_loop false ts !! i = Some (existsb is_uot (take i ts)).
Proof.
  revert i. induction ts as [|t ts IH]; intros i Hi; [simpl in Hi; lia|]. simpl.
  destruct (is_uot t) eqn:Ht; simpl; destruct i as [|i]; simpl in *; try done.
  - rewrite marker_loop_seen, Ht. simpl. apply lookup_replicate_2. lia.
  - rewrite Ht. simpl. apply IH. lia.
Qed.

Lemma length_marker_loop b ts : length (marker_loop b ts) = length ts.
Proof. revert b. induction ts as [|t ts IH]; intros b; [done|]. simpl. destruct (_ && _); simpl; by rewrite IH. Qed.

Lemma existsb_reverse {A} (f : A -> bool) l : existsb f (reverse l) = existsb f l.
Proof.
  unfold reverse. rewrite <- rev_alt. induction l as [|x l IH]; [done|]. simpl.
  rewrite existsb_app, IH. simpl. rewrite orb_false_r. apply orb_comm.
Qed.

Lemma markers_length ts : length (build_udp_marker_impl [] ts) = length ts.
Proof. unfold build_udp_marker_impl. simpl. by rewrite length_reverse, length_marker_loop. Qed.

Lemma markers_lookup ts i :
  i < length ts -> build_udp_marker_impl [] (reverse ts) !! i = Some (uot_after ts i).
Proof.
  intros Hi. unfold build_udp_marker_impl. simpl.
  assert (length (marker_loop false (reverse ts)) = length ts) as Hl by (by rewrite length_marker_loop, length_reverse).
  rewrite reverse_lookup, Hl by lia. rewrite marker_loop_lookup by (rewrite length_reverse; lia). f_equal.
  unfold uot_after. rewrite take_reverse, existsb_reverse. f_equal. f_equal. lia.
Qed.

Lemma position_uot_spec ts :
  match position_uot ts with
  | Some idx => exists t, ts !! idx = Some t /\ is_uot t = true /\ existsb is_uot (take idx ts) = false
  | None => existsb is_uot ts = false
  end.
Proof.
  induction ts as [|t ts IH]; [done|]. simpl. destruct (is_uot t) eqn:Ht; simpl.
  - exists t. done.
  - destruct (position_uot ts) as [idx|]; simpl; [|done]. destruct IH as (t' & ? & ? & ?). exists t'. rewrite Ht. done.
Qed.

Lemma uot_position ts :
  match position_uot (reverse ts) with
  | Some idx => idx < length ts /\ (exists t, ts !! (length ts - 1 - idx) = Some t /\ is_uot t = true)
    /\ uot_after ts (length ts - 1 - idx) = false
  | None => existsb is_uot ts = false
  end.
Proof.
  pose proof (position_uot_spec (reverse ts)) as Hp. destruct (position_uot (reverse ts)) as [idx|].
  - destruct Hp as (t & Ht & Hu & He). apply reverse_lookup_Some in Ht as [Ht Hlt].
    split; [done|]. split.
    + exists t. split; [|done]. rewrite <- Ht. f_equal. lia.
    + unfold uot_after. rewrite take_reverse, existsb_reverse in He. rewrite <- He. f_equal. f_equal. lia.
  - by rewrite existsb_reverse in Hp.
Qed.

Lemma length_layers c :
  length (layers c) = length (builders c) + match last_builder c with Some _ => 1 | None => 0 end.
Proof. unfold layers. rewrite length_app, length_map. by destruct (last_builder c). Qed.

Lemma layers_builders c i : i < length (builders c) -> layers c !! i = protocol_type <$> builders c !! i.
Proof. intros Hi. unfold layers. rewrite lookup_app_l by (by rewrite length_map). apply list_lookup_fmap. Qed.

Lemma uot_exists ts i t : ts !! i = Some t -> is_uot t = true -> existsb is_uot ts = true.
Proof. intros Ht Hu. apply existsb_exists. exists t. split; [|done]. by eapply list_elem_of_In, list_elem_of_lookup_2. Qed.

Lemma uot_after_lookup ts i j t : ts !! j = Some t -> is_uot t = true -> i < j -> uot_after ts i = true.
Proof.
  intros Ht Hu Hij. apply (uot_exists _ (j - Datatypes.S i) t); [|done]. rewrite lookup_drop, <- Ht. f_equal. lia.
Qed.

Lemma last_uot_unique ts i j t u :
  ts !! i = Some t -> is_uot t = true -> uot_after ts i = false ->
  ts !! j = Some u -> is_uot u = true -> uot_after ts j = false -> i = j.
Proof.
  intros Hi Hti Hai Hj Htj Haj. destruct (Nat.lt_trichotomy i j) as [Hc|[Hc|Hc]]; [|done|].
  - by rewrite (uot_after_lookup _ _ _ _ Hj Htj Hc) in Hai.
  - by rewrite (uot_after_lookup _ _ _ _ Hi Hti Hc) in Haj.
Qed.

(** [build_inner_markers] never panics, and leaves the chain as it is. *)
Lemma inner_markers_total c :
  exists c', build_inner_markers c = Ok c' /\ builders c' = builders c /\ last_builder c' = last_builder c
  /\ remote_addr c' = remote_addr c.
Proof.
  unfold build_inner_markers. rewrite layer_types_rev. cbn [mbind res_bind].
  pose proof (uot_position (layers c)) as Hp. destruct (position_uot (reverse (layers c))) as [idx|]; [|by eexists].
  destruct Hp as (Hi & _). case_decide; [by eexists|].
  destruct (lookup_lt_is_Some_2 (builders c) (length (builders c) - idx)) as [bu ->]; [|by eexists].
  rewrite length_layers in Hi. destruct (last_builder c); lia.
Qed.

(** ** Theorems *)

(** What [build_inner_markers] computes on a chain that has a last builder
(every chain a configuration with a proxy gives).  There is one marker per
layer, and it says that a UDP-over-TCP layer follows, so that every layer
before the last such layer is built as TCP and every later one as UDP; the
chain is a black hole exactly when a layer is; and the address for the last
layer's packets is the remote address if no layer is UDP-over-TCP, and
otherwise, unless that layer is the last itself, the address that the
right-most UDP-over-TCP layer connects to.  The computation never panics. *)
Lemma chain_markers c b :
  last_builder c = Some b -> build_udp_marker c = [] -> last_udp_addr c = None ->
  exists c', build_inner_markers c = Ok c' /\
  builders c' = builders c /\ last_builder c' = Some b /\ remote_addr c' = remote_addr c /\
  length (build_udp_marker c') = length (layers c) /\
  (forall i, i < length (layers c) -> build_udp_marker c' !! i = Some (uot_after (layers c) i)) /\
  (is_black_hole c' = true <-> Blackhole ∈ layers c) /\
  (existsb is_uot (layers c) = false -> last_udp_addr c' = remote_addr c) /\
  (forall i bu, builders c !! i = Some bu -> is_uot (protocol_type bu) = true -> uot_after (layers c) i = false ->
    last_udp_addr c' = get_addr bu).
Proof.
  intros Hb Hm Hl. unfold build_inner_markers. rewrite layer_types_rev. cbn [mbind res_bind].
  pose proof (uot_position (layers c)) as Hp.
  assert (is_Some (last_builder c)) as Hsb by (by rewrite Hb).
  pose proof (length_layers c) as Hlen. rewrite Hb in Hlen.
  assert (existsb (fun x => bool_decide (x = Blackhole)) (reverse (layers c)) = true <-> Blackhole ∈ layers c) as Hhole.
  { rewrite existsb_reverse, existsb_exists. setoid_rewrite bool_decide_eq_true. split.
    - intros (x & Hx & ->). by apply list_elem_of_In.
    - intros Hx. exists Blackhole. split; [by apply list_elem_of_In|done]. }
  destruct (position_uot (reverse (layers c))) as [idx|].
  - destruct Hp as (Hi & (t & Ht & Hu) & Ha). destruct (decide (idx = 0)) as [->|Hnz].
    + cbn [mbind res_bind]. eexists. split; [done|]. cbn [builders last_builder remote_addr build_udp_marker is_black_hole last_udp_addr].
      rewrite Hm, markers_length, length_reverse. split_and!; try done; [by apply markers_lookup|..].
      * by rewrite (uot_exists _ _ _ Ht Hu).
      * intros i bu Hi' Hu' Ha'. exfalso. apply lookup_lt_Some in Hi' as Hlt.
        by rewrite (uot_after_lookup _ i _ _ Ht Hu ltac:(lia)) in Ha'.
    + assert (length (builders c) - idx < length (builders c)) as Hlt by lia.
      destruct (lookup_lt_is_Some_2 (builders c) _ Hlt) as [bu Hbu]. rewrite Hbu. cbn [mbind res_bind].
      eexists. split; [done|]. cbn [builders last_builder remote_addr build_udp_marker is_black_hole last_udp_addr].
      rewrite Hm, markers_length, length_reverse. split_and!; try done; [by apply markers_lookup|..].
      * by rewrite (uot_exists _ _ _ Ht Hu).
      * intros i bu' Hi' Hu' Ha'. apply lookup_lt_Some in Hi' as Hlt'.
        assert (layers c !! i = Some (protocol_type bu')) as Hli by (rewrite layers_builders by done; by rewrite Hi').
        pose proof (last_uot_unique _ _ _ _ _ Hli Hu' Ha' Ht Hu Ha) as ->.
        replace (length (layers c) - 1 - idx) with (length (builders c) - idx) in Hi' by lia. congruence.
  - cbn [mbind res_bind]. eexists. split; [done|]. cbn [builders last_builder remote_addr build_udp_marker is_black_hole last_udp_addr].
    rewrite Hm, markers_length, length_reverse. split_and!; try done; [by apply markers_lookup|].
    intros i bu Hi Hu _. exfalso. apply lookup_lt_Some in Hi as Hlt.
    assert (layers c !! i = Some (protocol_type bu)) as Hli by (rewrite layers_builders by done; by rewrite Hi).
    by rewrite (uot_exists _ _ _ Hli Hu) in Hp.
Qed.

Lemma filter_existsb {X} (f : X -> bool) (l : list X) :
  existsb f l = false -> filter (fun y => f y = true) l = [].
Proof.
  induction l as [|y l IH]; [done|]. simpl. intros [Hy Hl]%orb_false_iff.
  rewrite filter_cons_False by (by rewrite Hy). by apply IH.
Qed.

(** The right-most layer of a kind, by position. *)
Lemma last_filter_lookup {X} (f : X -> bool) (l : list X) i x :
  l !! i = Some x -> f x = true -> existsb f (drop (Datatypes.S i) l) = false ->
  last (filter (fun y => f y = true) l) = Some x.
Proof.
  intros Hi Hf Hd. rewrite <- (take_drop (Datatypes.S i) l), filter_app, (take_S_r _ _ _ Hi), filter_app.
  rewrite (filter_existsb f (drop _ _)) by done.
  rewrite app_nil_r, filter_cons_True, filter_nil by done. by rewrite last_snoc.
Qed.

Lemma existsb_layers c f : existsb f (layers c) =
  existsb (fun b => f (protocol_type b)) (builders c)
  || match last_builder c with Some b => f (get_protocol_type b) | None => false end.
Proof.
  unfold layers. rewrite existsb_app. f_equal.
  - induction (builders c) as [|b bs IH]; [done|]. simpl. by rewrite IH.
  - destruct (last_builder c); simpl; [apply orb_false_r|done].
Qed.

Lemma imap_markers c :
  zip (builders c) (build_udp_marker_impl [] (reverse (layers c)))
  = imap (fun i b => (b, uot_after (layers c) i)) (builders c).
Proof.
  apply list_eq. intros i. rewrite list_lookup_imap.
  rewrite lookup_zip_with.
  destruct (builders c !! i) as [b|] eqn:Hb; [|done]. simpl.
  rewrite markers_lookup; [done|]. apply lookup_lt_Some in Hb. rewrite length_layers. lia.
Qed.

Lemma markers_head ts :
  head (build_udp_marker_impl [] (reverse ts)) = match ts with [] => None | _ :: b => Some (existsb is_uot b) end.
Proof.
  rewrite head_lookup. destruct ts as [|t ts]; [done|]. rewrite markers_lookup by (simpl; lia). done.
Qed.

Lemma markers_last ts :
  ts <> [] -> last (build_udp_marker_impl [] (reverse ts)) = Some false.
Proof.
  intros Hts. rewrite last_lookup, markers_length, length_reverse.
  assert (0 < length ts) by (destruct ts; simpl; [done|lia]).
  rewrite markers_lookup by lia. f_equal. unfold uot_after. rewrite drop_ge by lia. done.
Qed.

Lemma hole_reverse ts :
  existsb (fun x => bool_decide (x = Blackhole)) (reverse ts) = existsb (fun x => bool_decide (x = Blackhole)) ts.
Proof. apply existsb_reverse. Qed.

(** The address computed for the packets is only used when the last layer is a
configuration that is not UDP-over-TCP; there it is [packet_target]. *)
Lemma last_udp_target c c' b :
  build_inner_markers c = Ok c' -> build_udp_marker c = [] -> last_udp_addr c = None ->
  last_builder c = Some b -> is_uot (get_protocol_type b) = false -> last_udp_addr c' = packet_target c.
Proof.
  intros Hm Hn Hl Hb Hu.
  destruct (chain_markers c b Hb Hn Hl) as (c2 & E & _ & _ & _ & _ & _ & _ & Hnone & Hsome).
  rewrite Hm in E. injection E as <-. unfold packet_target.
  pose proof (existsb_layers c is_uot) as Hex. rewrite Hb, Hu, orb_false_r in Hex.
  pose proof (uot_position (layers c)) as Hp. destruct (position_uot (reverse (layers c))) as [idx|].
  - destruct Hp as (Hi & (t & Ht & Htu) & Ha). set (i := length (layers c) - 1 - idx) in *.
    assert (i < length (builders c)) as Hib.
    { rewrite length_layers, Hb in Hi. destruct (decide (idx = 0)) as [->|]; [|unfold i; rewrite length_layers, Hb; lia].
      exfalso. unfold layers in Ht. rewrite Hb in Ht. unfold i in Ht.
      rewrite length_layers, Hb, lookup_app_r, length_map in Ht by (rewrite length_map; lia).
      replace (length (builders c) + 1 - 1 - 0 - length (builders c)) with 0 in Ht by lia. simpl in Ht. congruence. }
    destruct (lookup_lt_is_Some_2 _ _ Hib) as [bu Hbu].
    assert (t = protocol_type bu) as -> by (rewrite layers_builders, Hbu in Ht by done; simpl in Ht; congruence).
    rewrite (last_filter_lookup (fun b => is_uot (protocol_type b)) _ i bu) by
      (done || (unfold uot_after in Ha; pose proof (existsb_layers (mkChain (drop (Datatypes.S i) (builders c)) None None [] None true false) is_uot) as Hd;
      cbn [builders last_builder] in Hd; rewrite orb_false_r in Hd; rewrite <- Hd; clear Hd;
      unfold layers in Ha |- *; cbn [builders last_builder] in *; rewrite drop_app_le in Ha by (rewrite length_map; lia);
      rewrite existsb_app in Ha; apply orb_false_iff in Ha as [Ha _]; by rewrite app_nil_r, <- skipn_map)).
    by apply (Hsome i bu).
  - rewrite filter_existsb by congruence. by apply Hnone.
Qed.

(** C10: UDP through a chain.  With the markers of [build_inner_markers],
[build_udp] refuses a black hole and otherwise carries out [udp_plan]: it
puts the layers on in order, each told whether a UDP-over-TCP layer comes
after it, and the last layer always as a packet layer, with the connection's
target if it is UDP-over-TCP and else the address its carrier connects to.
The dialled socket is TCP exactly when a UDP-over-TCP layer comes after the
first layer: a chain whose only such layer is its first one is dialled over
UDP.  A chain without layers panics. *)
Theorem chain_udp_plan c c' target ip :
  build_udp_marker c = [] -> last_udp_addr c = None -> build_inner_markers c = Ok c' ->
  chain_build_udp c' target ip = udp_plan c target ip.
Proof.
  intros Hn Hl Hm. pose proof (fun b => last_udp_target c c' b Hm Hn Hl) as Ht.
  destruct (inner_markers_total c) as (c2 & E & Hb1 & Hb2 & Hb3). rewrite Hm in E. injection E as <-.
  assert (is_black_hole c' = existsb (fun x => bool_decide (x = Blackhole)) (layers c) /\         build_udp_marker c' = build_udp_marker_impl [] (reverse (layers c))) as [Eh Em].
  { unfold build_inner_markers in Hm. rewrite layer_types_rev, Hn in Hm. cbn [mbind res_bind] in Hm. rewrite hole_reverse in Hm.
    destruct (match position_uot _ with Some _ => _ | None => _ end); cbn [mbind res_bind] in Hm; [|done..].
    by injection Hm as <-. }
  unfold chain_build_udp, udp_plan. rewrite Eh, Em, Hb1, Hb2, Hb3, markers_head, imap_markers.
  destruct (existsb _ _); [done|]. destruct (layers c) as [|t behind] eqn:El; [done|].
  rewrite markers_last by done.
  destruct (if existsb is_uot behind then _ else _) as [s|e|]; cbn [mbind res_bind]; [|done..].
  destruct (build_udp_all _ s) as [s2|e|]; cbn [mbind res_bind]; [|done..].
  destruct (last_builder c) as [b|] eqn:Elb; [|done].
  destruct (is_uot (get_protocol_type b)) eqn:Eu; [done|]. by rewrite (Ht b).
Qed.
End Chain.

(** ** Witness *)

Section Witness.
(** A stream is the list of the layers put on it, outside first. *)
Inductive wit_layer := DialTcp (a : Address) | DialUdp (a : Address) | Layer (p : ProtocolType) (a : option Address) (tcp : bool).

Abbreviation wit_cfg := (ProtocolType * option Address)%type.

#[local] Instance wit_chainable : ChainableStreamBuilder wit_cfg (list wit_layer) (list wit_layer) := {|
    build_tcp b s := Ok (s ++ [Layer b.1 b.2 true]);
    build_udp b s m := Ok (s ++ [Layer b.1 b.2 m]);
    protocol_type := fst;
    get_addr := snd
  |}.
#[local] Instance wit_configs : ToChainableStreamBuilder wit_cfg wit_cfg := {|
    to_chainable_stream_builder c a := Ok (c.1, a);
    get_protocol_type := fst;
    cfg_get_addr := snd
  |}.
#[local] Instance wit_dialer : Dialer (list wit_layer) (list wit_layer) unit := {|
    connect_tcp a := Ok [DialTcp a];
    connect_tcp_u a := Ok [DialTcp a];
    bind_connect_udp _ a := Ok [DialUdp a]
  |}.

Definition wit_a (s : string) (p : Z) : Address := DomainNameAddress (str s) p.

(** A websocket and a VMess layer, then Shadowsocks packets through them. *)
Definition wit_chain : ChainStreamBuilder (B := wit_cfg) (C := wit_cfg) :=
  push_last_builder (SS, Some (wit_a "ss" 3))
  (push (Vmess, Some (wit_a "ss" 3)) (push (WS, None) (push_remote_addr (wit_a "v" 1) ChainStreamBuilder_new))).

(** VMess alone. *)
Definition wit_alone : ChainStreamBuilder (B := wit_cfg) (C := wit_cfg) :=
  push_last_builder (Vmess, Some (wit_a "v" 1)) (push_remote_addr (wit_a "v" 1) ChainStreamBuilder_new).

Definition built (c : ChainStreamBuilder (B := wit_cfg) (C := wit_cfg)) : res (list wit_layer) :=
  c' ← build_inner_markers c; chain_build_udp c' (wit_a "t" 9) tt.

Lemma chain_udp_plan_witness :
  built wit_chain = Ok [DialTcp (wit_a "v" 1); Layer WS None true; Layer Vmess (Some (wit_a "ss" 3)) false;
    Layer SS (Some (wit_a "ss" 3)) false] /\
  built wit_alone = Ok [DialUdp (wit_a "v" 1); Layer Vmess (Some (wit_a "t" 9)) false].
Proof.
  split.
  - transitivity (udp_plan wit_chain (wit_a "t" 9) tt); [|vm_compute; reflexivity].
    unfold built. destruct (build_inner_markers wit_chain) as [c'|e|] eqn:E; [|vm_compute in E; discriminate E..].
    exact (chain_udp_plan wit_chain c' _ _ eq_refl eq_refl E).
  - transitivity (udp_plan wit_alone (wit_a "t" 9) tt); [|vm_compute; reflexivity].
    unfold built. destruct (build_inner_markers wit_alone) as [c'|e|] eqn:E; [|vm_compute in E; discriminate E..].
    exact (chain_udp_plan wit_alone c' _ _ eq_refl eq_refl E).
Defined.
End Witness.
