(* ===== verification/Leb128.v ===== *)
(** * LEB128

    The variable-length integers of protobuf's wire format, which the crates
    prost (Grpc.v) and protobuf (Protobuf.v) read and write.  The models take
    those crates' functions as parameters; this is the concrete encoding the
    witnesses run them with. *)

From S2P Require Import Prelude Io StdText.
From Stdlib Require Import ZArith Lia List Strings.Byte.
From stdpp Require Import base option list strings.

Fixpoint leb_encode (fuel : nat) (v : Z) : bytes :=
  match fuel with
  | O => []
  | S f => if (v <? 128)%Z then [z2b v] else z2b (v mod 128 + 128) :: leb_encode f (v / 128)
  end.

Fixpoint leb_decode (fuel : nat) (b : bytes) : option (Z * bytes) :=
  match fuel, b with
  | S f, x :: r =>
    if (b2z x <? 128)%Z then Some (b2z x, r)
    else match leb_decode f r with
    | Some (v, r') => Some (b2z x - 128 + 128 * v, r')%Z
    | None => None
    end
  | _, _ => None
  end.

Lemma leb_decode_encode fuel v r :
  (0 <= v < 128 ^ Z.of_nat fuel)%Z -> 0 < fuel ->
  leb_decode fuel (leb_encode fuel v ++ r) = Some (v, r) /\ 1 <= length (leb_encode fuel v) <= fuel.
Proof.
  revert v. induction fuel as [|fuel IH]; intros v Hv Hf; [lia|]. cbn [leb_encode].
  destruct (Z.ltb_spec v 128) as [Hs|Hs].
  - cbn [leb_decode app length]. rewrite b2z_small, (proj2 (Z.ltb_lt _ _)) by lia. split; [done|lia].
  - rewrite Nat2Z.inj_succ, Z.pow_succ_r in Hv by lia.
    pose proof (Z.div_mod v 128 ltac:(lia)). pose proof (Z.mod_pos_bound v 128 ltac:(lia)).
    destruct (decide (fuel = 0)) as [->|]; [change (128 ^ Z.of_nat 0)%Z with 1%Z in Hv; lia|].
    destruct (IH (v / 128)%Z ltac:(nia) ltac:(lia)) as [E Hl].
    cbn [leb_decode app length]. rewrite b2z_small, (proj2 (Z.ltb_ge _ _)), E by lia.
    split; [do 2 f_equal; lia|lia].
Qed.

Lemma leb_decode_law fuel b v r : leb_decode fuel b = Some (v, r) -> (0 <= v)%Z /\ length r < length b.
Proof.
  revert b v r. induction fuel as [|fuel IH]; intros [|x b] v r; simpl; try done.
  pose proof (b2z_range x). destruct (Z.ltb_spec (b2z x) 128); [intros [= <- <-]; lia|].
  destruct (leb_decode fuel b) as [[v' r']|] eqn:E; [|done]. intros [= <- <-]. apply IH in E. lia.
Qed.

Definition leb_decode64 (b : bytes) : res (Z * bytes) :=
  match leb_decode 10 b with
  | Some (v, r) => if decide (v < 2 ^ 64)%Z then Ok (v, r) else Err (IoError Other "invalid varint")
  | None => Err (IoError Other "invalid varint")
  end.
