(* ===== verification/Transport.v ===== *)
(** * Interfaces of the transports

    The WebSocket, HTTP/2, gRPC and obfuscation layers turn messages or frames
    of a protocol crate into a byte stream.  What a reader of such a stream
    may rely on is the class [PollSource], what a writer may rely on the class
    [PollSink]; the transports implement them, and the theorems about whole
    runs of polls are proved once, here, from the classes. *)

From S2P Require Import Prelude Io StdText.
From Stdlib Require Import ZArith Lia List.
From stdpp Require Import base option list strings.

Lemma mjoin_cons {A} (x : list A) (l : list (list A)) : mjoin (x :: l) = x ++ mjoin l.
Proof. done. Qed.

(** [map_err(new_error)]. *)
Definition map_new_error {A} (r : res A) : res A :=
  match r with
  | Err e => Err (new_error (err_msg e))
  | r => r
  end.

(** ** Reading *)

Section Reads.
Context {St : Type} (poll : nat -> St -> Poll (res bytes) * St).

(** A task polls with destinations of the given sizes, and stops at an error. *)
Fixpoint poll_reads (caps : list nat) (s : St) : list (Poll (res bytes)) * St :=
  match caps with
  | [] => ([], s)
  | cap :: caps' =>
    let '(p, s1) := poll cap s in
    match p with
    | Ready (Err _) | Ready Panic => ([p], s1)
    | _ => let '(ps, s2) := poll_reads caps' s1 in (p :: ps, s2)
    end
  end.
End Reads.

(** The bytes in an answer. *)
Definition answer_bytes (p : Poll (res bytes)) : bytes :=
  match p with Ready (Ok d) => d | _ => [] end.

Definition delivered (ps : list (Poll (res bytes))) : bytes := flat_map answer_bytes ps.

(** [content s c]: [s] is well-formed and still has the bytes [c] to deliver.  A
    poll delivers a prefix of them that fits the destination, and loses
    nothing; after an error nothing more is promised. *)
Class PollSource {St : Type} (poll : nat -> St -> Poll (res bytes) * St) (content : St -> bytes -> Prop) := {
  source_poll cap s c p s' :
    content s c -> poll cap s = (p, s') ->
    length (answer_bytes p) <= cap /\ p <> Ready Panic /\
    exists c', c = answer_bytes p ++ c' /\ ((forall e, p <> Ready (Err e)) -> content s' c')
}.

Section SourceLaws.
Context {St : Type} {poll : nat -> St -> Poll (res bytes) * St}.
Context {content : St -> bytes -> Prop} `{!PollSource poll content}.

Lemma source_reads caps s c ps s' :
  content s c -> poll_reads poll caps s = (ps, s') ->
  Forall (fun p => p <> Ready Panic) ps /\
  exists c', c = delivered ps ++ c' /\ (Forall (fun p => forall e, p <> Ready (Err e)) ps -> content s' c').
Proof.
  revert s c ps s'. induction caps as [|cap caps IH]; intros s c ps s' Hs; simpl;
    [intros [= <- <-]; by eauto|].
  destruct (poll cap s) as [p s1] eqn:E. destruct (source_poll _ _ _ _ _ Hs E) as (_ & Hp & c1 & -> & Hg).
  assert (forall qs s2, (forall e, p <> Ready (Err e)) -> poll_reads poll caps s1 = (qs, s2) ->
    Forall (fun p => p <> Ready Panic) (p :: qs) /\
    exists c', answer_bytes p ++ c1 = delivered (p :: qs) ++ c'
    /\ (Forall (fun p => forall e, p <> Ready (Err e)) (p :: qs) -> content s2 c')) as Hgo.
  { intros qs s2 He Eq. destruct (IH _ _ _ _ (Hg He) Eq) as (Hf & c2 & -> & Hg2). split; [by constructor|].
    exists c2. cbn [delivered flat_map]. rewrite app_assoc. split; [done|]. intros HF. apply Hg2. by inversion HF. }
  destruct p as [[d|e|]|]; [|intros [= <- <-]|done|];
    [destruct (poll_reads poll caps s1); intros [= <- <-]; by apply Hgo| |
    destruct (poll_reads poll caps s1); intros [= <- <-]; by apply Hgo].
  split; [by constructor|]. exists c1. split; [done|]. intros HF. inversion HF as [|? ? He]. by destruct (He e).
Qed.
End SourceLaws.

(** ** Writing *)

(** [sent s] are the bytes handed over so far.  A write that answers [n] has
    handed over exactly the first [n] bytes of its buffer. *)
Class PollSink {St : Type} (poll_write : bytes -> St -> Poll (res nat) * St)
    (good : St -> Prop) (sent : St -> bytes) := {
  sink_write buf s p s' :
    good s -> poll_write buf s = (p, s') ->
    good s' /\
    match p with
    | Ready (Ok n) => n <= length buf /\ sent s' = sent s ++ take n buf
    | Ready Panic => False
    | _ => sent s' = sent s
    end
}.

(** [write_all] of a task that is polled [fuel] times: what was accepted is
    taken off the front, and the answer 0 is an error. *)
Section WriteAll.
Context {St : Type} (poll_write : bytes -> St -> Poll (res nat) * St).

Fixpoint sink_write_all (fuel : nat) (buf : bytes) (s : St) : Poll (res unit) * St :=
  match buf, fuel with
  | [], _ => (Ready (Ok tt), s)
  | _, O => (Pending, s)
  | _, S f =>
    match poll_write buf s with
    | (Pending, s') => sink_write_all f buf s'
    | (Ready (Err e), s') => (Ready (Err e), s')
    | (Ready Panic, s') => (Ready Panic, s')
    | (Ready (Ok n), s') =>
      if decide (n = 0) then (Ready (Err (IoError WriteZero "")), s')
      else if decide (n <= length buf) then sink_write_all f (drop n buf) s'
      else (Ready Panic, s')       (* [buf.split_at(n)] *)
    end
  end.
End WriteAll.

Section SinkLaws.
Context {St : Type} {poll_write : bytes -> St -> Poll (res nat) * St}.
Context {good : St -> Prop} {sent : St -> bytes} `{!PollSink poll_write good sent}.

(** Whatever the answers, a prefix of the buffer was handed over, and all of it
when the write succeeded. *)
Lemma sink_write_all_spec fuel buf s p s' :
  good s -> sink_write_all poll_write fuel buf s = (p, s') ->
  good s' /\ p <> Ready Panic /\
  exists d, d `prefix_of` buf /\ sent s' = sent s ++ d /\ (p = Ready (Ok tt) -> d = buf).
Proof.
  revert buf s. induction fuel as [|fuel IH]; intros [|b buf] s Hg; simpl;
    try (intros [= <- <-]; split_and!; [done..|]; exists []; split_and!;
    [apply prefix_nil|by rewrite app_nil_r|done]).
  destruct (poll_write (b :: buf) s) as [q s1] eqn:E.
  destruct (sink_write _ _ _ _ Hg E) as [Hg1 Hq].
  destruct q as [[n|e|]|]; [|intros [= <- <-]|done|].
  - destruct Hq as [Hn Hs]. case_decide; [intros [= <- <-]|rewrite decide_True by done; intros Hr].
    + subst n. rewrite take_0 in Hs. split_and!; [done..|]. exists []. split_and!; [apply prefix_nil|done|done].
    + destruct (IH _ _ Hg1 Hr) as (Hg2 & Hp & d & [k Hk] & Hs2 & Hd). split_and!; [done..|].
      exists (take n (b :: buf) ++ d). rewrite Hs2, Hs, app_assoc. split_and!; [|done|].
      * exists k. rewrite <- app_assoc, <- Hk. by rewrite take_drop.
      * intros Hok. rewrite (Hd Hok). by rewrite take_drop.
  - split_and!; [done..|]. exists []. rewrite app_nil_r. split_and!; [apply prefix_nil|done|done].
  - intros Hr. destruct (IH _ _ Hg1 Hr) as (Hg2 & Hp & d & Hk & Hs2 & Hd). rewrite Hq in Hs2. eauto 10.
Qed.
End SinkLaws.

(** ** Writers that suspend *)

(** A layer that suspends a write may have taken a part of the buffer, and must
be given the same buffer again, as tokio's [write_all] and the relay do.
[wrote s a o]: [s] has accepted the bytes [a] and, if [o] is a buffer, is in
the middle of writing it.  [handed s x]: what [s] has put on the wire is of
the bytes [x]. *)
Class RetrySink {St : Type} (poll_write : bytes -> St -> Poll (res nat) * St)
    (wrote : St -> bytes -> option bytes -> Prop) (handed : St -> bytes -> Prop) := {
  rs_start s a buf : wrote s a None -> buf <> [] -> wrote s a (Some buf);
  rs_write buf s a p s' :
    buf <> [] -> wrote s a (Some buf) -> poll_write buf s = (p, s') ->
    match p with
    | Ready (Ok n) => n <= length buf /\ wrote s' (a ++ take n buf) None
    | Ready (Err _) => handed s' (a ++ buf)
    | Ready Panic => False
    | Pending => wrote s' a (Some buf)
    end;
  rs_handed s a o : wrote s a o -> handed s (a ++ default [] o);
  rs_handed_mono s x y : handed s x -> x `prefix_of` y -> handed s y
}.

Section RetryLaws.
Context {St : Type} {poll_write : bytes -> St -> Poll (res nat) * St}.
Context {wrote : St -> bytes -> option bytes -> Prop} {handed : St -> bytes -> Prop} `{!RetrySink poll_write wrote handed}.

(** [s] may be given the buffer [b]. *)
Definition offered (s : St) (a b : bytes) : Prop := exists o, wrote s a o /\ (o = None \/ o = Some b /\ b <> []).

Lemma offered_handed s a b : offered s a b -> handed s (a ++ b).
Proof.
  intros (o & Hw & Ho). eapply rs_handed_mono; [by eapply rs_handed|]. apply prefix_app.
  destruct Ho as [->|[-> _]]; [apply prefix_nil|done].
Qed.

Lemma offered_some s a b : offered s a b -> b <> [] -> wrote s a (Some b).
Proof. intros (o & Hw & [->|[-> _]]) Hb; [by apply rs_start|done]. Qed.

Lemma wrote_offered s a b : wrote s a None -> offered s a b.
Proof. intros Hw. exists None. auto. Qed.

(** Whatever the answers of a [write_all], what went out is of the bytes
accepted before and the buffer; a write that succeeds is accepted whole. *)
Lemma retry_write_all fuel buf s a p s' :
  offered s a buf -> sink_write_all poll_write fuel buf s = (p, s') ->
  p <> Ready Panic /\ handed s' (a ++ buf) /\ (p = Ready (Ok tt) -> wrote s' (a ++ buf) None).
Proof.
  revert buf s a. induction fuel as [|f IH]; intros [|x buf] s a Ho; cbn [sink_write_all].
  1,3: intros [= <- <-]; split; [done|]; split; [by apply offered_handed|];
    intros _; rewrite app_nil_r; by destruct Ho as (o & Hw & [->|[_ []]]).
  { intros [= <- <-]. split; [done|]. split; [by apply offered_handed|done]. }
  pose proof (offered_some _ _ _ Ho ltac:(done)) as Hw. destruct (poll_write (x :: buf) s) as [q s1] eqn:Ew.
  pose proof (rs_write (x :: buf) s a q s1 ltac:(done) Hw Ew) as Hq. destruct q as [[n|e|]|]; [|intros [= <- <-]|done|].
  - destruct Hq as [Hn Hw1]. case_decide as Hz.
    + subst n. intros [= <- <-]. rewrite take_0, app_nil_r in Hw1. split; [done|]. split; [|done].
      apply offered_handed. exists None. auto.
    + rewrite decide_True by done. intros Hr. apply (IH _ _ (a ++ take n (x :: buf))) in Hr; [|by apply wrote_offered].
      by rewrite <- app_assoc, take_drop in Hr.
  - by split_and!.
  - apply IH. exists (Some (x :: buf)). auto.
Qed.
End RetryLaws.

(** A sink that takes what it accepts is one; [base] is what it was sent
before. *)
Section PlainRetry.
Context {St : Type} {poll_write : bytes -> St -> Poll (res nat) * St}.
Context {good : St -> Prop} {sent : St -> bytes} `{!PollSink poll_write good sent} (base : bytes).

Definition plain_wrote (s : St) (a : bytes) (o : option bytes) : Prop := good s /\ sent s = a /\ base `prefix_of` a.
Definition plain_handed (s : St) (x : bytes) : Prop := good s /\ base `prefix_of` sent s /\ sent s `prefix_of` x.

Lemma plain_retry : RetrySink poll_write plain_wrote plain_handed.
Proof.
  unfold plain_wrote, plain_handed. constructor.
  - done.
  - intros buf s a p s' _ (Hg & <- & Hb) Hw. destruct (sink_write _ _ _ _ Hg Hw) as [Hg' Hp].
    destruct p as [[n|e|]|]; [| |done|by rewrite Hp].
    { destruct Hp as [Hn Hp]. split_and!; [done|done|done|by apply prefix_app_r]. }
    rewrite Hp. split_and!; [done..|]. by eexists.
  - intros s a o (Hg & <- & Hb). split_and!; [done..|]. by eexists.
  - intros s x y (Hg & Hs & Ha) Hxy. split_and!; [done..|]. by etrans.
Qed.
End PlainRetry.

(** ** Sources that end once *)

(** An empty read is the end: nothing was left. *)
Definition ends_once {St : Type} (poll : nat -> St -> Poll (res bytes) * St) (content : St -> bytes -> Prop) : Prop :=
  forall cap s c s', 0 < cap -> content s c -> poll cap s = (Ready (Ok []), s') -> c = [].
