(* ===== verification/Tls.v ===== *)
(** * The TLS layer (src/src/proxy/tls)

    The program's own part of the TLS layer: which of the system's
    certificates are trusted (unix.rs, macos.rs, windows.rs), how the connector
    and a connection are configured, what the layer does with a stream, and the
    callback that decompresses a certificate (tls_stream.rs).

    The crate boring, the systems' certificate stores and the brotli decoder
    are arguments and classes. *)

From S2P Require Import Prelude Io StdText Chain Transport.
From Stdlib Require Import ZArith Lia List Strings.Byte.
From stdpp Require Import base option list gmap strings.

(** [map_err(|err| Error::new(ErrorKind::Other, err))]. *)
Definition map_other {A} (r : res A) : res A :=
  match r with
  | Err e => Err (IoError Other (err_msg e))
  | r => r
  end.

(** [unwrap]. *)
Definition unwrap {A} (r : res A) : res A := match r with Err _ => Panic | r => r end.

(** ** The system's certificates *)

Section Certs.
Context {X509 : Type} (from_der : bytes -> res X509).

(** unix.rs: the file that [openssl_probe] finds, if any. *)
Definition unix_load_native_certs (cert_file : option bytes) (read_file : bytes -> res bytes)
  (stack_from_pem : bytes -> res (list X509)) : res (list X509) :=
  match cert_file with
  | Some cert_file =>
    pem ← read_file cert_file;
    map_new_error (stack_from_pem pem)
  | None => Ok []
  end.

(** windows.rs. *)
Inductive ValidUses := UsesAll | UsesOids (oids : list bytes).

Definition PKIX_SERVER_AUTH : bytes := str "1.3.6.1.5.5.7.3.1".

Definition usable_for_rustls (uses : ValidUses) : bool :=
  match uses with
  | UsesAll => true
  | UsesOids strs => existsb (fun x => bool_decide (x = PKIX_SERVER_AUTH)) strs
  end.

(** A certificate of the store; its uses and its validity may be unreadable. *)
Record StoreCert := mkStoreCert { st_uses : res ValidUses; st_time_valid : res bool; st_der : bytes }.

Fixpoint windows_certs (store : list StoreCert) : res (list X509) :=
  match store with
  | [] => Ok []
  | cert :: store =>
    uses ← unwrap (st_uses cert);
    usable ← (if usable_for_rustls uses then unwrap (st_time_valid cert) else Ok false);
    if (usable : bool) then
      x ← map_new_error (from_der (st_der cert));
      certs ← windows_certs store; Ok (x :: certs)
    else windows_certs store
  end.

Definition windows_load_native_certs (open_current_user : res (list StoreCert)) : res (list X509) :=
  store ← open_current_user; windows_certs store.

(** macos.rs. *)
Inductive Domain := DomainUser | DomainAdmin | DomainSystem.
Inductive TrustSettingsForCertificate := Invalid | TrustRoot | TrustAsRoot | Deny | Unspecified.

#[export] Instance trust_eq_dec : EqDecision TrustSettingsForCertificate.
Proof. solve_decision. Defined.

Definition is_trusted (t : TrustSettingsForCertificate) : bool :=
  match t with TrustRoot | TrustAsRoot => true | _ => false end.

Context {Cert : Type} (to_der : Cert -> bytes).
Context (ts_iter : Domain -> res (list Cert)) (tls_trust : Domain -> Cert -> res (option TrustSettingsForCertificate)).
Abbreviation Certs := (gmap bytes TrustSettingsForCertificate).

(** [all_certs.entry(der).or_insert(trusted)]. *)
Definition or_insert (der : bytes) (trusted : TrustSettingsForCertificate) (m : Certs) : Certs :=
  match m !! der with Some _ => m | None => <[der := trusted]> m end.

Fixpoint collect_certs (d : Domain) (certs : list Cert) (all_certs : Certs) : res Certs :=
  match certs with
  | [] => Ok all_certs
  | cert :: certs =>
    let der := to_der cert in
    trusted ← map_other (tls_trust d cert);
    collect_certs d certs (or_insert der (default TrustRoot trusted) all_certs)
  end.

Fixpoint collect_domains (ds : list Domain) (all_certs : Certs) : res Certs :=
  match ds with
  | [] => Ok all_certs
  | d :: ds => certs ← map_other (ts_iter d); all_certs ← collect_certs d certs all_certs; collect_domains ds all_certs
  end.

(** [all_certs.drain()]: in an unspecified order. *)
Fixpoint trusted_certs (entries : list (bytes * TrustSettingsForCertificate)) : res (list X509) :=
  match entries with
  | [] => Ok []
  | (der, trusted) :: entries =>
    if is_trusted trusted then
      x ← map_new_error (from_der der);
      certs ← trusted_certs entries; Ok (x :: certs)
    else trusted_certs entries
  end.

Definition macos_load_native_certs : res (list X509) :=
  all_certs ← collect_domains [DomainUser; DomainAdmin; DomainSystem] ∅;
  trusted_certs (map_to_list all_certs).

(** ** Specification: the settings in the order of the domains *)

Fixpoint domain_settings (ds : list Domain) : list (bytes * TrustSettingsForCertificate) :=
  match ds with
  | [] => []
  | d :: ds =>
    (match ts_iter d with
    | Ok certs => (fun c => (to_der c, match tls_trust d c with Ok t => default TrustRoot t | _ => TrustRoot end)) <$> certs
    | _ => []
    end) ++ domain_settings ds
  end.

Fixpoint first_setting (der : bytes) (l : list (bytes * TrustSettingsForCertificate)) : option TrustSettingsForCertificate :=
  match l with
  | [] => None
  | (k, t) :: l => if decide (k = der) then Some t else first_setting der l
  end.

(** ** Lemmas *)

Lemma first_setting_app der l1 l2 :
  first_setting der (l1 ++ l2) = match first_setting der l1 with Some t => Some t | None => first_setting der l2 end.
Proof. induction l1 as [|[k t] l1 IH]; [done|]. cbn [app first_setting]. by case_decide. Qed.

Lemma or_insert_lookup der t m k :
  or_insert der t m !! k = match m !! k with Some t => Some t | None => if decide (der = k) then Some t else None end.
Proof.
  unfold or_insert. destruct (decide (der = k)) as [->|Hne].
  - destruct (m !! k) eqn:E; [done|]. by rewrite lookup_insert_eq.
  - destruct (m !! der); [by destruct (m !! k)|]. rewrite lookup_insert_ne by done. by destruct (m !! k).
Qed.

Lemma collect_certs_lookup d certs m m' k : collect_certs d certs m = Ok m' ->
  m' !! k = match m !! k with
  | Some t => Some t
  | None => first_setting k ((fun c => (to_der c, match tls_trust d c with Ok t => default TrustRoot t | _ => TrustRoot end)) <$> certs)
  end.
Proof.
  revert m. induction certs as [|c certs IH]; intros m; cbn [collect_certs].
  - intros [= <-]. by destruct (m !! k).
  - destruct (tls_trust d c) as [t|e|] eqn:Et; [|done..]. cbn [map_other mbind res_bind]. intros Hc. rewrite (IH _ Hc), or_insert_lookup.
    cbn [fmap list_fmap first_setting]. rewrite Et. destruct (m !! k); [done|]. by case_decide.
Qed.

Lemma collect_domains_lookup ds m m' k : collect_domains ds m = Ok m' ->
  m' !! k = match m !! k with Some t => Some t | None => first_setting k (domain_settings ds) end.
Proof.
  revert m. induction ds as [|d ds IH]; intros m; cbn [collect_domains].
  - intros [= <-]. by destruct (m !! k).
  - destruct (ts_iter d) as [certs|e|] eqn:Ei; [|done..]. cbn [map_other mbind res_bind].
    destruct (collect_certs d certs m) as [m1|e|] eqn:Ec; [|done..]. cbn [mbind res_bind]. intros Hd.
    rewrite (IH _ Hd), (collect_certs_lookup _ _ _ _ _ Ec). cbn [domain_settings]. rewrite Ei, first_setting_app.
    by destruct (m !! k).
Qed.

Lemma trusted_certs_in l certs x : trusted_certs l = Ok certs ->
  x ∈ certs <-> exists der t, (der, t) ∈ l /\ is_trusted t = true /\ from_der der = Ok x.
Proof.
  revert certs. induction l as [|[k t] l IH]; intros certs; cbn [trusted_certs].
  - intros [= <-]. split; [by intros ?%not_elem_of_nil|]. intros (? & ? & []%not_elem_of_nil & _).
  - destruct (is_trusted t) eqn:Et.
    + destruct (from_der k) as [y|e|] eqn:Ey; [|done..]. cbn [mbind res_bind].
      destruct (trusted_certs l) as [cs|e|]; [|done..]. cbn [mbind res_bind]. intros [= <-]. specialize (IH _ eq_refl).
      rewrite elem_of_cons, IH. clear IH. split.
      * intros [->|(d & u & Hin & Hu & Hd)]; [exists k, t|exists d, u]; (split; [set_solver|done]).
      * intros (d & u & [[= -> ->]|Hin]%elem_of_cons & Hu & Hd); [left; congruence|right; eauto].
    + intros Hc. rewrite (IH _ Hc). clear IH. split; intros (d & u & Hin & Hu & Hd); exists d, u; [set_solver|].
      split; [|done]. apply elem_of_cons in Hin as [[= -> ->]|?]; [congruence|done].
Qed.

(** ** Theorems *)

(** On macOS a certificate is trusted exactly when the first domain (user,
administrator, system) that has a setting for it trusts it; one without
settings of its own is trusted. *)
Theorem macos_trust certs x : macos_load_native_certs = Ok certs ->
  x ∈ certs <-> exists der t, first_setting der (domain_settings [DomainUser; DomainAdmin; DomainSystem]) = Some t /\
  is_trusted t = true /\ from_der der = Ok x.
Proof.
  unfold macos_load_native_certs. destruct (collect_domains _ ∅) as [m|e|] eqn:Em; [|done..]. cbn [mbind res_bind]. intros Ht.
  rewrite (trusted_certs_in _ _ x Ht). repeat (apply exist_proper; intro). rewrite elem_of_map_to_list, (collect_domains_lookup _ _ _ _ Em).
  by rewrite lookup_empty.
Qed.

End Certs.

(** ** The connector *)

Inductive SslVersion := TLS1_2.
Inductive SslSignatureAlgorithm :=
| ECDSA_SECP256R1_SHA256 | RSA_PSS_RSAE_SHA256 | RSA_PKCS1_SHA256
| ECDSA_SECP384R1_SHA384 | RSA_PSS_RSAE_SHA384 | RSA_PKCS1_SHA384
| RSA_PSS_RSAE_SHA512 | RSA_PKCS1_SHA512.

Definition TLSEXT_cert_compression_brotli : Z := 2.

(** [boring::ssl::SslConnectorBuilder]: an operation that fails is answered with
its error. *)
Class SslConnectorBuilder (CB : Type) := {
  ssl_builder : res CB;
  set_ca_file : bytes -> CB -> res CB;
  set_alpn_protos : bytes -> CB -> res CB;
  set_cipher_list : bytes -> CB -> res CB;
  set_verify_algorithm_prefs : list SslSignatureAlgorithm -> CB -> res CB;
  set_min_proto_version : option SslVersion -> CB -> res CB;
  enable_signed_cert_timestamps : CB -> CB;
  enable_ocsp_stapling : CB -> CB;
  set_grease_enabled : bool -> CB -> CB;
  add_cert_compression_alg : Z -> CB -> CB
}.
Class SslCertStore (CB X509 : Type) := { add_cert : X509 -> CB -> res unit * CB }.
Class SslBuild (CB Connector : Type) := { ssl_build : CB -> Connector }.

(** A configured connection; [tls_connect] is the handshake. *)
Class SslConfigure (Connector Cfg : Type) := { configure : Connector -> res Cfg }.
Class SslConfiguration (Cfg : Type) := {
  set_use_server_name_indication : bool -> Cfg -> Cfg;
  set_verify_hostname : bool -> Cfg -> Cfg;
  add_application_settings : bytes -> bytes -> Cfg -> Cfg
}.
Class TlsHandshake (Cfg S : Type) := { tls_connect : Cfg -> bytes -> S -> res S }.

Definition alpn_protos : bytes := (x02 :: str "h2") ++ (x08 :: str "http/1.1").
Definition verify_algorithm_prefs : list SslSignatureAlgorithm :=
  [ECDSA_SECP256R1_SHA256; RSA_PSS_RSAE_SHA256; RSA_PKCS1_SHA256; ECDSA_SECP384R1_SHA384; RSA_PSS_RSAE_SHA384;
   RSA_PKCS1_SHA384; RSA_PSS_RSAE_SHA512; RSA_PKCS1_SHA512].

Record TlsStreamBuilder (Connector : Type) := mkTlsStreamBuilder {
  tsb_connector : Connector;
  tsb_sni : bytes;
  tsb_verify_hostname : bool;
  tsb_verify_sni : bool
}.
Arguments mkTlsStreamBuilder {Connector} _ _ _ _.
Arguments tsb_connector {Connector} _.
Arguments tsb_sni {Connector} _.
Arguments tsb_verify_hostname {Connector} _.
Arguments tsb_verify_sni {Connector} _.

Section Connector.
Context {CB Connector X509 : Type} `{SslConnectorBuilder CB, SslCertStore CB X509, SslBuild CB Connector}.

(** [TlsStreamBuilder::new_from_config]; [native] is what [load_native_certs]
answers.  A certificate that the store refuses is left out. *)
Definition tls_new_from_config (native : res (list X509)) (sni : bytes)
  (cert_file : option bytes) (verify_hostname verify_sni : bool) : res (TlsStreamBuilder Connector) :=
  configuration ← unwrap (ssl_builder (CB := CB));
  certs ← unwrap native;
  let configuration := fold_left (fun c cert => (add_cert cert c).2) certs configuration in
  configuration ← match cert_file with Some f => unwrap (set_ca_file f configuration) | None => Ok configuration end;
  configuration ← unwrap (set_alpn_protos alpn_protos configuration);
  configuration ← unwrap (set_cipher_list (str "ALL:!aPSK:!ECDSA+SHA1:!3DES") configuration);
  configuration ← unwrap (set_verify_algorithm_prefs verify_algorithm_prefs configuration);
  configuration ← unwrap (set_min_proto_version (Some TLS1_2) configuration);
  let configuration := enable_signed_cert_timestamps configuration in
  let configuration := enable_ocsp_stapling configuration in
  let configuration := set_grease_enabled true configuration in
  let configuration := add_cert_compression_alg TLSEXT_cert_compression_brotli configuration in
  Ok (mkTlsStreamBuilder (ssl_build configuration) sni verify_hostname verify_sni).
End Connector.

(** *** A toy connector for the witnesses

A connector is its certificates; no file can be read. *)
Definition toy_ssl : SslConnectorBuilder (list bytes) := {|
    ssl_builder := Ok [];
    set_ca_file f _ := Err (new_error "no such file");
    set_alpn_protos _ c := Ok c;
    set_cipher_list _ c := Ok c;
    set_verify_algorithm_prefs _ c := Ok c;
    set_min_proto_version _ c := Ok c;
    enable_signed_cert_timestamps c := c;
    enable_ocsp_stapling c := c;
    set_grease_enabled _ c := c;
    add_cert_compression_alg _ c := c
  |}.
Definition toy_store : SslCertStore (list bytes) bytes := {| add_cert x c := (Ok tt, c ++ [x]) |}.
Definition toy_ssl_build : SslBuild (list bytes) (list bytes) := {| ssl_build c := c |}.

Section Stream.
Context {Connector Cfg S : Type} `{SslConfigure Connector Cfg, SslConfiguration Cfg, TlsHandshake Cfg S}.

(** [build_tcp_impl!]. *)
Definition tls_build_tcp (b : TlsStreamBuilder Connector) (io : S) : res S :=
  configuration ← unwrap (configure (tsb_connector b));
  let configuration := set_use_server_name_indication (tsb_verify_sni b) (configuration : Cfg) in
  let configuration := set_verify_hostname (tsb_verify_hostname b) configuration in
  let configuration := add_application_settings (str "h2") [x00; x03] configuration in
  map_new_error (tls_connect configuration (tsb_sni b) io).

Definition tls_build_udp (b : TlsStreamBuilder Connector) (io : S) (build_tcp_inside : bool) : res S :=
  if build_tcp_inside then tls_build_tcp b io else Ok io.
End Stream.

(** ** Certificate compression *)

Section Decompress.
Context (CRYPTO_BUFFER_alloc : nat -> option bytes) (brotli_decompress : bytes -> nat -> option bytes).

(** The answer and the buffer handed out; the decoder overwrites a prefix of
the buffer. *)
Definition decompress_ssl_cert (uncompressed_len : nat) (in_ : bytes) : Z * option bytes :=
  match CRYPTO_BUFFER_alloc uncompressed_len with
  | None => (0%Z, None)
  | Some buf =>
    match brotli_decompress in_ uncompressed_len with
    | Some out => (1%Z, Some (out ++ drop (length out) buf))
    | None => (0%Z, None)                     (* CRYPTO_BUFFER_free *)
    end
  end.

(** A certificate compressed by [compress] and announced with its length is
handed out as it was; announced with a larger length it is handed out with
whatever the allocation left in the rest of the buffer. *)
Theorem decompress_announced (compress : bytes -> bytes) (cert buf : bytes) (n : nat) :
  (forall c k, length c <= k -> brotli_decompress (compress c) k = Some c) ->
  CRYPTO_BUFFER_alloc n = Some buf -> length buf = n -> length cert <= n ->
  exists out, decompress_ssl_cert n (compress cert) = (1%Z, Some out) /\ length out = n /\
  out = cert ++ drop (length cert) buf /\ (n = length cert -> out = cert).
Proof.
  intros Hc Ha Hb Hl. unfold decompress_ssl_cert. rewrite Ha, (Hc _ _ Hl). eexists. split; [done|]. split_and!; [|done|].
  - rewrite length_app, length_drop. lia.
  - intros ->. rewrite drop_ge by lia. by rewrite app_nil_r.
Qed.
End Decompress.
