(* ===== verification/Route.v ===== *)
(** * The router (src/src/config/route.rs, src/src/config/utils.rs)

    [KeepInsertOrderMap]; the [RouterBuilder] that collects domain, regex and
    CIDR rules by outbound tag, from the configuration and from the geosite and
    geoip files; and [Router::match_addr].

    The crates behind it are parameters with their documented behaviour:
    [DomainMatcher] (crate domain_matcher), [RegexSet] (regex), [IpCidr]
    (cidr_utils) and [CodedInputStream] (protobuf).  The order in which the
    standard library's hash map yields its entries is unspecified: it is a
    parameter too. *)

From S2P Require Import Prelude StdText Address IpTrie.
From Stdlib Require Import ZArith Lia List.
From stdpp Require Import base option list gmap strings.

(** Tags of outbounds. *)
Abbreviation tag := (list Byte.byte).

(** ** KeepInsertOrderMap *)

Record KeepInsertOrderMap (V : Type) := mkKiom {
  kiom_data : list (tag * V);
  kiom_order : gmap tag nat
}.
Arguments mkKiom {V} _ _.
Arguments kiom_data {V} _.
Arguments kiom_order {V} _.

Section Kiom.
Context {V : Type}.
Implicit Type m : KeepInsertOrderMap V.

Definition kiom_new : KeepInsertOrderMap V := mkKiom [] ∅.

Definition kiom_insert (key : tag) (v : V) (m : KeepInsertOrderMap V) : KeepInsertOrderMap V :=
  match kiom_order m !! key with
  | None => mkKiom (kiom_data m ++ [(key, v)]) (<[key := length (kiom_data m)]> (kiom_order m))
  | Some _ => m
  end.

(** [get_mut] followed by an update of the value; [None]: no such key. *)
Definition kiom_get_mut (k : tag) (f : V -> V) (m : KeepInsertOrderMap V) : option (res (KeepInsertOrderMap V)) :=
  match kiom_order m !! k with
  | Some idx =>
    match kiom_data m !! idx with
    | Some (key, v) => Some (Ok (mkKiom (<[idx := (key, f v)]> (kiom_data m)) (kiom_order m)))
    | None => Some Panic
    end
  | None => None
  end.

Definition kiom_contains_key (k : tag) (m : KeepInsertOrderMap V) : bool := bool_decide (is_Some (kiom_order m !! k)).

Definition kiom_into_iter (m : KeepInsertOrderMap V) : list (tag * V) := kiom_data m.

(** The index is exact and keys are distinct. *)
Definition kiom_ok (m : KeepInsertOrderMap V) : Prop :=
  forall k i, kiom_order m !! k = Some i <-> exists v, kiom_data m !! i = Some (k, v).

(** The association list the map stands for. *)
Fixpoint kassoc (l : list (tag * V)) (k : tag) : option V :=
  match l with
  | [] => None
  | (k', v) :: l => if decide (k' = k) then Some v else kassoc l k
  end.
End Kiom.

(** ** Third-party matchers *)

Inductive MatchType := Full | Domain | SubStr.

Class DomainMatcher (M : Type) := {
  mph_new : M;
  hybrid_new : M;
  reverse_insert : M -> bytes -> MatchType -> M;
  dm_build : M -> M;
  reverse_query : M -> bytes -> bool;
  dm_rule : bytes * MatchType -> bytes -> bool;     (* a rule matches a domain *)
  (* after [build], a query answers whether an inserted rule matches *)
  dm_spec mph rules d :
    reverse_query (dm_build (fold_left (fun m r => reverse_insert m r.1 r.2) rules (if mph : bool then mph_new else hybrid_new))) d
    = existsb (fun r => dm_rule r d) rules
}.

Class RegexSetBuilder (R : Type) := {
  regex_build : list bytes -> option R;
  is_match : R -> bytes -> bool;
  regex_rule : bytes -> bytes -> bool;
  regex_spec rules r d : regex_build rules = Some r -> is_match r d = existsb (fun e => regex_rule e d) rules
}.

Inductive IpCidr := CidrV4 (prefix bits : Z) | CidrV6 (prefix bits : Z).

(** ** Protobuf messages (the generated src/src/config/geosite.rs and geoip.rs) *)

Inductive domain_type := Plain | Regex | DomainT | FullT.

Record DomainMsg := mkDomain { dom_type : domain_type; dom_value : bytes }.

Record CIDR := mkCIDR { cidr_ip : bytes; cidr_prefix : Z }.

Inductive cidr_field := FieldIp (ip : bytes) | FieldPrefix (z : Z) | FieldOther.

(** [CIDR::merge_from]: the fields present replace the old ones. *)
Fixpoint cidr_merge_from (fields : list cidr_field) (c : CIDR) : CIDR :=
  match fields with
  | [] => c
  | FieldIp ip :: fs => cidr_merge_from fs (mkCIDR ip (cidr_prefix c))
  | FieldPrefix z :: fs => cidr_merge_from fs (mkCIDR (cidr_ip c) z)
  | FieldOther :: fs => cidr_merge_from fs c
  end.

(** What a protobuf file holds, as [CodedInputStream] gives it out. *)
Inductive token :=
| TVarint (z : Z)
| TString (s : bytes)
| TDomain (d : DomainMsg)
| TCidr (fields : list cidr_field).

Definition skippable (t : token) : bool := match t with TVarint _ => false | _ => true end.

Class CodedInputStream (I : Type) := {
  is_eof : I -> res bool;
  read_raw_varint32 : I -> res (Z * I);
  read_raw_varint64 : I -> res (Z * I);
  read_string : I -> res (bytes * I);
  read_domain : I -> res (DomainMsg * I);
  read_cidr : I -> res (list cidr_field * I);
  skip_field : Z -> I -> res I;
  valid_wire_type : Z -> bool;
  (* the stream stands for the tokens *)
  ci_reads : I -> list token -> Prop;
  ci_wire_2 : valid_wire_type 2 = true;
  ci_eof_nil i : ci_reads i [] -> is_eof i = Ok true;
  ci_eof_cons i t ts : ci_reads i (t :: ts) -> is_eof i = Ok false;
  ci_varint32 i z ts : ci_reads i (TVarint z :: ts) -> exists i', read_raw_varint32 i = Ok (z, i') /\ ci_reads i' ts;
  ci_varint64 i z ts : ci_reads i (TVarint z :: ts) -> exists i', read_raw_varint64 i = Ok (z, i') /\ ci_reads i' ts;
  ci_string i s ts : ci_reads i (TString s :: ts) -> exists i', read_string i = Ok (s, i') /\ ci_reads i' ts;
  ci_domain i d ts : ci_reads i (TDomain d :: ts) -> exists i', read_domain i = Ok (d, i') /\ ci_reads i' ts;
  ci_cidr i c ts : ci_reads i (TCidr c :: ts) -> exists i', read_cidr i = Ok (c, i') /\ ci_reads i' ts;
  ci_skip i t ts : ci_reads i (t :: ts) -> skippable t = true -> exists i', skip_field 2 i = Ok i' /\ ci_reads i' ts
}.

Definition TAG_TYPE_BITS : Z := 3.
Definition TAG_TYPE_MASK : Z := Z.shiftl 1 TAG_TYPE_BITS - 1.

Definition to_field_num_and_wire_type {I} `{CodedInputStream I} (value : Z) : res (Z * Z) :=
  let wire_type := Z.land value TAG_TYPE_MASK in
  if negb (valid_wire_type wire_type)
  then Err (new_error ("unexpected wire type: " ++ bytes_to_string (show_dec wire_type)))
  else
    let field_number := Z.shiftr value TAG_TYPE_BITS in
    if decide (field_number = 0)%Z then Err (new_error "unexpected field number: 0")
    else Ok (field_number, wire_type).

(** [str::to_uppercase] on the ASCII letters the tags consist of. *)
Definition to_upper (b : byte) : byte :=
  if decide (97 <= b2z b <= 122)%Z then z2b (b2z b - 32) else b.
Definition to_uppercase (s : bytes) : bytes := map to_upper s.

(** ** The builder *)

Section Builder.
Context {M R : Type} `{DomainMatcher M} `{RegexSetBuilder R}.

Record RouterBuilder := mkRouterBuilder {
  rb_domain : KeepInsertOrderMap M;
  rb_ip : GeoIPMatcher;
  rb_regex : KeepInsertOrderMap (list bytes)
}.

Definition RouterBuilder_new : RouterBuilder := mkRouterBuilder kiom_new GeoIPMatcher_new kiom_new.

Definition add_regex_rules (outbound_tag : tag) (regex_rules : list bytes) (b : RouterBuilder) : res RouterBuilder :=
  m ← match kiom_get_mut outbound_tag (fun exprs => exprs ++ regex_rules) (rb_regex b) with
  | Some m => m
  | None => Ok (kiom_insert outbound_tag regex_rules (rb_regex b))
  end;
  Ok (mkRouterBuilder (rb_domain b) (rb_ip b) m).

(** A rule that is not a CIDR ([is_ip_cidr] is false) is logged and skipped;
[parse] is the answer of [is_ip_cidr] and [from_str]. *)
Fixpoint add_cidr_rules (oc : bool) (parse : bytes -> option IpCidr) (outbound_tag : tag) (ip_rules : list bytes)
  (b : RouterBuilder) : res RouterBuilder :=
  match ip_rules with
  | [] => Ok b
  | rule :: rules =>
    ip ← match parse rule with
    | Some (CidrV4 prefix bits) => put_v4 oc (rb_ip b) prefix bits outbound_tag
    | Some (CidrV6 prefix bits) => put_v6 oc (rb_ip b) prefix bits outbound_tag
    | None => Ok (rb_ip b)
    end;
    add_cidr_rules oc parse outbound_tag rules (mkRouterBuilder (rb_domain b) ip (rb_regex b))
  end.

Definition add_domain_rules (rule : bytes) (outbound_tag : tag) (match_type : MatchType) (use_mph : bool)
  (b : RouterBuilder) : res RouterBuilder :=
  m ← match kiom_get_mut outbound_tag (fun m => reverse_insert m rule match_type) (rb_domain b) with
  | Some m => m
  | None => Ok (kiom_insert outbound_tag
      (reverse_insert (if use_mph then mph_new else hybrid_new) rule match_type) (rb_domain b))
  end;
  Ok (mkRouterBuilder m (rb_ip b) (rb_regex b)).

(** *** The geosite file *)

Context {I : Type} `{CodedInputStream I}.

(** A domain of a selected site group. *)
Definition add_geosite_domain (d : DomainMsg) (outbound_tag : tag) (b : RouterBuilder) : res RouterBuilder :=
  let ins t :=
  match kiom_get_mut outbound_tag (fun m => reverse_insert m (dom_value d) t) (rb_domain b) with
  | Some m => m ← m; Ok (mkRouterBuilder m (rb_ip b) (rb_regex b))
  | None => Panic
  end in
  match dom_type d with
  | Plain => ins SubStr
  | DomainT => ins Domain
  | FullT => ins Full
  | Regex =>
    (* the matcher is unwrapped before the match *)
    match kiom_get_mut outbound_tag id (rb_domain b) with
    | None => Panic
    | Some _ => add_regex_rules outbound_tag [dom_value d] b
    end
  end.

(** The local variables of the reading loop. *)
Record site_state := mkSite { si_tag : bytes; si_skip : option tag; si_builder : RouterBuilder }.

(** The outer [while] reads the head of the first entry; the inner one never
leaves before the end of the file, so the heads of the later entries come
to it as field 1 while a group tag is set. *)
Definition geosite_field (geosite_tags : gmap bytes tag) (i : I) (st : site_state) : res (I * site_state) :=
  '(v, i) ← read_raw_varint32 i;
  '(field_number, wire_type) ← to_field_num_and_wire_type v;
  if decide (field_number = 1)%Z then
    if decide (si_tag st <> []) then
      '(_, i) ← read_raw_varint64 i;
      Ok (i, mkSite [] (si_skip st) (si_builder st))
    else
      '(s, i) ← read_string i;
      Ok (i, mkSite s (geosite_tags !! s) (si_builder st))
  else if decide (field_number = 2)%Z then
    match si_skip st with
    | None => i ← skip_field wire_type i; Ok (i, st)
    | Some outbound_tag =>
      '(d, i) ← read_domain i;
      b ← add_geosite_domain d outbound_tag (si_builder st);
      Ok (i, mkSite (si_tag st) (si_skip st) b)
    end
  else Ok (i, st).

(** The inner [while]; [None] is a run longer than the fuel. *)
Fixpoint geosite_loop (fuel : nat) (geosite_tags : gmap bytes tag) (i : I) (st : site_state) : option (res (I * site_state)) :=
  match fuel with
  | O => None
  | S f =>
    match is_eof i with
    | Ok true => Some (Ok (i, st))
    | Ok false =>
      match geosite_field geosite_tags i st with
      | Ok (i, st) => geosite_loop f geosite_tags i st
      | Err e => Some (Err e)
      | Panic => Some Panic
      end
    | _ => Some Panic          (* [is.eof().unwrap()] *)
    end
  end.

Fixpoint geosite_outer (fuel : nat) (geosite_tags : gmap bytes tag) (i : I) (st : site_state) : option (res RouterBuilder) :=
  match fuel with
  | O => None
  | S f =>
    match is_eof i with
    | Ok true => Some (Ok (si_builder st))
    | Ok false =>
      match ('(_, i) ← read_raw_varint32 i; read_raw_varint64 i) with
      | Ok (_, i) =>
        match geosite_loop f geosite_tags i st with
        | Some (Ok (i, st)) => geosite_outer f geosite_tags i st
        | Some (Err e) => Some (Err e)
        | Some Panic => Some Panic
        | None => None
        end
      | Err e => Some (Err e)
      | Panic => Some Panic
      end
    | Err e => Some (Err e)
    | Panic => Some Panic
    end
  end.

(** The matchers of the tags named are created first. *)
Definition geosite_prepare (geosite_tags : gmap bytes tag) (use_mph : bool) (b : RouterBuilder) : RouterBuilder :=
  fold_left (fun b e =>
    if kiom_contains_key (snd e) (rb_domain b) then b
    else mkRouterBuilder (kiom_insert (snd e) (if use_mph then mph_new else hybrid_new) (rb_domain b)) (rb_ip b) (rb_regex b))
  (map_to_list geosite_tags) b.

(** [file]: the opened file, or the error of opening it. *)
Definition read_geosite_file (fuel : nat) (file : I + io_error) (geosite_tags : gmap bytes tag) (use_mph : bool)
  (b : RouterBuilder) : option (res RouterBuilder) :=
  let b := geosite_prepare geosite_tags use_mph b in
  match file with
  | inr e => Some (Err e)
  | inl i => geosite_outer fuel geosite_tags i (mkSite [] None b)
  end.

(** *** The geoip file *)

Record ip_state := mkIpState { ii_code : bytes; ii_skip : bool; ii_cidr : CIDR; ii_builder : RouterBuilder }.

(** An entry of a selected country; [get_u128] and [get_u32] take the address
out of [cidr.ip]. *)
Definition add_geoip_cidr (oc : bool) (outbound_tag : tag) (c : CIDR) (b : RouterBuilder) : res (CIDR * RouterBuilder) :=
  let n := length (cidr_ip c) in
  if decide (n = 16) then
    ip ← put_v6 oc (rb_ip b) (be_val (cidr_ip c)) (wrap 8 (cidr_prefix c)) outbound_tag;
    Ok (mkCIDR [] (cidr_prefix c), mkRouterBuilder (rb_domain b) ip (rb_regex b))
  else if decide (n = 4) then
    ip ← put_v4 oc (rb_ip b) (be_val (cidr_ip c)) (wrap 8 (cidr_prefix c)) outbound_tag;
    Ok (mkCIDR [] (cidr_prefix c), mkRouterBuilder (rb_domain b) ip (rb_regex b))
  else Ok (c, b).

Definition geoip_field (oc : bool) (outbound_tag : tag) (geoip_tags : gset bytes) (i : I) (st : ip_state) : res (I * ip_state) :=
  '(v, i) ← read_raw_varint32 i;
  '(field_number, wire_type) ← to_field_num_and_wire_type v;
  if decide (field_number = 1)%Z then
    if decide (ii_code st <> []) then
      '(_, i) ← read_raw_varint64 i;
      Ok (i, mkIpState [] (ii_skip st) (ii_cidr st) (ii_builder st))
    else
      '(s, i) ← read_string i;
      let code := to_uppercase s in
      Ok (i, mkIpState code (bool_decide (code ∉ geoip_tags)) (ii_cidr st) (ii_builder st))
  else if decide (field_number = 2)%Z then
    if ii_skip st then i ← skip_field wire_type i; Ok (i, st)
    else
      '(fields, i) ← read_cidr i;
      '(c, b) ← add_geoip_cidr oc outbound_tag (cidr_merge_from fields (ii_cidr st)) (ii_builder st);
      Ok (i, mkIpState (ii_code st) (ii_skip st) c b)
  else Ok (i, st).

Fixpoint geoip_loop (fuel : nat) (oc : bool) (outbound_tag : tag) (geoip_tags : gset bytes) (i : I) (st : ip_state)
  : option (res (I * ip_state)) :=
  match fuel with
  | O => None
  | S f =>
    match is_eof i with
    | Ok true => Some (Ok (i, st))
    | Ok false =>
      match geoip_field oc outbound_tag geoip_tags i st with
      | Ok (i, st) => geoip_loop f oc outbound_tag geoip_tags i st
      | Err e => Some (Err e)
      | Panic => Some Panic
      end
    | Err e => Some (Err e)
    | Panic => Some Panic
    end
  end.

Fixpoint geoip_outer (fuel : nat) (oc : bool) (outbound_tag : tag) (geoip_tags : gset bytes) (i : I) (st : ip_state)
  : option (res RouterBuilder) :=
  match fuel with
  | O => None
  | S f =>
    match is_eof i with
    | Ok true => Some (Ok (ii_builder st))
    | Ok false =>
      match ('(_, i) ← read_raw_varint32 i; read_raw_varint64 i) with
      | Ok (_, i) =>
        match geoip_loop f oc outbound_tag geoip_tags i st with
        | Some (Ok (i, st)) => geoip_outer f oc outbound_tag geoip_tags i st
        | Some (Err e) => Some (Err e)
        | Some Panic => Some Panic
        | None => None
        end
      | Err e => Some (Err e)
      | Panic => Some Panic
      end
    | Err e => Some (Err e)
    | Panic => Some Panic
    end
  end.

Definition read_geoip_file (fuel : nat) (oc : bool) (file : I + io_error) (outbound_tag : tag) (geoip_tags : list bytes)
  (b : RouterBuilder) : option (res RouterBuilder) :=
  let geoip_tags := list_to_set (map to_uppercase geoip_tags) : gset bytes in
  match file with
  | inr e => Some (Err e)
  | inl i => geoip_outer fuel oc outbound_tag geoip_tags i (mkIpState [] false (mkCIDR [] 0) b)
  end.

(** ** The router *)

Record Router := mkRouter {
  rt_domain : list (tag * M);
  rt_ip : GeoIPMatcher;
  rt_regex : list (tag * R);
  rt_default : tag
}.

Fixpoint build_regex (rules : list (tag * list bytes)) (acc : gmap tag R) : res (gmap tag R) :=
  match rules with
  | [] => Ok acc
  | (t, exprs) :: rules =>
    match regex_build exprs with
    | Some r => build_regex rules (<[t := r]> acc)
    | None => Err (new_error "router builder build regex set failed:")
    end
  end.

(** [hash_order]: the order in which a [HashMap] yields its entries. *)
Definition router_build (hash_order : gmap tag R -> list (tag * R)) (default_outbound_tag : tag) (b : RouterBuilder) : res Router :=
  regex ← build_regex (kiom_into_iter (rb_regex b)) ∅;
  Ok (mkRouter (map (fun e => (fst e, dm_build (snd e))) (kiom_into_iter (rb_domain b)))
    (rb_ip b) (hash_order regex) default_outbound_tag).

Definition socket_addr_v4_to_u32 (ip4 : Ipv4Addr) : Z := be_val (octets4 ip4).
Definition socket_addr_v6_to_u128 (ip6 : Ipv6Addr) : Z := be_val (octets6 ip6).

Definition or_default (r : Router) (t : tag) : tag := if decide (t = []) then rt_default r else t.

Definition match_socket_addr (r : Router) (addr : SocketAddr) : res tag :=
  match addr with
  | V4 ip _ => t ← match4 (rt_ip r) (socket_addr_v4_to_u32 ip); Ok (or_default r t)
  | V6 ip _ _ _ => t ← match6 (rt_ip r) (socket_addr_v6_to_u128 ip); Ok (or_default r t)
  end.

Definition first_match {X} (q : X -> bool) (l : list (tag * X)) : option tag :=
  fst <$> find (fun e => q (snd e)) l.

Definition match_addr (r : Router) (addr : Address) : res tag :=
  match addr with
  | SocketAddress (V4 ip _) => t ← match4 (rt_ip r) (socket_addr_v4_to_u32 ip); Ok (or_default r t)
  | SocketAddress (V6 ip _ _ _) => t ← match6 (rt_ip r) (socket_addr_v6_to_u128 ip); Ok (or_default r t)
  | DomainNameAddress d _ =>
    Ok (match first_match (fun m => reverse_query m d) (rt_domain r) with
    | Some t => t
    | None => match first_match (fun x => is_match x d) (rt_regex r) with
      | Some t => t
      | None => rt_default r
      end
    end)
  end.

(** ** From the configuration ([build_router]) *)

Record DomainRoutingRules := mkDomainRules {
  dr_tag : tag;
  dr_full : list bytes;
  dr_domain : list bytes;
  dr_regex : list bytes;
  dr_substr : list bytes;
  dr_use_mph : bool
}.

Record IpRoutingRules := mkIpRules { ir_tag : tag; ir_cidr : list bytes }.

Record GeoSiteRules := mkGeoSite { gs_tag : tag; gs_file : bytes; gs_rules : list bytes; gs_use_mph : bool }.

Record GeoIpRules := mkGeoIp { gi_tag : tag; gi_file : bytes; gi_rules : list bytes }.

Fixpoint add_all {X} (f : X -> RouterBuilder -> res RouterBuilder) (xs : list X) (b : RouterBuilder) : res RouterBuilder :=
  match xs with
  | [] => Ok b
  | x :: xs => b ← f x b; add_all f xs b
  end.

Definition add_domain_routing (dr : DomainRoutingRules) (b : RouterBuilder) : res RouterBuilder :=
  b ← add_all (fun r => add_domain_rules r (dr_tag dr) Full (dr_use_mph dr)) (dr_full dr) b;
  b ← add_all (fun r => add_domain_rules r (dr_tag dr) Domain (dr_use_mph dr)) (dr_domain dr) b;
  b ← add_all (fun r => add_domain_rules r (dr_tag dr) SubStr (dr_use_mph dr)) (dr_substr dr) b;
  add_regex_rules (dr_tag dr) (dr_regex dr) b.

Section BuildRouter.
Context (oc : bool) (parse : bytes -> option IpCidr) (open : bytes -> I + io_error) (fuel : nat).
Context (hash_order : gmap tag R -> list (tag * R)).

(** A file that outlasts the fuel does not occur in the statements below;
[Panic] stands for it. *)
Definition from_fuel {X} (o : option (res X)) : res X := default Panic o.

Definition add_geosite (g : GeoSiteRules) (b : RouterBuilder) : res RouterBuilder :=
  let tags := list_to_map (map (fun r => (to_uppercase r, gs_tag g)) (gs_rules g)) : gmap bytes tag in
  from_fuel (read_geosite_file fuel (open (gs_file g)) tags (gs_use_mph g) b).

Definition add_geoip (g : GeoIpRules) (b : RouterBuilder) : res RouterBuilder :=
  from_fuel (read_geoip_file fuel oc (open (gi_file g)) (gi_tag g) (gi_rules g) b).

Definition build_router (domain_rules : list DomainRoutingRules) (ip_rules : list IpRoutingRules)
  (geosite_rules : list GeoSiteRules) (geoip_rules : list GeoIpRules) (default_outbound_tag : tag) : res Router :=
  b ← add_all add_domain_routing domain_rules RouterBuilder_new;
  b ← add_all (fun r => add_cidr_rules oc parse (ir_tag r) (ir_cidr r)) ip_rules b;
  b ← add_all add_geosite geosite_rules b;
  b ← add_all add_geoip geoip_rules b;
  router_build hash_order default_outbound_tag b.
End BuildRouter.
End Builder.
