(* ===== verification/RouteProofs.v ===== *)
(** * Properties of the router

    The insertion-ordered maps of the builder are represented by the history
    of the rules added ([models]); the router's answer is then a function of
    that history ([domain_spec]).  The reader of a geosite file
    adds the rules of the selected groups to that history; after the reader of a
    geoip file the matchers answer by the longest match among the networks before
    it and those written in the file ([file_nets]). *)

From S2P Require Import Prelude StdText Address IpTrie Route.
From Stdlib Require Import ZArith Lia List Strings.Byte.
From stdpp Require Import base option list gmap strings sorting.

(** ** The insertion-ordered map *)

Section KiomLemmas.
Context {V : Type}.
Implicit Type m : KeepInsertOrderMap V.

Definition keys m : list tag := map fst (kiom_data m).

(** Add a tag at its first occurrence. *)
Definition add_tag (l : list tag) (t : tag) : list tag := if decide (t ∈ l) then l else l ++ [t].

Lemma kiom_ok_keys m : kiom_ok m <-> forall k i, kiom_order m !! k = Some i <-> keys m !! i = Some k.
Proof.
  unfold kiom_ok, keys. assert (forall k i, (exists v, kiom_data m !! i = Some (k, v)) <-> map fst (kiom_data m) !! i = Some k) as E.
  { intros k i. rewrite list_lookup_fmap. destruct (kiom_data m !! i) as [[k' v]|]; simpl; [|naive_solver].
    split; [intros (? & [= -> ->]); done|intros [= ->]; eauto]. }
  split; intros Hm k i; [rewrite <- E|rewrite E]; apply Hm.
Qed.

Lemma kiom_keys_nodup m : kiom_ok m -> NoDup (keys m).
Proof.
  rewrite kiom_ok_keys. intros Hm. apply NoDup_alt. intros i j k Hi Hj.
  apply Hm in Hi, Hj. congruence.
Qed.

Lemma kiom_new_ok : kiom_ok (@kiom_new V).
Proof. rewrite kiom_ok_keys. intros k i. unfold kiom_new, keys. simpl. by rewrite lookup_empty, lookup_nil. Qed.

Lemma kassoc_lookup (l : list (tag * V)) k : NoDup (map fst l) -> forall i v, l !! i = Some (k, v) -> kassoc l k = Some v.
Proof.
  induction l as [|[k' v'] l IH]; [done|]. intros Hnd [|i] v Hi; simpl in *.
  - injection Hi as -> ->. by rewrite decide_True.
  - apply NoDup_cons in Hnd as [Hn Hnd]. rewrite decide_False; [by eapply IH|].
    intros ->. apply Hn. apply list_elem_of_lookup_2 with i. by rewrite list_lookup_fmap, Hi.
Qed.

Lemma kassoc_none (l : list (tag * V)) k : k ∉ map fst l -> kassoc l k = None.
Proof.
  induction l as [|[k' v'] l IH]; [done|]. simpl. intros Hn. rewrite decide_False by set_solver. apply IH. set_solver.
Qed.

Lemma kassoc_app (l1 l2 : list (tag * V)) k :
  kassoc (l1 ++ l2) k = match kassoc l1 k with Some v => Some v | None => kassoc l2 k end.
Proof. induction l1 as [|[k' v'] l1 IH]; [done|]. simpl. by case_decide. Qed.

Lemma kassoc_insert (l : list (tag * V)) i k v w k' :
  NoDup (map fst l) -> l !! i = Some (k, v) ->
  kassoc (<[i := (k, w)]> l) k' = if decide (k = k') then Some w else kassoc l k'.
Proof.
  revert i. induction l as [|[a b] l IH]; [done|]. intros [|i] Hnd Hi; simpl in *.
  - injection Hi as -> ->. by case_decide.
  - apply NoDup_cons in Hnd as [Hn Hnd]. rewrite (IH i) by done. destruct (decide (a = k')) as [->|]; [|done].
    rewrite decide_False; [done|]. intros ->. apply Hn. apply list_elem_of_lookup_2 with i. by rewrite list_lookup_fmap, Hi.
Qed.

(** Update the value of a key, or insert it. *)
Definition upsert (t : tag) (f : V -> V) (init : V) m : res (KeepInsertOrderMap V) :=
  match kiom_get_mut t f m with Some m => m | None => Ok (kiom_insert t init m) end.

Lemma upsert_spec t f init m :
  kiom_ok m -> exists m', upsert t f init m = Ok m' /\ kiom_ok m' /\ keys m' = add_tag (keys m) t /\
  forall k, kassoc (kiom_data m') k
  = if decide (t = k) then Some (match kassoc (kiom_data m) t with Some v => f v | None => init end)
  else kassoc (kiom_data m) k.
Proof.
  intros Hm. pose proof (kiom_keys_nodup m Hm) as Hnd. pose proof Hm as Hk. rewrite kiom_ok_keys in Hk.
  unfold upsert, kiom_get_mut, add_tag. destruct (kiom_order m !! t) as [i|] eqn:Eo.
  - destruct (Hm t i) as [Hv _]. destruct (Hv Eo) as [v Ev]. rewrite Ev.
    assert (keys (mkKiom (<[i := (t, f v)]> (kiom_data m)) (kiom_order m)) = keys m) as Hkeys.
    { unfold keys. cbn [kiom_data]. rewrite list_fmap_insert. simpl. apply list_insert_id.
      rewrite list_lookup_fmap, Ev. done. }
    eexists. split; [done|]. split; [|split].
    + apply kiom_ok_keys. rewrite Hkeys. exact Hk.
    + rewrite Hkeys, decide_True; [done|]. apply list_elem_of_lookup_2 with i. by apply Hk.
    + intros k. cbn [kiom_data]. rewrite (kassoc_insert _ _ _ v) by done. by rewrite (kassoc_lookup _ t Hnd _ _ Ev).
  - assert (t ∉ keys m) as Hn.
    { intros [i Hi]%list_elem_of_lookup. apply Hk in Hi. congruence. }
    unfold kiom_insert. rewrite Eo. eexists. split; [done|]. split; [|split].
    + apply kiom_ok_keys. intros k i. cbn [kiom_order]. unfold keys. cbn [kiom_data]. rewrite map_app.
      rewrite lookup_insert_Some, lookup_app_Some, length_map. rewrite Hk. unfold keys. split.
      * intros [[<- <-]|[Hne Hi]]; [right; split; [lia|by rewrite Nat.sub_diag]|left; done].
      * intros [Hi|[Hle Hi]].
  -- right. split; [|done]. intros <-. apply Hn. by apply list_elem_of_lookup_2 in Hi.
  -- left. destruct (i - length (kiom_data m)) as [|j] eqn:Ej; [|done]. injection Hi as <-. split; [done|lia].
    + rewrite decide_False by done. unfold keys. cbn [kiom_data]. by rewrite map_app.
    + intros k. cbn [kiom_data]. rewrite kassoc_app, (kassoc_none _ t Hn). simpl.
      destruct (decide (t = k)) as [->|]; [by rewrite (kassoc_none _ k Hn)|]. by destruct (kassoc (kiom_data m) k).
Qed.

(** A search over the entries is a search over the keys. *)
Lemma find_keys (q : V -> bool) (l : list (tag * V)) :
  NoDup (map fst l) -> fst <$> find (fun e => q e.2) l
  = find (fun k => match kassoc l k with Some v => q v | None => false end) (map fst l).
Proof.
  induction l as [|[k v] l IH]; [done|]. intros [Hn Hnd]%NoDup_cons. simpl. rewrite decide_True by done.
  destruct (q v); [done|]. rewrite IH by done.
  assert (forall ks, k ∉ ks -> find (fun k0 => match kassoc l k0 with Some v0 => q v0 | None => false end) ks
    = find (fun k0 => match (if decide (k = k0) then Some v else kassoc l k0) with Some v0 => q v0 | None => false end) ks) as E;
    [|by apply E].
  induction ks as [|k0 ks IHk]; [done|]. intros Hk. simpl. rewrite decide_False by set_solver.
  case_match; [case_match|]; try done; apply IHk; set_solver.
Qed.
End KiomLemmas.

(** ** The builder as a history of rules *)

(** A domain rule added for a tag; [None]: an empty matcher was created. *)
Abbreviation dom_event := (tag * option (bytes * MatchType))%type.

Section BuilderProofs.
Context {M R : Type} `{DomainMatcher M} `{RegexSetBuilder R}.

Implicit Type b : RouterBuilder (M := M).

Definition tags_of {X} (evs : list (tag * X)) : list tag := fold_left add_tag (map fst evs) [].

Definition rules_of (t : tag) (evs : list dom_event) : list (bytes * MatchType) :=
  flat_map (fun e => if decide (e.1 = t) then match e.2 with Some r => [r] | None => [] end else []) evs.

Definition exprs_of (t : tag) (evs : list (tag * list bytes)) : list bytes :=
  flat_map (fun e => if decide (e.1 = t) then e.2 else []) evs.

Definition matcher_of (mph : bool) (rules : list (bytes * MatchType)) : M :=
  fold_left (fun m r => reverse_insert m r.1 r.2) rules (if mph then mph_new else hybrid_new).

Definition models_domain (m : KeepInsertOrderMap M) (evs : list dom_event) : Prop :=
  kiom_ok m /\ keys m = tags_of evs /\
  forall t, match kassoc (kiom_data m) t with
  | Some x => exists mph, x = matcher_of mph (rules_of t evs)
  | None => rules_of t evs = []
  end.

Definition models_regex (m : KeepInsertOrderMap (list bytes)) (evs : list (tag * list bytes)) : Prop :=
  kiom_ok m /\ keys m = tags_of evs /\
  forall t, match kassoc (kiom_data m) t with
  | Some x => x = exprs_of t evs
  | None => exprs_of t evs = []
  end.

Definition models (b : RouterBuilder) (evs : list dom_event) (revs : list (tag * list bytes)) : Prop :=
  models_domain (rb_domain b) evs /\ models_regex (rb_regex b) revs.

Lemma tags_of_snoc {X} (evs : list (tag * X)) e : tags_of (evs ++ [e]) = add_tag (tags_of evs) e.1.
Proof. unfold tags_of. by rewrite map_app, fold_left_app. Qed.

Lemma rules_of_app t evs1 evs2 : rules_of t (evs1 ++ evs2) = rules_of t evs1 ++ rules_of t evs2.
Proof. apply flat_map_app. Qed.

Lemma exprs_of_app t evs1 evs2 : exprs_of t (evs1 ++ evs2) = exprs_of t evs1 ++ exprs_of t evs2.
Proof. apply flat_map_app. Qed.

Lemma models_new : models RouterBuilder_new [] [].
Proof. split; (split; [apply kiom_new_ok|done]). Qed.

Lemma models_domain_rule m evs t r mph :
  models_domain m evs ->
  exists m', upsert t (fun x => reverse_insert x r.1 r.2) (reverse_insert (if mph : bool then mph_new else hybrid_new) r.1 r.2) m = Ok m'
  /\ models_domain m' (evs ++ [(t, Some r)]).
Proof.
  intros (Hok & Hk & Hv).
  destruct (upsert_spec t (fun x => reverse_insert x r.1 r.2)
    (reverse_insert (if mph : bool then mph_new else hybrid_new) r.1 r.2) m Hok) as (m' & -> & Hok' & Hk' & Hv').
  exists m'. split; [done|]. split_and!; [done|by rewrite Hk', Hk, tags_of_snoc|].
  intros k. rewrite Hv', rules_of_app. simpl. rewrite app_nil_r. destruct (decide (t = k)) as [->|Hne].
  - specialize (Hv k). destruct (kassoc (kiom_data m) k) as [x|].
    + destruct Hv as [mph' ->]. exists mph'. unfold matcher_of. by rewrite fold_left_app.
    + exists mph. by rewrite Hv.
  - rewrite app_nil_r. apply Hv.
Qed.

Lemma add_domain_rules_models rule t mt mph b evs revs :
  models b evs revs -> exists b', add_domain_rules rule t mt mph b = Ok b' /\ models b' (evs ++ [(t, Some (rule, mt))]) revs
  /\ rb_ip b' = rb_ip b.
Proof.
  intros [Hd Hr]. destruct (models_domain_rule _ _ t (rule, mt) mph Hd) as (m' & E & Hm').
  unfold add_domain_rules. unfold upsert in E. cbn [fst snd] in E. rewrite E. cbn [mbind res_bind]. eexists. split; [done|]. by split.
Qed.

Lemma add_regex_rules_models t es b evs revs :
  models b evs revs -> exists b', add_regex_rules t es b = Ok b' /\ models b' evs (revs ++ [(t, es)]) /\ rb_ip b' = rb_ip b.
Proof.
  intros [Hd (Hok & Hk & Hv)].
  destruct (upsert_spec t (fun exprs => exprs ++ es) es (rb_regex b) Hok) as (m' & E & Hok' & Hk' & Hv').
  unfold upsert in E. unfold add_regex_rules. rewrite E. cbn [mbind res_bind]. eexists. split; [done|].
  split; [|done]. split; [done|]. split_and!; [done|simpl; by rewrite Hk', Hk, tags_of_snoc|].
  intros k. simpl. rewrite Hv', exprs_of_app. simpl. rewrite app_nil_r. destruct (decide (t = k)) as [->|Hne].
  - specialize (Hv k). destruct (kassoc (kiom_data (rb_regex b)) k) as [x|]; [by rewrite Hv|]. by rewrite Hv.
  - rewrite app_nil_r. apply Hv.
Qed.

Lemma add_all_models {X} (f : X -> RouterBuilder -> res RouterBuilder) (g : X -> list dom_event) (h : X -> list (tag * list bytes)) xs b evs revs :
  (forall x b evs revs, models b evs revs -> exists b', f x b = Ok b' /\ models b' (evs ++ g x) (revs ++ h x) /\ rb_ip b' = rb_ip b) ->
  models b evs revs ->
  exists b', add_all f xs b = Ok b' /\ models b' (evs ++ flat_map g xs) (revs ++ flat_map h xs) /\ rb_ip b' = rb_ip b.
Proof.
  intros Hf. revert b evs revs. induction xs as [|x xs IH]; intros b evs revs Hb; simpl.
  - rewrite !app_nil_r. eauto.
  - destruct (Hf x b evs revs Hb) as (b1 & -> & Hb1 & Hi1). cbn [mbind res_bind].
    destruct (IH b1 _ _ Hb1) as (b2 & -> & Hb2 & Hi2). exists b2. rewrite !app_assoc, Hi2, Hi1. done.
Qed.

(** The history of a [DomainRoutingRules]. *)
Definition dr_events (dr : DomainRoutingRules) : list dom_event :=
  map (fun r => (dr_tag dr, Some (r, Full))) (dr_full dr)
  ++ map (fun r => (dr_tag dr, Some (r, Domain))) (dr_domain dr)
  ++ map (fun r => (dr_tag dr, Some (r, SubStr))) (dr_substr dr).

Lemma flat_map_singleton {A B} (f : A -> B) l : flat_map (fun x => [f x]) l = map f l.
Proof. induction l as [|x l IH]; [done|]. simpl. by rewrite IH. Qed.

Lemma flat_map_nil {A B} (l : list A) : flat_map (fun _ => [] : list B) l = [].
Proof. by induction l. Qed.

Lemma add_domain_list_models t mt mph rs b evs revs :
  models b evs revs ->
  exists b', add_all (fun r => add_domain_rules r t mt mph) rs b = Ok b'
  /\ models b' (evs ++ map (fun r => (t, Some (r, mt))) rs) revs /\ rb_ip b' = rb_ip b.
Proof.
  intros Hb. destruct (add_all_models (fun r => add_domain_rules r t mt mph) (fun r => [(t, Some (r, mt))]) (fun _ => []) rs b evs revs)
    as (b' & E & Hb' & Hi); [|done|].
  - intros x b0 evs0 revs0 Hb0. rewrite app_nil_r. by apply add_domain_rules_models.
  - rewrite flat_map_singleton, flat_map_nil, app_nil_r in Hb'. eauto.
Qed.

Lemma add_domain_routing_models dr b evs revs :
  models b evs revs ->
  exists b', add_domain_routing dr b = Ok b' /\ models b' (evs ++ dr_events dr) (revs ++ [(dr_tag dr, dr_regex dr)])
  /\ rb_ip b' = rb_ip b.
Proof.
  intros Hb. unfold add_domain_routing.
  destruct (add_domain_list_models (dr_tag dr) Full (dr_use_mph dr) (dr_full dr) b _ _ Hb) as (b1 & -> & Hb1 & Hi1). cbn [mbind res_bind].
  destruct (add_domain_list_models (dr_tag dr) Domain (dr_use_mph dr) (dr_domain dr) b1 _ _ Hb1) as (b2 & -> & Hb2 & Hi2). cbn [mbind res_bind].
  destruct (add_domain_list_models (dr_tag dr) SubStr (dr_use_mph dr) (dr_substr dr) b2 _ _ Hb2) as (b3 & -> & Hb3 & Hi3). cbn [mbind res_bind].
  destruct (add_regex_rules_models (dr_tag dr) (dr_regex dr) b3 _ _ Hb3) as (b4 & -> & Hb4 & Hi4).
  exists b4. split; [done|]. split; [|by rewrite Hi4, Hi3, Hi2].
  unfold dr_events. by rewrite !app_assoc.
Qed.

(** *** CIDR rules *)

(** The IPv4 rules of a list of texts. *)
Definition cidr_rule (parse : bytes -> option IpCidr) (t : tag) (text : bytes) : list (rule bytes) :=
  match parse text with Some (CidrV4 p n) => [mkRule p n t] | _ => [] end.

Definition all_v4 (parse : bytes -> option IpCidr) (text : bytes) : Prop :=
  match parse text with Some (CidrV6 _ _) => False | _ => True end.

Definition put_v4_rules (oc : bool) (rules : list (rule bytes)) (g : res GeoIPMatcher) : res GeoIPMatcher :=
  fold_left (fun m r => g ← m; put_v4 oc g (r_key r) (r_len r) (r_val r)) rules g.

Lemma put_v4_rules_app oc r1 r2 g : put_v4_rules oc (r1 ++ r2) g = put_v4_rules oc r2 (put_v4_rules oc r1 g).
Proof. apply fold_left_app. Qed.

Lemma put_v4_rules_err oc rules e : put_v4_rules oc rules (Err e) = Err e.
Proof. unfold put_v4_rules. by induction rules. Qed.

Lemma put_v4_rules_panic oc rules : put_v4_rules oc rules Panic = Panic.
Proof. unfold put_v4_rules. by induction rules. Qed.

Lemma add_cidr_rules_put oc parse t texts b :
  Forall (all_v4 parse) texts ->
  add_cidr_rules oc parse t texts b
  = (ip ← put_v4_rules oc (flat_map (cidr_rule parse t) texts) (Ok (rb_ip b)); Ok (mkRouterBuilder (rb_domain b) ip (rb_regex b))).
Proof.
  intros Ht. revert b. induction Ht as [|x xs Hx Hxs IH]; intros b; [by destruct b|].
  cbn [add_cidr_rules flat_map]. rewrite put_v4_rules_app. unfold cidr_rule at 2. unfold all_v4 in Hx.
  destruct (parse x) as [[p n|p n]|]; [|done|].
  - simpl. destruct (put_v4 oc (rb_ip b) p n t) as [ip|e|]; cbn [mbind res_bind];
      rewrite ?put_v4_rules_err, ?put_v4_rules_panic; [by rewrite IH|done..].
  - simpl. by rewrite IH.
Qed.

Lemma add_ip_rules_put oc parse irs b :
  Forall (fun ir => Forall (all_v4 parse) (ir_cidr ir)) irs ->
  add_all (fun r => add_cidr_rules oc parse (ir_tag r) (ir_cidr r)) irs b
  = (ip ← put_v4_rules oc (flat_map (fun ir => flat_map (cidr_rule parse (ir_tag ir)) (ir_cidr ir)) irs) (Ok (rb_ip b));
    Ok (mkRouterBuilder (rb_domain b) ip (rb_regex b))).
Proof.
  intros Hi. revert b. induction Hi as [|x xs Hx Hxs IH]; intros b; [by destruct b|].
  cbn [add_all flat_map]. rewrite add_cidr_rules_put by done. rewrite put_v4_rules_app.
  destruct (put_v4_rules oc (flat_map (cidr_rule parse (ir_tag x)) (ir_cidr x)) (Ok (rb_ip b))) as [ip|e|]; cbn [mbind res_bind];
    rewrite ?put_v4_rules_err, ?put_v4_rules_panic; [by rewrite IH|done..].
Qed.

(** *** The built router *)

(** The tag of the first outbound, in order of first appearance, one of whose
rules matches. *)
Definition domain_spec (evs : list dom_event) (d : bytes) : option tag :=
  find (fun t => existsb (fun r => dm_rule r d) (rules_of t evs)) (tags_of evs).

Definition regex_hits (revs : list (tag * list bytes)) (t : tag) (d : bytes) : Prop :=
  existsb (fun e => regex_rule e d) (exprs_of t revs) = true.

Lemma kassoc_map {X Y} (f : X -> Y) (l : list (tag * X)) k : kassoc (map (fun e => (e.1, f e.2)) l) k = f <$> kassoc l k.
Proof. induction l as [|[k' v] l IH]; [done|]. simpl. by case_decide. Qed.

Lemma first_match_domain m evs d :
  models_domain m evs ->
  first_match (fun x => reverse_query x d) (map (fun e => (e.1, dm_build e.2)) (kiom_data m)) = domain_spec evs d.
Proof.
  intros (Hok & Hk & Hv). unfold first_match.
  assert (map fst (map (fun e : tag * M => (e.1, dm_build e.2)) (kiom_data m)) = keys m) as Hkeys
    by (unfold keys; by rewrite map_map).
  rewrite (find_keys (fun x => reverse_query x d)) by (rewrite Hkeys; by apply kiom_keys_nodup).
  rewrite Hkeys, Hk. unfold domain_spec.
  generalize (tags_of evs). intros ks. induction ks as [|k ks IH]; [done|]. simpl. rewrite IH, kassoc_map.
  specialize (Hv k). destruct (kassoc (kiom_data m) k) as [x|]; simpl.
  - destruct Hv as [mph ->]. unfold matcher_of. by rewrite dm_spec.
  - by rewrite Hv.
Qed.

Lemma build_regex_spec rules acc out :
  build_regex rules acc = Ok out ->
  forall t r, out !! t = Some r -> acc !! t = Some r \/ exists es, (t, es) ∈ rules /\ regex_build es = Some r.
Proof.
  revert acc. induction rules as [|[k es] rules IH]; intros acc; simpl; [intros [= ->]; auto|].
  destruct (regex_build es) as [r0|] eqn:E; [|done]. intros Hb t r Ht.
  destruct (IH _ Hb t r Ht) as [Hl|(es' & Hin & Hr)].
  - apply lookup_insert_Some in Hl as [[-> ->]|[_ Hl]]; [|auto]. right. exists es. split; [by left|done].
  - right. exists es'. split; [by right|done].
Qed.

Lemma build_regex_complete rules acc out t es :
  NoDup (map fst rules) -> build_regex rules acc = Ok out -> (t, es) ∈ rules ->
  exists r, out !! t = Some r /\ regex_build es = Some r.
Proof.
  revert acc. induction rules as [|[k es0] rules IH]; intros acc Hnd Hb Hin; [by apply not_elem_of_nil in Hin|].
  simpl in *. apply NoDup_cons in Hnd as [Hn Hnd]. destruct (regex_build es0) as [r0|] eqn:E; [|done].
  apply elem_of_cons in Hin as [[= -> ->]|Hin]; [|by eapply IH].
  exists r0. split; [|done]. clear IH. revert acc Hb. induction rules as [|[k1 e1] rules IHr]; intros acc Hb; simpl in *.
  - injection Hb as <-. apply lookup_insert_eq.
  - apply NoDup_cons in Hnd as [Hn1 Hnd]. destruct (regex_build e1) as [r1|]; [|done].
    rewrite insert_insert_ne in Hb by set_solver. by apply (IHr ltac:(set_solver) Hnd (<[k1:=r1]> acc)).
Qed.

Lemma kassoc_elem {X} (l : list (tag * X)) t x : NoDup (map fst l) -> (t, x) ∈ l <-> kassoc l t = Some x.
Proof.
  intros Hnd. split.
  - intros [i Hi]%list_elem_of_lookup. by eapply kassoc_lookup.
  - clear Hnd. induction l as [|[k v] l IH]; [done|]. simpl. case_decide as Hd; [intros [= ->]; subst; by left|].
    intros Hk. right. by apply IH.
Qed.

(** The answer for a domain name, given what the builder models. *)
Lemma match_addr_domain hash_order dflt b evs revs rt d p :
  (forall m, hash_order m ≡ₚ map_to_list m) -> models b evs revs -> router_build hash_order dflt b = Ok rt ->
  exists t, match_addr rt (DomainNameAddress d p) = Ok t /\
  match domain_spec evs d with
  | Some t0 => t = t0
  | None => regex_hits revs t d \/ t = dflt /\ forall t', ~ regex_hits revs t' d
  end.
Proof.
  intros Hho [Hd (Hrok & Hrk & Hrv)]. unfold router_build.
  destruct (build_regex _ _) as [rx|e|] eqn:Erx; cbn [mbind res_bind]; [|done..]. intros [= <-].
  eexists. split; [reflexivity|]. cbn [rt_domain rt_regex rt_default].
  unfold kiom_into_iter in *. rewrite (first_match_domain _ _ _ Hd).
  destruct (domain_spec evs d) as [t0|]; [done|].
  pose proof (kiom_keys_nodup _ Hrok) as Hnd. unfold keys in Hnd.
  assert (forall t r, (t, r) ∈ hash_order rx -> is_match r d = true <-> regex_hits revs t d) as Hin.
  { intros t r Hel. rewrite Hho in Hel. apply elem_of_map_to_list in Hel.
    destruct (build_regex_spec _ _ _ Erx _ _ Hel) as [Hemp|(es & Hes & Hb)]; [by rewrite lookup_empty in Hemp|].
    apply kassoc_elem in Hes; [|done]. specialize (Hrv t). rewrite Hes in Hrv. subst es.
    unfold regex_hits. by rewrite (regex_spec _ _ _ Hb). }
  unfold first_match. destruct (find (fun e => is_match e.2 d) (hash_order rx)) as [[t r]|] eqn:Ef; simpl.
  - left. apply find_some in Ef as [Hel Hm]. apply list_elem_of_In in Hel. by apply (Hin t r).
  - right. split; [done|]. intros t' Hh. specialize (Hrv t').
    destruct (kassoc (kiom_data (rb_regex b)) t') as [es|] eqn:Ek.
    + subst es. apply kassoc_elem in Ek; [|done].
      destruct (build_regex_complete _ _ _ _ _ Hnd Erx Ek) as (r & Hr & Hb).
      assert ((t', r) ∈ hash_order rx) as Hel by (rewrite Hho; by apply elem_of_map_to_list).
      pose proof (find_none _ _ Ef (t', r)) as Hnone. simpl in Hnone.
      apply list_elem_of_In in Hel as Hel'. specialize (Hnone Hel').
      apply (Hin _ _ Hel) in Hh. congruence.
    + unfold regex_hits in Hh. by rewrite Hrv in Hh.
Qed.
End BuilderProofs.

(** ** The geosite file *)

Section Files.
Context {M R I : Type} `{DomainMatcher M} `{RegexSetBuilder R} `{CodedInputStream I}.
Implicit Type b : RouterBuilder (M := M).

(** A site group: the length the entry's head announces, the code, the
domains; and the file that holds the groups. *)
Definition site_group : Type := Z * bytes * list DomainMsg.

Definition site_tokens (groups : list site_group) : list token :=
  flat_map (fun '(len, code, doms) =>
    [TVarint 10; TVarint len; TVarint 10; TString code] ++ flat_map (fun d => [TVarint 18; TDomain d]) doms) groups.

Definition dom_event_of (t : tag) (d : DomainMsg) : list dom_event :=
  match dom_type d with
  | Plain => [(t, Some (dom_value d, SubStr))]
  | DomainT => [(t, Some (dom_value d, Domain))]
  | FullT => [(t, Some (dom_value d, Full))]
  | Regex => []
  end.

Definition dom_revent_of (t : tag) (d : DomainMsg) : list (tag * list bytes) :=
  match dom_type d with Regex => [(t, [dom_value d])] | _ => [] end.

(** The domains of the groups whose code is selected, in file order. *)
Definition site_selected {X} (f : tag -> DomainMsg -> list X) (tags : gmap bytes tag) (groups : list site_group) : list X :=
  flat_map (fun '(_, code, doms) => match tags !! code with Some t => flat_map (f t) doms | None => [] end) groups.

Lemma to_field_num_10 : to_field_num_and_wire_type (I := I) 10 = Ok (1, 2)%Z.
Proof. unfold to_field_num_and_wire_type. change (Z.land 10 TAG_TYPE_MASK) with 2%Z. by rewrite ci_wire_2. Qed.

Lemma to_field_num_18 : to_field_num_and_wire_type (I := I) 18 = Ok (2, 2)%Z.
Proof. unfold to_field_num_and_wire_type. change (Z.land 18 TAG_TYPE_MASK) with 2%Z. by rewrite ci_wire_2. Qed.

Lemma kiom_get_mut_key {V} k (f : V -> V) (m : KeepInsertOrderMap V) init :
  kiom_ok m -> k ∈ keys m -> exists m', kiom_get_mut k f m = Some (Ok m') /\ upsert k f init m = Ok m'.
Proof.
  intros Hm [i Hi]%list_elem_of_lookup. pose proof Hm as Hm'. rewrite kiom_ok_keys in Hm'. apply Hm' in Hi.
  unfold upsert, kiom_get_mut. rewrite Hi. apply Hm in Hi as [v ->]. eauto.
Qed.

(** One selected domain. *)
Lemma add_geosite_domain_models d t b evs revs :
  models b evs revs -> t ∈ tags_of evs ->
  exists b', add_geosite_domain d t b = Ok b' /\ models b' (evs ++ dom_event_of t d) (revs ++ dom_revent_of t d) /\ rb_ip b' = rb_ip b.
Proof.
  intros Hb Ht. destruct Hb as [Hd Hr]. pose proof Hd as (Hok & Hk & _). rewrite <- Hk in Ht.
  unfold add_geosite_domain, dom_event_of, dom_revent_of. destruct (dom_type d).
  all: try match goal with |- context [reverse_insert _ _ ?mt] =>
    destruct (kiom_get_mut_key t (fun m => reverse_insert m (dom_value d) mt) (rb_domain b)
    (reverse_insert hybrid_new (dom_value d) mt) Hok Ht) as (m' & -> & Hu);
    destruct (models_domain_rule _ _ t (dom_value d, mt) false Hd) as (m'' & Hu' & Hm'');
    cbn [fst snd] in Hu'; rewrite Hu in Hu'; injection Hu' as <-; cbn [mbind res_bind];
    eexists; split; [done|]; rewrite app_nil_r; by split end.
  destruct (kiom_get_mut_key t id (rb_domain b) hybrid_new Hok Ht) as (m' & -> & _).
  destruct (add_regex_rules_models t [dom_value d] b evs revs) as (b' & -> & Hb' & Hi); [by split|].
  exists b'. rewrite app_nil_r. done.
Qed.

(** What holds of the builder while the file is read. *)
Definition site_inv (tags : gmap bytes tag) b (evs : list dom_event) (revs : list (tag * list bytes)) (ip : GeoIPMatcher) : Prop :=
  models b evs revs /\ rb_ip b = ip /\ forall code t, tags !! code = Some t -> t ∈ tags_of evs.

Lemma tags_of_mono {X} (evs1 evs2 : list (tag * X)) t : t ∈ tags_of evs1 -> t ∈ tags_of (evs1 ++ evs2).
Proof.
  intros Ht. induction evs2 as [|e evs2 IH] using rev_ind; [by rewrite app_nil_r|].
  rewrite app_assoc, tags_of_snoc. unfold add_tag. case_decide; [done|]. apply elem_of_app. by left.
Qed.

Lemma geosite_loop_step fuel tags i st t ts :
  ci_reads i (t :: ts) ->
  geosite_loop (S fuel) tags i st = match geosite_field tags i st with
  | Ok (i, st) => geosite_loop fuel tags i st | Err e => Some (Err e) | Panic => Some Panic end.
Proof. intros Hi. cbn [geosite_loop]. by rewrite (ci_eof_cons _ _ _ Hi). Qed.

(** The domains of one group. *)
Lemma geosite_domains fuel tags doms : forall i c sk b evs revs ip ts,
  site_inv tags b evs revs ip -> (forall t, sk = Some t -> exists code, tags !! code = Some t) ->
  ci_reads i (flat_map (fun d => [TVarint 18; TDomain d]) doms ++ ts) ->
  exists i' b', geosite_loop (length doms + fuel) tags i (mkSite c sk b) = geosite_loop fuel tags i' (mkSite c sk b')
  /\ ci_reads i' ts
  /\ site_inv tags b' (evs ++ match sk with Some t => flat_map (dom_event_of t) doms | None => [] end)
  (revs ++ match sk with Some t => flat_map (dom_revent_of t) doms | None => [] end) ip.
Proof.
  induction doms as [|d doms IH]; intros i c sk b evs revs ip ts Hb Hsk Hi.
  - exists i, b. split; [done|]. split; [done|]. destruct sk; simpl; by rewrite !app_nil_r.
  - cbn [flat_map app] in Hi. cbn [length Nat.add].
    rewrite (geosite_loop_step _ _ _ _ _ _ Hi). unfold geosite_field.
    destruct (ci_varint32 _ _ _ Hi) as (i1 & -> & Hi1). cbn [mbind res_bind]. rewrite to_field_num_18. cbn [mbind res_bind].
    rewrite (decide_False (P := (2 = 1)%Z)), (decide_True (P := (2 = 2)%Z)) by done. cbn [si_skip]. destruct sk as [t|].
    + destruct (ci_domain _ _ _ Hi1) as (i2 & -> & Hi2). cbn [mbind res_bind si_builder].
      destruct Hb as (Hm & Hip & Ht). destruct (Hsk t eq_refl) as [code Hcode].
      destruct (add_geosite_domain_models d t b evs revs Hm (Ht _ _ Hcode)) as (b1 & -> & Hm1 & Hip1). cbn [mbind res_bind si_tag].
      destruct (IH i2 c (Some t) b1 (evs ++ dom_event_of t d) (revs ++ dom_revent_of t d) ip ts) as (i' & b' & E & Hi' & Hb');
        [|done|done|].
      { split; [done|]. split; [by rewrite Hip1|]. intros ???. eapply tags_of_mono, Ht; done. }
      exists i', b'. split; [exact E|]. split; [done|]. cbn [flat_map]. by rewrite !app_assoc.
    + destruct (ci_skip _ _ _ Hi1 eq_refl) as (i2 & -> & Hi2). cbn [mbind res_bind].
      apply (IH i2 c None b evs revs ip ts Hb Hsk Hi2).
Qed.

(** The code of a group, when no code is set. *)
Lemma geosite_code fuel tags i sk b code ts :
  ci_reads i (TVarint 10 :: TString code :: ts) ->
  exists i', geosite_loop (S fuel) tags i (mkSite [] sk b) = geosite_loop fuel tags i' (mkSite code (tags !! code) b)
  /\ ci_reads i' ts.
Proof.
  intros Hi. rewrite (geosite_loop_step _ _ _ _ _ _ Hi). unfold geosite_field.
  destruct (ci_varint32 _ _ _ Hi) as (i1 & -> & Hi1). cbn [mbind res_bind]. rewrite to_field_num_10. cbn [mbind res_bind].
  rewrite (decide_True (P := (1 = 1)%Z)) by done. cbn [si_tag]. rewrite decide_False by (intros Hn; by apply Hn).
  destruct (ci_string _ _ _ Hi1) as (i2 & -> & Hi2). cbn [mbind res_bind si_builder]. eauto.
Qed.

(** The head of a later entry, which the inner loop meets. *)
Lemma geosite_head fuel tags i c sk b len ts :
  c <> [] -> ci_reads i (TVarint 10 :: TVarint len :: ts) ->
  exists i', geosite_loop (S fuel) tags i (mkSite c sk b) = geosite_loop fuel tags i' (mkSite [] sk b) /\ ci_reads i' ts.
Proof.
  intros Hc Hi. rewrite (geosite_loop_step _ _ _ _ _ _ Hi). unfold geosite_field.
  destruct (ci_varint32 _ _ _ Hi) as (i1 & -> & Hi1). cbn [mbind res_bind]. rewrite to_field_num_10. cbn [mbind res_bind].
  rewrite (decide_True (P := (1 = 1)%Z)) by done. cbn [si_tag]. rewrite decide_True by done.
  destruct (ci_varint64 _ _ _ Hi1) as (i2 & -> & Hi2). cbn [mbind res_bind si_builder si_skip]. eauto.
Qed.

Definition site_steps (groups : list site_group) : nat := list_sum (map (fun '(_, _, doms) => 2 + length doms) groups).

Lemma site_tokens_cons len code doms groups :
  site_tokens ((len, code, doms) :: groups)
  = [TVarint 10; TVarint len; TVarint 10; TString code] ++ flat_map (fun d => [TVarint 18; TDomain d]) doms ++ site_tokens groups.
Proof. unfold site_tokens. cbn [flat_map]. by rewrite <- app_assoc. Qed.

Lemma site_selected_cons {X} (f : tag -> DomainMsg -> list X) tags len code doms groups :
  site_selected f tags ((len, code, doms) :: groups)
  = match tags !! code with Some t => flat_map (f t) doms | None => [] end ++ site_selected f tags groups.
Proof. done. Qed.

(** An entry behind its head: code and domains. *)
Lemma geosite_entry fuel tags code doms i sk b evs revs ip ts :
  site_inv tags b evs revs ip ->
  ci_reads i ([TVarint 10; TString code] ++ flat_map (fun d => [TVarint 18; TDomain d]) doms ++ ts) ->
  exists i' b', geosite_loop (S (length doms + fuel)) tags i (mkSite [] sk b) = geosite_loop fuel tags i' (mkSite code (tags !! code) b')
  /\ ci_reads i' ts
  /\ site_inv tags b' (evs ++ match tags !! code with Some t => flat_map (dom_event_of t) doms | None => [] end)
  (revs ++ match tags !! code with Some t => flat_map (dom_revent_of t) doms | None => [] end) ip.
Proof.
  intros Hb Hi. destruct (geosite_code (length doms + fuel) tags i sk b code _ Hi) as (i1 & -> & Hi1).
  apply (geosite_domains fuel tags doms i1 code (tags !! code) b evs revs ip ts Hb); [|done]. eauto.
Qed.

(** The entries after the first, to the end of the file. *)
Lemma geosite_rest fuel tags groups : forall i c sk b evs revs ip,
  c <> [] -> Forall (fun '(_, code, _) => code <> []) groups -> site_inv tags b evs revs ip ->
  ci_reads i (site_tokens groups) ->
  exists i' st', geosite_loop (site_steps groups + S fuel) tags i (mkSite c sk b) = Some (Ok (i', st'))
  /\ ci_reads i' []
  /\ site_inv tags (si_builder st') (evs ++ site_selected dom_event_of tags groups)
  (revs ++ site_selected dom_revent_of tags groups) ip.
Proof.
  induction groups as [|[[len code] doms] groups IH]; intros i c sk b evs revs ip Hc Hne Hb Hi.
  - exists i, (mkSite c sk b). cbn [site_steps list_sum map foldr Nat.add geosite_loop].
    rewrite (ci_eof_nil _ Hi). split; [done|]. split; [done|]. simpl. by rewrite !app_nil_r.
  - apply Forall_cons in Hne as [Hcode Hne].
    assert (site_steps ((len, code, doms) :: groups) + S fuel = S (S (length doms + (site_steps groups + S fuel)))) as ->
      by (unfold site_steps; simpl; lia).
    rewrite site_tokens_cons in Hi.
    destruct (geosite_head (S (length doms + (site_steps groups + S fuel))) tags i c sk b len _ Hc Hi) as (i1 & -> & Hi1).
    destruct (geosite_entry (site_steps groups + S fuel) tags code doms i1 sk b evs revs ip _ Hb Hi1) as (i2 & b2 & -> & Hi2 & Hb2).
    destruct (IH i2 code (tags !! code) b2 _ _ ip Hcode Hne Hb2 Hi2) as (i' & st' & E & Hi' & Hb').
    exists i', st'. split; [exact E|]. split; [done|]. rewrite !site_selected_cons, !app_assoc. exact Hb'.
Qed.

Lemma length_site_tokens groups : site_steps groups <= length (site_tokens groups).
Proof.
  induction groups as [|[[len code] doms] groups IH]; [done|].
  change (site_steps ((len, code, doms) :: groups)) with (2 + length doms + site_steps groups).
  rewrite site_tokens_cons, !length_app. cbn [length].
  assert (length doms <= length (flat_map (fun d => [TVarint 18; TDomain d]) doms)) by (induction doms; simpl in *; lia).
  lia.
Qed.

(** The matchers created before the file is read. *)
Definition prepare_events (tags : gmap bytes tag) : list dom_event := map (fun e => (e.2, None)) (map_to_list tags).

Lemma touch_models t mph b evs revs :
  models b evs revs ->
  models (if kiom_contains_key t (rb_domain b) then b
    else mkRouterBuilder (kiom_insert t (if mph : bool then mph_new else hybrid_new) (rb_domain b)) (rb_ip b) (rb_regex b))
  (evs ++ [(t, None)]) revs.
Proof.
  intros [(Hok & Hk & Hv) Hr].
  assert (forall k, rules_of k (evs ++ [(t, None)]) = rules_of k evs) as Hrules.
  { intros k. rewrite rules_of_app. simpl. case_decide; by rewrite app_nil_r. }
  destruct (upsert_spec t id (if mph then mph_new else hybrid_new) (rb_domain b) Hok) as (m' & Hu & Hok' & Hk' & Hv').
  unfold kiom_contains_key. unfold upsert, kiom_get_mut in Hu. rewrite kiom_ok_keys in Hok.
  destruct (kiom_order (rb_domain b) !! t) as [i|] eqn:Eo.
  - rewrite bool_decide_true by done. split; [|done]. split_and!; [by rewrite kiom_ok_keys| |intros k; rewrite Hrules; apply Hv].
    rewrite tags_of_snoc, <- Hk. unfold add_tag. simpl. apply Hok in Eo. rewrite decide_True; [done|].
    by apply list_elem_of_lookup_2 in Eo.
  - rewrite bool_decide_false by (intros [? ?]; done). injection Hu as <-. split; [|done].
    cbn [rb_domain]. split_and!; [done|by rewrite Hk', Hk, tags_of_snoc|].
    intros k. rewrite Hv', Hrules. destruct (decide (t = k)) as [->|]; [|apply Hv].
    specialize (Hv k). rewrite kassoc_none in Hv |- *.
    + exists mph. by rewrite Hv.
    + intros [i Hi]%list_elem_of_lookup. apply Hok in Hi. congruence.
    + intros [i Hi]%list_elem_of_lookup. apply Hok in Hi. congruence.
Qed.

Lemma prepare_models tags mph b evs revs :
  models b evs revs ->
  models (geosite_prepare tags mph b) (evs ++ prepare_events tags) revs /\ rb_ip (geosite_prepare tags mph b) = rb_ip b.
Proof.
  unfold geosite_prepare, prepare_events. generalize (map_to_list tags). intros l. revert b evs.
  induction l as [|[k t] l IH]; intros b evs Hb; simpl; [by rewrite app_nil_r|].
  pose proof (touch_models t mph b evs revs Hb) as Ht.
  destruct (IH _ _ Ht) as [Hm Hi]. rewrite <- app_assoc in Hm. split; [exact Hm|]. rewrite Hi. by destruct (kiom_contains_key t _).
Qed.

Lemma tags_of_elem {X} (evs : list (tag * X)) e : e ∈ evs -> e.1 ∈ tags_of evs.
Proof.
  induction evs as [|e' evs IH] using rev_ind; [by intros ?%not_elem_of_nil|].
  intros [Hin|Hin]%elem_of_app; rewrite tags_of_snoc; unfold add_tag.
  - case_decide; [by apply IH|]. apply elem_of_app. left. by apply IH.
  - apply list_elem_of_singleton in Hin as ->. case_decide; [done|]. apply elem_of_app. right. by left.
Qed.

(** Reading a whole file. *)
Lemma read_geosite_models fuel tags mph i groups b evs revs :
  models b evs revs -> Forall (fun '(_, code, _) => code <> []) groups ->
  ci_reads i (site_tokens groups) -> length (site_tokens groups) + 2 < fuel ->
  exists b', read_geosite_file fuel (inl i) tags mph b = Some (Ok b') /\ rb_ip b' = rb_ip b
  /\ models b' (evs ++ prepare_events tags ++ site_selected dom_event_of tags groups)
  (revs ++ site_selected dom_revent_of tags groups).
Proof.
  intros Hb Hne Hi Hf. unfold read_geosite_file.
  destruct (prepare_models tags mph b evs revs Hb) as [Hp Hpi]. set (b0 := geosite_prepare tags mph b) in *.
  assert (site_inv tags b0 (evs ++ prepare_events tags) revs (rb_ip b)) as Hinv.
  { split; [done|]. split; [done|]. intros code t Ht. apply elem_of_map_to_list in Ht.
    assert ((t, None) ∈ evs ++ prepare_events tags) as Hin.
    { apply elem_of_app. right. unfold prepare_events. apply list_elem_of_fmap. by exists (code, t). }
    by apply tags_of_elem in Hin. }
  destruct fuel as [|f]; [lia|]. cbn [geosite_outer]. destruct groups as [|[[len code] doms] groups].
  - rewrite (ci_eof_nil _ Hi). exists b0. split; [done|]. split; [done|]. simpl. by rewrite !app_nil_r.
  - rewrite site_tokens_cons in Hi. rewrite (ci_eof_cons _ _ _ Hi).
    destruct (ci_varint32 _ _ _ Hi) as (i1 & -> & Hi1). cbn [mbind res_bind].
    destruct (ci_varint64 _ _ _ Hi1) as (i2 & -> & Hi2).
    pose proof (length_site_tokens ((len, code, doms) :: groups)) as Hl. change (site_steps ((len, code, doms) :: groups)) with (2 + length doms + site_steps groups) in Hl.
    assert (exists g, f = S (length doms + (site_steps groups + S g)) /\ 0 < g) as (g & -> & Hg).
    { exists (f - length doms - site_steps groups - 2). lia. }
    destruct (geosite_entry (site_steps groups + S g) tags code doms i2 None b0 _ _ _ _ Hinv Hi2) as (i3 & b3 & -> & Hi3 & Hb3).
    apply Forall_cons in Hne as [Hc Hne].
    destruct (geosite_rest g tags groups i3 code (tags !! code) b3 _ _ _ Hc Hne Hb3 Hi3) as (i4 & st4 & -> & Hi4 & Hm & Hip & _).
    cbn [geosite_outer]. rewrite (ci_eof_nil _ Hi4). exists (si_builder st4). split; [done|]. split; [done|].
    rewrite !site_selected_cons, !app_assoc. by rewrite <- !app_assoc in Hm |- *.
Qed.

(** ** The geoip file *)

Definition ip_group : Type := Z * bytes * list (list cidr_field).

Definition ip_tokens (groups : list ip_group) : list token :=
  flat_map (fun '(len, code, cidrs) =>
    [TVarint 10; TVarint len; TVarint 10; TString code] ++ flat_map (fun c => [TVarint 18; TCidr c]) cidrs) groups.

(** The entries of the selected countries, in file order. *)
Definition ip_selected (tags : gset bytes) (groups : list ip_group) : list (list cidr_field) :=
  flat_map (fun '(_, code, cidrs) => if decide (to_uppercase code ∈ tags) then cidrs else []) groups.

(** The loop body run on entries one after the other: what the loops of the
reader amount to, before it is said what they add. *)
Fixpoint add_entries (oc : bool) (t : tag) (entries : list (list cidr_field)) (c : CIDR) b : res (CIDR * RouterBuilder) :=
  match entries with
  | [] => Ok (c, b)
  | fields :: entries => '(c, b) ← add_geoip_cidr oc t (cidr_merge_from fields c) b; add_entries oc t entries c b
  end.

Lemma add_entries_app oc t e1 e2 c b :
  add_entries oc t (e1 ++ e2) c b = ('(c, b) ← add_entries oc t e1 c b; add_entries oc t e2 c b).
Proof.
  revert c b. induction e1 as [|fs e1 IH]; intros c b; [done|]. cbn [app add_entries].
  destruct (add_geoip_cidr _ _ _ _) as [[c1 b1]|e|]; cbn [mbind res_bind]; [apply IH|done..].
Qed.

(** How a loop goes on from a result. *)
Definition ip_continues (r : res (CIDR * RouterBuilder (M := M))) (out : option (res (I * ip_state (M := M))))
  (k : I -> CIDR -> RouterBuilder (M := M) -> option (res (I * ip_state (M := M)))) (ts : list token) : Prop :=
  match r with
  | Ok (c, b) => exists i, out = k i c b /\ ci_reads i ts
  | Err e => out = Some (Err e)
  | Panic => out = Some Panic
  end.

Lemma geoip_loop_step fuel oc t tags i (st : ip_state (M := M)) tok ts :
  ci_reads i (tok :: ts) ->
  geoip_loop (S fuel) oc t tags i st = match geoip_field oc t tags i st with
  | Ok (i, st) => geoip_loop fuel oc t tags i st | Err e => Some (Err e) | Panic => Some Panic end.
Proof. intros Hi. cbn [geoip_loop]. by rewrite (ci_eof_cons _ _ _ Hi). Qed.

Lemma geoip_cidrs fuel oc t tags cidrs : forall i code skip c b ts,
  ci_reads i (flat_map (fun c => [TVarint 18; TCidr c]) cidrs ++ ts) ->
  ip_continues (add_entries oc t (if skip : bool then [] else cidrs) c b)
  (geoip_loop (length cidrs + fuel) oc t tags i (mkIpState code skip c b))
  (fun i c b => geoip_loop fuel oc t tags i (mkIpState code skip c b)) ts.
Proof.
  induction cidrs as [|fs cidrs IH]; intros i code skip c b ts Hi.
  - destruct skip; simpl; eauto.
  - cbn [flat_map app] in Hi. cbn [length Nat.add].
    rewrite (geoip_loop_step _ _ _ _ _ _ _ _ Hi). unfold geoip_field.
    destruct (ci_varint32 _ _ _ Hi) as (i1 & -> & Hi1). cbn [mbind res_bind]. rewrite to_field_num_18. cbn [mbind res_bind].
    rewrite (decide_False (P := (2 = 1)%Z)), (decide_True (P := (2 = 2)%Z)) by done. cbn [ii_skip]. destruct skip.
    + destruct (ci_skip _ _ _ Hi1 eq_refl) as (i2 & -> & Hi2). cbn [mbind res_bind]. apply (IH i2 code true c b ts Hi2).
    + destruct (ci_cidr _ _ _ Hi1) as (i2 & -> & Hi2). cbn [mbind res_bind ii_cidr ii_builder ii_code add_entries].
      destruct (add_geoip_cidr oc t (cidr_merge_from fs c) b) as [[c1 b1]|e|]; cbn [mbind res_bind]; [|done..].
      apply (IH i2 code false c1 b1 ts Hi2).
Qed.

Lemma geoip_entry fuel oc t tags code cidrs i skip c b ts :
  ci_reads i ([TVarint 10; TString code] ++ flat_map (fun c => [TVarint 18; TCidr c]) cidrs ++ ts) ->
  ip_continues (add_entries oc t (if decide (to_uppercase code ∈ tags) then cidrs else []) c b)
  (geoip_loop (S (length cidrs + fuel)) oc t tags i (mkIpState [] skip c b))
  (fun i c b => geoip_loop fuel oc t tags i (mkIpState (to_uppercase code) (bool_decide (to_uppercase code ∉ tags)) c b)) ts.
Proof.
  intros Hi. rewrite (geoip_loop_step _ _ _ _ _ _ _ _ Hi). unfold geoip_field.
  destruct (ci_varint32 _ _ _ Hi) as (i1 & -> & Hi1). cbn [mbind res_bind]. rewrite to_field_num_10. cbn [mbind res_bind].
  rewrite (decide_True (P := (1 = 1)%Z)) by done. cbn [ii_code]. rewrite (decide_False (P := @nil byte <> [])) by (intros Hn; by apply Hn).
  destruct (ci_string _ _ _ Hi1) as (i2 & -> & Hi2). cbn [mbind res_bind ii_cidr ii_builder].
  pose proof (geoip_cidrs fuel oc t tags cidrs i2 (to_uppercase code) (bool_decide (to_uppercase code ∉ tags)) c b ts Hi2) as Hc.
  destruct (decide (to_uppercase code ∈ tags)) as [Hin|Hin].
  - assert (bool_decide (to_uppercase code ∉ tags) = false) as E by (apply bool_decide_false; intros Hn; by apply Hn).
    rewrite E in *. exact Hc.
  - assert (bool_decide (to_uppercase code ∉ tags) = true) as E by (by apply bool_decide_true).
    rewrite E in *. exact Hc.
Qed.

Lemma geoip_head fuel oc t tags i code skip c b len ts :
  code <> [] -> ci_reads i (TVarint 10 :: TVarint len :: ts) ->
  exists i', geoip_loop (S fuel) oc t tags i (mkIpState code skip c b) = geoip_loop fuel oc t tags i' (mkIpState [] skip c b)
  /\ ci_reads i' ts.
Proof.
  intros Hc Hi. rewrite (geoip_loop_step _ _ _ _ _ _ _ _ Hi). unfold geoip_field.
  destruct (ci_varint32 _ _ _ Hi) as (i1 & -> & Hi1). cbn [mbind res_bind]. rewrite to_field_num_10. cbn [mbind res_bind].
  rewrite (decide_True (P := (1 = 1)%Z)) by done. cbn [ii_code]. rewrite decide_True by done.
  destruct (ci_varint64 _ _ _ Hi1) as (i2 & -> & Hi2). cbn [mbind res_bind ii_builder ii_skip ii_cidr]. eauto.
Qed.

Definition ip_steps (groups : list ip_group) : nat := list_sum (map (fun '(_, _, cs) => 2 + length cs) groups).

Lemma ip_tokens_cons len code cidrs groups :
  ip_tokens ((len, code, cidrs) :: groups)
  = [TVarint 10; TVarint len; TVarint 10; TString code] ++ flat_map (fun c => [TVarint 18; TCidr c]) cidrs ++ ip_tokens groups.
Proof. unfold ip_tokens. cbn [flat_map]. by rewrite <- app_assoc. Qed.

Lemma ip_selected_cons tags len code cidrs groups :
  ip_selected tags ((len, code, cidrs) :: groups)
  = (if decide (to_uppercase code ∈ tags) then cidrs else []) ++ ip_selected tags groups.
Proof. done. Qed.

Lemma to_uppercase_nonempty s : s <> [] -> to_uppercase s <> [].
Proof. by destruct s. Qed.

Lemma geoip_rest fuel oc t tags groups : forall i code skip c b,
  code <> [] -> Forall (fun '(_, code, _) => code <> []) groups -> ci_reads i (ip_tokens groups) ->
  match add_entries oc t (ip_selected tags groups) c b with
  | Ok (c', b') => exists i' st', geoip_loop (ip_steps groups + S fuel) oc t tags i (mkIpState code skip c b) = Some (Ok (i', st'))
    /\ ci_reads i' [] /\ ii_builder st' = b'
  | Err e => geoip_loop (ip_steps groups + S fuel) oc t tags i (mkIpState code skip c b) = Some (Err e)
  | Panic => geoip_loop (ip_steps groups + S fuel) oc t tags i (mkIpState code skip c b) = Some Panic
  end.
Proof.
  induction groups as [|[[len code'] cidrs] groups IH]; intros i code skip c b Hc Hne Hi.
  - cbn [ip_selected flat_map add_entries]. exists i, (mkIpState code skip c b).
    cbn [ip_steps list_sum map foldr Nat.add geoip_loop]. by rewrite (ci_eof_nil _ Hi).
  - apply Forall_cons in Hne as [Hcode Hne].
    assert (ip_steps ((len, code', cidrs) :: groups) + S fuel = S (S (length cidrs + (ip_steps groups + S fuel)))) as ->
      by (unfold ip_steps; simpl; lia).
    rewrite ip_tokens_cons in Hi. rewrite ip_selected_cons, add_entries_app.
    destruct (geoip_head (S (length cidrs + (ip_steps groups + S fuel))) oc t tags i code skip c b len _ Hc Hi) as (i1 & -> & Hi1).
    pose proof (geoip_entry (ip_steps groups + S fuel) oc t tags code' cidrs i1 skip c b _ Hi1) as He.
    destruct (add_entries oc t (if decide (to_uppercase code' ∈ tags) then cidrs else []) c b) as [[c1 b1]|e|];
      cbn [mbind res_bind ip_continues] in *; [|done..].
    destruct He as (i2 & -> & Hi2). apply IH; [by apply to_uppercase_nonempty|done|done].
Qed.

Lemma length_ip_tokens groups : ip_steps groups <= length (ip_tokens groups).
Proof.
  induction groups as [|[[len code] cidrs] groups IH]; [done|].
  change (ip_steps ((len, code, cidrs) :: groups)) with (2 + length cidrs + ip_steps groups).
  rewrite ip_tokens_cons, !length_app. cbn [length].
  assert (length cidrs <= length (flat_map (fun c => [TVarint 18; TCidr c]) cidrs)) by (induction cidrs; simpl in *; lia).
  lia.
Qed.

(** *** The networks of a file

    An entry of a protobuf message may repeat a field, and the last value
    counts.  An entry that leaves out its prefix length has the one of the
    entry before it: the reader does not clear the message. *)

Definition ip_of_field (f : cidr_field) : option bytes := match f with FieldIp a => Some a | _ => None end.
Definition prefix_of_field (f : cidr_field) : option Z := match f with FieldPrefix z => Some z | _ => None end.

Definition entry_prefix (before : Z) (fields : list cidr_field) : Z := default before (last (omap prefix_of_field fields)).

Definition entry_net (prefix : Z) (fields : list cidr_field) : option IpCidr :=
  a ← last (omap ip_of_field fields);
  if decide (length a = 4) then Some (CidrV4 (be_val a) (prefix mod 256))
  else if decide (length a = 16) then Some (CidrV6 (be_val a) (prefix mod 256))
  else None.

Fixpoint file_nets (t : tag) (before : Z) (entries : list (list cidr_field)) : list (tag * IpCidr) :=
  match entries with
  | [] => []
  | fields :: entries =>
    let prefix := entry_prefix before fields in
    match entry_net prefix fields with
    | Some n => (t, n) :: file_nets t prefix entries
    | None => file_nets t prefix entries
    end
  end.

(** The networks of each family, as rules. *)
Definition v4_rule (n : tag * IpCidr) : option (rule bytes) :=
  match n.2 with CidrV4 p l => Some (mkRule p l n.1) | CidrV6 _ _ => None end.
Definition v6_rule (n : tag * IpCidr) : option (rule bytes) :=
  match n.2 with CidrV6 p l => Some (mkRule p l n.1) | CidrV4 _ _ => None end.

Definition put_net (oc : bool) (g : GeoIPMatcher) (n : tag * IpCidr) : res GeoIPMatcher :=
  match n.2 with CidrV4 p l => put_v4 oc g p l n.1 | CidrV6 p l => put_v6 oc g p l n.1 end.

(** Prefix lengths are at least 1 and the nodes and the tags can be numbered. *)
Definition nets_fit (nets : list (tag * IpCidr)) : Prop :=
  rules_fit 32 (omap v4_rule nets) /\ rules_fit 128 (omap v6_rule nets) /\ tags_fit (length nets).

Definition geo_holds (g : GeoIPMatcher) (nets : list (tag * IpCidr)) : Prop :=
  geo_inv g (omap v4_rule nets) (omap v6_rule nets).

Lemma length_nets (nets : list (tag * IpCidr)) : length (omap v4_rule nets) + length (omap v6_rule nets) = length nets.
Proof.
  induction nets as [|[t [p l|p l]] nets IH]; [done|..]; cbn [length]; rewrite <- IH.
  - change (omap v4_rule ((t, CidrV4 p l) :: nets)) with (mkRule p l t :: omap v4_rule nets).
    change (omap v6_rule ((t, CidrV4 p l) :: nets)) with (omap v6_rule nets). simpl length. lia.
  - change (omap v6_rule ((t, CidrV6 p l) :: nets)) with (mkRule p l t :: omap v6_rule nets).
    change (omap v4_rule ((t, CidrV6 p l) :: nets)) with (omap v4_rule nets). simpl length. lia.
Qed.

Lemma nets_fit_app n1 n2 : nets_fit (n1 ++ n2) -> nets_fit n1.
Proof.
  unfold nets_fit, rules_fit, tags_fit. rewrite !omap_app, !Forall_app, !length_app.
  intros ([[? ?] ?] & [[? ?] ?] & ?). split_and!; [done|lia|done|lia|lia].
Qed.

Lemma put_net_holds oc g nets n :
  geo_holds g nets -> nets_fit (nets ++ [n]) -> exists g', put_net oc g n = Ok g' /\ geo_holds g' (nets ++ [n]).
Proof.
  intros Hg (H4 & H6 & Ht). unfold geo_holds in *. pose proof (length_nets (nets ++ [n])) as Hl.
  rewrite <- Hl in Ht. rewrite !omap_app in *. destruct n as [t [p l|p l]]; unfold put_net; simpl omap in *; simpl snd; simpl fst.
  - rewrite app_nil_r in *. destruct H4 as [Hok Hfit]. rewrite Forall_app, Forall_singleton in Hok.
    apply (put_v4_inv oc g _ _ (mkRule p l t)); [done|apply Hok|done|done].
  - rewrite app_nil_r in *. destruct H6 as [Hok Hfit]. rewrite Forall_app, Forall_singleton in Hok.
    apply (put_v6_inv oc g _ _ (mkRule p l t)); [done|apply Hok|done|done].
Qed.

Definition put_nets (oc : bool) (nets : list (tag * IpCidr)) : res GeoIPMatcher :=
  fold_left (fun g n => g ← g; put_net oc g n) nets (Ok GeoIPMatcher_new).

Lemma put_nets_holds oc nets g : nets_fit nets -> put_nets oc nets = Ok g -> geo_holds g nets.
Proof.
  unfold put_nets. revert g. induction nets as [|n nets IH] using rev_ind; intros g Hfit.
  - intros [= <-]. apply geo_inv_new.
  - rewrite fold_left_app. simpl fold_left at 1. intros E.
    destruct (fold_left _ nets _) as [g0|e|] eqn:E0; [|done..]. cbn [mbind res_bind] in E.
    destruct (put_net_holds oc g0 nets n) as (g' & Hp & Hh); [apply IH; [by eapply nets_fit_app|done]|done|].
    congruence.
Qed.

Lemma cidr_merge_from_last fields : forall c,
  cidr_merge_from fields c = mkCIDR (default (cidr_ip c) (last (omap ip_of_field fields))) (entry_prefix (cidr_prefix c) fields).
Proof.
  unfold entry_prefix. induction fields as [|[a|z|] fields IH]; intros c; cbn [cidr_merge_from]; [by destruct c|..]; rewrite IH; cbn [cidr_ip cidr_prefix].
  - change (omap ip_of_field (FieldIp a :: fields)) with (a :: omap ip_of_field fields). rewrite last_cons.
    f_equal. by destruct (last _).
  - change (omap prefix_of_field (FieldPrefix z :: fields)) with (z :: omap prefix_of_field fields). rewrite last_cons.
    f_equal. by destruct (last (omap prefix_of_field _)).
  - done.
Qed.

(** The message holds no address between two entries. *)
Definition no_address (a : bytes) : Prop := length a <> 4 /\ length a <> 16.

Lemma add_entry_net oc t fields c b :
  no_address (cidr_ip c) ->
  add_geoip_cidr oc t (cidr_merge_from fields c) b =
  match entry_net (entry_prefix (cidr_prefix c) fields) fields with
  | Some n => g ← put_net oc (rb_ip b) (t, n);
    Ok (mkCIDR [] (entry_prefix (cidr_prefix c) fields), mkRouterBuilder (rb_domain b) g (rb_regex b))
  | None => Ok (cidr_merge_from fields c, b)
  end /\ (entry_net (entry_prefix (cidr_prefix c) fields) fields = None -> no_address (cidr_ip (cidr_merge_from fields c))).
Proof.
  intros [Hn4 Hn16]. rewrite cidr_merge_from_last. unfold add_geoip_cidr, entry_net, put_net, no_address. cbn [cidr_ip cidr_prefix].
  destruct (last (omap ip_of_field fields)) as [a|]; cbn [default from_option mbind option_bind id].
  - destruct (decide (length a = 4)) as [E|E].
    + rewrite decide_False by lia. split; [done|done].
    + destruct (decide (length a = 16)); split; done.
  - rewrite !decide_False by done. split; done.
Qed.

Lemma add_entries_nets oc t entries : forall c b nets,
  no_address (cidr_ip c) -> geo_holds (rb_ip b) nets -> nets_fit (nets ++ file_nets t (cidr_prefix c) entries) ->
  exists c' b', add_entries oc t entries c b = Ok (c', b') /\ rb_domain b' = rb_domain b /\ rb_regex b' = rb_regex b
    /\ geo_holds (rb_ip b') (nets ++ file_nets t (cidr_prefix c) entries).
Proof.
  induction entries as [|fields entries IH]; intros c b nets Hc Hb Hfit; cbn [add_entries file_nets] in *.
  - rewrite app_nil_r. eauto 10.
  - destruct (add_entry_net oc t fields c b Hc) as [-> Hnone].
    destruct (entry_net _ fields) as [n|].
    + rewrite cons_middle, app_assoc in Hfit.
      destruct (put_net_holds oc _ _ _ Hb (nets_fit_app _ _ Hfit)) as (g & -> & Hg). cbn [mbind res_bind].
      destruct (IH (mkCIDR [] (entry_prefix (cidr_prefix c) fields)) (mkRouterBuilder (rb_domain b) g (rb_regex b))
        (nets ++ [(t, n)])) as (c' & b' & E & Hd & Hr & Hh); [done..|].
      exists c', b'. rewrite cons_middle, app_assoc. done.
    + cbn [mbind res_bind]. specialize (Hnone eq_refl). rewrite cidr_merge_from_last in *. by apply IH.
Qed.

(** Every other outcome of the readers comes from the loop body. *)
Lemma geoip_file_entries fuel oc t tags i groups b :
  Forall (fun '(_, code, _) => code <> []) groups -> ci_reads i (ip_tokens groups) -> length (ip_tokens groups) + 2 < fuel ->
  read_geoip_file fuel oc (inl i) t tags b
  = Some (match add_entries oc t (ip_selected (list_to_set (map to_uppercase tags)) groups) (mkCIDR [] 0) b with
  | Ok (_, b') => Ok b'
  | Err e => Err e
  | Panic => Panic
  end).
Proof.
  intros Hne Hi Hf. unfold read_geoip_file. set (tg := list_to_set (map to_uppercase tags) : gset bytes).
  destruct fuel as [|f]; [lia|]. cbn [geoip_outer]. destruct groups as [|[[len code] cidrs] groups].
  - by rewrite (ci_eof_nil _ Hi).
  - rewrite ip_tokens_cons in Hi. rewrite (ci_eof_cons _ _ _ Hi).
    destruct (ci_varint32 _ _ _ Hi) as (i1 & -> & Hi1). cbn [mbind res_bind].
    destruct (ci_varint64 _ _ _ Hi1) as (i2 & -> & Hi2).
    pose proof (length_ip_tokens ((len, code, cidrs) :: groups)) as Hl.
    change (ip_steps ((len, code, cidrs) :: groups)) with (2 + length cidrs + ip_steps groups) in Hl.
    assert (exists g, f = S (length cidrs + (ip_steps groups + S g)) /\ 0 < g) as (g & -> & Hg).
    { exists (f - length cidrs - ip_steps groups - 2). lia. }
    apply Forall_cons in Hne as [Hc Hne]. rewrite ip_selected_cons, add_entries_app.
    pose proof (geoip_entry (ip_steps groups + S g) oc t tg code cidrs i2 false (mkCIDR [] 0) b _ Hi2) as He.
    destruct (add_entries oc t (if decide (to_uppercase code ∈ tg) then cidrs else []) (mkCIDR [] 0) b) as [[c1 b1]|e|];
      cbn [mbind res_bind ip_continues] in *; [|by rewrite He..].
    destruct He as (i3 & -> & Hi3).
    pose proof (geoip_rest g oc t tg groups i3 (to_uppercase code) (bool_decide (to_uppercase code ∉ tg)) c1 b1
      (to_uppercase_nonempty _ Hc) Hne Hi3) as Hr.
    destruct (add_entries oc t (ip_selected tg groups) c1 b1) as [[c2 b2]|e|]; [|by rewrite Hr..].
    destruct Hr as (i4 & st4 & -> & Hi4 & <-). cbn [geoip_outer]. by rewrite (ci_eof_nil _ Hi4).
Qed.

(** ** Theorems *)


(** Protobuf leaves out a field that is zero, and the reader merges each
message into the last without clearing it: an entry of prefix 0 (the whole
address space) is added with the prefix of the entry before it. *)
Theorem geoip_prefix_carried_over oc t a1 a2 p c b :
  length a1 = 4 -> length a2 = 4 ->
  ('(c, b) ← add_geoip_cidr oc t (cidr_merge_from [FieldIp a1; FieldPrefix p] c) b;
  add_geoip_cidr oc t (cidr_merge_from [FieldIp a2] c) b)
  = ('(c, b) ← add_geoip_cidr oc t (cidr_merge_from [FieldIp a1; FieldPrefix p] c) b;
  add_geoip_cidr oc t (cidr_merge_from [FieldIp a2; FieldPrefix p] c) b).
Proof.
  intros Hl1 Hl2. cbn [cidr_merge_from cidr_ip cidr_prefix].
  assert (exists r, add_geoip_cidr oc t (mkCIDR a1 p) b = (b' ← r; Ok (mkCIDR [] p, b'))) as [r ->].
  { unfold add_geoip_cidr. cbn [cidr_ip cidr_prefix]. rewrite Hl1, decide_False, decide_True by done.
    exists (ip ← put_v4 oc (rb_ip b) (be_val a1) (wrap 8 p) t; Ok (mkRouterBuilder (rb_domain b) ip (rb_regex b))).
    by destruct (put_v4 _ _ _ _ _). }
  by destruct r.
Qed.

Definition gs_tags (g : GeoSiteRules) : gmap bytes tag :=
  list_to_map (map (fun r => (to_uppercase r, gs_tag g)) (gs_rules g)).

Lemma build_regex_total rules acc :
  (forall t es, (t, es) ∈ rules -> is_Some (regex_build es)) -> exists out, build_regex rules acc = Ok out.
Proof.
  revert acc. induction rules as [|[t es] rules IH]; intros acc Hr; simpl; [eauto|].
  destruct (Hr t es) as [r ->]; [by left|]. apply IH. intros t' es' Hin. apply (Hr t'). by right.
Qed.

Lemma router_build_total hash_order dflt b evs revs :
  models b evs revs -> (forall t, is_Some (regex_build (exprs_of t revs))) ->
  exists rt, router_build hash_order dflt b = Ok rt /\ rt_ip rt = rb_ip b /\ rt_default rt = dflt.
Proof.
  intros [_ (Hok & Hk & Hv)] Hr. unfold router_build.
  destruct (build_regex_total (kiom_into_iter (rb_regex b)) ∅) as [out ->].
  - intros t es Hin. apply kassoc_elem in Hin; [|by apply kiom_keys_nodup]. specialize (Hv t). unfold kiom_into_iter in Hin. rewrite Hin in Hv. by subst es.
  - cbn [mbind res_bind]. eauto.
Qed.

Section Answers.
Context (oc : bool) (parse : bytes -> option IpCidr) (open : bytes -> I + io_error) (fuel : nat).
Context (hash_order : gmap tag R -> list (tag * R)) (files : bytes -> list site_group).

(** A file that is there, holds groups and fits the fuel. *)
Definition file_ok (name : bytes) : Prop :=
  exists i, open name = inl i /\ ci_reads i (site_tokens (files name))
  /\ Forall (fun '(_, code, _) => code <> []) (files name) /\ length (site_tokens (files name)) + 2 < fuel.

Definition gs_events (g : GeoSiteRules) : list dom_event :=
  prepare_events (gs_tags g) ++ site_selected dom_event_of (gs_tags g) (files (gs_file g)).

Definition gs_revents (g : GeoSiteRules) : list (tag * list bytes) :=
  site_selected dom_revent_of (gs_tags g) (files (gs_file g)).

Lemma add_geosites_models gss b evs revs :
  Forall (fun g => file_ok (gs_file g)) gss -> models b evs revs ->
  exists b', add_all (add_geosite open fuel) gss b = Ok b'
  /\ models b' (evs ++ flat_map gs_events gss) (revs ++ flat_map gs_revents gss) /\ rb_ip b' = rb_ip b.
Proof.
  intros Hg. revert b evs revs. induction Hg as [|g gss (i & Ho & Hi & Hne & Hf) Hgss IH]; intros b evs revs Hb; simpl.
  - rewrite !app_nil_r. eauto.
  - assert (add_geosite open fuel g b = from_fuel (read_geosite_file fuel (inl i) (gs_tags g) (gs_use_mph g) b)) as ->
      by (unfold add_geosite; by rewrite Ho).
    destruct (read_geosite_models fuel (gs_tags g) (gs_use_mph g) i _ b evs revs Hb Hne Hi Hf) as (b1 & -> & Hi1 & Hb1).
    change (from_fuel (Some (Ok b1))) with (Ok b1). cbn [mbind res_bind].
    destruct (IH b1 _ _ Hb1) as (b2 & -> & Hb2 & Hi2). exists b2. split; [done|]. rewrite !app_assoc, Hi2 in *.
    split; [|done]. unfold gs_events, gs_revents. by rewrite !app_assoc.
Qed.

(** C8: the router of a configuration with domain, IP and geosite rules (IPv4
CIDRs, geosite files made of groups with a code, and regular expressions
that compile).  Building it succeeds.  A domain name is routed to the first
outbound, in order of first appearance over the domain rules and then the
geosite rules, that has a matching rule among the domain rules and the
domains of the site groups it selects; if there is none, to some outbound
whose regular expressions match, and to the default outbound if there is
none of these either.  An IPv4 address is routed by the longest CIDR prefix
that contains it, the later rule on equal length, and to the default
outbound when no rule matches. *)
Theorem router_answers drs irs gss dflt :
  let evs := flat_map dr_events drs ++ flat_map gs_events gss in
  let revs := map (fun dr => (dr_tag dr, dr_regex dr)) drs ++ flat_map gs_revents gss in
  let rules := flat_map (fun ir => flat_map (cidr_rule parse (ir_tag ir)) (ir_cidr ir)) irs in
  (forall m, hash_order m ≡ₚ map_to_list m) ->
  Forall (fun ir => Forall (all_v4 parse) (ir_cidr ir)) irs -> rules_fit 32 rules ->
  Forall (fun g => file_ok (gs_file g)) gss ->
  (forall t, is_Some (regex_build (exprs_of t revs))) ->
  exists rt, build_router oc parse open fuel hash_order drs irs gss [] dflt = Ok rt /\
  (forall d p, exists t, match_addr rt (DomainNameAddress d p) = Ok t /\
    match domain_spec evs d with
    | Some t0 => t = t0
    | None => regex_hits revs t d \/ t = dflt /\ forall t', ~ regex_hits revs t' d
    end) /\
  (forall ip p, match_addr rt (SocketAddress (V4 ip p))
    = Ok (let t := default [] (match_spec 32 rules (be_val (octets4 ip))) in if decide (t = []) then dflt else t)).
Proof.
  intros evs revs rules Hho Hir Hfit Hgs Hre. unfold build_router.
  destruct (add_all_models add_domain_routing dr_events (fun dr => [(dr_tag dr, dr_regex dr)]) drs RouterBuilder_new [] [])
    as (b1 & -> & Hb1 & Hi1); [|apply models_new|].
  { intros x b0 evs0 revs0 Hb0. by apply add_domain_routing_models. }
  cbn [mbind res_bind]. rewrite flat_map_singleton in Hb1. rewrite add_ip_rules_put by done. rewrite Hi1. cbn [rb_ip RouterBuilder_new].
  destruct (GeoIPMatcher_match4 oc rules Hfit) as (g & Hg & Hmatch). unfold put_v4_all in Hg.
  fold (put_v4_rules oc rules (Ok GeoIPMatcher_new)) in Hg. fold rules. rewrite Hg. cbn [mbind res_bind].
  destruct (add_geosites_models gss (mkRouterBuilder (rb_domain b1) g (rb_regex b1)) _ _ Hgs Hb1) as (b2 & -> & Hb2 & Hi2).
  cbn [mbind res_bind add_all]. change ([] ++ flat_map dr_events drs) with (flat_map dr_events drs) in Hb2.
  destruct (router_build_total hash_order dflt b2 _ _ Hb2 Hre) as (rt & Hrt & Hip & Hdf). exists rt. split; [done|]. split.
  - intros d p. eapply match_addr_domain; done.
  - intros ip p. cbn [match_addr]. rewrite Hip, Hi2. cbn [rb_ip]. unfold socket_addr_v4_to_u32.
    assert (0 <= be_val (octets4 ip) < 2 ^ 32)%Z as Hr by apply (be_val_range (octets4 ip)).
    rewrite Hmatch by exact Hr. cbn [mbind res_bind]. unfold or_default. by rewrite Hdf.
Qed.
End Answers.
End Files.

(** ** Witnesses: lists of rules, and a file as its list of tokens *)

Section Witness.
Definition text_rule (r : bytes * MatchType) (d : bytes) : bool :=
  match r.2 with
  | Full => bool_decide (r.1 = d)
  | Domain => bool_decide (r.1 = d \/ drop (length d - S (length r.1)) d = str "." ++ r.1)
  | SubStr => existsb (fun n => bool_decide (take (length r.1) (drop n d) = r.1)) (seq 0 (S (length d)))
  end.

Lemma fold_insert_rules (rules acc : list (bytes * MatchType)) :
  fold_left (fun m r => m ++ [(r.1, r.2)]) rules acc = acc ++ rules.
Proof.
  revert acc. induction rules as [|[r t] rules IH]; intros acc; simpl; [by rewrite app_nil_r|]. by rewrite IH, <- app_assoc.
Qed.

#[local] Program Instance list_matcher : DomainMatcher (list (bytes * MatchType)) := {|
    mph_new := [];
    hybrid_new := [];
    reverse_insert m r t := m ++ [(r, t)];
    dm_build m := m;
    dm_rule := text_rule;
    reverse_query m d := existsb (fun r => text_rule r d) m
  |}.
Next Obligation. intros mph rules d. f_equal. destruct mph; by rewrite fold_insert_rules. Qed.

(** Regular expressions that match their own text. *)
#[local] Program Instance list_regex : RegexSetBuilder (list bytes) := {|
    regex_build rules := Some rules;
    is_match r d := existsb (fun e => bool_decide (e = d)) r;
    regex_rule e d := bool_decide (e = d)
  |}.
Next Obligation. by intros rules r d [= ->]. Qed.

Definition tok_varint (i : list token) : res (Z * list token) :=
  match i with TVarint z :: i => Ok (z, i) | _ => Err unexpected_eof end.

#[local] Instance list_input : CodedInputStream (list token).
Proof.
  refine {|
    is_eof i := Ok (match i with [] => true | _ => false end);
    read_raw_varint32 := tok_varint;
    read_raw_varint64 := tok_varint;
    read_string i := match i with TString s :: i => Ok (s, i) | _ => Err unexpected_eof end;
    read_domain i := match i with TDomain d :: i => Ok (d, i) | _ => Err unexpected_eof end;
    read_cidr i := match i with TCidr c :: i => Ok (c, i) | _ => Err unexpected_eof end;
    skip_field _ i := match i with _ :: i => Ok i | [] => Err unexpected_eof end;
    valid_wire_type z := (z <=? 5)%Z;
    ci_reads i ts := i = ts
    |}; abstract (intros; subst; simpl; eauto).
Defined.

Definition wit_files (name : bytes) : list site_group :=
  [(9, str "CN", [mkDomain DomainT (str "cn")]); (7, str "ADS", [mkDomain Plain (str "ads")])]%Z.

Definition wit_drs : list DomainRoutingRules :=
  [mkDomainRules (str "direct") [str "a.b"] [] [str "r.x"] [] true].
Definition wit_gss : list GeoSiteRules := [mkGeoSite (str "block") (str "geosite.dat") [str "ads"] false].
Definition wit_irs : list IpRoutingRules := [mkIpRules (str "lan") [str "10.0.0.0/8"]].
Definition wit_parse (text : bytes) : option IpCidr := Some (CidrV4 167772160 8).

Definition wit_build : res Router :=
  build_router false wit_parse (fun n => inl (site_tokens (wit_files n))) 20 map_to_list
  wit_drs wit_irs wit_gss [] (str "proxy").

Lemma router_answers_witness :
  exists rt, wit_build = Ok rt /\
  match_addr rt (DomainNameAddress (str "www.ads.net") 80) = Ok (str "block") /\
  match_addr rt (SocketAddress (V4 (mkIpv4 x0a x01 x02 x03) 80)) = Ok (str "lan").
Proof.
  destruct (router_answers false wit_parse (fun n => inl (site_tokens (wit_files n))) 20 map_to_list wit_files
    wit_drs wit_irs wit_gss (str "proxy")) as (rt & Hb & Hd & Hi).
  - done.
  - repeat constructor.
  - split; [repeat constructor; simpl; lia|vm_compute; reflexivity].
  - repeat constructor. eexists. split; [reflexivity|]. split; [reflexivity|]. split; [repeat constructor; done|vm_compute; lia].
  - intros t. eexists. reflexivity.
  - exists rt. split; [exact Hb|]. split.
    + destruct (Hd (str "www.ads.net") 80%Z) as (t & Ht & Hs). rewrite Ht. f_equal.
      vm_compute in Hs. exact Hs.
    + rewrite Hi. vm_compute. reflexivity.
Defined.

(** Two countries, one of them asked for: an IPv4 network, one whose prefix
length is left out, a malformed one and an IPv6 network. *)
Definition wit_groups : list ip_group :=
  [(9, str "CN", [[FieldIp [x01; x00; x00; x00]; FieldPrefix 8]; [FieldIp [x02; x03; x00; x00]]; [FieldIp [x07]];
    [FieldPrefix 32; FieldIp [x20; x01; x0d; xb8; x00; x00; x00; x00; x00; x00; x00; x00; x00; x00; x00; x00]]]);
  (7, str "US", [[FieldIp [x0a; x01; x00; x00]; FieldPrefix 16]])]%Z.
Definition wit_before : list (tag * IpCidr) := [(str "lan", CidrV4 167772160 8)].
(** What the matcher holds afterwards. *)
Definition wit_nets : list (tag * IpCidr) :=
  wit_before ++ [(str "direct", CidrV4 16777216 8); (str "direct", CidrV4 33751040 8);
    (str "direct", CidrV6 (536939960 * 2 ^ 96) 32)]%Z.
Definition wit_builder : RouterBuilder (M := list (bytes * MatchType)) :=
  mkRouterBuilder kiom_new (match put_nets false wit_before with Ok g => g | _ => GeoIPMatcher_new end) kiom_new.


Lemma geoip_prefix_carried_over_witness :
  let add fields c b := add_geoip_cidr false (str "t") (cidr_merge_from fields c) b in
  ('(c, b) ← add [FieldIp [x01; x00; x00; x00]; FieldPrefix 8] (mkCIDR [] 0) (RouterBuilder_new (M := list (bytes * MatchType)));
  add [FieldIp [x00; x00; x00; x00]] c b)
  = ('(c, b) ← add [FieldIp [x01; x00; x00; x00]; FieldPrefix 8] (mkCIDR [] 0) RouterBuilder_new;
  add [FieldIp [x00; x00; x00; x00]; FieldPrefix 8] c b).
Proof. exact (geoip_prefix_carried_over false (str "t") [x01; x00; x00; x00] [x00; x00; x00; x00] 8 (mkCIDR [] 0) _ eq_refl eq_refl). Defined.
End Witness.
