(* ===== verification/Protobuf.v ===== *)
(** * The crate protobuf, as the generated messages use it

    [CodedInputStream], [CodedOutputStream], [UnknownFields] and
    [SpecialFields] are parameters: the class [Protobuf] states the documented
    behaviour (the wire format) of the functions that the generated code of
    GeoMessages.v calls.  The trait [Message] is the class [Message]; what a
    message promises to the messages that contain it is [MessageSpec].

    A message is read from the bytes up to its limit, so the stream is what is
    left of them; [CodedInputStream::read_message] sets the limit. *)

From S2P Require Import Prelude Io StdText Leb128.
From Stdlib Require Import ZArith Lia List Strings.Byte.
From stdpp Require Import base option list strings.

(** ** The wire format *)

Inductive wire_value :=
| WVarint (z : Z)
| WFixed64 (b : bytes)
| WBytes (b : bytes)
| WFixed32 (b : bytes).

Definition wire_field : Type := Z * wire_value.

#[export] Instance wire_value_eq_dec : EqDecision wire_value.
Proof. solve_decision. Defined.

Definition wire_type (v : wire_value) : Z :=
  match v with WVarint _ => 0 | WFixed64 _ => 1 | WBytes _ => 2 | WFixed32 _ => 5 end.

Definition tag_of (f : wire_field) : Z := f.1 * 8 + wire_type f.2.

(** The limit on the length of a message and of a field. *)
Definition MAX_MESSAGE : Z := 2 ^ 31.

(** The fields that can be on the wire, and those whose length can be, too. *)
Definition field_wf (f : wire_field) : Prop :=
  (1 <= f.1 < 2 ^ 29)%Z /\
  match f.2 with
  | WVarint z => (0 <= z < 2 ^ 64)%Z
  | WFixed64 b => length b = 8
  | WFixed32 b => length b = 4
  | WBytes _ => True
  end.

Definition field_ok (f : wire_field) : Prop :=
  field_wf f /\ match f.2 with WBytes b => (Z.of_nat (length b) < MAX_MESSAGE)%Z | _ => True end.

(** Variable-length integers. *)
Class RawVarint := {
  raw_varint : Z -> bytes;
  raw_varint_byte v : (0 <= v < 128)%Z -> length (raw_varint v) = 1
}.

Section Wire.
Context `{RawVarint}.

Definition enc_value (v : wire_value) : bytes :=
  match v with
  | WVarint z => raw_varint z
  | WBytes b => raw_varint (Z.of_nat (length b)) ++ b
  | WFixed64 b | WFixed32 b => b
  end.

Definition enc_field (f : wire_field) : bytes := raw_varint (tag_of f) ++ enc_value f.2.
Definition enc_fields (fs : list wire_field) : bytes := flat_map enc_field fs.

Lemma enc_fields_app l1 l2 : enc_fields (l1 ++ l2) = enc_fields l1 ++ enc_fields l2.
Proof. apply flat_map_app. Qed.

Lemma enc_fields_cons f fs : enc_fields (f :: fs) = enc_field f ++ enc_fields fs.
Proof. done. Qed.

Lemma enc_fields_one f : enc_fields [f] = enc_field f.
Proof. apply app_nil_r. Qed.

Lemma enc_bytes_le n b : length b <= length (enc_field (n, WBytes b)).
Proof. unfold enc_field. cbn [snd enc_value]. rewrite !length_app. lia. Qed.

Lemma fields_ok_small fs : Forall field_wf fs -> (Z.of_nat (length (enc_fields fs)) < MAX_MESSAGE)%Z -> Forall field_ok fs.
Proof.
  induction 1 as [|[n v] fs Hf _ IH]; intros Hs; constructor.
  - split; [done|]. cbn [snd]. destruct v; try done. pose proof (enc_bytes_le n b). cbn in Hs. rewrite length_app in Hs. lia.
  - apply IH. cbn in Hs. rewrite length_app in Hs. fold (enc_fields fs) in Hs. lia.
Qed.
End Wire.

(** ** The crate's functions *)

(** A write appends the bytes [b] to what was written, or fails. *)
Definition emits {O} (written : O -> bytes) (w : O -> res O) (b : bytes) : Prop :=
  forall o, match w o with
  | Ok o' => written o' = written o ++ b
  | Err _ => True
  | Panic => False
  end.

Definition i32_ok (z : Z) : Prop := (- 2 ^ 31 <= z < 2 ^ 31)%Z.
Definition i64_ok (z : Z) : Prop := (- 2 ^ 63 <= z < 2 ^ 63)%Z.
Definition u32_ok (z : Z) : Prop := (0 <= z < 2 ^ 32)%Z.

(** Signed integers and booleans are varints. *)
Definition wire_int (z : Z) : wire_value := WVarint (z mod 2 ^ 64).
Definition wire_bool (b : bool) : wire_value := WVarint (if b then 1 else 0).

(** The fields that were not known, and a message's [special_fields]. *)
Class Fields := {
  UnknownFields : Type;
  uf_new : UnknownFields;
  uf_add : wire_field -> UnknownFields -> UnknownFields;
  (* an order in which they may be written *)
  uf_order : UnknownFields -> list wire_field -> Prop;
  uf_order_new fs : uf_order uf_new fs -> fs = [];
  uf_order_add u fs : uf_order u fs -> foldl (fun u f => uf_add f u) uf_new fs = u;
  SpecialFields : Type;
  sf_new : SpecialFields;
  unknown_fields : SpecialFields -> UnknownFields;
  set_unknown_fields : UnknownFields -> SpecialFields -> SpecialFields;   (* through [mut_unknown_fields] *)
  cached_size : SpecialFields -> Z;
  set_cached_size : Z -> SpecialFields -> SpecialFields;
  sf_clear : SpecialFields -> SpecialFields;
  sf_unknown_new : unknown_fields sf_new = uf_new;
  sf_unknown_set u s : unknown_fields (set_unknown_fields u s) = u;
  sf_unknown_cached z s : unknown_fields (set_cached_size z s) = unknown_fields s;
  sf_cached_set z s : cached_size (set_cached_size z s) = z;
  sf_unknown_clear s : unknown_fields (sf_clear s) = uf_new
}.

Class Protobuf `{RawVarint} `{Fields} := {
  (* reading: the value and what is left up to the limit *)
  read_raw_tag_or_eof : bytes -> res (option Z * bytes);
  read_string : bytes -> res (bytes * bytes);
  read_tokio_bytes : bytes -> res (bytes * bytes);
  read_uint32 : bytes -> res (Z * bytes);
  read_int64 : bytes -> res (Z * bytes);
  read_enum_or_unknown : bytes -> res (Z * bytes);
  read_bool : bytes -> res (bool * bytes);
  read_unknown_or_skip_group : Z -> bytes -> UnknownFields -> res (UnknownFields * bytes);
  (* [new], [merge_from], [is_initialized] *)
  read_message {M} : M -> (M -> bytes -> res (M * bytes)) -> (M -> bool) -> bytes -> res (M * bytes);
  (* writing *)
  CodedOutputStream : Type;
  os_written : CodedOutputStream -> bytes;
  write_string : Z -> bytes -> CodedOutputStream -> res CodedOutputStream;
  write_bytes : Z -> bytes -> CodedOutputStream -> res CodedOutputStream;
  write_enum : Z -> Z -> CodedOutputStream -> res CodedOutputStream;
  write_bool : Z -> bool -> CodedOutputStream -> res CodedOutputStream;
  write_int64 : Z -> Z -> CodedOutputStream -> res CodedOutputStream;
  write_uint32 : Z -> Z -> CodedOutputStream -> res CodedOutputStream;
  write_unknown_fields : UnknownFields -> CodedOutputStream -> res CodedOutputStream;
  (* the cached size and [write_to_with_cached_sizes] of the message *)
  write_message_field_with_cached_size :
    Z -> Z -> (CodedOutputStream -> res CodedOutputStream) -> CodedOutputStream -> res CodedOutputStream;
  (* sizes *)
  compute_raw_varint64_size : Z -> Z;
  string_size : Z -> bytes -> Z;
  bytes_size : Z -> bytes -> Z;
  int32_size : Z -> Z -> Z;
  int64_size : Z -> Z -> Z;
  uint32_size : Z -> Z -> Z;
  unknown_fields_size : UnknownFields -> Z;
  (* reading never gives bytes back *)
  read_tag_shrinks b t b' : read_raw_tag_or_eof b = Ok (Some t, b') -> length b' < length b;
  read_eof_shrinks b b' : read_raw_tag_or_eof b = Ok (None, b') -> length b' <= length b;
  read_string_shrinks b s b' : read_string b = Ok (s, b') -> length b' <= length b;
  read_bytes_shrinks b s b' : read_tokio_bytes b = Ok (s, b') -> length b' <= length b;
  read_uint32_shrinks b z b' : read_uint32 b = Ok (z, b') -> length b' <= length b;
  read_int64_shrinks b z b' : read_int64 b = Ok (z, b') -> length b' <= length b;
  read_enum_shrinks b z b' : read_enum_or_unknown b = Ok (z, b') -> length b' <= length b;
  read_bool_shrinks b z b' : read_bool b = Ok (z, b') -> length b' <= length b;
  read_unknown_shrinks t b u u' b' : read_unknown_or_skip_group t b u = Ok (u', b') -> length b' <= length b;
  read_message_shrinks {M} (m : M) merge init b m' b' :
    (forall m x m' x', merge m x = Ok (m', x') -> length x' <= length x) ->
    read_message m merge init b = Ok (m', b') -> length b' <= length b;
  (* reading what is encoded *)
  read_tag_eof : read_raw_tag_or_eof [] = Ok (None, []);
  read_tag f r : field_ok f -> read_raw_tag_or_eof (enc_field f ++ r) = Ok (Some (tag_of f), enc_value f.2 ++ r);
  read_string_enc s r : utf8_valid s = true -> (Z.of_nat (length s) < MAX_MESSAGE)%Z -> read_string (enc_value (WBytes s) ++ r) = Ok (s, r);
  read_bytes_enc s r : (Z.of_nat (length s) < MAX_MESSAGE)%Z -> read_tokio_bytes (enc_value (WBytes s) ++ r) = Ok (s, r);
  read_uint32_enc z r : u32_ok z -> read_uint32 (enc_value (WVarint z) ++ r) = Ok (z, r);
  read_int64_enc z r : i64_ok z -> read_int64 (enc_value (wire_int z) ++ r) = Ok (z, r);
  read_enum_enc z r : i32_ok z -> read_enum_or_unknown (enc_value (wire_int z) ++ r) = Ok (z, r);
  read_bool_enc b r : read_bool (enc_value (wire_bool b) ++ r) = Ok (b, r);
  read_unknown_enc f u r : field_ok f -> read_unknown_or_skip_group (tag_of f) (enc_value f.2 ++ r) u = Ok (uf_add f u, r);
  read_message_enc {M} (m m' : M) merge init body r :
    (Z.of_nat (length body) < MAX_MESSAGE)%Z -> merge m body = Ok (m', []) -> init m' = true ->
    read_message m merge init (enc_value (WBytes body) ++ r) = Ok (m', r);
  (* writing *)
  write_string_emits n s : emits os_written (write_string n s) (enc_field (n, WBytes s));
  write_bytes_emits n s : emits os_written (write_bytes n s) (enc_field (n, WBytes s));
  write_enum_emits n z : i32_ok z -> emits os_written (write_enum n z) (enc_field (n, wire_int z));
  write_bool_emits n b : emits os_written (write_bool n b) (enc_field (n, wire_bool b));
  write_int64_emits n z : i64_ok z -> emits os_written (write_int64 n z) (enc_field (n, wire_int z));
  write_uint32_emits n z : u32_ok z -> emits os_written (write_uint32 n z) (enc_field (n, WVarint z));
  write_unknown_emits u : exists fs, uf_order u fs /\ emits os_written (write_unknown_fields u) (enc_fields fs);
  write_message_emits n body w : emits os_written w body ->
    emits os_written (write_message_field_with_cached_size n (Z.of_nat (length body)) w) (enc_field (n, WBytes body));
  (* sizes *)
  varint_size_pos z : (0 <= compute_raw_varint64_size z)%Z;
  varint_size z : (0 <= z < 2 ^ 64)%Z -> compute_raw_varint64_size z = Z.of_nat (length (raw_varint z));
  string_size_enc n s : string_size n s = Z.of_nat (length (enc_field (n, WBytes s)));
  bytes_size_enc n s : bytes_size n s = Z.of_nat (length (enc_field (n, WBytes s)));
  int32_size_enc n z : i32_ok z -> int32_size n z = Z.of_nat (length (enc_field (n, wire_int z)));
  int64_size_enc n z : i64_ok z -> int64_size n z = Z.of_nat (length (enc_field (n, wire_int z)));
  uint32_size_enc n z : u32_ok z -> uint32_size n z = Z.of_nat (length (enc_field (n, WVarint z)));
  unknown_size_enc u fs : uf_order u fs -> unknown_fields_size u = Z.of_nat (length (enc_fields fs))
}.

(** ** Equality of messages

    [PartialEq] of [SpecialFields] compares the unknown fields; the cached size
    is not part of the value. *)

Section Equality.
Context `{Fields}.

#[export] Instance sf_equiv : Equiv SpecialFields := fun a b => unknown_fields a = unknown_fields b.

#[export] Instance sf_equivalence : Equivalence (≡@{SpecialFields}).
Proof. split; repeat intro; unfold equiv, sf_equiv in *; congruence. Qed.

Lemma sf_cached_equiv z s : set_cached_size z s ≡ s.
Proof. apply sf_unknown_cached. Qed.

Lemma sf_clear_equiv s : sf_clear s ≡ sf_new.
Proof. unfold equiv, sf_equiv. by rewrite sf_unknown_clear, sf_unknown_new. Qed.

(** An unknown field can be on the wire and is none of the known ones. *)
Definition unknown_ok (tags : list Z) (s : SpecialFields) : Prop :=
  forall fs, uf_order (unknown_fields s) fs -> Forall field_wf fs /\ Forall (fun f => tag_of f ∉ tags) fs.

Lemma unknown_ok_wf tags s fs : unknown_ok tags s -> uf_order (unknown_fields s) fs -> Forall field_wf fs.
Proof. intros Hs Ho. apply (Hs _ Ho). Qed.

Lemma unknown_ok_new tags : unknown_ok tags sf_new.
Proof. intros fs Hfs. rewrite sf_unknown_new in Hfs. by rewrite (uf_order_new _ Hfs). Qed.
End Equality.

(** ** [merge_from]: the loop over the tags *)

Section Merge.
Context `{Protobuf} {M : Type} (field : Z -> M -> bytes -> res (M * bytes)).

(** [field] is the [match] of the loop.  A tag takes a byte, so the length is
enough fuel ([merge_with_unfold]). *)
Fixpoint merge_loop (fuel : nat) (m : M) (b : bytes) : res (M * bytes) :=
  match fuel with
  | O => Panic
  | S f =>
    '(t, b) ← read_raw_tag_or_eof b;
    match t with
    | None => Ok (m, b)
    | Some tag => '(m, b) ← field tag m b; merge_loop f m b
    end
  end.

Definition merge_with (m : M) (b : bytes) : res (M * bytes) := merge_loop (S (length b)) m b.

Definition shrinks : Prop := forall t m b m' b', field t m b = Ok (m', b') -> length b' <= length b.

Lemma merge_loop_fuel f g m b : shrinks -> length b < f -> length b < g -> merge_loop f m b = merge_loop g m b.
Proof.
  intros Hs. revert g m b. induction f as [|f IH]; intros [|g] m b Hf Hg; try lia. cbn [merge_loop].
  destruct (read_raw_tag_or_eof b) as [[[t|] b1]|e|] eqn:Et; cbn [mbind res_bind]; try done.
  apply read_tag_shrinks in Et. destruct (field t m b1) as [[m2 b2]|e|] eqn:Ef; cbn [mbind res_bind]; try done.
  apply Hs in Ef. apply IH; lia.
Qed.

Lemma merge_with_unfold m b : shrinks ->
  merge_with m b =
  ('(t, b) ← read_raw_tag_or_eof b;
    match t with
    | None => Ok (m, b)
    | Some tag => '(m, b) ← field tag m b; merge_with m b
    end).
Proof.
  intros Hs. unfold merge_with at 1. cbn [merge_loop].
  destruct (read_raw_tag_or_eof b) as [[[t|] b1]|e|] eqn:Et; cbn [mbind res_bind]; try done.
  apply read_tag_shrinks in Et. destruct (field t m b1) as [[m2 b2]|e|] eqn:Ef; cbn [mbind res_bind]; try done.
  apply Hs in Ef. apply merge_loop_fuel; [done|lia|lia].
Qed.

Lemma merge_with_shrinks m b m' b' : shrinks -> merge_with m b = Ok (m', b') -> length b' <= length b.
Proof.
  intros Hs. unfold merge_with. generalize (S (length b)) as f. intros f. revert m b.
  induction f as [|f IH]; intros m b; cbn [merge_loop]; [done|].
  destruct (read_raw_tag_or_eof b) as [[[t|] b1]|e|] eqn:Et; cbn [mbind res_bind]; try done.
  - apply read_tag_shrinks in Et. destruct (field t m b1) as [[m2 b2]|e|] eqn:Ef; cbn [mbind res_bind]; try done.
    apply Hs in Ef. intros Hr%IH. lia.
  - apply read_eof_shrinks in Et. by intros [= <- <-].
Qed.

(** Reading the fields [fs] turns [m] into [m']. *)
Inductive absorbs : M -> list wire_field -> M -> Prop :=
| absorbs_nil m : absorbs m [] m
| absorbs_cons m f m1 fs m2 :
    (field_ok f -> forall r, field (tag_of f) m (enc_value f.2 ++ r) = Ok (m1, r)) -> absorbs m1 fs m2 -> absorbs m (f :: fs) m2.

Lemma absorbs_app m fs m1 gs m2 : absorbs m fs m1 -> absorbs m1 gs m2 -> absorbs m (fs ++ gs) m2.
Proof. induction 1; [done|]. intros Hg. cbn [app]. econstructor; eauto. Qed.

Lemma absorbs_one m f m' : (field_ok f -> forall r, field (tag_of f) m (enc_value f.2 ++ r) = Ok (m', r)) -> absorbs m [f] m'.
Proof. intros Hf. econstructor; [exact Hf|constructor]. Qed.

Lemma merge_absorbs m fs m' : shrinks -> Forall field_ok fs -> absorbs m fs m' -> merge_with m (enc_fields fs) = Ok (m', []).
Proof.
  intros Hs Hok Ha. revert Hok. induction Ha as [m|m f m1 fs m2 Hf _ IH]; intros Hok; rewrite merge_with_unfold by done.
  - by rewrite read_tag_eof.
  - inversion Hok as [|? ? Hf1 Hfs]. subst. rewrite enc_fields_cons, read_tag by done. cbn [mbind res_bind]. rewrite Hf by done. cbn [mbind res_bind]. by apply IH.
Qed.
End Merge.

(** ** The trait [Message] *)

Class Message `{Protobuf} (M : Type) := {
  msg_new : M;
  msg_is_initialized : M -> bool;
  msg_merge_from : M -> bytes -> res (M * bytes);
  (* the sizes, stored in the message and its parts *)
  msg_compute_size : M -> Z * M;
  msg_write_to_with_cached_sizes : M -> CodedOutputStream -> res CodedOutputStream;
  msg_special_fields : M -> SpecialFields;
  msg_clear : M -> M;
  msg_default_instance : M;
  msg_NAME : bytes
}.

Definition msg_cached_size `{Message M} (m : M) : Z := cached_size (msg_special_fields m).

(** [CodedInputStream::read_message]. *)
Definition read_msg `{Message M} (b : bytes) : res (M * bytes) := read_message msg_new msg_merge_from msg_is_initialized b.

(** What a message promises: the fields it may be written as, that the sizes
are those of the bytes, and that the bytes are read back as the message. *)
Class MessageSpec `{Message M} `{Equiv M} := {
  msg_wf : M -> Prop;
  msg_fields : M -> list wire_field -> Prop;
  ms_equiv : Equivalence (≡@{M});
  ms_initialized m : msg_is_initialized m = true;
  ms_shrinks m b m' b' : msg_merge_from m b = Ok (m', b') -> length b' <= length b;
  ms_size m s m1 : msg_wf m -> msg_compute_size m = (s, m1) ->
    m1 ≡ m /\ (0 <= s)%Z /\ msg_cached_size m1 = wrap 32 s /\
    ((s < MAX_MESSAGE)%Z -> forall fs, msg_fields m fs -> s = Z.of_nat (length (enc_fields fs)));
  ms_write m s m1 : msg_wf m -> msg_compute_size m = (s, m1) -> (s < MAX_MESSAGE)%Z ->
    exists fs, msg_fields m fs /\ emits os_written (msg_write_to_with_cached_sizes m1) (enc_fields fs);
  ms_merge m fs : msg_wf m -> msg_fields m fs -> (Z.of_nat (length (enc_fields fs)) < MAX_MESSAGE)%Z ->
    exists m', msg_merge_from msg_new (enc_fields fs) = Ok (m', []) /\ m' ≡ m
}.
#[export] Existing Instance ms_equiv.

Lemma read_msg_shrinks `{MessageSpec M} b m b' : read_msg b = Ok (m, b') -> length b' <= length b.
Proof. intros Hr. apply (read_message_shrinks msg_new msg_merge_from msg_is_initialized b m b'); [apply ms_shrinks|exact Hr]. Qed.

(** ** Repeated fields *)

Section Repeated.
Context `{MessageSpec M}.

(** [for value in &self.field] of [compute_size]: the tag of these fields
takes one byte. *)
Fixpoint compute_sizes (l : list M) : Z * list M :=
  match l with
  | [] => (0, [])
  | v :: l =>
    let '(len, v) := msg_compute_size v in
    let '(s, l) := compute_sizes l in
    (1 + compute_raw_varint64_size len + len + s, v :: l)
  end%Z.

(** [for v in &self.field] of [write_to_with_cached_sizes]. *)
Fixpoint write_messages (n : Z) (l : list M) (os : CodedOutputStream) : res CodedOutputStream :=
  match l with
  | [] => Ok os
  | v :: l =>
    os ← write_message_field_with_cached_size n (msg_cached_size v) (msg_write_to_with_cached_sizes v) os;
    write_messages n l os
  end.

(** The fields of the messages [l] under the number [n]. *)
Definition repeated (n : Z) (l : list M) (fs : list wire_field) : Prop :=
  Forall2 (fun v f => exists gs, msg_fields v gs /\ f = (n, WBytes (enc_fields gs))) l fs.

Lemma repeated_wf n l fs : (1 <= n < 2 ^ 29)%Z -> repeated n l fs -> Forall field_wf fs.
Proof. intros Hn. induction 1 as [|v f l fs (gs & _ & ->) _ IH]; constructor; [by split|done]. Qed.

Lemma enc_message_length n gs : (1 <= n < 16)%Z -> (Z.of_nat (length (enc_fields gs)) < MAX_MESSAGE)%Z ->
  Z.of_nat (length (enc_field (n, WBytes (enc_fields gs)))) =
  (1 + compute_raw_varint64_size (Z.of_nat (length (enc_fields gs))) + Z.of_nat (length (enc_fields gs)))%Z.
Proof.
  intros Hn Hs. unfold MAX_MESSAGE in Hs. unfold enc_field, tag_of. cbn [fst snd wire_type enc_value].
  rewrite !length_app, raw_varint_byte, varint_size by lia. lia.
Qed.

Lemma compute_sizes_spec n l s l1 : (1 <= n < 16)%Z -> Forall msg_wf l -> compute_sizes l = (s, l1) ->
  l1 ≡ l /\ (0 <= s)%Z /\ ((s < MAX_MESSAGE)%Z -> forall fs, repeated n l fs -> s = Z.of_nat (length (enc_fields fs))).
Proof.
  intros Hn Hl. revert s l1. induction Hl as [|v l Hv Hl IH]; intros s l1; cbn [compute_sizes].
  - intros [= <- <-]. split_and!; [done|done|]. intros _ fs Hfs. by inversion Hfs.
  - destruct (msg_compute_size v) as [len v1] eqn:Ev. destruct (compute_sizes l) as [s1 l2] eqn:El. intros [= <- <-].
    destruct (IH _ _ eq_refl) as (He & Hs & Hfs). destruct (ms_size _ _ _ Hv Ev) as (Hve & Hlen & _ & Hvs).
    pose proof (varint_size_pos len). split_and!; [by constructor|lia|]. intros Hmax fs Hr. inversion Hr as [|? ? ? fs' (gs & Hvf & ->) Hr']. subst.
    pose proof (Hvs ltac:(lia) _ Hvf) as Hlg. rewrite enc_fields_cons, length_app, Nat2Z.inj_add, <- (Hfs ltac:(lia) _ Hr').
    rewrite (enc_message_length n), <- Hlg by lia. lia.
Qed.

Lemma write_messages_spec n l s l1 : (1 <= n < 16)%Z -> Forall msg_wf l -> compute_sizes l = (s, l1) -> (s < MAX_MESSAGE)%Z ->
  exists fs, repeated n l fs /\ emits os_written (write_messages n l1) (enc_fields fs).
Proof.
  intros Hn Hl. revert s l1. induction Hl as [|v l Hv Hl IH]; intros s l1; cbn [compute_sizes].
  - intros [= <- <-] _. exists []. split; [constructor|]. intros o. cbn. by rewrite app_nil_r.
  - destruct (msg_compute_size v) as [len v1] eqn:Ev. destruct (compute_sizes l) as [s1 l2] eqn:El. intros [= <- <-] Hmax.
    destruct (compute_sizes_spec _ _ _ _ Hn Hl El) as (_ & Hs1 & _). pose proof (varint_size_pos len).
    destruct (ms_size _ _ _ Hv Ev) as (_ & Hlen & Hc & Hvs). destruct (IH _ _ eq_refl ltac:(lia)) as (fs & Hfs & Hw).
    destruct (ms_write _ _ _ Hv Ev ltac:(lia)) as (gs & Hgs & Hwg). pose proof (Hvs ltac:(lia) _ Hgs) as Hlg.
    exists ((n, WBytes (enc_fields gs)) :: fs). split; [constructor; [by exists gs|done]|]. intros o. rewrite enc_fields_cons. cbn [write_messages].
    assert (msg_cached_size v1 = Z.of_nat (length (enc_fields gs))) as -> by (rewrite Hc, <- Hlg; unfold wrap, MAX_MESSAGE in *; apply Z.mod_small; lia).
    pose proof (write_message_emits n (enc_fields gs) _ Hwg o) as Hm.
    destruct (write_message_field_with_cached_size _ _ _ o) as [o1|e|]; [|done|done]. cbn [mbind res_bind].
    specialize (Hw o1). destruct (write_messages n l2 o1); [|done|done]. by rewrite Hw, Hm, app_assoc.
Qed.

(** Reading them pushes them one after the other to the vector that [mk] sets. *)
Lemma repeated_absorbs {A} (field : Z -> A -> bytes -> res (A * bytes)) (mk : list M -> A) n l fs :
  (forall l b, field (n * 8 + 2)%Z (mk l) b = '(v, b) ← read_msg b; Ok (mk (l ++ [v]), b)) ->
  Forall msg_wf l -> repeated n l fs -> Forall field_ok fs -> exists l', l' ≡ l /\ absorbs field (mk []) fs (mk l').
Proof.
  intros Hf Hl Hr Hok. assert (forall l0, exists l', l' ≡ l /\ absorbs field (mk l0) fs (mk (l0 ++ l'))) as Hgo; [|exact (Hgo [])].
  induction Hr as [|v f l fs (gs & Hgs & ->) _ IH]; intros l0; [exists []; rewrite app_nil_r; split; [done|constructor]|].
  inversion Hl as [|? ? Hv Hl']. inversion Hok as [|? ? [_ Hs] Hok']. subst. destruct (ms_merge _ _ Hv Hgs Hs) as (v' & Hm & He).
  destruct (IH Hl' Hok' (l0 ++ [v'])) as (l' & Hl2 & Ha). rewrite <- app_assoc in Ha. exists (v' :: l').
  split; [by constructor|]. econstructor; [|exact Ha]. intros _ r. unfold tag_of. cbn [fst snd wire_type]. rewrite Hf. unfold read_msg.
  rewrite (read_message_enc _ v'); [done|done|done|apply ms_initialized].
Qed.
End Repeated.

(** ** Scalar fields and the unknown ones

    A scalar field is written unless it has its default value. *)

Section Scalars.
Context `{Protobuf}.

(** The fields of a string or [bytes], of an integer. *)
Definition opt_bytes (n : Z) (s : bytes) : list wire_field := if decide (s = []) then [] else [(n, WBytes s)].
Definition opt_int (n : Z) (z : Z) : list wire_field := if decide (z = 0)%Z then [] else [(n, wire_int z)].

Lemma opt_bytes_wf n s : (1 <= n < 2 ^ 29)%Z -> Forall field_wf (opt_bytes n s).
Proof. intros Hn. unfold opt_bytes. case_decide; repeat constructor; apply Hn. Qed.

Lemma wire_int_wf n z : (1 <= n < 2 ^ 29)%Z -> field_wf (n, wire_int z).
Proof. intros Hn. split; [done|]. cbn. apply Z.mod_pos_bound. lia. Qed.

Lemma opt_int_wf n z : (1 <= n < 2 ^ 29)%Z -> Forall field_wf (opt_int n z).
Proof. intros Hn. unfold opt_int. case_decide; [done|]. constructor; [by apply wire_int_wf|done]. Qed.

Lemma opt_bytes_size n s (f : Z -> bytes -> Z) : (forall n s, f n s = Z.of_nat (length (enc_field (n, WBytes s)))) ->
  (if decide (s = []) then 0%Z else f n s) = Z.of_nat (length (enc_fields (opt_bytes n s))).
Proof. intros Hf. unfold opt_bytes. case_decide; [done|]. by rewrite enc_fields_one, Hf. Qed.

Lemma opt_int_size n z (s : Z) : s = Z.of_nat (length (enc_field (n, wire_int z))) ->
  (if decide (z = 0%Z) then 0%Z else s) = Z.of_nat (length (enc_fields (opt_int n z))).
Proof. intros ->. unfold opt_int. case_decide; [done|]. by rewrite enc_fields_one. Qed.

Lemma wire_int_u32 z : u32_ok z -> wire_int z = WVarint z.
Proof. intros Hz. unfold wire_int, u32_ok in *. rewrite Z.mod_small by lia. done. Qed.

(** Writes in a row. *)
Lemma emits_bind w1 w2 b1 b2 : emits os_written w1 b1 -> emits os_written w2 b2 ->
  emits os_written (fun o => o ← w1 o; w2 o) (b1 ++ b2).
Proof.
  intros H1' H2' o. specialize (H1' o). destruct (w1 o) as [o1|e|]; [|done|done]. cbn [mbind res_bind].
  specialize (H2' o1). destruct (w2 o1); [|done|done]. by rewrite H2', H1', app_assoc.
Qed.

Lemma emits_opt {P} `{Decision P} w (fs : list wire_field) : emits os_written w (enc_fields fs) ->
  emits os_written (fun o => if decide P then Ok o else w o) (enc_fields (if decide P then [] else fs)).
Proof. intros Hw o. destruct (decide P); [by rewrite app_nil_r|apply Hw]. Qed.

Lemma emits_one w f : emits os_written w (enc_field f) -> emits os_written w (enc_fields [f]).
Proof. by rewrite enc_fields_one. Qed.

(** Reading a string into the field that [mk] sets. *)
Lemma string_absorbs {A} (field : Z -> A -> bytes -> res (A * bytes)) (mk : bytes -> A) n s :
  (forall b, field (n * 8 + 2)%Z (mk []) b = '(s, b) ← read_string b; Ok (mk s, b)) -> utf8_valid s = true ->
  absorbs field (mk []) (opt_bytes n s) (mk s).
Proof.
  intros Hf Hs. unfold opt_bytes. case_decide as He; [subst s; constructor|]. apply absorbs_one. intros [_ Hl] r.
  unfold tag_of. cbn [fst snd wire_type]. by rewrite Hf, read_string_enc.
Qed.

Lemma bytes_absorbs {A} (field : Z -> A -> bytes -> res (A * bytes)) (mk : bytes -> A) n s :
  (forall b, field (n * 8 + 2)%Z (mk []) b = '(s, b) ← read_tokio_bytes b; Ok (mk s, b)) ->
  absorbs field (mk []) (opt_bytes n s) (mk s).
Proof.
  intros Hf. unfold opt_bytes. case_decide as He; [subst s; constructor|]. apply absorbs_one. intros [_ Hl] r.
  unfold tag_of. cbn [fst snd wire_type]. by rewrite Hf, read_bytes_enc.
Qed.

(** Reading an integer with [read]. *)
Lemma int_absorbs {A} (field : Z -> A -> bytes -> res (A * bytes)) (mk : Z -> A) (read : bytes -> res (Z * bytes)) n z :
  (forall b, field (n * 8)%Z (mk 0%Z) b = '(z, b) ← read b; Ok (mk z, b)) ->
  (forall r, read (enc_value (wire_int z) ++ r) = Ok (z, r)) -> absorbs field (mk 0%Z) (opt_int n z) (mk z).
Proof.
  intros Hf Hr. unfold opt_int. case_decide as He; [subst z; constructor|]. apply absorbs_one. intros _ r.
  unfold tag_of. cbn [fst snd wire_type wire_int]. rewrite Z.add_0_r, Hf. fold (wire_int z). by rewrite Hr.
Qed.

(** Reading the unknown fields of a message behind its known ones. *)
Lemma unknown_absorbs {A} (field : Z -> A -> bytes -> res (A * bytes)) (mk : SpecialFields -> A) tags s us s0 :
  (forall t s b, t ∉ tags -> field t (mk s) b =
    '(u, b) ← read_unknown_or_skip_group t b (unknown_fields s); Ok (mk (set_unknown_fields u s), b)) ->
  unknown_ok tags s -> uf_order (unknown_fields s) us -> unknown_fields s0 = uf_new ->
  exists s', s' ≡ s /\ absorbs field (mk s0) us (mk s').
Proof.
  intros Hf Hu Ho H0'. destruct (Hu _ Ho) as [_ Hut]. clear Hu. rename Hut into Hu. pose proof (uf_order_add _ _ Ho) as Hadd. rewrite <- H0' in Hadd. clear Ho H0'.
  assert (exists s', unknown_fields s' = foldl (fun u f => uf_add f u) (unknown_fields s0) us /\ absorbs field (mk s0) us (mk s')) as (s' & Hs' & Ha).
  { clear Hadd. revert s0. induction Hu as [|f us Ht _ IH]; intros s0; [exists s0; split; [done|constructor]|].
    destruct (IH (set_unknown_fields (uf_add f (unknown_fields s0)) s0)) as (s' & Hs' & Ha). rewrite sf_unknown_set in Hs'.
    exists s'. split; [done|]. econstructor; [|exact Ha]. intros Hok r. rewrite Hf by done. by rewrite read_unknown_enc. }
  exists s'. split; [|done]. unfold equiv, sf_equiv. by rewrite Hs'.
Qed.

Lemma unknown_size_pos u : (0 <= unknown_fields_size u)%Z.
Proof. destruct (write_unknown_emits u) as (us & Hus & _). rewrite (unknown_size_enc _ _ Hus). lia. Qed.

(** The sum of the parts of a size. *)
Lemma enc_length_app l1 l2 : Z.of_nat (length (enc_fields (l1 ++ l2))) = (Z.of_nat (length (enc_fields l1)) + Z.of_nat (length (enc_fields l2)))%Z.
Proof. rewrite enc_fields_app, length_app. lia. Qed.
End Scalars.
Create HintDb wire.
#[export] Hint Resolve opt_bytes_wf opt_int_wf wire_int_wf unknown_ok_wf : wire.
