(* ===== verification/GeoMessages.v ===== *)
(** * The messages of the rule files (src/src/config/geosite.rs, geoip.rs)

    The generated readers and writers of [Domain] (with its [Type] and
    [Attribute]), [SiteGroup], [SiteGroupList], [CIDR], [GeoIP] and
    [GeoIPList], over the crate protobuf (Protobuf.v).  Each message is an
    instance of [Message], and of [MessageSpec]: its sizes are those of the
    bytes it writes, which are read back as the message. *)

From S2P Require Import Prelude Io StdText Leb128 Route Protobuf.
From Stdlib Require Import ZArith Lia List Strings.Byte.
From stdpp Require Import base option list strings.

(** ** [domain::Type] (its values are Route.v's [domain_type]) *)

Definition type_value (t : domain_type) : Z :=
  match t with Plain => 0 | Regex => 1 | DomainT => 2 | FullT => 3 end.

Definition type_from_i32 (value : Z) : option domain_type :=
  if (value =? 0)%Z then Some Plain
  else if (value =? 1)%Z then Some Regex
  else if (value =? 2)%Z then Some DomainT
  else if (value =? 3)%Z then Some FullT
  else None.

Definition type_from_str (s : bytes) : option domain_type :=
  if decide (s = str "Plain") then Some Plain
  else if decide (s = str "Regex") then Some Regex
  else if decide (s = str "Domain") then Some DomainT
  else if decide (s = str "Full") then Some FullT
  else None.

Definition type_VALUES : list domain_type := [Plain; Regex; DomainT; FullT].
Definition type_default : domain_type := Plain.

(** [EnumOrUnknown<Type>] is its number. *)
Definition enum_value_or_default (value : Z) : domain_type := default type_default (type_from_i32 value).

Lemma type_from_value t : type_from_i32 (type_value t) = Some t.
Proof. by destruct t. Qed.

Lemma type_value_from z t : type_from_i32 z = Some t -> z = type_value t.
Proof. unfold type_from_i32. repeat (match goal with |- context [(z =? ?n)%Z] => destruct (Z.eqb_spec z n) end; [by intros [= <-]|]). done. Qed.

Section Messages.
Context `{Protobuf}.

(** ** [domain::Attribute] *)

Inductive Typed_value := BoolValue (v : bool) | IntValue (v : Z).

Record Attribute := mkAttribute {
  at_key : bytes;
  at_typed_value : option Typed_value;
  at_special_fields : SpecialFields
}.

Definition attribute_new : Attribute := mkAttribute [] None sf_new.

Definition bool_value (m : Attribute) : bool := match at_typed_value m with Some (BoolValue v) => v | _ => false end.
Definition has_bool_value (m : Attribute) : bool := match at_typed_value m with Some (BoolValue _) => true | _ => false end.
Definition set_bool_value (v : bool) (m : Attribute) : Attribute := mkAttribute (at_key m) (Some (BoolValue v)) (at_special_fields m).
Definition clear_bool_value (m : Attribute) : Attribute := mkAttribute (at_key m) None (at_special_fields m).
Definition int_value (m : Attribute) : Z := match at_typed_value m with Some (IntValue v) => v | _ => 0%Z end.
Definition has_int_value (m : Attribute) : bool := match at_typed_value m with Some (IntValue _) => true | _ => false end.
Definition set_int_value (v : Z) (m : Attribute) : Attribute := mkAttribute (at_key m) (Some (IntValue v)) (at_special_fields m).
Definition clear_int_value (m : Attribute) : Attribute := mkAttribute (at_key m) None (at_special_fields m).

(** The [match] on the tag. *)
Definition attribute_field (tag : Z) (m : Attribute) (i : bytes) : res (Attribute * bytes) :=
  if (tag =? 10)%Z then
    '(key, i) ← read_string i; Ok (mkAttribute key (at_typed_value m) (at_special_fields m), i)
  else if (tag =? 16)%Z then
    '(v, i) ← read_bool i; Ok (mkAttribute (at_key m) (Some (BoolValue v)) (at_special_fields m), i)
  else if (tag =? 24)%Z then
    '(v, i) ← read_int64 i; Ok (mkAttribute (at_key m) (Some (IntValue v)) (at_special_fields m), i)
  else
    '(u, i) ← read_unknown_or_skip_group tag i (unknown_fields (at_special_fields m));
    Ok (mkAttribute (at_key m) (at_typed_value m) (set_unknown_fields u (at_special_fields m)), i).

Definition attribute_merge_from : Attribute -> bytes -> res (Attribute * bytes) := merge_with attribute_field.

Definition attribute_compute_size (m : Attribute) : Z * Attribute :=
  let my_size :=
  ((if decide (at_key m = []) then 0 else string_size 1 (at_key m)) +
    match at_typed_value m with
    | Some (BoolValue _) => 1 + 1
    | Some (IntValue v) => int64_size 3 v
    | None => 0
    end +
    unknown_fields_size (unknown_fields (at_special_fields m)))%Z in
  (my_size, mkAttribute (at_key m) (at_typed_value m) (set_cached_size (wrap 32 my_size) (at_special_fields m))).

Definition attribute_write (m : Attribute) (os : CodedOutputStream) : res CodedOutputStream :=
  os ← (if decide (at_key m = []) then Ok os else write_string 1 (at_key m) os);
  os ← match at_typed_value m with
  | Some (BoolValue v) => write_bool 2 v os
  | Some (IntValue v) => write_int64 3 v os
  | None => Ok os
  end;
  write_unknown_fields (unknown_fields (at_special_fields m)) os.

Definition attribute_clear (m : Attribute) : Attribute := mkAttribute [] None (sf_clear (at_special_fields m)).
Definition attribute_default_instance : Attribute := mkAttribute [] None sf_new.

#[export] Instance attribute_message : Message Attribute := {|
    msg_new := attribute_new;
    msg_is_initialized _ := true;
    msg_merge_from := attribute_merge_from;
    msg_compute_size := attribute_compute_size;
    msg_write_to_with_cached_sizes := attribute_write;
    msg_special_fields := at_special_fields;
    msg_clear := attribute_clear;
    msg_default_instance := attribute_default_instance;
    msg_NAME := str "Attribute"
  |}.

(** ** [Domain] *)

Record DomainM := mkDomainM {
  do_type : Z;
  do_value : bytes;
  do_attribute : list Attribute;
  do_special_fields : SpecialFields
}.

Definition domain_new : DomainM := mkDomainM 0 [] [] sf_new.

(** [Domain::type_]. *)
Definition domain_type_ (m : DomainM) : domain_type := enum_value_or_default (do_type m).

Definition domain_field (tag : Z) (m : DomainM) (i : bytes) : res (DomainM * bytes) :=
  if (tag =? 8)%Z then
    '(t, i) ← read_enum_or_unknown i; Ok (mkDomainM t (do_value m) (do_attribute m) (do_special_fields m), i)
  else if (tag =? 18)%Z then
    '(v, i) ← read_string i; Ok (mkDomainM (do_type m) v (do_attribute m) (do_special_fields m), i)
  else if (tag =? 26)%Z then
    '(a, i) ← read_msg i; Ok (mkDomainM (do_type m) (do_value m) (do_attribute m ++ [a]) (do_special_fields m), i)
  else
    '(u, i) ← read_unknown_or_skip_group tag i (unknown_fields (do_special_fields m));
    Ok (mkDomainM (do_type m) (do_value m) (do_attribute m) (set_unknown_fields u (do_special_fields m)), i).

Definition domain_merge_from : DomainM -> bytes -> res (DomainM * bytes) := merge_with domain_field.

Definition domain_compute_size (m : DomainM) : Z * DomainM :=
  let '(s, attribute) := compute_sizes (do_attribute m) in
  let my_size :=
  ((if decide (do_type m = type_value Plain) then 0 else int32_size 1 (do_type m)) +
    (if decide (do_value m = []) then 0 else string_size 2 (do_value m)) +
    s + unknown_fields_size (unknown_fields (do_special_fields m)))%Z in
  (my_size, mkDomainM (do_type m) (do_value m) attribute (set_cached_size (wrap 32 my_size) (do_special_fields m))).

Definition domain_write (m : DomainM) (os : CodedOutputStream) : res CodedOutputStream :=
  os ← (if decide (do_type m = type_value Plain) then Ok os else write_enum 1 (do_type m) os);
  os ← (if decide (do_value m = []) then Ok os else write_string 2 (do_value m) os);
  os ← write_messages 3 (do_attribute m) os;
  write_unknown_fields (unknown_fields (do_special_fields m)) os.

Definition domain_clear (m : DomainM) : DomainM := mkDomainM (type_value Plain) [] [] (sf_clear (do_special_fields m)).
Definition domain_default_instance : DomainM := mkDomainM 0 [] [] sf_new.

#[export] Instance domain_message : Message DomainM := {|
    msg_new := domain_new;
    msg_is_initialized _ := true;
    msg_merge_from := domain_merge_from;
    msg_compute_size := domain_compute_size;
    msg_write_to_with_cached_sizes := domain_write;
    msg_special_fields := do_special_fields;
    msg_clear := domain_clear;
    msg_default_instance := domain_default_instance;
    msg_NAME := str "Domain"
  |}.

(** ** [SiteGroup] *)

Record SiteGroup := mkSiteGroup {
  sg_tag : bytes;
  sg_domain : list DomainM;
  sg_special_fields : SpecialFields
}.

Definition site_group_new : SiteGroup := mkSiteGroup [] [] sf_new.

Definition site_group_field (tag : Z) (m : SiteGroup) (i : bytes) : res (SiteGroup * bytes) :=
  if (tag =? 10)%Z then
    '(s, i) ← read_string i; Ok (mkSiteGroup s (sg_domain m) (sg_special_fields m), i)
  else if (tag =? 18)%Z then
    '(v, i) ← read_msg i; Ok (mkSiteGroup (sg_tag m) (sg_domain m ++ [v]) (sg_special_fields m), i)
  else
    '(u, i) ← read_unknown_or_skip_group tag i (unknown_fields (sg_special_fields m));
    Ok (mkSiteGroup (sg_tag m) (sg_domain m) (set_unknown_fields u (sg_special_fields m)), i).

Definition site_group_merge_from : SiteGroup -> bytes -> res (SiteGroup * bytes) := merge_with site_group_field.

Definition site_group_compute_size (m : SiteGroup) : Z * SiteGroup :=
  let '(s, domain) := compute_sizes (sg_domain m) in
  let my_size :=
  ((if decide (sg_tag m = []) then 0 else string_size 1 (sg_tag m)) +
    s + unknown_fields_size (unknown_fields (sg_special_fields m)))%Z in
  (my_size, mkSiteGroup (sg_tag m) domain (set_cached_size (wrap 32 my_size) (sg_special_fields m))).

Definition site_group_write (m : SiteGroup) (os : CodedOutputStream) : res CodedOutputStream :=
  os ← (if decide (sg_tag m = []) then Ok os else write_string 1 (sg_tag m) os);
  os ← write_messages 2 (sg_domain m) os;
  write_unknown_fields (unknown_fields (sg_special_fields m)) os.

Definition site_group_clear (m : SiteGroup) : SiteGroup := mkSiteGroup [] [] (sf_clear (sg_special_fields m)).
Definition site_group_default_instance : SiteGroup := mkSiteGroup [] [] sf_new.

#[export] Instance site_group_message : Message SiteGroup := {|
    msg_new := site_group_new;
    msg_is_initialized _ := true;
    msg_merge_from := site_group_merge_from;
    msg_compute_size := site_group_compute_size;
    msg_write_to_with_cached_sizes := site_group_write;
    msg_special_fields := sg_special_fields;
    msg_clear := site_group_clear;
    msg_default_instance := site_group_default_instance;
    msg_NAME := str "SiteGroup"
  |}.

(** ** [SiteGroupList] *)

Record SiteGroupList := mkSiteGroupList {
  sl_site_group : list SiteGroup;
  sl_special_fields : SpecialFields
}.

Definition site_group_list_new : SiteGroupList := mkSiteGroupList [] sf_new.

Definition site_group_list_field (tag : Z) (m : SiteGroupList) (i : bytes) : res (SiteGroupList * bytes) :=
  if (tag =? 10)%Z then
    '(v, i) ← read_msg i; Ok (mkSiteGroupList (sl_site_group m ++ [v]) (sl_special_fields m), i)
  else
    '(u, i) ← read_unknown_or_skip_group tag i (unknown_fields (sl_special_fields m));
    Ok (mkSiteGroupList (sl_site_group m) (set_unknown_fields u (sl_special_fields m)), i).

Definition site_group_list_merge_from : SiteGroupList -> bytes -> res (SiteGroupList * bytes) := merge_with site_group_list_field.

Definition site_group_list_compute_size (m : SiteGroupList) : Z * SiteGroupList :=
  let '(s, site_group) := compute_sizes (sl_site_group m) in
  let my_size := (s + unknown_fields_size (unknown_fields (sl_special_fields m)))%Z in
  (my_size, mkSiteGroupList site_group (set_cached_size (wrap 32 my_size) (sl_special_fields m))).

Definition site_group_list_write (m : SiteGroupList) (os : CodedOutputStream) : res CodedOutputStream :=
  os ← write_messages 1 (sl_site_group m) os;
  write_unknown_fields (unknown_fields (sl_special_fields m)) os.

Definition site_group_list_clear (m : SiteGroupList) : SiteGroupList := mkSiteGroupList [] (sf_clear (sl_special_fields m)).
Definition site_group_list_default_instance : SiteGroupList := mkSiteGroupList [] sf_new.

#[export] Instance site_group_list_message : Message SiteGroupList := {|
    msg_new := site_group_list_new;
    msg_is_initialized _ := true;
    msg_merge_from := site_group_list_merge_from;
    msg_compute_size := site_group_list_compute_size;
    msg_write_to_with_cached_sizes := site_group_list_write;
    msg_special_fields := sl_special_fields;
    msg_clear := site_group_list_clear;
    msg_default_instance := site_group_list_default_instance;
    msg_NAME := str "SiteGroupList"
  |}.

(** ** [CIDR] *)

Record CidrM := mkCidrM {
  cm_ip : bytes;
  cm_prefix : Z;
  cm_special_fields : SpecialFields
}.

Definition cidrm_new : CidrM := mkCidrM [] 0 sf_new.

Definition cidrm_field (tag : Z) (m : CidrM) (i : bytes) : res (CidrM * bytes) :=
  if (tag =? 10)%Z then
    '(ip, i) ← read_tokio_bytes i; Ok (mkCidrM ip (cm_prefix m) (cm_special_fields m), i)
  else if (tag =? 16)%Z then
    '(prefix, i) ← read_uint32 i; Ok (mkCidrM (cm_ip m) prefix (cm_special_fields m), i)
  else
    '(u, i) ← read_unknown_or_skip_group tag i (unknown_fields (cm_special_fields m));
    Ok (mkCidrM (cm_ip m) (cm_prefix m) (set_unknown_fields u (cm_special_fields m)), i).

Definition cidrm_merge_from : CidrM -> bytes -> res (CidrM * bytes) := merge_with cidrm_field.

Definition cidrm_compute_size (m : CidrM) : Z * CidrM :=
  let my_size :=
  ((if decide (cm_ip m = []) then 0 else bytes_size 1 (cm_ip m)) +
    (if decide (cm_prefix m = 0) then 0 else uint32_size 2 (cm_prefix m)) +
    unknown_fields_size (unknown_fields (cm_special_fields m)))%Z in
  (my_size, mkCidrM (cm_ip m) (cm_prefix m) (set_cached_size (wrap 32 my_size) (cm_special_fields m))).

Definition cidrm_write (m : CidrM) (os : CodedOutputStream) : res CodedOutputStream :=
  os ← (if decide (cm_ip m = []) then Ok os else write_bytes 1 (cm_ip m) os);
  os ← (if decide (cm_prefix m = 0)%Z then Ok os else write_uint32 2 (cm_prefix m) os);
  write_unknown_fields (unknown_fields (cm_special_fields m)) os.

Definition cidrm_clear (m : CidrM) : CidrM := mkCidrM [] 0 (sf_clear (cm_special_fields m)).
Definition cidrm_default_instance : CidrM := mkCidrM [] 0 sf_new.

#[export] Instance cidrm_message : Message CidrM := {|
    msg_new := cidrm_new;
    msg_is_initialized _ := true;
    msg_merge_from := cidrm_merge_from;
    msg_compute_size := cidrm_compute_size;
    msg_write_to_with_cached_sizes := cidrm_write;
    msg_special_fields := cm_special_fields;
    msg_clear := cidrm_clear;
    msg_default_instance := cidrm_default_instance;
    msg_NAME := str "CIDR"
  |}.

(** ** [GeoIP] *)

Record GeoIP := mkGeoIP {
  gi_country_code : bytes;
  gi_cidr : list CidrM;
  gi_special_fields : SpecialFields
}.

Definition geoipm_new : GeoIP := mkGeoIP [] [] sf_new.

Definition geoipm_field (tag : Z) (m : GeoIP) (i : bytes) : res (GeoIP * bytes) :=
  if (tag =? 10)%Z then
    '(s, i) ← read_string i; Ok (mkGeoIP s (gi_cidr m) (gi_special_fields m), i)
  else if (tag =? 18)%Z then
    '(v, i) ← read_msg i; Ok (mkGeoIP (gi_country_code m) (gi_cidr m ++ [v]) (gi_special_fields m), i)
  else
    '(u, i) ← read_unknown_or_skip_group tag i (unknown_fields (gi_special_fields m));
    Ok (mkGeoIP (gi_country_code m) (gi_cidr m) (set_unknown_fields u (gi_special_fields m)), i).

Definition geoipm_merge_from : GeoIP -> bytes -> res (GeoIP * bytes) := merge_with geoipm_field.

Definition geoipm_compute_size (m : GeoIP) : Z * GeoIP :=
  let '(s, cidr) := compute_sizes (gi_cidr m) in
  let my_size :=
  ((if decide (gi_country_code m = []) then 0 else string_size 1 (gi_country_code m)) +
    s + unknown_fields_size (unknown_fields (gi_special_fields m)))%Z in
  (my_size, mkGeoIP (gi_country_code m) cidr (set_cached_size (wrap 32 my_size) (gi_special_fields m))).

Definition geoipm_write (m : GeoIP) (os : CodedOutputStream) : res CodedOutputStream :=
  os ← (if decide (gi_country_code m = []) then Ok os else write_string 1 (gi_country_code m) os);
  os ← write_messages 2 (gi_cidr m) os;
  write_unknown_fields (unknown_fields (gi_special_fields m)) os.

Definition geoipm_clear (m : GeoIP) : GeoIP := mkGeoIP [] [] (sf_clear (gi_special_fields m)).
Definition geoipm_default_instance : GeoIP := mkGeoIP [] [] sf_new.

#[export] Instance geoipm_message : Message GeoIP := {|
    msg_new := geoipm_new;
    msg_is_initialized _ := true;
    msg_merge_from := geoipm_merge_from;
    msg_compute_size := geoipm_compute_size;
    msg_write_to_with_cached_sizes := geoipm_write;
    msg_special_fields := gi_special_fields;
    msg_clear := geoipm_clear;
    msg_default_instance := geoipm_default_instance;
    msg_NAME := str "GeoIP"
  |}.

(** ** [GeoIPList] *)

Record GeoIPList := mkGeoIPList {
  gl_entry : list GeoIP;
  gl_special_fields : SpecialFields
}.

Definition geoipm_list_new : GeoIPList := mkGeoIPList [] sf_new.

Definition geoipm_list_field (tag : Z) (m : GeoIPList) (i : bytes) : res (GeoIPList * bytes) :=
  if (tag =? 10)%Z then
    '(v, i) ← read_msg i; Ok (mkGeoIPList (gl_entry m ++ [v]) (gl_special_fields m), i)
  else
    '(u, i) ← read_unknown_or_skip_group tag i (unknown_fields (gl_special_fields m));
    Ok (mkGeoIPList (gl_entry m) (set_unknown_fields u (gl_special_fields m)), i).

Definition geoipm_list_merge_from : GeoIPList -> bytes -> res (GeoIPList * bytes) := merge_with geoipm_list_field.

Definition geoipm_list_compute_size (m : GeoIPList) : Z * GeoIPList :=
  let '(s, entry) := compute_sizes (gl_entry m) in
  let my_size := (s + unknown_fields_size (unknown_fields (gl_special_fields m)))%Z in
  (my_size, mkGeoIPList entry (set_cached_size (wrap 32 my_size) (gl_special_fields m))).

Definition geoipm_list_write (m : GeoIPList) (os : CodedOutputStream) : res CodedOutputStream :=
  os ← write_messages 1 (gl_entry m) os;
  write_unknown_fields (unknown_fields (gl_special_fields m)) os.

Definition geoipm_list_clear (m : GeoIPList) : GeoIPList := mkGeoIPList [] (sf_clear (gl_special_fields m)).
Definition geoipm_list_default_instance : GeoIPList := mkGeoIPList [] sf_new.

#[export] Instance geoipm_list_message : Message GeoIPList := {|
    msg_new := geoipm_list_new;
    msg_is_initialized _ := true;
    msg_merge_from := geoipm_list_merge_from;
    msg_compute_size := geoipm_list_compute_size;
    msg_write_to_with_cached_sizes := geoipm_list_write;
    msg_special_fields := gl_special_fields;
    msg_clear := geoipm_list_clear;
    msg_default_instance := geoipm_list_default_instance;
    msg_NAME := str "GeoIPList"
  |}.
End Messages.
