(* ===== verification/GeoProofs.v ===== *)
(** * The messages of the rule files: proofs

    Each message of GeoMessages.v fulfils [MessageSpec], from its parts up, so
    that what is written is read back as an equal message. *)

From S2P Require Import Prelude Io StdText Leb128 Route Protobuf GeoMessages.
From Stdlib Require Import ZArith Lia List Strings.Byte.
From stdpp Require Import base option list strings sets.

(** A reader's branches each read one thing. *)
Ltac shrinks_tac :=
  intros t m b m' b';
  repeat match goal with |- context [(t =? ?n)%Z] => destruct (t =? n)%Z end;
  match goal with |- context [mbind _ ?x] => destruct x as [[? ?]|?|] eqn:E; cbn [mbind res_bind]; [intros [= <- <-]|done|done] end;
  solve [eauto using read_string_shrinks, read_bytes_shrinks, read_uint32_shrinks, read_int64_shrinks, read_enum_shrinks, read_bool_shrinks,
    read_unknown_shrinks | match goal with E : read_msg _ = _ |- _ => exact (read_msg_shrinks _ _ _ E) end].

(** A tag that is not in the list goes to the unknown fields. *)
Ltac unknown_tac :=
  let t := fresh "t" in let Ht := fresh "Ht" in
  intros t ? ? Ht; repeat match goal with |- context [(t =? ?n)%Z] => destruct (Z.eqb_spec t n); [subst t; exfalso; apply Ht; set_solver|] end; done.

(** ** Messages of a string and messages, and of messages

    [SiteGroup] and [GeoIP] are generated from the same template, and so are
    the two lists. *)

Section Group.
Context `{MessageSpec X} {M : Type} (mk : bytes -> list X -> SpecialFields -> M).
Context (name : M -> bytes) (parts : M -> list X) (special : M -> SpecialFields).
Context (field : Z -> M -> bytes -> res (M * bytes)).

Definition group_tags : list Z := [10; 18]%Z.

Definition group_equiv (a b : M) : Prop := name a = name b /\ parts a ≡ parts b /\ special a ≡ special b.

Definition group_wf (m : M) : Prop := utf8_valid (name m) = true /\ Forall msg_wf (parts m) /\ unknown_ok group_tags (special m).

Definition group_fields (m : M) (fs : list wire_field) : Prop :=
  exists ps us, repeated 2 (parts m) ps /\ uf_order (unknown_fields (special m)) us /\ fs = opt_bytes 1 (name m) ++ ps ++ us.

Context (mk_name : forall n l s, name (mk n l s) = n) (mk_parts : forall n l s, parts (mk n l s) = l) (mk_special : forall n l s, special (mk n l s) = s).

Lemma group_equivalence : Equivalence group_equiv.
Proof. split; [by repeat split|intros x y (?&?&?); repeat split; by symmetry|]. intros x y z (?&?&?) (?&?&?); repeat split; etrans; eauto. Qed.

Definition group_size (m : M) (s : Z) : Z :=
  ((if decide (name m = []) then 0 else string_size 1 (name m)) + s + unknown_fields_size (unknown_fields (special m)))%Z.

Lemma group_size_spec m s l : group_wf m -> compute_sizes (parts m) = (s, l) ->
  let my_size := group_size m s in let m1 := mk (name m) l (set_cached_size (wrap 32 my_size) (special m)) in
  group_equiv m1 m /\ (0 <= my_size)%Z /\ cached_size (special m1) = wrap 32 my_size /\
  ((my_size < MAX_MESSAGE)%Z -> (s < MAX_MESSAGE)%Z /\ forall fs, group_fields m fs -> my_size = Z.of_nat (length (enc_fields fs))).
Proof.
  intros (Hk & Hl & Hu) El my_size m1. destruct (compute_sizes_spec 2 _ _ _ ltac:(lia) Hl El) as (Hle & Hsl & Hsf).
  pose proof (unknown_size_pos (unknown_fields (special m))) as Hup. subst my_size m1. unfold group_equiv, group_size.
  rewrite (opt_bytes_size _ _ string_size string_size_enc), mk_name, mk_parts, mk_special.
  split_and!; [done|done|apply sf_cached_equiv|lia|apply sf_cached_set|].
  intros Hmax. split; [lia|]. intros fs (ps & vs & Hps & Hvs & ->). rewrite (unknown_size_enc _ _ Hvs) in *.
  rewrite !enc_length_app, (Hsf ltac:(lia) _ Hps). lia.
Qed.

Lemma group_write_spec m s l sf : group_wf m -> compute_sizes (parts m) = (s, l) -> (s < MAX_MESSAGE)%Z -> unknown_fields sf = unknown_fields (special m) ->
  exists fs, group_fields m fs /\ emits os_written
  (fun os => os ← (if decide (name m = []) then Ok os else write_string 1 (name m) os);
    os ← write_messages 2 l os; write_unknown_fields (unknown_fields sf) os) (enc_fields fs).
Proof.
  intros (Hk & Hl & Hu) El Hmax ->. destruct (write_unknown_emits (unknown_fields (special m))) as (us & Hus & Hw).
  destruct (write_messages_spec 2 _ _ _ ltac:(lia) Hl El ltac:(lia)) as (ps & Hps & Hwl). eexists. split; [by exists ps, us|].
  rewrite !enc_fields_app. apply emits_bind; [apply emits_opt, emits_one, write_string_emits|]. by apply emits_bind.
Qed.

Context (field_name : forall n l s b, field 10 (mk n l s) b = '(n, b) ← read_string b; Ok (mk n l s, b)).
Context (field_part : forall n l s b, field 18 (mk n l s) b = '(v, b) ← read_msg b; Ok (mk n (l ++ [v]) s, b)).
Context (field_other : forall n l t s b, t ∉ group_tags ->
    field t (mk n l s) b = '(u, b) ← read_unknown_or_skip_group t b (unknown_fields s); Ok (mk n l (set_unknown_fields u s), b)).

Lemma group_merge_spec m fs : shrinks field -> group_wf m -> group_fields m fs -> (Z.of_nat (length (enc_fields fs)) < MAX_MESSAGE)%Z ->
  exists m', merge_with field (mk [] [] sf_new) (enc_fields fs) = Ok (m', []) /\ group_equiv m' m.
Proof.
  intros Hsh (Hk & Hl & Hu) (ps & us & Hps & Hus & ->) Hs.
  assert (Forall field_ok (opt_bytes 1 (name m) ++ ps ++ us)) as Hok.
  { apply fields_ok_small; [|done]. apply Forall_app_2; [apply opt_bytes_wf; lia|]. apply Forall_app_2; [eapply repeated_wf, Hps; lia|by eapply unknown_ok_wf]. }
  assert (Forall field_ok ps) as Hokp by (by repeat match goal with H : Forall _ (_ ++ _) |- _ => apply Forall_app in H as [? ?] end).
  destruct (repeated_absorbs field (fun l => mk (name m) l sf_new) 2 _ _ ltac:(cbn; auto) Hl Hps Hokp) as (l' & Hl' & Hal).
  destruct (unknown_absorbs field (mk (name m) l') group_tags _ us sf_new ltac:(auto) Hu Hus sf_unknown_new) as (sf & Hsf & Ha).
  exists (mk (name m) l' sf). split; [|by split_and!; rewrite ?mk_name, ?mk_parts, ?mk_special].
  apply merge_absorbs; [done|done|].
  eapply absorbs_app; [apply (string_absorbs field (fun n => mk n [] sf_new)); cbn; auto|]. by eapply absorbs_app.
Qed.
End Group.

Section ListOf.
Context `{MessageSpec X} {M : Type} (mk : list X -> SpecialFields -> M).
Context (parts : M -> list X) (special : M -> SpecialFields) (field : Z -> M -> bytes -> res (M * bytes)).

Definition list_tags : list Z := [10]%Z.

Definition list_equiv (a b : M) : Prop := parts a ≡ parts b /\ special a ≡ special b.

Definition list_wf (m : M) : Prop := Forall msg_wf (parts m) /\ unknown_ok list_tags (special m).

Definition list_fields (m : M) (fs : list wire_field) : Prop :=
  exists ps us, repeated 1 (parts m) ps /\ uf_order (unknown_fields (special m)) us /\ fs = ps ++ us.

Context (mk_parts : forall l s, parts (mk l s) = l) (mk_special : forall l s, special (mk l s) = s).

Lemma list_equivalence : Equivalence list_equiv.
Proof. split; [by repeat split|intros x y (?&?); repeat split; by symmetry|]. intros x y z (?&?) (?&?); repeat split; etrans; eauto. Qed.

Lemma list_size_spec m s l : list_wf m -> compute_sizes (parts m) = (s, l) ->
  let my_size := (s + unknown_fields_size (unknown_fields (special m)))%Z in let m1 := mk l (set_cached_size (wrap 32 my_size) (special m)) in
  list_equiv m1 m /\ (0 <= my_size)%Z /\ cached_size (special m1) = wrap 32 my_size /\
  ((my_size < MAX_MESSAGE)%Z -> (s < MAX_MESSAGE)%Z /\ forall fs, list_fields m fs -> my_size = Z.of_nat (length (enc_fields fs))).
Proof.
  intros (Hl & Hu) El my_size m1. destruct (compute_sizes_spec 1 _ _ _ ltac:(lia) Hl El) as (Hle & Hsl & Hsf).
  pose proof (unknown_size_pos (unknown_fields (special m))) as Hup. subst my_size m1. unfold list_equiv.
  rewrite mk_parts, mk_special. split_and!; [done|apply sf_cached_equiv|lia|apply sf_cached_set|].
  intros Hmax. split; [lia|]. intros fs (ps & vs & Hps & Hvs & ->). rewrite (unknown_size_enc _ _ Hvs) in *.
  rewrite !enc_length_app, (Hsf ltac:(lia) _ Hps). lia.
Qed.

Lemma list_write_spec m s l sf : list_wf m -> compute_sizes (parts m) = (s, l) -> (s < MAX_MESSAGE)%Z -> unknown_fields sf = unknown_fields (special m) ->
  exists fs, list_fields m fs /\ emits os_written
  (fun os => os ← write_messages 1 l os; write_unknown_fields (unknown_fields sf) os) (enc_fields fs).
Proof.
  intros (Hl & Hu) El Hmax ->. destruct (write_unknown_emits (unknown_fields (special m))) as (us & Hus & Hw).
  destruct (write_messages_spec 1 _ _ _ ltac:(lia) Hl El ltac:(lia)) as (ps & Hps & Hwl). eexists. split; [by exists ps, us|].
  rewrite enc_fields_app. by apply emits_bind.
Qed.

Context (field_part : forall l s b, field 10 (mk l s) b = '(v, b) ← read_msg b; Ok (mk (l ++ [v]) s, b)).
Context (field_other : forall l t s b, t ∉ list_tags ->
    field t (mk l s) b = '(u, b) ← read_unknown_or_skip_group t b (unknown_fields s); Ok (mk l (set_unknown_fields u s), b)).

Lemma list_merge_spec m fs : shrinks field -> list_wf m -> list_fields m fs -> (Z.of_nat (length (enc_fields fs)) < MAX_MESSAGE)%Z ->
  exists m', merge_with field (mk [] sf_new) (enc_fields fs) = Ok (m', []) /\ list_equiv m' m.
Proof.
  intros Hsh (Hl & Hu) (ps & us & Hps & Hus & ->) Hs.
  assert (Forall field_ok (ps ++ us)) as Hok.
  { apply fields_ok_small; [|done]. apply Forall_app_2; [eapply repeated_wf, Hps; lia|by eapply unknown_ok_wf]. }
  apply Forall_app in Hok as Hokp. destruct Hokp as [Hokp _].
  destruct (repeated_absorbs field (fun l => mk l sf_new) 1 _ _ ltac:(cbn; auto) Hl Hps Hokp) as (l' & Hl' & Hal).
  destruct (unknown_absorbs field (mk l') list_tags _ us sf_new ltac:(auto) Hu Hus sf_unknown_new) as (sf & Hsf & Ha).
  exists (mk l' sf). split; [|by split_and!; rewrite ?mk_parts, ?mk_special].
  apply merge_absorbs; [done|done|]. by eapply absorbs_app.
Qed.
End ListOf.

Section Proofs.
Context `{Protobuf}.

(** The derived [PartialEq]. *)
#[export] Instance attribute_equiv : Equiv Attribute := fun a b =>
  at_key a = at_key b /\ at_typed_value a = at_typed_value b /\ at_special_fields a ≡ at_special_fields b.
#[export] Instance domain_equiv : Equiv DomainM := fun a b =>
  do_type a = do_type b /\ do_value a = do_value b /\ do_attribute a ≡ do_attribute b /\ do_special_fields a ≡ do_special_fields b.

#[export] Instance attribute_equivalence : Equivalence (≡@{Attribute}).
Proof.
  split; [intros []; by repeat split|intros x y (?&?&?); repeat split; by symmetry|].
  intros x y z (?&?&?) (?&?&?); repeat split; etrans; eauto.
Qed.

#[export] Instance domain_equivalence : Equivalence (≡@{DomainM}).
Proof.
  split; [intros []; by repeat split|intros x y (?&?&?&?); repeat split; by symmetry|].
  intros x y z (?&?&?&?) (?&?&?&?); repeat split; etrans; eauto.
Qed.

(** *** [Attribute] *)

Definition attribute_tags : list Z := [10; 16; 24]%Z.

Definition typed_value_fields (v : option Typed_value) : list wire_field :=
  match v with
  | Some (BoolValue b) => [(2%Z, wire_bool b)]
  | Some (IntValue z) => [(3%Z, wire_int z)]
  | None => []
  end.

Definition attribute_wf (m : Attribute) : Prop :=
  utf8_valid (at_key m) = true /\ (forall z, at_typed_value m = Some (IntValue z) -> i64_ok z) /\ unknown_ok attribute_tags (at_special_fields m).

Definition attribute_fields (m : Attribute) (fs : list wire_field) : Prop :=
  exists us, uf_order (unknown_fields (at_special_fields m)) us /\ fs = opt_bytes 1 (at_key m) ++ typed_value_fields (at_typed_value m) ++ us.

Lemma attribute_shrinks : shrinks attribute_field.
Proof. unfold shrinks, attribute_field. shrinks_tac. Qed.

Lemma attribute_fields_wf m fs : attribute_wf m -> attribute_fields m fs -> Forall field_wf fs.
Proof.
  intros (Hk & Hv & Hu) (us & Hus & ->). apply Forall_app_2; [apply opt_bytes_wf; lia|]. apply Forall_app_2; [|by eapply unknown_ok_wf].
  destruct (at_typed_value m) as [[v|z]|]; [|apply Forall_singleton, wire_int_wf; lia|done].
  apply Forall_singleton. split; [done|]. by destruct v.
Qed.

Lemma typed_value_size v : (forall z, v = Some (IntValue z) -> i64_ok z) ->
  match v with Some (BoolValue _) => 1 + 1 | Some (IntValue z) => int64_size 3 z | None => 0 end%Z =
  Z.of_nat (length (enc_fields (typed_value_fields v))).
Proof.
  intros Hv. destruct v as [[b|z]|]; cbn [typed_value_fields]; rewrite ?enc_fields_one; [|apply int64_size_enc; auto|done].
  unfold enc_field, tag_of, wire_bool. cbn [fst snd wire_type enc_value]. rewrite length_app, !raw_varint_byte; [done|by destruct b|done].
Qed.

#[export] Program Instance attribute_spec : MessageSpec (M := Attribute) := {|
    msg_wf := attribute_wf;
    msg_fields := attribute_fields
  |}.
Next Obligation. done. Qed.
Next Obligation. intros m b m' b'. apply merge_with_shrinks, attribute_shrinks. Qed.
Next Obligation.
  intros m s m1 (Hk & Hv & Hu). cbn. unfold attribute_compute_size. intros [= <- <-]. split; [by repeat split; apply sf_cached_equiv|].
  rewrite (opt_bytes_size _ _ string_size string_size_enc), typed_value_size by done. destruct (write_unknown_emits (unknown_fields (at_special_fields m))) as (us & Hus & _).
  split_and!; [rewrite (unknown_size_enc _ _ Hus); lia|unfold msg_cached_size; cbn; by rewrite sf_cached_set|].
  intros _ fs (vs & Hvs & ->). rewrite (unknown_size_enc _ _ Hvs), !enc_length_app. lia.
Qed.
Next Obligation.
  intros m s m1 (Hk & Hv & Hu). cbn. unfold attribute_compute_size. intros [= <- <-] _.
  destruct (write_unknown_emits (unknown_fields (at_special_fields m))) as (us & Hus & Hw). eexists. split; [by exists us|].
  rewrite !enc_fields_app. unfold attribute_write. cbn [at_key at_typed_value at_special_fields]. rewrite sf_unknown_cached.
  apply emits_bind; [apply emits_opt, emits_one, write_string_emits|]. apply emits_bind; [|exact Hw].
  destruct (at_typed_value m) as [[b|z]|]; cbn [typed_value_fields]; rewrite ?enc_fields_one;
    [apply write_bool_emits|apply write_int64_emits; auto|intros o; by rewrite app_nil_r].
Qed.
Next Obligation.
  intros m fs Hm Hfs Hs. pose proof Hm as (Hk & Hv & Hu). pose proof (fields_ok_small _ (attribute_fields_wf _ _ Hm Hfs) Hs) as Hok. destruct Hfs as (us & Hus & ->).
  destruct (unknown_absorbs attribute_field (mkAttribute (at_key m) (at_typed_value m)) attribute_tags _ us sf_new ltac:(unfold attribute_field, attribute_tags; unknown_tac) Hu Hus sf_unknown_new)
    as (sf & Hsf & Ha). exists (mkAttribute (at_key m) (at_typed_value m) sf). split; [|by repeat split].
  apply merge_absorbs; [apply attribute_shrinks|done|].
  eapply absorbs_app; [apply (string_absorbs attribute_field (fun k => mkAttribute k None sf_new)); done|]. eapply absorbs_app; [|exact Ha].
  destruct (at_typed_value m) as [[b|z]|]; cbn [typed_value_fields]; [| |constructor]; apply absorbs_one; intros _ r; unfold attribute_field, tag_of; cbn.
  - pose proof (read_bool_enc b r) as Hr. cbn in Hr. by rewrite Hr.
  - pose proof (read_int64_enc z r (Hv _ eq_refl)) as Hr. cbn in Hr. by rewrite Hr.
Qed.

(** *** [Domain] *)

Definition domain_tags : list Z := [8; 18; 26]%Z.

Definition domain_wf (m : DomainM) : Prop :=
  i32_ok (do_type m) /\ utf8_valid (do_value m) = true /\ Forall msg_wf (do_attribute m) /\ unknown_ok domain_tags (do_special_fields m).

Definition domain_fields (m : DomainM) (fs : list wire_field) : Prop :=
  exists as_ us, repeated 3 (do_attribute m) as_ /\ uf_order (unknown_fields (do_special_fields m)) us /\
  fs = opt_int 1 (do_type m) ++ opt_bytes 2 (do_value m) ++ as_ ++ us.

Lemma domain_shrinks : shrinks domain_field.
Proof. unfold shrinks, domain_field. shrinks_tac. Qed.

Lemma domain_fields_wf m fs : domain_wf m -> domain_fields m fs -> Forall field_wf fs.
Proof.
  intros (Ht & Hk & Hl & Hu) (as_ & us & Has & Hus & ->). repeat apply Forall_app_2; [apply opt_int_wf; lia|apply opt_bytes_wf; lia| |by eapply unknown_ok_wf].
  eapply repeated_wf, Has. lia.
Qed.

#[export] Program Instance domain_spec : MessageSpec (M := DomainM) := {|
    msg_wf := domain_wf;
    msg_fields := domain_fields
  |}.
Next Obligation. done. Qed.
Next Obligation. intros m b m' b'. apply merge_with_shrinks, domain_shrinks. Qed.
Next Obligation.
  intros m s m1 (Ht & Hk & Hl & Hu). cbn. unfold domain_compute_size. destruct (compute_sizes _) as [sl l1] eqn:El. intros [= <- <-].
  destruct (compute_sizes_spec 3 _ _ _ ltac:(lia) Hl El) as (Hle & Hsl & Hsf).
  destruct (write_unknown_emits (unknown_fields (do_special_fields m))) as (us & Hus & _).
  rewrite (opt_bytes_size _ _ string_size string_size_enc), (opt_int_size _ _ _ (int32_size_enc 1 _ Ht)).
  split_and!; [by repeat split; [|apply sf_cached_equiv]|rewrite (unknown_size_enc _ _ Hus); lia|unfold msg_cached_size; cbn; by rewrite sf_cached_set|].
  intros Hmax fs (as_ & vs & Has & Hvs & ->). rewrite (unknown_size_enc _ _ Hvs) in *. rewrite !enc_length_app, (Hsf ltac:(lia) _ Has). lia.
Qed.
Next Obligation.
  intros m s m1 (Ht & Hk & Hl & Hu). cbn. unfold domain_compute_size. destruct (compute_sizes _) as [sl l1] eqn:El. intros [= <- <-] Hmax.
  destruct (write_unknown_emits (unknown_fields (do_special_fields m))) as (us & Hus & Hw).
  rewrite (opt_bytes_size _ _ string_size string_size_enc), (opt_int_size _ _ _ (int32_size_enc 1 _ Ht)), (unknown_size_enc _ _ Hus) in Hmax.
  destruct (write_messages_spec 3 _ _ _ ltac:(lia) Hl El ltac:(lia)) as (as_ & Has & Hwl). eexists. split; [by exists as_, us|].
  rewrite !enc_fields_app. unfold domain_write. cbn [do_type do_value do_attribute do_special_fields]. rewrite sf_unknown_cached.
  apply emits_bind; [apply emits_opt, emits_one, write_enum_emits; done|]. apply emits_bind; [apply emits_opt, emits_one, write_string_emits|].
  by apply emits_bind.
Qed.
Next Obligation.
  intros m fs Hm Hfs Hs. pose proof Hm as (Ht & Hk & Hl & Hu). pose proof (fields_ok_small _ (domain_fields_wf _ _ Hm Hfs) Hs) as Hok. destruct Hfs as (as_ & us & Has & Hus & ->).
  assert (Forall field_ok as_) as Hoka by (by repeat match goal with H : Forall _ (_ ++ _) |- _ => apply Forall_app in H as [? ?] end).
  destruct (repeated_absorbs domain_field (fun l => mkDomainM (do_type m) (do_value m) l sf_new) 3 _ _ ltac:(done) Hl Has Hoka) as (l' & Hl' & Hal).
  destruct (unknown_absorbs domain_field (mkDomainM (do_type m) (do_value m) l') domain_tags _ us sf_new ltac:(unfold domain_field, domain_tags; unknown_tac) Hu Hus sf_unknown_new)
    as (sf & Hsf & Ha). exists (mkDomainM (do_type m) (do_value m) l' sf). split; [|by repeat split].
  apply merge_absorbs; [apply domain_shrinks|done|].
  eapply absorbs_app; [apply (int_absorbs domain_field (fun t => mkDomainM t [] [] sf_new) read_enum_or_unknown); [done|intros; by apply read_enum_enc]|].
  eapply absorbs_app; [apply (string_absorbs domain_field (fun v => mkDomainM _ v [] sf_new)); done|]. by eapply absorbs_app.
Qed.

(** *** [CIDR] *)

Definition cidrm_tags : list Z := [10; 16]%Z.

#[export] Instance cidrm_equiv : Equiv CidrM := fun a b =>
  cm_ip a = cm_ip b /\ cm_prefix a = cm_prefix b /\ cm_special_fields a ≡ cm_special_fields b.

#[export] Instance cidrm_equivalence : Equivalence (≡@{CidrM}).
Proof.
  split; [intros []; by repeat split|intros x y (?&?&?); repeat split; by symmetry|].
  intros x y z (?&?&?) (?&?&?); repeat split; etrans; eauto.
Qed.

Definition cidrm_wf (m : CidrM) : Prop := u32_ok (cm_prefix m) /\ unknown_ok cidrm_tags (cm_special_fields m).

Definition cidrm_fields (m : CidrM) (fs : list wire_field) : Prop :=
  exists us, uf_order (unknown_fields (cm_special_fields m)) us /\ fs = opt_bytes 1 (cm_ip m) ++ opt_int 2 (cm_prefix m) ++ us.

Lemma cidrm_shrinks : shrinks cidrm_field.
Proof. unfold shrinks, cidrm_field. shrinks_tac. Qed.

Lemma cidrm_fields_wf m fs : cidrm_wf m -> cidrm_fields m fs -> Forall field_wf fs.
Proof.
  intros (Hp & Hu) (us & Hus & ->). apply Forall_app_2; [apply opt_bytes_wf; lia|]. apply Forall_app_2; [apply opt_int_wf; lia|by eapply unknown_ok_wf].
Qed.

Lemma uint32_size_int n z : u32_ok z -> uint32_size n z = Z.of_nat (length (enc_field (n, wire_int z))).
Proof. intros Hz. rewrite wire_int_u32 by done. by apply uint32_size_enc. Qed.

#[export] Program Instance cidrm_spec : MessageSpec (M := CidrM) := {|
    msg_wf := cidrm_wf;
    msg_fields := cidrm_fields
  |}.
Next Obligation. done. Qed.
Next Obligation. intros m b m' b'. apply merge_with_shrinks, cidrm_shrinks. Qed.
Next Obligation.
  intros m s m1 (Hp & Hu). cbn. unfold cidrm_compute_size. intros [= <- <-]. pose proof (unknown_size_pos (unknown_fields (cm_special_fields m))).
  rewrite (opt_bytes_size _ _ bytes_size bytes_size_enc), (opt_int_size _ _ _ (uint32_size_int 2 _ Hp)).
  split_and!; [by repeat split; apply sf_cached_equiv|lia|unfold msg_cached_size; cbn; by rewrite sf_cached_set|].
  intros _ fs (vs & Hvs & ->). rewrite (unknown_size_enc _ _ Hvs), !enc_length_app. lia.
Qed.
Next Obligation.
  intros m s m1 (Hp & Hu). cbn. unfold cidrm_compute_size. intros [= <- <-] _.
  destruct (write_unknown_emits (unknown_fields (cm_special_fields m))) as (us & Hus & Hw). eexists. split; [by exists us|].
  rewrite !enc_fields_app. unfold cidrm_write. cbn [cm_ip cm_prefix cm_special_fields]. rewrite sf_unknown_cached.
  apply emits_bind; [apply emits_opt, emits_one, write_bytes_emits|]. apply emits_bind; [|exact Hw].
  apply emits_opt, emits_one. rewrite wire_int_u32 by done. by apply write_uint32_emits.
Qed.
Next Obligation.
  intros m fs Hm Hfs Hs. pose proof Hm as (Hp & Hu). pose proof (fields_ok_small _ (cidrm_fields_wf _ _ Hm Hfs) Hs) as Hok. destruct Hfs as (us & Hus & ->).
  destruct (unknown_absorbs cidrm_field (mkCidrM (cm_ip m) (cm_prefix m)) cidrm_tags _ us sf_new ltac:(unfold cidrm_field, cidrm_tags; unknown_tac) Hu Hus sf_unknown_new)
    as (sf & Hsf & Ha). exists (mkCidrM (cm_ip m) (cm_prefix m) sf). split; [|by repeat split].
  apply merge_absorbs; [apply cidrm_shrinks|done|].
  eapply absorbs_app; [apply (bytes_absorbs cidrm_field (fun ip => mkCidrM ip 0 sf_new)); done|]. eapply absorbs_app; [|exact Ha].
  apply (int_absorbs cidrm_field (fun p => mkCidrM _ p sf_new) read_uint32); [done|]. intros r. rewrite wire_int_u32 by done. by apply read_uint32_enc.
Qed.

(** The obligations of the messages made from a template. *)
Ltac size_tac spec :=
  destruct (compute_sizes _) as [sl l] eqn:El; intros [= <- <-]; edestruct spec as (? & ? & ? & Hf); [first [eassumption|done]..|];
    split; [done|]; split; [done|]; split; [done|intros; by apply Hf].

Ltac write_tac spec wspec Hm :=
  destruct (compute_sizes _) as [sl l] eqn:El; intros [= <- <-]; edestruct spec as (_ & _ & _ & Hf); [first [eassumption|done]..|];
    let Hmax := fresh "Hmax" in intros Hmax; exact (wspec _ _ _ _ Hm El (proj1 (Hf Hmax)) (sf_unknown_cached _ _)).

(** *** [SiteGroup] *)

#[export] Instance site_group_equiv : Equiv SiteGroup := group_equiv sg_tag sg_domain sg_special_fields.

#[export] Instance site_group_equivalence : Equivalence (≡@{SiteGroup}).
Proof. apply group_equivalence. Qed.

Lemma site_group_shrinks : shrinks site_group_field.
Proof. unfold shrinks, site_group_field. shrinks_tac. Qed.

#[export] Program Instance site_group_spec : MessageSpec (M := SiteGroup) := {|
    msg_wf := group_wf sg_tag sg_domain sg_special_fields;
    msg_fields := group_fields sg_tag sg_domain sg_special_fields
  |}.
Next Obligation. done. Qed.
Next Obligation. intros m b m' b'. apply merge_with_shrinks, site_group_shrinks. Qed.
Next Obligation. intros m s m1 Hm. cbn. unfold site_group_compute_size. size_tac (group_size_spec mkSiteGroup sg_tag sg_domain sg_special_fields). Qed.
Next Obligation. intros m s m1 Hm. cbn. unfold site_group_compute_size. write_tac (group_size_spec mkSiteGroup sg_tag sg_domain sg_special_fields) (group_write_spec sg_tag sg_domain sg_special_fields) Hm. Qed.
Next Obligation.
  intros m fs Hm Hfs Hs. eapply (group_merge_spec mkSiteGroup); try done; [|apply site_group_shrinks].
  unfold site_group_field, group_tags. intros n l. unknown_tac.
Qed.

(** *** [SiteGroupList] *)

#[export] Instance site_group_list_equiv : Equiv SiteGroupList := list_equiv sl_site_group sl_special_fields.

#[export] Instance site_group_list_equivalence : Equivalence (≡@{SiteGroupList}).
Proof. apply list_equivalence. Qed.

Lemma site_group_list_shrinks : shrinks site_group_list_field.
Proof. unfold shrinks, site_group_list_field. shrinks_tac. Qed.

#[export] Program Instance site_group_list_spec : MessageSpec (M := SiteGroupList) := {|
    msg_wf := list_wf sl_site_group sl_special_fields;
    msg_fields := list_fields sl_site_group sl_special_fields
  |}.
Next Obligation. done. Qed.
Next Obligation. intros m b m' b'. apply merge_with_shrinks, site_group_list_shrinks. Qed.
Next Obligation. intros m s m1 Hm. cbn. unfold site_group_list_compute_size. size_tac (list_size_spec mkSiteGroupList sl_site_group sl_special_fields). Qed.
Next Obligation. intros m s m1 Hm. cbn. unfold site_group_list_compute_size. write_tac (list_size_spec mkSiteGroupList sl_site_group sl_special_fields) (list_write_spec sl_site_group sl_special_fields) Hm. Qed.
Next Obligation.
  intros m fs Hm Hfs Hs. eapply (list_merge_spec mkSiteGroupList); try done; [|apply site_group_list_shrinks].
  unfold site_group_list_field, list_tags. intros l. unknown_tac.
Qed.

(** *** [GeoIP] *)

#[export] Instance geoipm_equiv : Equiv GeoIP := group_equiv gi_country_code gi_cidr gi_special_fields.

#[export] Instance geoipm_equivalence : Equivalence (≡@{GeoIP}).
Proof. apply group_equivalence. Qed.

Lemma geoipm_shrinks : shrinks geoipm_field.
Proof. unfold shrinks, geoipm_field. shrinks_tac. Qed.

#[export] Program Instance geoipm_spec : MessageSpec (M := GeoIP) := {|
    msg_wf := group_wf gi_country_code gi_cidr gi_special_fields;
    msg_fields := group_fields gi_country_code gi_cidr gi_special_fields
  |}.
Next Obligation. done. Qed.
Next Obligation. intros m b m' b'. apply merge_with_shrinks, geoipm_shrinks. Qed.
Next Obligation. intros m s m1 Hm. cbn. unfold geoipm_compute_size. size_tac (group_size_spec mkGeoIP gi_country_code gi_cidr gi_special_fields). Qed.
Next Obligation. intros m s m1 Hm. cbn. unfold geoipm_compute_size. write_tac (group_size_spec mkGeoIP gi_country_code gi_cidr gi_special_fields) (group_write_spec gi_country_code gi_cidr gi_special_fields) Hm. Qed.
Next Obligation.
  intros m fs Hm Hfs Hs. eapply (group_merge_spec mkGeoIP); try done; [|apply geoipm_shrinks].
  unfold geoipm_field, group_tags. intros n l. unknown_tac.
Qed.

(** *** [GeoIPList] *)

#[export] Instance geoipm_list_equiv : Equiv GeoIPList := list_equiv gl_entry gl_special_fields.

#[export] Instance geoipm_list_equivalence : Equivalence (≡@{GeoIPList}).
Proof. apply list_equivalence. Qed.

Lemma geoipm_list_shrinks : shrinks geoipm_list_field.
Proof. unfold shrinks, geoipm_list_field. shrinks_tac. Qed.

#[export] Program Instance geoipm_list_spec : MessageSpec (M := GeoIPList) := {|
    msg_wf := list_wf gl_entry gl_special_fields;
    msg_fields := list_fields gl_entry gl_special_fields
  |}.
Next Obligation. done. Qed.
Next Obligation. intros m b m' b'. apply merge_with_shrinks, geoipm_list_shrinks. Qed.
Next Obligation. intros m s m1 Hm. cbn. unfold geoipm_list_compute_size. size_tac (list_size_spec mkGeoIPList gl_entry gl_special_fields). Qed.
Next Obligation. intros m s m1 Hm. cbn. unfold geoipm_list_compute_size. write_tac (list_size_spec mkGeoIPList gl_entry gl_special_fields) (list_write_spec gl_entry gl_special_fields) Hm. Qed.
Next Obligation.
  intros m fs Hm Hfs Hs. eapply (list_merge_spec mkGeoIPList); try done; [|apply geoipm_list_shrinks].
  unfold geoipm_list_field, list_tags. intros l. unknown_tac.
Qed.
End Proofs.
