(* ===== verification/ProtobufWire.v ===== *)
(** * The wire format, executable

    A concrete [Protobuf] (Protobuf.v) that reads and writes the documented
    wire format with LEB128 integers.  It shows that the class's laws hold
    together; the witnesses of GeoSchema.v run the messages with it. *)

From S2P Require Import Prelude Io StdText Leb128 Protobuf.
From Stdlib Require Import ZArith Lia List Strings.Byte.
From stdpp Require Import base option list strings.

(** ** Reading *)

Definition wire_len (b : bytes) : res (bytes * bytes) :=
  '(n, b) ← leb_decode64 b;
  if decide (n <= Z.of_nat (length b))%Z then Ok (take (Z.to_nat n) b, drop (Z.to_nat n) b) else Err unexpected_eof.

Definition wire_take (n : nat) (b : bytes) : res (bytes * bytes) :=
  if decide (n <= length b) then Ok (take n b, drop n b) else Err unexpected_eof.

Definition wire_tag (b : bytes) : res (option Z * bytes) :=
  match b with
  | [] => Ok (None, [])
  | _ => '(t, b) ← leb_decode64 b; Ok (Some t, b)
  end.

Definition wire_string (b : bytes) : res (bytes * bytes) :=
  '(s, b) ← wire_len b; if utf8_valid s then Ok (s, b) else Err (IoError InvalidData "utf8").

Definition signed (w z : Z) : Z := let r := wrap w z in if decide (r < 2 ^ (w - 1))%Z then r else (r - 2 ^ w)%Z.

Definition wire_z (f : Z -> Z) (b : bytes) : res (Z * bytes) := '(z, b) ← leb_decode64 b; Ok (f z, b).

Definition wire_read_bool (b : bytes) : res (bool * bytes) := '(z, b) ← leb_decode64 b; Ok (negb (z =? 0)%Z, b).

Definition wire_unknown (t : Z) (b : bytes) (u : list wire_field) : res (list wire_field * bytes) :=
  let n := (t / 8)%Z in
  match (t mod 8)%Z with
  | 0%Z => '(z, b) ← leb_decode64 b; Ok (u ++ [(n, WVarint z)], b)
  | 1%Z => '(s, b) ← wire_take 8 b; Ok (u ++ [(n, WFixed64 s)], b)
  | 2%Z => '(s, b) ← wire_len b; Ok (u ++ [(n, WBytes s)], b)
  | 5%Z => '(s, b) ← wire_take 4 b; Ok (u ++ [(n, WFixed32 s)], b)
  | _ => Err (IoError InvalidData "wire type")
  end.

(** ** Lemmas *)

#[export] Program Instance leb_raw : RawVarint := {| raw_varint := leb_encode 10 |}.
Next Obligation.
  intros v Hv. cbn [leb_encode]. destruct (Z.ltb_spec v 128); [done|lia].
Qed.

Lemma leb_raw_length v : (0 <= v < 2 ^ 64)%Z -> 1 <= length (raw_varint v).
Proof. intros Hv. apply (leb_decode_encode 10 v []); lia. Qed.

Lemma leb64_enc v r : (0 <= v < 2 ^ 64)%Z -> leb_decode64 (raw_varint v ++ r) = Ok (v, r).
Proof.
  intros Hv. unfold leb_decode64. cbn [raw_varint leb_raw]. destruct (leb_decode_encode 10 v r) as [E _]; [lia|lia|].
  rewrite E. by rewrite decide_True by lia.
Qed.

Lemma leb64_shrinks b v r : leb_decode64 b = Ok (v, r) -> length r < length b.
Proof.
  unfold leb_decode64. destruct (leb_decode 10 b) as [[v' r']|] eqn:E; [|done]. apply leb_decode_law in E. case_decide; [|done].
  intros [= <- <-]. lia.
Qed.

Lemma wire_len_enc s r : (Z.of_nat (length s) < MAX_MESSAGE)%Z -> wire_len (enc_value (WBytes s) ++ r) = Ok (s, r).
Proof.
  unfold MAX_MESSAGE. intros Hs. unfold wire_len. cbn [enc_value]. rewrite <- app_assoc, leb64_enc by lia. cbn [mbind res_bind].
  rewrite decide_True by (rewrite length_app; lia). by rewrite Nat2Z.id, take_app_length, drop_app_length.
Qed.

Lemma wire_len_shrinks b s r : wire_len b = Ok (s, r) -> length r <= length b.
Proof.
  unfold wire_len. destruct (leb_decode64 b) as [[n b1]|e|] eqn:E; cbn [mbind res_bind]; [|done|done]. apply leb64_shrinks in E.
  case_decide; [|done]. intros [= _ <-]. rewrite length_drop. lia.
Qed.

Lemma wire_take_shrinks n b s r : wire_take n b = Ok (s, r) -> length r <= length b.
Proof. unfold wire_take. case_decide; [|done]. intros [= _ <-]. rewrite length_drop. lia. Qed.

Lemma wire_take_enc n s r : length s = n -> wire_take n (s ++ r) = Ok (s, r).
Proof. intros <-. unfold wire_take. rewrite decide_True by (rewrite length_app; lia). by rewrite take_app_length, drop_app_length. Qed.

Lemma wire_z_shrinks f b z r : wire_z f b = Ok (z, r) -> length r <= length b.
Proof.
  unfold wire_z. destruct (leb_decode64 b) as [[n b1]|e|] eqn:E; cbn [mbind res_bind]; [|done|done]. apply leb64_shrinks in E.
  intros [= _ <-]. lia.
Qed.

Lemma signed_mod w z : (0 < w <= 64)%Z -> (- 2 ^ (w - 1) <= z < 2 ^ (w - 1))%Z -> signed w (z mod 2 ^ 64) = z.
Proof.
  intros Hw Hz. assert (2 ^ w = 2 * 2 ^ (w - 1))%Z as Hp by (rewrite <- Z.pow_succ_r by lia; f_equal; lia).
  assert (wrap w (z mod 2 ^ 64) = z mod 2 ^ w)%Z as E.
  { unfold wrap. replace (2 ^ 64)%Z with (2 ^ w * 2 ^ (64 - w))%Z by (rewrite <- Z.pow_add_r by lia; f_equal; lia).
    rewrite Z.rem_mul_r by lia. rewrite Z.mul_comm, Z.mod_add, Z.mod_mod by lia. done. }
  unfold signed. rewrite E. destruct (decide (0 <= z)%Z).
  - rewrite Z.mod_small by lia. by rewrite decide_True by lia.
  - assert (z mod 2 ^ w = z + 2 ^ w)%Z as -> by (rewrite <- (Z.mod_add z 1) by lia; rewrite Z.mul_1_l; apply Z.mod_small; lia).
    rewrite decide_False by lia. lia.
Qed.

Lemma wire_int_enc w z r : (0 < w <= 64)%Z -> (- 2 ^ (w - 1) <= z < 2 ^ (w - 1))%Z -> wire_z (signed w) (enc_value (wire_int z) ++ r) = Ok (z, r).
Proof.
  intros Hw Hz. unfold wire_z, wire_int. cbn [enc_value]. rewrite leb64_enc by (apply Z.mod_pos_bound; lia). cbn [mbind res_bind].
  by rewrite signed_mod.
Qed.

Lemma tag_of_split f : (tag_of f mod 8)%Z = wire_type f.2 /\ (tag_of f / 8)%Z = f.1.
Proof.
  unfold tag_of. assert (0 <= wire_type f.2 < 8)%Z by (destruct f as [n []]; cbn; lia).
  split; [rewrite Z.add_comm, Z.mod_add by lia; apply Z.mod_small; lia|rewrite Z.div_add_l by lia; rewrite Z.div_small by lia; lia].
Qed.

Lemma wire_unknown_enc f u r : field_ok f -> wire_unknown (tag_of f) (enc_value f.2 ++ r) u = Ok (u ++ [f], r).
Proof.
  intros [[_ Hv] Hl]. unfold wire_unknown. destruct (tag_of_split f) as [-> ->]. destruct f as [n [z|b|b|b]]; cbn [fst snd wire_type] in *.
  - cbn [enc_value]. by rewrite leb64_enc.
  - cbn [enc_value]. by rewrite wire_take_enc.
  - by rewrite wire_len_enc.
  - cbn [enc_value]. by rewrite wire_take_enc.
Qed.

Lemma wire_unknown_shrinks t b u u' r : wire_unknown t b u = Ok (u', r) -> length r <= length b.
Proof.
  unfold wire_unknown. intros Hr. repeat case_match; try done;
    match type of Hr with mbind _ ?x = _ => destruct x as [[? ?]|?|] eqn:E end; cbn [mbind res_bind] in Hr; try done; injection Hr as _ <-;
    first [apply leb64_shrinks in E; lia|by apply wire_take_shrinks in E|by apply wire_len_shrinks in E].
Qed.

(** ** The instances *)

#[export] Program Instance wire_fields : Fields := {|
    UnknownFields := list wire_field;
    uf_new := [];
    uf_add f u := u ++ [f];
    uf_order u fs := fs = u;
    SpecialFields := list wire_field * Z;
    sf_new := ([], 0%Z);
    unknown_fields := fst;
    set_unknown_fields u s := (u, s.2);
    cached_size := snd;
    set_cached_size z s := (s.1, z);
    sf_clear s := ([], s.2)
  |}.
Next Obligation. done. Qed.
Next Obligation.
  intros u fs ->. assert (forall l0, foldl (fun u f => u ++ [f]) l0 u = l0 ++ u) as Hgo; [|apply Hgo].
  induction u as [|f u IH]; intros l0; cbn [foldl]; [by rewrite app_nil_r|]. by rewrite IH, <- app_assoc.
Qed.
Next Obligation. done. Qed.
Next Obligation. done. Qed.
Next Obligation. done. Qed.
Next Obligation. done. Qed.
Next Obligation. done. Qed.

Definition wire_message {M} (m : M) (merge : M -> bytes -> res (M * bytes)) (init : M -> bool) (b : bytes) : res (M * bytes) :=
  '(body, b) ← wire_len b;
  '(m, _) ← merge m body;
  if init m then Ok (m, b) else Err (IoError Other "not initialized").

Definition put (b : bytes) (o : bytes) : res bytes := Ok (o ++ b).
Definition enc_size (b : bytes) : Z := Z.of_nat (length b).

#[export] Program Instance wire_protobuf : Protobuf := {|
    read_raw_tag_or_eof := wire_tag;
    read_string := wire_string;
    read_tokio_bytes := wire_len;
    read_uint32 := wire_z (wrap 32);
    read_int64 := wire_z (signed 64);
    read_enum_or_unknown := wire_z (signed 32);
    read_bool := wire_read_bool;
    read_unknown_or_skip_group := wire_unknown;
    read_message M := wire_message;
    CodedOutputStream := bytes;
    os_written o := o;
    write_string n s := put (enc_field (n, WBytes s));
    write_bytes n s := put (enc_field (n, WBytes s));
    write_enum n z := put (enc_field (n, wire_int z));
    write_bool n b := put (enc_field (n, wire_bool b));
    write_int64 n z := put (enc_field (n, wire_int z));
    write_uint32 n z := put (enc_field (n, WVarint z));
    write_unknown_fields u := put (enc_fields u);
    write_message_field_with_cached_size n size w o := w (o ++ raw_varint (n * 8 + 2) ++ raw_varint size);
    compute_raw_varint64_size z := enc_size (raw_varint z);
    string_size n s := enc_size (enc_field (n, WBytes s));
    bytes_size n s := enc_size (enc_field (n, WBytes s));
    int32_size n z := enc_size (enc_field (n, wire_int z));
    int64_size n z := enc_size (enc_field (n, wire_int z));
    uint32_size n z := enc_size (enc_field (n, WVarint z));
    unknown_fields_size u := enc_size (enc_fields u)
  |}.
Next Obligation.
  intros [|x b] t b'; [done|]. unfold wire_tag. destruct (leb_decode64 (x :: b)) as [[z b1]|e|] eqn:E; cbn [mbind res_bind]; [|done|done].
  intros [= <- <-]. by apply leb64_shrinks in E.
Qed.
Next Obligation.
  intros [|x b] b'; [by intros [= <-]|]. unfold wire_tag. destruct (leb_decode64 (x :: b)) as [[z b1]|e|] eqn:E; cbn [mbind res_bind]; done.
Qed.
Next Obligation.
  intros b s b'. unfold wire_string. destruct (wire_len b) as [[s1 b1]|e|] eqn:E; cbn [mbind res_bind]; [|done|done].
  case_match; [|done]. intros [= <- <-]. by apply wire_len_shrinks in E.
Qed.
Next Obligation. intros b s b'. apply wire_len_shrinks. Qed.
Next Obligation. intros b z b'. apply wire_z_shrinks. Qed.
Next Obligation. intros b z b'. apply wire_z_shrinks. Qed.
Next Obligation. intros b z b'. apply wire_z_shrinks. Qed.
Next Obligation.
  intros b z b'. unfold wire_read_bool. destruct (leb_decode64 b) as [[n b1]|e|] eqn:E; cbn [mbind res_bind]; [|done|done]. apply leb64_shrinks in E.
  intros [= _ <-]. lia.
Qed.
Next Obligation. intros t b u u' b'. apply wire_unknown_shrinks. Qed.
Next Obligation.
  intros M m merge init b m' b' _. unfold wire_message. destruct (wire_len b) as [[s b1]|e|] eqn:E; cbn [mbind res_bind]; [|done|done].
  destruct (merge m s) as [[m1 b2]|e|]; cbn [mbind res_bind]; [|done|done]. case_match; [|done]. intros [= <- <-]. by apply wire_len_shrinks in E.
Qed.
Next Obligation. done. Qed.
Next Obligation.
  intros f r [[Hn _] _]. assert (0 <= tag_of f < 2 ^ 64)%Z as Ht by (unfold tag_of; destruct f as [n []]; cbn in *; lia).
  unfold enc_field. rewrite <- app_assoc. unfold wire_tag. pose proof (leb_raw_length _ Ht) as Hl.
  destruct (raw_varint (tag_of f) ++ enc_value f.2 ++ r) as [|x b] eqn:E; [apply (f_equal length) in E; rewrite !length_app in E; cbn [length] in E; lia|].
  rewrite <- E, leb64_enc by done. done.
Qed.
Next Obligation. intros s r Hu Hs. unfold wire_string. rewrite wire_len_enc by done. cbn [mbind res_bind]. by rewrite Hu. Qed.
Next Obligation. intros s r. apply wire_len_enc. Qed.
Next Obligation.
  intros z r Hz. unfold wire_z, u32_ok in *. cbn [enc_value]. rewrite leb64_enc by lia. cbn [mbind res_bind]. unfold wrap. by rewrite Z.mod_small.
Qed.
Next Obligation. intros z r Hz. apply wire_int_enc; [lia|exact Hz]. Qed.
Next Obligation. intros z r Hz. apply wire_int_enc; [lia|exact Hz]. Qed.
Next Obligation. intros b r. unfold wire_read_bool. cbn [wire_bool enc_value]. rewrite leb64_enc by (destruct b; lia). cbn [mbind res_bind]. by destruct b. Qed.
Next Obligation. intros f u r. apply wire_unknown_enc. Qed.
Next Obligation.
  intros M m m' merge init body r Hs Hm Hi. unfold wire_message. rewrite wire_len_enc by done. cbn [mbind res_bind]. rewrite Hm. cbn [mbind res_bind]. by rewrite Hi.
Qed.
Next Obligation. done. Qed.
Next Obligation. done. Qed.
Next Obligation. done. Qed.
Next Obligation. done. Qed.
Next Obligation. done. Qed.
Next Obligation. done. Qed.
Next Obligation. intros u. exists u. done. Qed.
Next Obligation.
  intros n body w Hw o. specialize (Hw (o ++ raw_varint (n * 8 + 2) ++ raw_varint (Z.of_nat (length body)))).
  destruct (w _); [|done|done]. rewrite Hw. unfold enc_field, tag_of. cbn [fst snd wire_type enc_value]. by rewrite <- !app_assoc.
Qed.
Next Obligation. intros z. unfold enc_size. lia. Qed.
Next Obligation. done. Qed.
Next Obligation. done. Qed.
Next Obligation. done. Qed.
Next Obligation. done. Qed.
Next Obligation. done. Qed.
Next Obligation. done. Qed.
Next Obligation. by intros u fs ->. Qed.
