(* ===== verification/GeoSchema.v ===== *)
(** * The messages of the rule files: round trip, reflection, descriptors

    What the library of messages promises to its users: a list of groups that
    is written is read back equal ([rule_files_roundtrip]); the embedded
    descriptor is the schema of geosite.proto and geoip.proto, whose tags are
    those of the readers, whose names are those of the reflection data; and
    Route.v's view of [CIDR] is that of its reader. *)

From S2P Require Import Prelude Io StdText Leb128 Route Protobuf GeoMessages GeoProofs ProtobufWire.
From Stdlib Require Import ZArith Lia List Strings.Byte.
From stdpp Require Import base option list strings sets.

(** ** Reflection data *)

Section Reflection.
Context `{Protobuf}.

(** [make_simpler_field_accessor], [make_vec_simpler_accessor],
[make_oneof_copy_has_get_set_simpler_accessors]. *)
Inductive accessor (M : Type) : Type :=
| Simpler {T} (get : M -> T) (set : T -> M -> M)
| VecSimpler {T} (get : M -> list T) (set : list T -> M -> M)
| OneofCopy {T} (has : M -> bool) (get : M -> T) (set : T -> M -> M).
Arguments Simpler {M T}.
Arguments VecSimpler {M T}.
Arguments OneofCopy {M T}.

Record GeneratedMessageDescriptorData (M : Type) := mkData {
  gd_name : bytes;
  gd_fields : list (bytes * accessor M);
  gd_oneofs : list bytes
}.
Arguments mkData {M}.
Arguments gd_name {M}.
Arguments gd_fields {M}.
Arguments gd_oneofs {M}.

Definition domain_descriptor_data : GeneratedMessageDescriptorData DomainM := mkData (str "Domain")
  [ (str "type", Simpler do_type (fun v m => mkDomainM v (do_value m) (do_attribute m) (do_special_fields m)));
    (str "value", Simpler do_value (fun v m => mkDomainM (do_type m) v (do_attribute m) (do_special_fields m)));
    (str "attribute", VecSimpler do_attribute (fun v m => mkDomainM (do_type m) (do_value m) v (do_special_fields m))) ] [].

Definition attribute_descriptor_data : GeneratedMessageDescriptorData Attribute := mkData (str "Domain.Attribute")
  [ (str "key", Simpler at_key (fun v m => mkAttribute v (at_typed_value m) (at_special_fields m)));
    (str "bool_value", OneofCopy has_bool_value bool_value set_bool_value);
    (str "int_value", OneofCopy has_int_value int_value set_int_value) ] [str "typed_value"].

Definition site_group_descriptor_data : GeneratedMessageDescriptorData SiteGroup := mkData (str "SiteGroup")
  [ (str "tag", Simpler sg_tag (fun v m => mkSiteGroup v (sg_domain m) (sg_special_fields m)));
    (str "domain", VecSimpler sg_domain (fun v m => mkSiteGroup (sg_tag m) v (sg_special_fields m))) ] [].

Definition site_group_list_descriptor_data : GeneratedMessageDescriptorData SiteGroupList := mkData (str "SiteGroupList")
  [ (str "site_group", VecSimpler sl_site_group (fun v m => mkSiteGroupList v (sl_special_fields m))) ] [].

Definition cidrm_descriptor_data : GeneratedMessageDescriptorData CidrM := mkData (str "CIDR")
  [ (str "ip", Simpler cm_ip (fun v m => mkCidrM v (cm_prefix m) (cm_special_fields m)));
    (str "prefix", Simpler cm_prefix (fun v m => mkCidrM (cm_ip m) v (cm_special_fields m))) ] [].

Definition geoipm_descriptor_data : GeneratedMessageDescriptorData GeoIP := mkData (str "GeoIP")
  [ (str "country_code", Simpler gi_country_code (fun v m => mkGeoIP v (gi_cidr m) (gi_special_fields m)));
    (str "cidr", VecSimpler gi_cidr (fun v m => mkGeoIP (gi_country_code m) v (gi_special_fields m))) ] [].

Definition geoipm_list_descriptor_data : GeneratedMessageDescriptorData GeoIPList := mkData (str "GeoIPList")
  [ (str "entry", VecSimpler gl_entry (fun v m => mkGeoIPList v (gl_special_fields m))) ] [].

(** What an accessor owes the reflection: a value that is set is there. *)
Definition accessor_ok {M} (a : accessor M) : Prop :=
  match a with
  | Simpler get set => forall v m, get (set v m) = v
  | VecSimpler get set => forall v m, get (set v m) = v
  | OneofCopy has get set => forall v m, has (set v m) = true /\ get (set v m) = v
  end.

Definition data_ok {M} (d : GeneratedMessageDescriptorData M) : Prop := Forall (fun e => accessor_ok (snd e)) (gd_fields d).

Lemma descriptor_data_ok :
  data_ok domain_descriptor_data /\ data_ok attribute_descriptor_data /\ data_ok site_group_descriptor_data /\
  data_ok site_group_list_descriptor_data /\ data_ok cidrm_descriptor_data /\ data_ok geoipm_descriptor_data /\ data_ok geoipm_list_descriptor_data.
Proof. unfold data_ok; cbn [gd_fields domain_descriptor_data]; split_and!; repeat constructor. Qed.

(** A cleared message is a new one, and so is the default instance. *)
Lemma clear_is_new :
  (forall m, attribute_clear m ≡ attribute_new) /\ (forall m, domain_clear m ≡ domain_new) /\ (forall m, site_group_clear m ≡ site_group_new) /\
  (forall m, site_group_list_clear m ≡ site_group_list_new) /\ (forall m, cidrm_clear m ≡ cidrm_new) /\ (forall m, geoipm_clear m ≡ geoipm_new) /\
  (forall m, geoipm_list_clear m ≡ geoipm_list_new).
Proof. split_and!; intros m; repeat split; first [apply sf_clear_equiv|by constructor]. Qed.

(** The last case of a oneof that is set is the one it has. *)
Lemma oneof_set_get m v z :
  bool_value (set_bool_value v m) = v /\ has_int_value (set_bool_value v m) = false /\ int_value (set_bool_value v m) = 0%Z /\
  int_value (set_int_value z m) = z /\ has_bool_value (set_int_value z m) = false /\ bool_value (set_int_value z m) = false /\
  has_bool_value (clear_bool_value m) = false /\ has_int_value (clear_int_value m) = false.
Proof. by split_and!. Qed.
End Reflection.

(** ** The embedded descriptors *)

(** [file_descriptor_proto_data] of geosite.rs. *)
Definition geosite_descriptor_proto_data : bytes :=
  [x0a; x18] ++ str "src/config/geosite.proto" ++ [x22; x93; x02; x0a; x06] ++ str "Domain" ++ [x12; x20; x0a; x04] ++
  str "type" ++ [x18; x01; x20; x01; x28; x0e; x32; x0c] ++ str ".Domain.TypeR" ++ [x04] ++ str "type" ++
  [x12; x14; x0a; x05] ++ str "value" ++ [x18; x02; x20; x01; x28; x09; x52; x05] ++ str "value" ++
  [x12; x2f; x0a; x09] ++ str "attribute" ++ [x18; x03; x20; x03; x28; x0b; x32; x11] ++ str ".Domain.AttributeR" ++
  [x09] ++ str "attribute" ++ [x1a; x6c; x0a; x09] ++ str "Attribute" ++ [x12; x10; x0a; x03] ++ str "key" ++
  [x18; x01; x20; x01; x28; x09; x52; x03] ++ str "key" ++ [x12; x1f; x0a; x0a] ++ str "bool_value" ++
  [x18; x02; x20; x01; x28; x08; x48; x00; x52; x09] ++ str "boolValue" ++ [x12; x1d; x0a; x09] ++ str "int_value" ++
  [x18; x03; x20; x01; x28; x03; x48; x00; x52; x08] ++ str "intValueB" ++ [x0d; x0a; x0b] ++ str "typed_value" ++
  [x22; x32; x0a; x04] ++ str "Type" ++ [x12; x09; x0a; x05] ++ str "Plain" ++ [x10; x00; x12; x09; x0a; x05] ++
  str "Regex" ++ [x10; x01; x12; x0a; x0a; x06] ++ str "Domain" ++ [x10; x02; x12; x08; x0a; x04] ++ str "Full" ++
  [x10; x03; x22; x3e; x0a; x09] ++ str "SiteGroup" ++ [x12; x10; x0a; x03] ++ str "tag" ++
  [x18; x01; x20; x01; x28; x09; x52; x03] ++ str "tag" ++ [x12; x1f; x0a; x06] ++ str "domain" ++
  [x18; x02; x20; x03; x28; x0b; x32; x07] ++ str ".DomainR" ++ [x06] ++ str "domain" ++ [x22; x3a; x0a; x0d] ++
  str "SiteGroupList" ++ [x12; x29; x0a; x0a] ++ str "site_group" ++ [x18; x01; x20; x03; x28; x0b; x32; x0a] ++
  str ".SiteGroupR" ++ [x09] ++ str "siteGroupb" ++ [x06] ++ str "proto3".

(** [file_descriptor_proto_data] of geoip.rs. *)
Definition geoip_descriptor_proto_data : bytes :=
  [x0a; x16] ++ str "src/config/geoip.proto" ++ [x22; x2e; x0a; x04] ++ str "CIDR" ++
  [x12; x0e; x0a; x02; x69; x70; x18; x01; x20; x01; x28; x0c; x52; x02; x69; x70; x12; x16; x0a; x06] ++ str "prefix" ++
  [x18; x02; x20; x01; x28; x0d; x52; x06] ++ str "prefix" ++ [x22; x45; x0a; x05] ++ str "GeoIP" ++
  [x12; x21; x0a; x0c] ++ str "country_code" ++ [x18; x01; x20; x01; x28; x09; x52; x0b] ++ str "countryCode" ++
  [x12; x19; x0a; x04] ++ str "cidr" ++ [x18; x02; x20; x03; x28; x0b; x32; x05] ++ str ".CIDRR" ++ [x04] ++
  str "cidr" ++ [x22; x29; x0a; x09] ++ str "GeoIPList" ++ [x12; x1c; x0a; x05] ++ str "entry" ++
  [x18; x01; x20; x03; x28; x0b; x32; x06] ++ str ".GeoIPR" ++ [x05] ++ str "entryb" ++ [x06] ++ str "proto3".

(** The messages of google/protobuf/descriptor.proto that a proto3 file uses. *)
Inductive field_kind := KInt64 | KBool | KString | KMessage (name : bytes) | KBytes | KUint32 | KEnum (name : bytes).

Record FieldDescriptor := mkField {
  fd_name : bytes;
  fd_json_name : bytes;
  fd_number : Z;
  fd_repeated : bool;
  fd_kind : field_kind;
  fd_oneof_index : option Z
}.

Record EnumDescriptor := mkEnum { ed_name : bytes; ed_values : list (bytes * Z) }.

Inductive MessageDescriptor := mkMessage (name : bytes) (fields : list FieldDescriptor) (nested : list MessageDescriptor)
    (enums : list EnumDescriptor) (oneofs : list bytes).

Definition md_name (m : MessageDescriptor) : bytes := let '(mkMessage n _ _ _ _) := m in n.
Definition md_fields (m : MessageDescriptor) : list FieldDescriptor := let '(mkMessage _ fs _ _ _) := m in fs.

(** The schema: geosite.proto and geoip.proto. *)
Definition schema_attribute : MessageDescriptor := mkMessage (str "Attribute")
  [ mkField (str "key") (str "key") 1 false KString None;
    mkField (str "bool_value") (str "boolValue") 2 false KBool (Some 0%Z);
    mkField (str "int_value") (str "intValue") 3 false KInt64 (Some 0%Z) ] [] [] [str "typed_value"].

Definition schema_type : EnumDescriptor := mkEnum (str "Type") [(str "Plain", 0%Z); (str "Regex", 1%Z); (str "Domain", 2%Z); (str "Full", 3%Z)].

Definition schema_domain : MessageDescriptor := mkMessage (str "Domain")
  [ mkField (str "type") (str "type") 1 false (KEnum (str ".Domain.Type")) None;
    mkField (str "value") (str "value") 2 false KString None;
    mkField (str "attribute") (str "attribute") 3 true (KMessage (str ".Domain.Attribute")) None ] [schema_attribute] [schema_type] [].

Definition schema_site_group : MessageDescriptor := mkMessage (str "SiteGroup")
  [ mkField (str "tag") (str "tag") 1 false KString None;
    mkField (str "domain") (str "domain") 2 true (KMessage (str ".Domain")) None ] [] [] [].

Definition schema_site_group_list : MessageDescriptor := mkMessage (str "SiteGroupList")
  [ mkField (str "site_group") (str "siteGroup") 1 true (KMessage (str ".SiteGroup")) None ] [] [] [].

Definition schema_cidr : MessageDescriptor := mkMessage (str "CIDR")
  [ mkField (str "ip") (str "ip") 1 false KBytes None;
    mkField (str "prefix") (str "prefix") 2 false KUint32 None ] [] [] [].

Definition schema_geoip : MessageDescriptor := mkMessage (str "GeoIP")
  [ mkField (str "country_code") (str "countryCode") 1 false KString None;
    mkField (str "cidr") (str "cidr") 2 true (KMessage (str ".CIDR")) None ] [] [] [].

Definition schema_geoip_list : MessageDescriptor := mkMessage (str "GeoIPList")
  [ mkField (str "entry") (str "entry") 1 true (KMessage (str ".GeoIP")) None ] [] [] [].

(** Their encoding, by descriptor.proto. *)
Definition kind_number (k : field_kind) : Z :=
  match k with KInt64 => 3 | KBool => 8 | KString => 9 | KMessage _ => 11 | KBytes => 12 | KUint32 => 13 | KEnum _ => 14 end.

Definition kind_wire_type (k : field_kind) : Z := match k with KString | KMessage _ | KBytes => 2 | _ => 0 end.

Definition field_tag (f : FieldDescriptor) : Z := fd_number f * 8 + kind_wire_type (fd_kind f).

Definition wire_msg (n : Z) (fs : list wire_field) : wire_field := (n, WBytes (enc_fields fs)).

Definition enc_field_descriptor (f : FieldDescriptor) : list wire_field :=
  [(1%Z, WBytes (fd_name f)); (3%Z, WVarint (fd_number f)); (4%Z, WVarint (if fd_repeated f then 3 else 1));
    (5%Z, WVarint (kind_number (fd_kind f)))] ++
  match fd_kind f with KMessage n | KEnum n => [(6%Z, WBytes n)] | _ => [] end ++
  match fd_oneof_index f with Some i => [(9%Z, WVarint i)] | None => [] end ++
  [(10%Z, WBytes (fd_json_name f))].

Definition enc_enum (e : EnumDescriptor) : list wire_field :=
  (1%Z, WBytes (ed_name e)) :: map (fun v => wire_msg 2 [(1%Z, WBytes v.1); (2%Z, WVarint v.2)]) (ed_values e).

Fixpoint enc_message (m : MessageDescriptor) : list wire_field :=
  let '(mkMessage n fs ns es os) := m in
  (1%Z, WBytes n) :: map (fun f => wire_msg 2 (enc_field_descriptor f)) fs ++ map (fun m => wire_msg 3 (enc_message m)) ns ++
  map (fun e => wire_msg 4 (enc_enum e)) es ++ map (fun o => wire_msg 8 [(1%Z, WBytes o)]) os.

Definition enc_file (name : bytes) (ms : list MessageDescriptor) : bytes :=
  enc_fields ((1%Z, WBytes name) :: map (fun m => wire_msg 4 (enc_message m)) ms ++ [(12%Z, WBytes (str "proto3"))]).

(** The embedded bytes are the schema. *)
Lemma geosite_descriptor_is_schema :
  geosite_descriptor_proto_data = enc_file (str "src/config/geosite.proto") [schema_domain; schema_site_group; schema_site_group_list].
Proof. vm_compute. reflexivity. Qed.

Lemma geoip_descriptor_is_schema :
  geoip_descriptor_proto_data = enc_file (str "src/config/geoip.proto") [schema_cidr; schema_geoip; schema_geoip_list].
Proof. vm_compute. reflexivity. Qed.

(** The tags the readers know are the schema's. *)
Lemma tags_are_schema :
  map field_tag (md_fields schema_attribute) = attribute_tags /\ map field_tag (md_fields schema_domain) = domain_tags /\
  map field_tag (md_fields schema_site_group) = group_tags /\ map field_tag (md_fields schema_site_group_list) = list_tags /\
  map field_tag (md_fields schema_cidr) = cidrm_tags /\ map field_tag (md_fields schema_geoip) = group_tags /\
  map field_tag (md_fields schema_geoip_list) = list_tags.
Proof. by split_and!. Qed.

(** The values of [Type] and their names are the schema's. *)
Lemma type_is_schema :
  map (fun e => (type_from_str e.1, type_from_i32 e.2)) (ed_values schema_type) = map (fun t => (Some t, Some t)) type_VALUES.
Proof. vm_compute. reflexivity. Qed.

(** ** The file descriptors *)

Section Files.
Context `{Protobuf}.

(** The names [file_descriptor] pushes, for which [descriptor()] of each
message asks. *)
Definition geosite_file_descriptor : list bytes :=
  [gd_name _ domain_descriptor_data; gd_name _ site_group_descriptor_data; gd_name _ site_group_list_descriptor_data; gd_name _ attribute_descriptor_data].

Definition geoip_file_descriptor : list bytes :=
  [gd_name _ cidrm_descriptor_data; gd_name _ geoipm_descriptor_data; gd_name _ geoipm_list_descriptor_data].

(** The messages of a file by package-relative name. *)
Definition md_nested (m : MessageDescriptor) : list MessageDescriptor := let '(mkMessage _ _ ns _ _) := m in ns.

Definition package_names (ms : list MessageDescriptor) : list (bytes * list bytes) :=
  flat_map (fun m => (md_name m, map fd_name (md_fields m)) ::
    map (fun n => (md_name m ++ str "." ++ md_name n, map fd_name (md_fields n))) (md_nested m)) ms.

Definition names_of {M} (d : GeneratedMessageDescriptorData M) : bytes * list bytes := (gd_name _ d, map fst (gd_fields _ d)).

(** The reflection data names the messages of the schema and their fields, so
no [message_by_package_relative_name(..).unwrap()] panics. *)
Lemma names_are_schema :
  Permutation (package_names [schema_domain; schema_site_group; schema_site_group_list])
  [names_of domain_descriptor_data; names_of site_group_descriptor_data; names_of site_group_list_descriptor_data; names_of attribute_descriptor_data] /\
  Permutation (package_names [schema_cidr; schema_geoip; schema_geoip_list])
  [names_of cidrm_descriptor_data; names_of geoipm_descriptor_data; names_of geoipm_list_descriptor_data] /\
  map fst (package_names [schema_domain; schema_site_group; schema_site_group_list]) ≡ₚ geosite_file_descriptor /\
  map fst (package_names [schema_cidr; schema_geoip; schema_geoip_list]) ≡ₚ geoip_file_descriptor.
Proof.
  split_and!; [|reflexivity| |reflexivity]; apply perm_skip, (Permutation_cons_append [_; _]).
Qed.
End Files.

(** ** Route.v's view of [CIDR] *)

Section Cidr.
Context `{Protobuf}.

Definition cidr_of (m : CidrM) : CIDR := mkCIDR (cm_ip m) (cm_prefix m).

(** A field on the wire, as the router's reader sees it. *)
Definition cidr_field_of (f : wire_field) : cidr_field :=
  match f with
  | (1%Z, WBytes ip) => FieldIp ip
  | (2%Z, WVarint z) => FieldPrefix z
  | _ => FieldOther
  end.

(** A prefix is a [u32]. *)
Definition prefix_ok (f : wire_field) : Prop := match f with (2%Z, WVarint z) => u32_ok z | _ => True end.

Lemma cidrm_field_step m f : field_ok f -> prefix_ok f ->
  exists m', (forall r, cidrm_field (tag_of f) m (enc_value f.2 ++ r) = Ok (m', r)) /\ cidr_of m' = cidr_merge_from [cidr_field_of f] (cidr_of m).
Proof.
  intros Hok Hp. destruct (decide (tag_of f = 10%Z)) as [E1|E1]; [|destruct (decide (tag_of f = 16%Z)) as [E2|E2]].
  - destruct f as [n v]. destruct (tag_of_split (n, v)) as [Ew En]. rewrite E1 in Ew, En. cbn in Ew, En. subst n. destruct v; try done.
    destruct Hok as [_ Hl]. unfold cidrm_field. rewrite E1. eexists. split; [intros r; cbn -[enc_value]; rewrite read_bytes_enc by done|]; done.
  - destruct f as [n v]. destruct (tag_of_split (n, v)) as [Ew En]. rewrite E2 in Ew, En. cbn in Ew, En. subst n. destruct v; try done.
    unfold cidrm_field. rewrite E2. eexists. split; [intros r; cbn -[enc_value]; rewrite read_uint32_enc by done|]; done.
  - unfold cidrm_field. rewrite (proj2 (Z.eqb_neq _ _) E1), (proj2 (Z.eqb_neq _ _) E2).
    eexists. split; [intros r; rewrite read_unknown_enc by done; done|]. unfold cidr_of. cbn [cm_ip cm_prefix].
    destruct f as [n v]. unfold cidr_field_of. unfold tag_of in E1, E2. cbn [fst snd] in *. repeat case_match; subst; cbn in *; done.
Qed.

(** [CIDR::merge_from] reads the fields one after the other, as Route.v's
[cidr_merge_from] does. *)
Lemma cidrm_merge_route m fs : Forall field_ok fs -> Forall prefix_ok fs ->
  exists m', cidrm_merge_from m (enc_fields fs) = Ok (m', []) /\ cidr_of m' = cidr_merge_from (map cidr_field_of fs) (cidr_of m).
Proof.
  intros Hok Hp. assert (exists m', absorbs cidrm_field m fs m' /\ cidr_of m' = cidr_merge_from (map cidr_field_of fs) (cidr_of m)) as (m' & Ha & Hm).
  { revert m Hp. induction Hok as [|f fs Hf Hok IH]; intros m Hp; [exists m; split; [constructor|done]|]. inversion Hp as [|? ? Hpf Hpfs]. subst.
    destruct (cidrm_field_step m f Hf Hpf) as (m1 & E1 & Hm1). destruct (IH m1 Hpfs) as (m' & Ha & Hm). exists m'. split.
    - econstructor; [|exact Ha]. intros _. exact E1.
    - rewrite Hm, Hm1. cbn [map]. by destruct (cidr_field_of f). }
  exists m'. split; [|done]. by apply merge_absorbs; [apply cidrm_shrinks|..].
Qed.
End Cidr.

(** ** The round trip *)

Section RoundTrip.
Context `{Protobuf}.

(** What [write_to] does: the sizes, then the bytes; [parse_from_bytes] reads
them into a new message. *)
Definition write_message `{Message M} (m : M) (os : CodedOutputStream) : res CodedOutputStream :=
  msg_write_to_with_cached_sizes (msg_compute_size m).2 os.

Definition written_back `{MessageSpec M} (m : M) (os : CodedOutputStream) : Prop :=
  match write_message m os with
  | Ok os' => exists b m', os_written os' = os_written os ++ b /\ Z.of_nat (length b) = (msg_compute_size m).1 /\
    msg_merge_from msg_new b = Ok (m', []) /\ m' ≡ m
  | Err _ => True
  | Panic => False
  end.

Lemma message_written_back `{MessageSpec M} (m : M) os : msg_wf m -> ((msg_compute_size m).1 < MAX_MESSAGE)%Z -> written_back m os.
Proof.
  intros Hm Hs. unfold written_back, write_message. destruct (msg_compute_size m) as [s m1] eqn:E. cbn [fst snd] in *.
  destruct (ms_write _ _ _ Hm E Hs) as (fs & Hfs & Hw). destruct (ms_size _ _ _ Hm E) as (_ & _ & _ & Hlen). specialize (Hlen Hs _ Hfs).
  specialize (Hw os). destruct (msg_write_to_with_cached_sizes m1 os) as [os'|e|]; [|done|done].
  destruct (ms_merge _ _ Hm Hfs ltac:(lia)) as (m' & Hr & He). by exists (enc_fields fs), m'.
Qed.

(** C37: what the messages of the rule files write is read back: for every
list of site groups and every list of country groups of less than 2 GiB
(texts valid UTF-8, integers in range, unknown fields that are not known
ones), writing with cached sizes, unless the output fails, puts out exactly
as many bytes as [compute_size] said, and [merge_from] reads from them, down
to the attributes of the domains, a list equal to the one written, using
all of them. *)
Theorem rule_files_roundtrip (sites : SiteGroupList) (ips : GeoIPList) os :
  msg_wf sites -> ((site_group_list_compute_size sites).1 < MAX_MESSAGE)%Z ->
  msg_wf ips -> ((geoipm_list_compute_size ips).1 < MAX_MESSAGE)%Z -> written_back sites os /\ written_back ips os.
Proof. intros. split; by apply message_written_back. Qed.
End RoundTrip.

(** ** Witness: two groups, with attributes and an unknown field *)

Definition wit_sites : SiteGroupList :=
  mkSiteGroupList
  [ mkSiteGroup (str "CN") [ mkDomainM 2 (str "example.cn") [mkAttribute (str "cn") (Some (BoolValue true)) sf_new;
    mkAttribute (str "w") (Some (IntValue (-5))) sf_new] sf_new;
    mkDomainM 0 (str "cdn") [] ([(9%Z, WVarint 300)], 0%Z) ] sf_new;
    mkSiteGroup (str "US") [] sf_new ] sf_new.

Definition wit_ips : GeoIPList :=
  mkGeoIPList [ mkGeoIP (str "CN") [mkCidrM [x0a; x00; x00; x00] 8 sf_new; mkCidrM [] 0 sf_new] sf_new ] sf_new.

Definition wit_os : @CodedOutputStream _ _ wire_protobuf := [].

Ltac wf_tac :=
  repeat first
  [ reflexivity
  | match goal with
    | |- Forall _ [] => constructor
    | |- Forall _ (_ :: _) => constructor
    | |- Forall ?P ?l => let l' := eval hnf in l in progress change (Forall P l')
    | |- unknown_ok _ _ => intros ? ->; split
    | |- msg_wf _ => hnf
    | |- _ /\ _ => split
    | |- field_wf _ => split; cbn; lia
    | |- _ ∉ _ => cbn; set_solver
    | |- i32_ok _ => unfold i32_ok; cbn; lia
    | |- u32_ok _ => unfold u32_ok; cbn; lia
    | |- forall z, _ -> i64_ok z => intros ?; cbn; intros [= <-]; unfold i64_ok; lia
    end ].

Lemma rule_files_roundtrip_witness :
  match write_message wit_sites wit_os, write_message wit_ips wit_os with
  | Ok b1, Ok b2 => (exists m, site_group_list_merge_from site_group_list_new b1 = Ok (m, []) /\ m ≡ wit_sites) /\
    (exists m, geoipm_list_merge_from geoipm_list_new b2 = Ok (m, []) /\ m ≡ wit_ips)
  | _, _ => False
  end.
Proof.
  destruct (rule_files_roundtrip wit_sites wit_ips wit_os) as [Hs Hi]; [wf_tac|reflexivity|wf_tac|reflexivity|].
  unfold written_back in Hs, Hi.
  destruct (write_message wit_sites wit_os) as [b1|e|] eqn:E1; [|vm_compute in E1; discriminate E1..].
  destruct (write_message wit_ips wit_os) as [b2|e|] eqn:E2; [|vm_compute in E2; discriminate E2..].
  destruct Hs as (c1 & m1 & H1 & _ & Hr1 & He1). destruct Hi as (c2 & m2 & H2 & _ & Hr2 & He2). cbn in H1, H2. subst c1 c2.
  split; [by exists m1|by exists m2].
Defined.
