(* ===== verification/Config.v ===== *)
(** * The configuration (src/src/config/mod.rs, to_chainable_builder.rs)

    The proxy and transport sections of a configuration, the builders they
    become ([to_chainable_stream_builder]), the assembly of the outbound
    chains ([build_inner_map]) and [build_server].

    The deserialised values of the crates http, uuid and serde are opaque
    types; SHA-224 and the Shadowsocks cryptography are the parameters of
    Trojan.v and Aead.v, and the TLS connector of boring is the one of Tls.v:
    a TLS section is configured when its chain is built, which panics where
    the connector or the system's certificates fail. *)

From S2P Require Import Prelude Io StdText Address IpTrie Aead Shadowsocks VmessStream Trojan Chain Transport Tls Route.
From Stdlib Require Import ZArith Lia List.
From stdpp Require Import base option list gmap strings.

Section Config.
Context `{AeadCrypto} (sha224 : bytes -> bytes).
Context {Uri Method PathAndQuery : Type}.
Context {CB Connector X509 : Type} `{SslConnectorBuilder CB, SslCertStore CB X509, SslBuild CB Connector}.

(** ** The sections *)

(** Deserialize.v models how it is parsed. *)
Record EarlyDataUri := mkEarlyDataUri { ed_uri : Uri; ed_header_name : bytes; ed_max : nat }.

Record VmessConfig := mkVmessConfig { vc_addr : Address; vc_uuid : bytes; vc_security_num : Z; vc_tag : tag }.
Record TrojanConfig := mkTrojanConfig { tc_password : bytes; tc_addr : Address; tc_tag : tag }.
Record TlsConfig := mkTlsConfig {
  tl_sni : bytes; tl_cert_file : option bytes; tl_verify_hostname : bool; tl_verify_sni : bool; tl_tag : tag }.
Record WebsocketConfig := mkWsConfig {
  ws_uri : EarlyDataUri; ws_early_data_header_name : bytes; ws_max_early_data : nat;
  ws_headers : list (bytes * bytes); ws_tag : tag }.
Record ShadowsocksConfig := mkSsConfig { sc_addr : Address; sc_password : bytes; sc_method : CipherKind; sc_tag : tag }.
Record Http2Config := mkH2Config {
  h2_tag : tag; h2_hosts : list bytes; h2_headers : list (bytes * bytes); h2_method : Method; h2_path : PathAndQuery }.
Record SimpleObfsConfig := mkObfsConfig { so_tag : tag; so_host : Address }.
Record GrpcConfig := mkGrpcConfig { gc_tag : tag; gc_host : bytes; gc_path : PathAndQuery }.
Record Outbounds := mkOutbounds { out_chain : list tag; out_tag : tag }.
Record Inbounds := mkInbounds { in_addr : Address; in_enable_udp : bool; in_tag : tag }.
Record DokodemoDoor := mkDokodemo { dd_tproxy : bool; dd_addr : Address; dd_target_addr : option Address }.

Record Config := mkConfig {
  enable_api_server : bool;
  relay_buffer_size : nat;
  api_server_addr : Address;
  backlog : nat;
  cf_ss : list ShadowsocksConfig;
  cf_tls : list TlsConfig;
  cf_vmess : list VmessConfig;
  cf_ws : list WebsocketConfig;
  cf_trojan : list TrojanConfig;
  cf_direct : list tag;
  cf_blackhole : list tag;
  cf_simpleobfs : list SimpleObfsConfig;
  cf_dokodemo : list DokodemoDoor;
  domain_routing_rules : list DomainRoutingRules;
  ip_routing_rules : list IpRoutingRules;
  cf_h2 : list Http2Config;
  cf_grpc : list GrpcConfig;
  geosite_rules : list GeoSiteRules;
  geoip_rules : list GeoIpRules;
  default_outbound : tag;
  outbounds : list Outbounds;
  inbounds : list Inbounds
}.

(** A section of any protocol: [dyn ToChainableStreamBuilder]. *)
Inductive ProxyConfig :=
| CfgSs (c : ShadowsocksConfig)
| CfgTls (c : TlsConfig)
| CfgVmess (c : VmessConfig)
| CfgWs (c : WebsocketConfig)
| CfgTrojan (c : TrojanConfig)
| CfgDirect (t : tag)
| CfgH2 (c : Http2Config)
| CfgGrpc (c : GrpcConfig)
| CfgBlackhole (t : tag)
| CfgSimpleObfs (c : SimpleObfsConfig).

(** A builder of any protocol: [dyn ChainableStreamBuilder]. *)
Inductive Builder :=
| BldSs (b : ShadowsocksBuilder)
| BldTls (b : TlsStreamBuilder Connector)
| BldVmess (vmess_option : VmessOption)
| BldWs (uri : Uri) (max_early_data : nat) (early_data_header_name : bytes) (headers : list (bytes * bytes))
| BldTrojan (b : TrojanStreamBuilder)
| BldDirect
| BldH2 (hosts : list bytes) (headers : list (bytes * bytes)) (method : Method) (path : PathAndQuery)
| BldGrpc (host : bytes) (path : PathAndQuery)
| BldBlackhole
| BldSimpleObfs (host : Address).

Definition bld_protocol_type (b : Builder) : ProtocolType :=
  match b with
  | BldSs _ => SS | BldTls _ => Tls | BldVmess _ => Vmess | BldWs _ _ _ _ => WS | BldTrojan _ => Trojan
  | BldDirect => Direct | BldH2 _ _ _ _ => H2 | BldGrpc _ _ => Grpc | BldBlackhole => Blackhole | BldSimpleObfs _ => SimpleObfs
  end.

Definition bld_get_addr (b : Builder) : option Address :=
  match b with
  | BldSs b => Some (sb_addr b)
  | BldVmess o => Some (vo_addr o)
  | BldTrojan b => Some (tb_addr b)
  | _ => None
  end.

Definition cfg_protocol_type (c : ProxyConfig) : ProtocolType :=
  match c with
  | CfgSs _ => SS | CfgTls _ => Tls | CfgVmess _ => Vmess | CfgWs _ => WS | CfgTrojan _ => Trojan
  | CfgDirect _ => Direct | CfgH2 _ => H2 | CfgGrpc _ => Grpc | CfgBlackhole _ => Blackhole | CfgSimpleObfs _ => SimpleObfs
  end.

Definition cfg_addr (c : ProxyConfig) : option Address :=
  match c with
  | CfgSs c => Some (sc_addr c)
  | CfgVmess c => Some (vc_addr c)
  | CfgTrojan c => Some (tc_addr c)
  | _ => None
  end.

Definition cfg_tag (c : ProxyConfig) : tag :=
  match c with
  | CfgSs c => sc_tag c | CfgTls c => tl_tag c | CfgVmess c => vc_tag c | CfgWs c => ws_tag c | CfgTrojan c => tc_tag c
  | CfgDirect t => t | CfgH2 c => h2_tag c | CfgGrpc c => gc_tag c | CfgBlackhole t => t | CfgSimpleObfs c => so_tag c
  end.

(** Early data configured in the URI comes first. *)
Definition ws_builder (c : WebsocketConfig) : Builder :=
  if decide (0 < ed_max (ws_uri c))
  then BldWs (ed_uri (ws_uri c)) (ed_max (ws_uri c)) (ed_header_name (ws_uri c)) (ws_headers c)
  else if decide (0 < ws_max_early_data c /\ ws_early_data_header_name c <> [])
  then BldWs (ed_uri (ws_uri c)) (ws_max_early_data c) (ws_early_data_header_name c) (ws_headers c)
  else BldWs (ed_uri (ws_uri c)) 0 [] (ws_headers c).

(** [addr.unwrap()] in the proxies; [uninit]: the unspecified contents of the
key buffer; [native]: what [load_native_certs] answers, whose error a TLS
section unwraps. *)
Definition to_builder (uninit : bytes) (native : res (list X509)) (c : ProxyConfig) (addr : option Address) : res Builder :=
  match c with
  | CfgSs c =>
    match addr with Some a => Ok (BldSs (new_from_config a (sc_password c) (sc_method c) uninit)) | None => Panic end
  | CfgTls c =>
    b ← tls_new_from_config (CB := CB) native (tl_sni c) (tl_cert_file c) (tl_verify_hostname c) (tl_verify_sni c); Ok (BldTls b)
  | CfgVmess c =>
    match addr with
    | Some a => Ok (BldVmess (mkVmessOption (vc_uuid c) 0 a (vc_security_num c) false))
    | None => Panic
    end
  | CfgWs c => Ok (ws_builder c)
  | CfgTrojan c =>
    match addr with Some a => Ok (BldTrojan (TrojanStreamBuilder_new sha224 a (tc_password c))) | None => Panic end
  | CfgDirect _ => Ok BldDirect
  | CfgH2 c => Ok (BldH2 (h2_hosts c) (h2_headers c) (h2_method c) (h2_path c))
  | CfgGrpc c => Ok (BldGrpc (gc_host c) (gc_path c))
  | CfgBlackhole _ => Ok BldBlackhole
  | CfgSimpleObfs c => Ok (BldSimpleObfs (so_host c))
  end.

(** The protocols that take the address of the next hop. *)
Definition takes_addr (p : ProtocolType) : bool := match p with Trojan | SS | Vmess => true | _ => false end.

(** ** Streams

What a builder does to a stream; Trojan.v, Shadowsocks.v, VmessStream.v and
the transports model the wrapped streams themselves. *)
Section Streams.
Context {S U : Type} (uninit : bytes) (native : res (list X509)).
Context (apply_tcp : Builder -> S -> res S) (apply_udp : Builder -> U -> bool -> res U).

#[export] Instance Builder_chainable : ChainableStreamBuilder Builder S U := {|
    build_tcp := apply_tcp;
    build_udp := apply_udp;
    protocol_type := bld_protocol_type;
    get_addr := bld_get_addr
  |}.

#[export] Instance ProxyConfig_chainable : ToChainableStreamBuilder ProxyConfig Builder := {|
    to_chainable_stream_builder := to_builder uninit native;
    get_protocol_type := cfg_protocol_type;
    cfg_get_addr := cfg_addr
  |}.

(** ** The outbound chains *)

Definition config_index (c : Config) (i : ProtocolType * nat) : option ProxyConfig :=
  match fst i with
  | SS => CfgSs <$> cf_ss c !! snd i
  | Tls => CfgTls <$> cf_tls c !! snd i
  | Vmess => CfgVmess <$> cf_vmess c !! snd i
  | WS => CfgWs <$> cf_ws c !! snd i
  | Trojan => CfgTrojan <$> cf_trojan c !! snd i
  | Direct => CfgDirect <$> cf_direct c !! snd i
  | H2 => CfgH2 <$> cf_h2 c !! snd i
  | Grpc => CfgGrpc <$> cf_grpc c !! snd i
  | Blackhole => CfgBlackhole <$> cf_blackhole c !! snd i
  | SimpleObfs => CfgSimpleObfs <$> cf_simpleobfs c !! snd i
  end.

(** [insert_config_map!]: a later section replaces an earlier one of the same
tag. *)
Definition insert_config_map (l : list ProxyConfig) (map : gmap tag (ProtocolType * nat)) : gmap tag (ProtocolType * nat) :=
  fold_left (fun m '(idx, s) => <[cfg_tag s := (cfg_protocol_type s, idx)]> m) (imap pair l) map.

Definition config_map (c : Config) : gmap tag (ProtocolType * nat) :=
  let m := insert_config_map (CfgSs <$> cf_ss c) ∅ in
  let m := insert_config_map (CfgTls <$> cf_tls c) m in
  let m := insert_config_map (CfgVmess <$> cf_vmess c) m in
  let m := insert_config_map (CfgWs <$> cf_ws c) m in
  let m := insert_config_map (CfgTrojan <$> cf_trojan c) m in
  let m := insert_config_map (CfgDirect <$> cf_direct c) m in
  let m := insert_config_map (CfgH2 <$> cf_h2 c) m in
  let m := insert_config_map (CfgGrpc <$> cf_grpc c) m in
  let m := insert_config_map (CfgBlackhole <$> cf_blackhole c) m in
  insert_config_map (CfgSimpleObfs <$> cf_simpleobfs c) m.

(** [config_map.get] and the indexing behind it: [Ok None] is a missing tag. *)
Definition find_section (c : Config) (m : gmap tag (ProtocolType * nat)) (t : tag) : res (option ProxyConfig) :=
  match m !! t with
  | None => Ok None
  | Some i => match config_index c i with Some s => Ok (Some s) | None => Panic end
  end.

Definition err_chain_tag (t out : tag) : io_error :=
  new_error ("config parse failed, can't find chain tag `" ++ bytes_to_string t ++ "` in outbound `" ++ bytes_to_string out ++ "`").

Abbreviation Chain := (ChainStreamBuilder (B := Builder) (C := ProxyConfig)).

(** The first pass over a chain: the first address is what is dialled, the
others are the next hops. *)
Fixpoint collect_addrs (c : Config) (m : gmap tag (ProtocolType * nat)) (out : tag) (chain : list tag)
  (addrs : list Address) (builder : Chain) : res (list Address * Chain) :=
  match chain with
  | [] => Ok (addrs, builder)
  | t :: chain =>
    s ← find_section c m t;
    match s with
    | None => Err (err_chain_tag t out)
    | Some s =>
      match cfg_get_addr (B := Builder) s with
      | Some tmp_addr =>
        if remote_addr_is_none builder
        then collect_addrs c m out chain addrs (push_remote_addr tmp_addr builder)
        else collect_addrs c m out chain (addrs ++ [tmp_addr]) builder
      | None => collect_addrs c m out chain addrs builder
      end
    end
  end.

(** The second pass: each proxy takes the next address, and the one for which
none is left becomes the last builder. *)
Fixpoint push_builders (c : Config) (m : gmap tag (ProtocolType * nat)) (chain : list tag)
  (addr_iter : list Address) (builder : Chain) : res Chain :=
  match chain with
  | [] => Ok builder
  | t :: chain =>
    s ← find_section c m t;
    match s with
    | None => push_builders c m chain addr_iter builder
    | Some s =>
      if takes_addr (get_protocol_type s) then
        match addr_iter with
        | [] => push_builders c m chain [] (push_last_builder s builder)
        | next_addr :: addr_iter =>
          b ← to_chainable_stream_builder s (Some next_addr);
          push_builders c m chain addr_iter (push b builder)
        end
      else
        b ← to_chainable_stream_builder s None;
        push_builders c m chain addr_iter (push b builder)
    end
  end.

Definition build_outbound (c : Config) (m : gmap tag (ProtocolType * nat)) (out : Outbounds) : res Chain :=
  '(addrs, builder) ← collect_addrs c m (out_tag out) (out_chain out) [] ChainStreamBuilder_new;
  builder ← push_builders c m (out_chain out) addrs builder;
  build_inner_markers builder.

Fixpoint build_outbounds (c : Config) (m : gmap tag (ProtocolType * nat)) (outs : list Outbounds) (inner_map : gmap tag Chain)
  : res (gmap tag Chain) :=
  match outs with
  | [] => Ok inner_map
  | out :: outs =>
    b ← build_outbound c m out;
    build_outbounds c m outs (<[out_tag out := b]> inner_map)
  end.

Definition build_inner_map (c : Config) : res (gmap tag Chain) := build_outbounds c (config_map c) (outbounds c) ∅.

(** ** The server *)

Record ConfigServerBuilder (R : Type) := mkServerBuilder {
  sv_router : R;
  sv_inner_map : gmap tag Chain;
  sv_inbounds : list Inbounds;
  sv_dokodemo : list DokodemoDoor;
  sv_backlog : nat;
  sv_relay_buffer_size : nat;
  sv_enable_api_server : bool;
  sv_api_server_addr : Address
}.
Arguments mkServerBuilder {R} _ _ _ _ _ _ _ _.
Arguments sv_router {R} _.
Arguments sv_inner_map {R} _.

Definition err_default : io_error :=
  new_error "missing default outbound tag or default outbound tag is not in outbounds".

Definition default_outbound_of (c : Config) : tag :=
  if decide (default_outbound c = [])
  then match outbounds c with o :: _ => out_tag o | [] => default_outbound c end
  else default_outbound c.

(** [build_router] is Route.v's, with its environment. *)
Definition build_server {R : Type}
  (build_router : list DomainRoutingRules -> list IpRoutingRules -> list GeoSiteRules -> list GeoIpRules -> tag -> res R)
  (c : Config) : res (ConfigServerBuilder R) :=
  let dflt := default_outbound_of c in
  inner_map ← build_inner_map c;
  if decide (inner_map !! dflt = None) then Err err_default else
    router ← build_router (domain_routing_rules c) (ip_routing_rules c) (geosite_rules c) (geoip_rules c) dflt;
    Ok (mkServerBuilder router inner_map (inbounds c) (cf_dokodemo c) (backlog c) (relay_buffer_size c)
      (enable_api_server c) (api_server_addr c)).

(** What the inbounds do with a target: [router.match_addr] and
[inner_map.get(ob).unwrap()]. *)
Definition select_outbound {R : Type} (match_addr : R -> Address -> res tag) (s : ConfigServerBuilder R) (a : Address)
  : res (tag * Chain) :=
  ob ← match_addr (sv_router s) a;
  match sv_inner_map s !! ob with Some c => Ok (ob, c) | None => Panic end.
End Streams.
End Config.

Arguments mkServerBuilder {Uri Method PathAndQuery Connector R} _ _ _ _ _ _ _ _.
Arguments sv_router {Uri Method PathAndQuery Connector R} _.
Arguments sv_inner_map {Uri Method PathAndQuery Connector R} _.
Arguments sv_inbounds {Uri Method PathAndQuery Connector R} _.
Arguments sv_dokodemo {Uri Method PathAndQuery Connector R} _.
Arguments sv_backlog {Uri Method PathAndQuery Connector R} _.
Arguments sv_relay_buffer_size {Uri Method PathAndQuery Connector R} _.
Arguments sv_enable_api_server {Uri Method PathAndQuery Connector R} _.
Arguments sv_api_server_addr {Uri Method PathAndQuery Connector R} _.
