(* ===== verification/ConfigProofs.v ===== *)
(** * Properties of the configuration

    What the two passes of [build_inner_map] make of a chain of sections: a
    chain is read as segments, each some transports followed by a proxy, and
    a tail of transports. *)

From S2P Require Import Prelude Io StdText Address IpTrie Aead Shadowsocks VmessStream Trojan Chain Transport Tls Route RouteProofs Config.
From Stdlib Require Import ZArith Lia List Strings.Byte.
From stdpp Require Import base option list gmap strings.

Section ConfigProofs.
Context `{AeadCrypto} (sha224 : bytes -> bytes) {Uri Method PathAndQuery : Type}.
Context {CB Connector X509 : Type} `{SslConnectorBuilder CB, SslCertStore CB X509, SslBuild CB Connector}.
Context {S U : Type} (uninit : bytes) (native : res (list X509)).
Abbreviation Cfg := (ProxyConfig (Uri := Uri) (Method := Method) (PathAndQuery := PathAndQuery)).
Abbreviation Bld := (Builder (Uri := Uri) (Method := Method) (PathAndQuery := PathAndQuery) (Connector := Connector)).
Abbreviation Config := (Config.Config (Uri := Uri) (Method := Method) (PathAndQuery := PathAndQuery)).
Context (apply_tcp : Bld -> S -> res S) (apply_udp : Bld -> U -> bool -> res U).
Abbreviation Chain := (ChainStreamBuilder (B := Bld) (C := Cfg)).

#[local] Instance bld_class : ChainableStreamBuilder Bld S U := Builder_chainable apply_tcp apply_udp.
#[local] Instance cfg_class : ToChainableStreamBuilder Cfg Bld := ProxyConfig_chainable sha224 uninit native.

Implicit Types (c : Config) (s : Cfg) (b : Chain).

(** ** The passes over resolved sections *)

Definition resolved c (m : gmap tag (ProtocolType * nat)) (t : tag) s : Prop := find_section c m t = Ok (Some s).

Definition is_proxy s : bool := match cfg_addr s with Some _ => true | None => false end.

Lemma takes_addr_proxy s : takes_addr (cfg_protocol_type s) = is_proxy s.
Proof. by destruct s. Qed.

(** The builder of a section with its next hop. *)
Definition makes (x : Cfg * option Address) (bu : Bld) : Prop := to_builder sha224 uninit native x.1 x.2 = Ok bu.

(** A TLS section whose connector or certificates cannot be configured. *)
Definition tls_fails s : Prop :=
  match s with
  | CfgTls c => tls_new_from_config (CB := CB) (Connector := Connector) native (tl_sni c) (tl_cert_file c) (tl_verify_hostname c) (tl_verify_sni c) = Panic
  | _ => False
  end.

(** Every failure of the configuration is unwrapped. *)
Lemma tls_new_no_err n sni f vh vs e : tls_new_from_config (CB := CB) (Connector := Connector) n sni f vh vs <> Err e.
Proof.
  unfold tls_new_from_config. repeat (match goal with |- context [unwrap ?r] => destruct r as [?|?|] end; cbn [unwrap mbind res_bind]; try done).
  destruct f as [f|]; [destruct (set_ca_file f _)|]; cbn [unwrap mbind res_bind]; try done;
    repeat (match goal with |- context [unwrap ?r] => destruct r as [?|?|] end; cbn [unwrap mbind res_bind]; try done).
Qed.

Lemma tls_new_native_fails e sni f vh vs : tls_new_from_config (CB := CB) (Connector := Connector) (Err e) sni f vh vs = Panic.
Proof. unfold tls_new_from_config. by destruct ssl_builder. Qed.

(** A section that is given an address if it is a proxy becomes its builder,
unless it is a TLS section that fails. *)
Lemma to_builder_cases s a :
  (is_proxy s = true -> is_Some a) ->
  match to_builder sha224 uninit native s a with
  | Ok bu => bld_get_addr bu = (if is_proxy s then a else None) /\ bld_protocol_type bu = cfg_protocol_type s /\ ~ tls_fails s
  | Err _ => False
  | Panic => tls_fails s
  end.
Proof.
  intros Ha. destruct s; simpl in *;
    try (destruct (Ha eq_refl) as [x ->]; split_and!; [done..|tauto]); try (split_and!; [done..|tauto]).
  - pose proof (tls_new_no_err native (tl_sni c) (tl_cert_file c) (tl_verify_hostname c) (tl_verify_sni c)) as Hn.
    destruct (tls_new_from_config _ _ _ _ _) as [b|e|]; cbn [mbind res_bind]; [split_and!; [done..|by intros [=]]|by apply (Hn e)|done].
  - unfold ws_builder. repeat case_decide; (split_and!; [done..|tauto]).
Qed.

(** The builders of sections with their addresses, in order. *)
Fixpoint make_all (xs : list (Cfg * option Address)) : res (list Bld) :=
  match xs with
  | [] => Ok []
  | x :: xs => bu ← to_builder sha224 uninit native x.1 x.2; bs ← make_all xs; Ok (bu :: bs)
  end.

Lemma make_all_app xs ys : make_all (xs ++ ys) = (bs ← make_all xs; cs ← make_all ys; Ok (bs ++ cs)).
Proof.
  induction xs as [|x xs IH]; cbn [app make_all]; [cbn [mbind res_bind]; by destruct (make_all ys)|].
  destruct (to_builder _ _ _ _ _); cbn [mbind res_bind]; [|done..]. rewrite IH.
  destruct (make_all xs); cbn [mbind res_bind]; [|done..]. by destruct (make_all ys).
Qed.

Lemma make_all_cases xs :
  Forall (fun x => is_proxy x.1 = true -> is_Some x.2) xs ->
  match make_all xs with
  | Ok bs => Forall2 makes xs bs /\ Forall (fun x => ~ tls_fails x.1) xs
  | Err _ => False
  | Panic => Exists (fun x => tls_fails x.1) xs
  end.
Proof.
  induction 1 as [|x xs Hx Hxs IH]; cbn [make_all]; [by split|].
  pose proof (to_builder_cases _ _ Hx) as Hb. destruct (to_builder _ _ _ _ _) as [bu|e|] eqn:E; cbn [mbind res_bind]; [|done|by left].
  destruct Hb as (_ & _ & Hb). destruct (make_all xs) as [bs|e|]; cbn [mbind res_bind]; [|done|by right].
  destruct IH as [Hm Hf]. split; by constructor.
Qed.

Lemma collect_addrs_resolved c m out chain css addrs b :
  Forall2 (resolved c m) chain css ->
  collect_addrs sha224 uninit native c m out chain addrs b
  = Ok (addrs ++ match remote_addr b with Some _ => omap cfg_addr css | None => tail (omap cfg_addr css) end,
    match remote_addr b, omap cfg_addr css with
    | None, a :: _ => push_remote_addr a b
    | _, _ => b
    end).
Proof.
  intros Hr. revert addrs b. induction Hr as [|t s chain css Hts Hr IH]; intros addrs b.
  - simpl. destruct (remote_addr b); by rewrite app_nil_r.
  - cbn [collect_addrs]. rewrite Hts. cbn [mbind res_bind cfg_get_addr cfg_class ProxyConfig_chainable].
    unfold remote_addr_is_none. cbn [omap list_omap].
    destruct (cfg_addr s) as [a|] eqn:Ea.
    + destruct (remote_addr b) as [r|] eqn:Er.
      * rewrite IH, Er. by rewrite <- app_assoc.
      * rewrite IH. cbn [remote_addr push_remote_addr tail]. done.
    + rewrite IH. done.
Qed.

(** The second pass on the sections themselves. *)
Fixpoint push_all (css : list Cfg) (addr_iter : list Address) b : res Chain :=
  match css with
  | [] => Ok b
  | s :: css =>
    if is_proxy s then
      match addr_iter with
      | [] => push_all css [] (push_last_builder s b)
      | a :: addr_iter => bu ← to_builder sha224 uninit native s (Some a); push_all css addr_iter (push bu b)
      end
    else bu ← to_builder sha224 uninit native s None; push_all css addr_iter (push bu b)
  end.

Lemma push_builders_resolved c m chain css addrs b :
  Forall2 (resolved c m) chain css -> push_builders sha224 uninit native c m chain addrs b = push_all css addrs b.
Proof.
  intros Hr. revert addrs b. induction Hr as [|t s chain css Hts Hr IH]; intros addrs b; [done|].
  cbn [push_builders push_all]. rewrite Hts.
  cbn [mbind res_bind get_protocol_type cfg_class ProxyConfig_chainable to_chainable_stream_builder].
  rewrite takes_addr_proxy. destruct (is_proxy s).
  - destruct addrs as [|a addrs]; [apply IH|]. destruct (to_builder _ _ _ s (Some a)); cbn [mbind res_bind]; [apply IH|done..].
  - destruct (to_builder _ _ _ s None); cbn [mbind res_bind]; [apply IH|done..].
Qed.

(** A chain with more builders. *)
Definition with_builders b (bs : list Bld) : Chain :=
  mkChain (builders b ++ bs) (remote_addr b) (last_udp_addr b) (build_udp_marker b) (last_builder b) (is_full_cone b) (is_black_hole b).

Lemma with_builders_app b bs cs : with_builders (with_builders b bs) cs = with_builders b (bs ++ cs).
Proof. unfold with_builders. cbn. by rewrite app_assoc. Qed.

Lemma push_all_app css1 css2 addrs b :
  Forall (fun s => is_proxy s = false) css1 ->
  push_all (css1 ++ css2) addrs b = (bs ← make_all (map (fun s => (s, None)) css1); push_all css2 addrs (with_builders b bs)).
Proof.
  intros Hc. revert b. induction Hc as [|s css1 Hs Hc IH]; intros b; cbn [app map make_all push_all fst snd mbind res_bind].
  - unfold with_builders. rewrite app_nil_r. by destruct b.
  - rewrite Hs. destruct (to_builder _ _ _ s None) as [bu|e|]; cbn [mbind res_bind]; [|done..]. rewrite IH.
    destruct (make_all _) as [bs|e|]; cbn [mbind res_bind]; [|done..]. f_equal.
    change (push bu b) with (with_builders b [bu]). by rewrite with_builders_app.
Qed.

(** ** Segments *)

Abbreviation segment := (list Cfg * Cfg)%type.

Definition seg_ok (g : segment) : Prop := Forall (fun s => is_proxy s = false) g.1 /\ is_proxy g.2 = true.

Definition sections (segs : list segment) (tl : list Cfg) : list Cfg := flat_map (fun g => g.1 ++ [g.2]) segs ++ tl.

Lemma sections_cons ts p segs tl : sections ((ts, p) :: segs) tl = ts ++ [p] ++ sections segs tl.
Proof. unfold sections. cbn [flat_map fst snd]. by rewrite <- !app_assoc. Qed.

(** The sections that become builders, in order, with the address each is
given: a proxy is told the address of the proxy that comes next. *)
Fixpoint wired (segs : list segment) : list (Cfg * option Address) :=
  match segs with
  | [] => []
  | (ts, p) :: rest =>
    map (fun s => (s, None)) ts ++ match rest with [] => [] | (_, q) :: _ => [(p, cfg_addr q)] end ++ wired rest
  end.

Lemma omap_sections segs tl :
  Forall seg_ok segs -> Forall (fun s => is_proxy s = false) tl ->
  omap cfg_addr (sections segs tl) = omap cfg_addr (map snd segs).
Proof.
  intros Hs Ht. unfold sections. rewrite omap_app.
  assert (forall l, Forall (fun s => is_proxy s = false) l -> omap cfg_addr l = []) as Hnone.
  { intros l Hl. induction Hl as [|s l Hsl Hl IH]; [done|]. unfold is_proxy in Hsl. simpl. destruct (cfg_addr s); [done|exact IH]. }
  rewrite (Hnone tl Ht), app_nil_r. induction Hs as [|[ts p] segs [Hts Hp] Hs IH]; [done|].
  cbn [flat_map map snd fst]. rewrite omap_app, omap_app, (Hnone ts Hts), IH. simpl. destruct (cfg_addr p); done.
Qed.

Lemma proxy_addr s : is_proxy s = true -> exists a, cfg_addr s = Some a.
Proof. unfold is_proxy. destruct (cfg_addr s); [eauto|done]. Qed.

(** What becomes of the sections of a chain, in the order of the builders. *)
Definition jobs (segs : list segment) (tl : list Cfg) : list (Cfg * option Address) := wired segs ++ map (fun s => (s, None)) tl.

Lemma push_segments segs tl b :
  segs <> [] -> Forall seg_ok segs -> Forall (fun s => is_proxy s = false) tl ->
  push_all (sections segs tl) (tail (omap cfg_addr (map snd segs))) b
  = (bs ← make_all (jobs segs tl); Ok (with_builders (mkChain (builders b) (remote_addr b) (last_udp_addr b) (build_udp_marker b)
    (snd <$> last segs) (is_full_cone b) (is_black_hole b)) bs)).
Proof.
  intros Hne Hs Ht. unfold jobs. revert b Hne. induction Hs as [|[ts p] segs [Hts Hp] Hs IH]; intros b Hne; [done|].
  cbn [fst snd] in *. destruct (proxy_addr p Hp) as [a Ea].
  rewrite sections_cons, push_all_app by done. cbn [app push_all map snd omap list_omap]. rewrite Ea, Hp. cbn [tail].
  destruct segs as [|[ts' q] segs].
  - unfold sections. cbn [wired map omap list_omap flat_map app last fmap option_fmap option_map snd].
    rewrite !app_nil_r, make_all_app. destruct (make_all (map _ ts)) as [bs1|e|]; cbn [mbind res_bind]; [|done..].
    rewrite <- (app_nil_r tl) at 1. rewrite push_all_app by done.
    destruct (make_all (map _ tl)) as [bs2|e|]; cbn [mbind res_bind push_all]; [|done..].
    unfold with_builders. cbn. by rewrite app_assoc.
  - inversion Hs as [|? ? [_ Hq] _]. destruct (proxy_addr q Hq) as [a' Ea'].
    change (wired ((ts, p) :: (ts', q) :: segs)) with (map (fun s => (s, @None Address)) ts ++ [(p, cfg_addr q)] ++ wired ((ts', q) :: segs)).
    cbn [map snd omap list_omap] in IH |- *. cbn [snd] in Ea'. rewrite Ea' in *. cbn [tail] in IH. rewrite <- !app_assoc, make_all_app.
    destruct (make_all (map _ ts)) as [bs1|e|]; cbn [mbind res_bind]; [|done..].
    cbn [app make_all fst snd]. destruct (to_builder _ _ _ p (Some a')) as [bu|e|]; cbn [mbind res_bind]; [|done..].
    rewrite IH by done. destruct (make_all _) as [bs2|e|]; cbn [mbind res_bind]; [|done..].
    unfold with_builders, push. cbn. by rewrite <- !app_assoc.
Qed.

(** The proxy kept as the last builder is no TLS section. *)
Lemma jobs_fail segs tl : Forall seg_ok segs ->
  Exists (fun x => tls_fails x.1) (jobs segs tl) <-> Exists tls_fails (sections segs tl).
Proof.
  intros Hs. unfold jobs, sections. rewrite !Exists_app.
  assert (forall l, Exists (fun x : Cfg * option Address => tls_fails x.1) (map (fun s => (s, None)) l) <-> Exists tls_fails l) as Hmap.
  { intros l. induction l as [|s l IH]; cbn [map]; [by rewrite !Exists_nil|]. by rewrite !Exists_cons, IH. }
  rewrite Hmap. assert (Exists (fun x => tls_fails x.1) (wired segs) <-> Exists tls_fails (flat_map (fun g => g.1 ++ [g.2]) segs)) as ->; [|done].
  induction Hs as [|[ts p] segs [_ Hp] Hs IH]; cbn [wired flat_map fst snd]; [by rewrite !Exists_nil|].
  assert (~ tls_fails p) as Hn by (destruct p; [tauto|done|tauto..]).
  rewrite !Exists_app, Hmap, IH, Exists_cons, Exists_nil. destruct segs as [|[ts' q] segs]; [rewrite Exists_nil|rewrite Exists_cons, Exists_nil];
    cbn [fst]; tauto.
Qed.

Lemma jobs_addressed segs tl : Forall seg_ok segs -> Forall (fun s => is_proxy s = false) tl ->
  Forall (fun x => is_proxy x.1 = true -> is_Some x.2) (jobs segs tl).
Proof.
  intros Hs Ht. unfold jobs. apply Forall_app. split; [|apply List.Forall_map; eapply Forall_impl; [exact Ht|]; intros s Hn; simpl; congruence].
  induction Hs as [|[ts p] segs [Hts Hp] Hs IH]; cbn [wired]; [constructor|]. rewrite !Forall_app. split_and!; [..|done].
  - apply List.Forall_map. eapply Forall_impl; [exact Hts|]. intros s Hn. simpl. congruence.
  - destruct segs as [|[ts' q] segs]; [constructor|]. constructor; [|constructor]. intros _.
    inversion Hs as [|? ? [_ Hq] _]. destruct (proxy_addr q Hq) as [a E]. simpl in *. by rewrite E.
Qed.

Lemma jobs_sections (P : Cfg -> Prop) segs tl : Forall P (sections segs tl) -> Forall (fun x => P x.1) (jobs segs tl).
Proof.
  unfold jobs, sections. rewrite !Forall_app. intros [Hs Ht]. split; [|by apply List.Forall_map].
  induction segs as [|[ts p] segs IH]; cbn [wired flat_map fst snd] in *; [constructor|].
  rewrite !Forall_app in *. destruct Hs as [[Hts Hp] Hs]. split_and!; [by apply List.Forall_map| |by apply IH].
  destruct segs as [|[ts' q] segs]; [constructor|]. constructor; [|constructor]. by inversion Hp.
Qed.

(** An outbound chain, section by section. *)
Lemma build_outbound_jobs c m out segs tl :
  Forall2 (resolved c m) (out_chain out) (sections segs tl) -> Forall seg_ok segs ->
  Forall (fun s => is_proxy s = false) tl ->
  build_outbound sha224 uninit native apply_tcp apply_udp c m out
  = (bs ← make_all (jobs segs tl); build_inner_markers (mkChain bs (g ← head segs; cfg_addr g.2) None [] (snd <$> last segs) true false)).
Proof.
  intros Hr Hs Ht. unfold build_outbound.
  rewrite (collect_addrs_resolved _ _ _ _ _ _ _ Hr). cbn [ChainStreamBuilder_new remote_addr app mbind res_bind].
  rewrite (push_builders_resolved _ _ _ _ _ _ Hr), omap_sections by done.
  destruct segs as [|[ts p] segs].
  - unfold sections, jobs. cbn [map omap list_omap tail flat_map app wired]. rewrite <- (app_nil_r tl) at 1. rewrite push_all_app by done.
    by destruct (make_all _).
  - pose proof Hs as Hs'. apply Forall_cons in Hs' as [[_ Hp] _]. cbn [snd] in Hp. destruct (proxy_addr p Hp) as [a Ea].
    assert (omap cfg_addr (map snd ((ts, p) :: segs)) = a :: omap cfg_addr (map snd segs)) as Ho by (simpl; by rewrite Ea).
    pose proof (push_segments ((ts, p) :: segs) tl (push_remote_addr a ChainStreamBuilder_new) ltac:(done) Hs Ht) as E.
    rewrite Ho in E |- *. rewrite E. cbn [head mbind option_bind snd]. rewrite Ea. by destruct (make_all _).
Qed.

(** ** Theorems *)

(** C9: the wiring of an outbound chain.  Let the tags of a chain name sections
that split into segments (transports, then a proxy) and a tail of
transports.  When a TLS section among them cannot be configured (its
connector, its certificate file or the system's certificates fail, which
the code unwraps), [build_outbound] panics.  Otherwise it succeeds; the connection is dialled to
the first proxy; every proxy but the last becomes a builder that is told
the address of the next proxy, and every transport a builder, in the order
of the chain, except that the tail comes before the last proxy; and the
last proxy is kept to be told the target of each connection.  A chain
without a proxy dials the target itself. *)
Theorem outbound_wiring c m out segs tl :
  Forall2 (resolved c m) (out_chain out) (sections segs tl) -> Forall seg_ok segs ->
  Forall (fun s => is_proxy s = false) tl ->
  (Exists tls_fails (sections segs tl) -> build_outbound sha224 uninit native apply_tcp apply_udp c m out = Panic) /\
  (~ Exists tls_fails (sections segs tl) ->
    exists b, build_outbound sha224 uninit native apply_tcp apply_udp c m out = Ok b /\
    remote_addr b = (g ← head segs; cfg_addr g.2) /\
    last_builder b = snd <$> last segs /\
    Forall2 makes (wired segs ++ map (fun s => (s, None)) tl) (builders b)).
Proof.
  intros Hr Hs Ht. rewrite (build_outbound_jobs c m out segs tl Hr Hs Ht).
  pose proof (make_all_cases _ (jobs_addressed segs tl Hs Ht)) as Hj. rewrite <- (jobs_fail segs tl Hs).
  destruct (make_all (jobs segs tl)) as [bs|e|]; cbn [mbind res_bind]; [|done|by split].
  destruct Hj as [Hm Hf]. split.
  - intros Hx. exfalso. apply Exists_exists in Hx as (x & Hin & Hx). by apply (proj1 (Forall_forall _ _) Hf x Hin).
  - intros _. destruct (inner_markers_total (mkChain bs (g ← head segs; cfg_addr g.2) None [] (snd <$> last segs) true false))
      as (b & E & Hb1 & Hb2 & Hb3). rewrite E. exists b. by rewrite Hb1, Hb2, Hb3.
Qed.

Lemma build_outbounds_spec c m outs im im' :
  build_outbounds sha224 uninit native apply_tcp apply_udp c m outs im = Ok im' ->
  forall t, is_Some (im' !! t) <-> is_Some (im !! t) \/ exists o, o ∈ outs /\ out_tag o = t.
Proof.
  revert im. induction outs as [|o outs IH]; intros im; simpl.
  - intros [= ->] t. split; [by left|]. intros [Hs|(o & Ho & _)]; [done|]. by apply not_elem_of_nil in Ho.
  - destruct (build_outbound _ _ _ _ _ c m o) as [b|e|]; cbn [mbind res_bind]; [|done..]. intros Hb t.
    rewrite (IH _ Hb t), lookup_insert_is_Some. split.
    + intros [[Heq|[_ Hs]]|(o' & Ho & Ht)]; [right; exists o; split; [by left|done]|by left|right; exists o'; split; [by right|done]].
    + intros [Hs|(o' & [->|Ho]%elem_of_cons & Ht)].
      * left. destruct (decide (out_tag o = t)); [by left|by right].
      * left. by left.
      * right. eauto.
Qed.

(** The server of a configuration.  When [build_server] succeeds, its
outbounds are exactly the tags of the configuration's outbounds, the
default outbound (the first one unless it is named) is one of them, and a
connection is served by the chain whose tag the router answers.  The tags of
the routing rules are not checked: when the router answers any other tag,
the connection's handler panics. *)
Theorem server_outbounds {R} br c (srv : ConfigServerBuilder (Uri := Uri) (Method := Method) (PathAndQuery := PathAndQuery) (Connector := Connector) R)
  (match_addr : R -> Address -> res tag) a t :
  build_server sha224 uninit native apply_tcp apply_udp br c = Ok srv -> match_addr (sv_router srv) a = Ok t ->
  (exists ch, sv_inner_map srv !! default_outbound_of c = Some ch) /\
  ((exists o, o ∈ outbounds c /\ out_tag o = t) ->
    exists ch, select_outbound match_addr srv a = Ok (t, ch) /\ sv_inner_map srv !! t = Some ch) /\
  ((forall o, o ∈ outbounds c -> out_tag o <> t) -> select_outbound match_addr srv a = Panic).
Proof.
  unfold build_server. destruct (build_inner_map _ _ _ _ _ c) as [im|e|] eqn:Ei; cbn [mbind res_bind]; [|done..].
  case_decide as Hd; [done|]. destruct (br _ _ _ _ _) as [r|e|]; cbn [mbind res_bind]; [|done..]. intros [= <-] Hm.
  unfold select_outbound. cbn [sv_router sv_inner_map] in *. rewrite Hm. cbn [mbind res_bind].
  pose proof (build_outbounds_spec _ _ _ _ _ Ei t) as Ht. rewrite lookup_empty in Ht. split_and!.
  - destruct (im !! default_outbound_of c); [eauto|done].
  - intros Ho. destruct (proj2 Ht (or_intror Ho)) as [ch ->]. eauto.
  - intros Ho. destruct (im !! t) as [ch|] eqn:E; [|done]. exfalso.
    destruct (proj1 Ht) as [[? Hn]|(o & Hin & Htag)]; [eauto|done|]. by apply (Ho o).
Qed.
End ConfigProofs.

(** ** Witnesses *)

Section Witness.
#[local] Existing Instance toy_crypto.

Definition wit_sha (b : bytes) : bytes := take 28 (b ++ repeat x00 28).
Definition wit_trojan : TrojanConfig := mkTrojanConfig (str "pw") (DomainNameAddress (str "a.b") 443) (str "tr").
Definition wit_ss_cfg : ShadowsocksConfig := mkSsConfig (DomainNameAddress (str "c.d") 8388) (str "k") CipherKind_None (str "ss").

#[local] Existing Instances toy_ssl toy_store toy_ssl_build.

Definition wit_native : res (list bytes) := Ok [str "root"].

(** Trojan over TLS, then Shadowsocks through it; and the same with a
certificate file. *)
Definition wit_tls (cert_file : option bytes) : TlsConfig := mkTlsConfig (str "a.b") cert_file true true (str "tls").

Definition wit_config (cert_file : option bytes) : Config.Config (Uri := bytes) (Method := bytes) (PathAndQuery := bytes) :=
  mkConfig false 20 new_dummy_address 4096 [wit_ss_cfg] [wit_tls cert_file] [] [] [wit_trojan] [str "dir"] [] [] [] [] [] [] [] [] []
  [] [mkOutbounds [str "tls"; str "tr"; str "ss"] (str "out")] [].

Definition wit_tcp (b : Builder (Uri := bytes) (Method := bytes) (PathAndQuery := bytes) (Connector := list bytes)) (s : unit) : res unit := Ok s.
Definition wit_udp (b : Builder (Uri := bytes) (Method := bytes) (PathAndQuery := bytes) (Connector := list bytes)) (s : unit) (m : bool) : res unit := Ok s.

Definition wit_out : Outbounds := mkOutbounds [str "tls"; str "tr"; str "ss"] (str "out").

Lemma outbound_wiring_witness :
  (exists b, build_outbound wit_sha [] wit_native wit_tcp wit_udp (wit_config None) (config_map (wit_config None)) wit_out = Ok b
    /\ remote_addr b = Some (DomainNameAddress (str "a.b") 443)
    /\ last_builder b = Some (CfgSs wit_ss_cfg) /\ length (builders b) = 2) /\
  build_outbound wit_sha [] wit_native wit_tcp wit_udp (wit_config (Some (str "ca.pem"))) (config_map (wit_config (Some (str "ca.pem")))) wit_out
  = Panic.
Proof.
  split.
  - destruct (outbound_wiring wit_sha [] wit_native wit_tcp wit_udp (wit_config None) (config_map (wit_config None))
      wit_out [([CfgTls (wit_tls None)], CfgTrojan wit_trojan); ([], CfgSs wit_ss_cfg)] [])
      as [_ Hok].
    + repeat constructor; vm_compute; reflexivity.
    + repeat constructor.
    + constructor.
    + destruct Hok as (b & E & Hr & Hl & Hb); [intros Hx; apply Exists_exists in Hx as (s & Hin & Hf)|].
      * repeat (apply elem_of_cons in Hin as [->|Hin]; [vm_compute in Hf; try discriminate Hf; exact Hf|]). by apply not_elem_of_nil in Hin.
      * exists b. split; [exact E|]. split; [exact Hr|]. split; [exact Hl|].
        apply Forall2_length in Hb. rewrite <- Hb. reflexivity.
  - destruct (outbound_wiring wit_sha [] wit_native wit_tcp wit_udp (wit_config (Some (str "ca.pem"))) (config_map (wit_config (Some (str "ca.pem"))))
      wit_out [([CfgTls (wit_tls (Some (str "ca.pem")))], CfgTrojan wit_trojan); ([], CfgSs wit_ss_cfg)] [])
      as [Hp _].
    + repeat constructor; vm_compute; reflexivity.
    + repeat constructor.
    + constructor.
    + apply Hp. left. vm_compute. reflexivity.
Defined.

Lemma server_outbounds_witness :
  match build_server wit_sha [] wit_native wit_tcp wit_udp (fun _ _ _ _ d => Ok d) (wit_config None) with
  | Ok srv => select_outbound (fun r (_ : Address) => Ok (str "nowhere")) srv new_dummy_address = Panic
  | _ => False
  end.
Proof.
  destruct (build_server wit_sha [] wit_native wit_tcp wit_udp (fun _ _ _ _ d => Ok d) (wit_config None)) as [srv|e|] eqn:E;
    [|vm_compute in E; discriminate E..].
  apply (server_outbounds wit_sha [] wit_native wit_tcp wit_udp (fun _ _ _ _ d => Ok d) (wit_config None) srv
    (fun r (_ : Address) => Ok (str "nowhere")) new_dummy_address (str "nowhere") E eq_refl).
  intros o Ho. apply list_elem_of_singleton in Ho as ->. discriminate.
Defined.
End Witness.
