(* ===== verification/Copy.v ===== *)
(** * Relaying (src/src/common/net/copy_with_capacity.rs, src/src/common/net/mod.rs)

    A connection is relayed by two copies, one per direction, each through a
    buffer of its own.  The copy is generic in the two streams, as in the source:
    here it runs on the scripts of Io.v, in Relay.v on layers.  The source has the copy twice, with one counter of the
    bytes written ([CopyWithCapacity]) and with two shared atomic counters
    ([CopyWithCapacityAtomic]); they are one definition here, over a class of
    counters with an instance for each.  [relay] polls the two copies in any
    order and ends with the first one that ends: its runs are the steps of a
    relation. *)

From S2P Require Import Prelude Io StdText.
From Stdlib Require Import ZArith Lia List Strings.Byte.
From stdpp Require Import base option list strings.

Definition LW_BUFFER_SIZE : nat := 1024.

(** ** Counters *)

(** What a copy counts, and what it promises: [counted k r w k'] says that [k']
    is [k] after [r] bytes were read and [w] written; [fits k w] that counting
    [w] bytes cannot fail. *)
Class CopyCounter (K : Type) := {
  on_read : nat -> K -> K;
  on_write : nat -> K -> res K;
  counted : K -> nat -> nat -> K -> Prop;
  fits : K -> nat -> Prop;
  counted_refl k : counted k 0 0 k;
  counted_read k r w k' n : counted k r w k' -> counted k (r + n) w (on_read n k');
  counted_write k r w k' n : counted k r w k' -> fits k (w + n) ->
    exists k2, on_write n k' = Ok k2 /\ counted k r (w + n) k2;
  fits_le k n m : fits k m -> n <= m -> fits k n
}.

(** [*self.amt += i as u64]. *)
#[export] Program Instance plain_counter (oc : bool) : CopyCounter Z := {|
  on_read n amt := amt;
  on_write i amt := chk oc 64 (amt + Z.of_nat i);
  counted amt r w amt' := (amt' = amt + Z.of_nat w)%Z;
  fits amt w := (0 <= amt /\ amt + Z.of_nat w < 2 ^ 64)%Z
|}.
Next Obligation. simpl. lia. Qed.
Next Obligation. done. Qed.
Next Obligation.
  simpl. intros oc k r w k' n -> Hf. exists (k + Z.of_nat (w + n))%Z. split; [|done].
  unfold chk. rewrite decide_True by lia. f_equal. lia.
Qed.
Next Obligation. simpl. lia. Qed.

(** [amt_in.fetch_add], [amt_out.fetch_add]: wrapping. *)
Record Counters := mkCounters { amt_in : Z; amt_out : Z }.

Definition fetch_add (a : Z) (n : nat) : Z := wrap 64 (a + Z.of_nat n).

Lemma fetch_add_add a n m : fetch_add (fetch_add a n) m = fetch_add a (n + m).
Proof. unfold fetch_add, wrap. rewrite Zplus_mod_idemp_l. f_equal. lia. Qed.

#[export] Program Instance atomic_counters : CopyCounter Counters := {|
  on_read n k := mkCounters (fetch_add (amt_in k) n) (amt_out k);
  on_write i k := Ok (mkCounters (amt_in k) (fetch_add (amt_out k) i));
  counted k r w k' :=
    wrap 64 (amt_in k') = fetch_add (amt_in k) r /\ wrap 64 (amt_out k') = fetch_add (amt_out k) w;
  fits k w := True
|}.
Next Obligation. intros k. unfold fetch_add. by rewrite !Z.add_0_r. Qed.
Next Obligation.
  intros k r w k' n [Hi Ho]. split; [|done]. simpl. rewrite <- fetch_add_add, <- Hi.
  unfold fetch_add, wrap. by rewrite Zplus_mod_idemp_l, Zmod_mod.
Qed.
Next Obligation.
  intros k r w k' n [Hi Ho] _. eexists. split; [done|]. split; [done|]. simpl. rewrite <- fetch_add_add, <- Ho.
  unfold fetch_add, wrap. by rewrite Zplus_mod_idemp_l, Zmod_mod.
Qed.
Next Obligation. done. Qed.

(** ** The copy, over any reader and writer *)

Record CopyWithCapacity (K : Type) := mkCopy {
  cp_read_done : bool;
  cp_pos : nat;
  cp_cap : nat;
  cp_amt : K;
  cp_buf : bytes          (* the boxed slice: its length never changes *)
}.
Arguments mkCopy {K} _ _ _ _ _.
Arguments cp_read_done {K} _.
Arguments cp_pos {K} _.
Arguments cp_cap {K} _.
Arguments cp_amt {K} _.
Arguments cp_buf {K} _.

Section CopyOver.
Context {R W : Type} (poll_read : nat -> R -> Poll (res bytes) * R).
Context (poll_write : W -> bytes -> Poll (res nat) * W) (poll_flush : W -> Poll (res unit) * W).
Context {K : Type} `{CopyCounter K}.
Implicit Type c : CopyWithCapacity K.

(** [copy_with_capacity_and_counter], [copy_with_capacity_and_atomic_counter]
before the first poll. *)
Definition Copy_new (counter : K) (buf_capacity : nat) : CopyWithCapacity K :=
  mkCopy false 0 0 counter (repeat x00 buf_capacity).

(** [buf[pos..cap]]. *)
Definition cp_slice (c : CopyWithCapacity K) : bytes := drop (cp_pos c) (take (cp_cap c) (cp_buf c)).

(** [while self.pos < self.cap { .. }]; each turn writes a byte. *)
Fixpoint copy_write (fuel : nat) (w : W) (c : CopyWithCapacity K) : Poll (res unit) * W * CopyWithCapacity K :=
  if decide (cp_pos c < cp_cap c) then
    match fuel with
    | O => (Ready Panic, w, c)
    | S f =>
      match poll_write w (cp_slice c) with
      | (Pending, w) => (Pending, w, c)
      | (Ready (Err e), w) => (Ready (Err e), w, c)
      | (Ready Panic, w) => (Ready Panic, w, c)
      | (Ready (Ok i), w) =>
        if decide (i = 0) then (Ready (Err write_zero_error), w, c)
        else match on_write i (cp_amt c) with
        | Ok amt => copy_write f w (mkCopy (cp_read_done c) (cp_pos c + i) (cp_cap c) amt (cp_buf c))
        | Err e => (Ready (Err e), w, c)
        | Panic => (Ready Panic, w, c)
        end
      end
    end
  else (Ready (Ok tt), w, c).

(** The read of a turn of the loop, when the buffer is empty and the end was
not seen. *)
Definition copy_read (s : R) (c : CopyWithCapacity K) : Poll (res unit) * R * CopyWithCapacity K :=
  if decide (cp_pos c = cp_cap c) then
    if cp_read_done c then (Ready (Ok tt), s, c)
    else match poll_read (length (cp_buf c)) s with
    | (Pending, s) => (Pending, s, c)
    | (Ready (Err e), s) => (Ready (Err e), s, c)
    | (Ready Panic, s) => (Ready Panic, s, c)
    | (Ready (Ok d), s) =>
      let n := length d in
      let amt := on_read n (cp_amt c) in
      let buf := d ++ drop n (cp_buf c) in
      (Ready (Ok tt), s,
        if decide (n = 0) then mkCopy true (cp_pos c) (cp_cap c) amt buf
        else mkCopy (cp_read_done c) 0 n amt buf)
    end
  else (Ready (Ok tt), s, c).

(** One poll of the future.  A turn of the loop uses up a read or ends it. *)
Fixpoint copy_loop (fuel : nat) (s : R) (w : W) (c : CopyWithCapacity K)
  : Poll (res K) * R * W * CopyWithCapacity K :=
  match fuel with
  | O => (Ready Panic, s, w, c)
  | S f =>
    match copy_read s c with
    | (Pending, s, c) => (Pending, s, w, c)
    | (Ready (Err e), s, c) => (Ready (Err e), s, w, c)
    | (Ready Panic, s, c) => (Ready Panic, s, w, c)
    | (Ready (Ok _), s, c) =>
      match copy_write (cp_cap c - cp_pos c) w c with
      | (Pending, w, c) => (Pending, s, w, c)
      | (Ready (Err e), w, c) => (Ready (Err e), s, w, c)
      | (Ready Panic, w, c) => (Ready Panic, s, w, c)
      | (Ready (Ok _), w, c) =>
        if decide (cp_pos c = cp_cap c) then
          if cp_read_done c then
            match poll_flush w with
            | (Pending, w) => (Pending, s, w, c)
            | (Ready (Err e), w) => (Ready (Err e), s, w, c)
            | (Ready Panic, w) => (Ready Panic, s, w, c)
            | (Ready (Ok _), w) => (Ready (Ok (cp_amt c)), s, w, c)
            end
          else copy_loop f s w c
        else copy_loop f s w c
      end
    end
  end.

End CopyOver.

(** ** The relay, over any two copies *)

Inductive side := Down | Up.

#[export] Instance side_eq_dec : EqDecision side.
Proof. solve_decision. Defined.

(** The branches of [select!] ignore how their copy ended; the relay's answer
is [Ok(())]. *)
Definition relay_branch {A} (p : Poll (res A)) : option (res unit) :=
  match p with
  | Pending => None
  | Ready Panic => Some Panic
  | Ready _ => Some (Ok tt)
  end.

(** [select!] polls its branches in any order, and drops the other when one is
ready. *)
Fixpoint relay_run {E A X} (poll_side : E -> X -> Poll (res A) * X) (polls : list E) (r : X) : option (res unit) * X :=
  match polls with
  | [] => (None, r)
  | d :: polls =>
    let '(p, r) := poll_side d r in
    match relay_branch p with
    | Some a => (Some a, r)
    | None => relay_run poll_side polls r
    end
  end.

(** ** Copies of scripts *)

Section Copy.
Context {K : Type} `{CopyCounter K}.
Implicit Type c : CopyWithCapacity K.

(** What the reads of a script can take at most. *)
Definition rd_weight (s : rd_script) : nat :=
  list_sum (map (fun e => match e with RdData bs => S (length bs) | _ => 1 end) s).

Definition copy_poll (s : rd_script) (w : Writer) (c : CopyWithCapacity K)
  : Poll (res K) * rd_script * Writer * CopyWithCapacity K :=
  copy_loop poll_read poll_write poll_flush (2 + rd_weight s) s w c.

(** The future awaited: polled until it is ready. *)
Fixpoint copy_await (fuel : nat) (s : rd_script) (w : Writer) (c : CopyWithCapacity K)
  : option (res K * rd_script * Writer * CopyWithCapacity K) :=
  match fuel with
  | O => None
  | S f =>
    match copy_poll s w c with
    | (Pending, s, w, c) => copy_await f s w c
    | (Ready r, s, w, c) => Some (r, s, w, c)
    end
  end.

(** ** The relay *)

(** One direction: its reading half, its writing half and its copy. *)
Record direction := mkDirection { d_rd : rd_script; d_wr : Writer; d_copy : CopyWithCapacity K }.

Record Relay := mkRelay { rl_down : direction; rl_up : direction }.

(** [tokio::io::split] of the two streams, and the two futures. *)
Definition relay_new (down_counter up_counter : K) (inbound outbound : Stream) (relay_buffer_size : nat) : Relay :=
  mkRelay (mkDirection (st_rd outbound) (st_wr inbound) (Copy_new down_counter (LW_BUFFER_SIZE * relay_buffer_size)))
  (mkDirection (st_rd inbound) (st_wr outbound) (Copy_new up_counter (LW_BUFFER_SIZE * relay_buffer_size))).

Definition poll_direction (d : direction) : Poll (res K) * direction :=
  let '(p, s, w, c) := copy_poll (d_rd d) (d_wr d) (d_copy d) in (p, mkDirection s w c).

Definition poll_relay (d : side) (r : Relay) : Poll (res K) * Relay :=
  match d with
  | Down => let '(p, x) := poll_direction (rl_down r) in (p, mkRelay x (rl_up r))
  | Up => let '(p, x) := poll_direction (rl_up r) in (p, mkRelay (rl_down r) x)
  end.

(** ** Specification *)

(** The bytes still to be written: the rest of the buffer, and what the reader
will deliver unless its end was seen. *)
Definition copy_rest (s : rd_script) (c : CopyWithCapacity K) : bytes :=
  cp_slice c ++ (if cp_read_done c then [] else rd_bytes s).

(** [wr_log] of the writer is [base] and the first bytes of [all]; the rest of
[all] is buffered or still to come; the counters tell the two apart. *)
Definition copy_split (k0 : K) (base all : bytes) (w : Writer) (rest : bytes) (buffered : nat) (amt : K) : Prop :=
  exists d, wr_log w = base ++ d /\ d ++ rest = all /\ counted k0 (length d + buffered) (length d) amt.

Definition copy_ok (c : CopyWithCapacity K) : Prop :=
  cp_pos c <= cp_cap c /\ cp_cap c <= length (cp_buf c) /\ 0 < length (cp_buf c).

(** Polls left: the answers that can suspend the future. *)
Definition suspensions (s : rd_script) (w : Writer) : nat :=
  length s + length (wr_script w) + length (fl_script w).

Definition copy_inv (k0 : K) (base all : bytes) (s : rd_script) (w : Writer) (c : CopyWithCapacity K) : Prop :=
  copy_ok c /\ copy_split k0 base all w (copy_rest s c) (length (cp_slice c)) (cp_amt c).

(** A reader and a writer that do not fail. *)
Definition rd_quiet (s : rd_script) : Prop := Forall (fun e => match e with RdErr _ => False | _ => True end) s.
Definition flush_quiet (w : Writer) : Prop :=
  Forall (fun p => match p with Ready (Ok _) | Pending => True | _ => False end) (fl_script w).
Definition quiet (s : rd_script) (w : Writer) : Prop := rd_quiet s /\ writes_ok w /\ flush_quiet w.

(** ** Lemmas *)

Lemma poll_read_turn cap s p s' :
  poll_read cap s = (p, s') ->
  length s' <= length s /\ rd_weight s' <= rd_weight s /\
  (rd_quiet s -> rd_quiet s' /\ is_error p = false) /\
  match p with Ready (Ok (_ :: _)) => 0 < cap -> rd_weight s' < rd_weight s | _ => True end.
Proof.
  unfold rd_quiet, rd_weight. destruct s as [|[|bs|e] s]; simpl; intros Hr; simplify_eq; simpl.
  - split_and!; [done..| |done]. intros _. split; [constructor|done].
  - split_and!; [lia..| |done]. intros Hq. by apply Forall_cons in Hq as [_ Hq].
  - case_decide; simplify_eq; simpl.
    + split_and!; [lia..| |destruct bs; [done|intros _; simpl; lia]]. intros Hq. by apply Forall_cons in Hq as [_ Hq].
    + rewrite length_drop. split_and!; [lia..| |].
      * intros Hq. apply Forall_cons in Hq as [_ Hq]. split; [|done]. by constructor.
      * destruct (take cap bs) eqn:E; [done|]. lia.
  - split_and!; [lia..| |done]. intros Hq. by apply Forall_cons in Hq as [[] _].
Qed.

Lemma cp_slice_length c : copy_ok c -> length (cp_slice c) = cp_cap c - cp_pos c.
Proof. intros (? & ? & _). unfold cp_slice. rewrite length_drop, length_take. lia. Qed.

Lemma cp_slice_nil c : copy_ok c -> cp_slice c = [] <-> cp_pos c = cp_cap c.
Proof. intros Hc. rewrite <- length_zero_iff_nil, cp_slice_length by done. destruct Hc. lia. Qed.

Lemma copy_write_step c i amt :
  copy_ok c -> i <= length (cp_slice c) ->
  let c' := mkCopy (cp_read_done c) (cp_pos c + i) (cp_cap c) amt (cp_buf c) in
  copy_ok c' /\ cp_slice c' = drop i (cp_slice c).
Proof.
  intros Hc Hi c'. rewrite cp_slice_length in Hi by done. destruct Hc as (? & ? & ?). unfold copy_ok, cp_slice. simpl.
  rewrite drop_drop. split_and!; lia || done.
Qed.

(** What a poll of the writer leaves for the next one. *)
Lemma poll_write_turn w buf q w' :
  poll_write w buf = (q, w') ->
  fl_script w' = fl_script w /\ fl_count w' = fl_count w /\
  length (wr_script w') <= length (wr_script w) /\
  (writes_ok w -> buf <> [] -> writes_ok w' /\ is_error q = false /\ q <> Ready (Ok 0)) /\
  (length (wr_script w') < length (wr_script w) \/ wr_script w' = [] /\ q = Ready (Ok (length buf))).
Proof.
  unfold poll_write, writes_ok. intros Hq. destruct (wr_script w) as [|[|n|e] ws] eqn:E; simplify_eq/=; split_and!; auto;
    try (intros Hg Hb; apply Forall_cons in Hg as [Hn Hg]; simpl in Hn; try done).
  - intros _ Hb. split_and!; [done..|]. intros [= Hl%length_zero_iff_nil]. done.
  - apply negb_true_iff, Nat.eqb_neq in Hn. split_and!; [done..|]. intros [= Hl]. rewrite length_take in Hl.
    destruct buf; [done|]. simpl in Hl. lia.
Qed.

(** The inner loop writes a part of the slice, and all of it when it ends. *)
Lemma copy_write_spec fuel k0 base all rest w c p w' c' :
  length (cp_slice c) <= fuel -> copy_ok c -> fits k0 (length all) ->
  copy_split k0 base all w (cp_slice c ++ rest) (length (cp_slice c)) (cp_amt c) ->
  copy_write poll_write fuel w c = (p, w', c') ->
  copy_ok c' /\ copy_split k0 base all w' (cp_slice c' ++ rest) (length (cp_slice c')) (cp_amt c') /\
  cp_read_done c' = cp_read_done c /\
  fl_script w' = fl_script w /\ fl_count w' = fl_count w /\ length (wr_script w') <= length (wr_script w) /\
  (writes_ok w -> writes_ok w' /\ is_error p = false) /\
  match p with
  | Ready (Ok _) => cp_slice c' = []
  | Ready Panic => False
  | Pending => length (wr_script w') < length (wr_script w)
  | _ => True
  end.
Proof.
  revert w c. induction fuel as [|f IH]; intros w c Hf Hok Hfit Hsp; simpl.
  - pose proof (cp_slice_nil c Hok) as Hn. assert (cp_slice c = []) as Hsl by (apply length_zero_iff_nil; lia). apply Hn in Hsl as Hp.
    rewrite decide_False by lia. intros [= <- <- <-]. by split_and!.
  - pose proof (cp_slice_nil c Hok) as Hn. destruct (decide (cp_pos c < cp_cap c)) as [Hlt|Hge].
    2:{ intros [= <- <- <-]. destruct Hok as (? & ? & ?). split_and!; try done; try (apply Hn; lia). }
    assert (cp_slice c <> []) as Hne by (rewrite Hn; lia). clear Hn.
    destruct (poll_write w (cp_slice c)) as [q w1] eqn:Ew. pose proof (poll_write_spec _ _ _ _ Ew) as Hw.
    apply poll_write_turn in Ew as (Hfl & Hfc & Hle & Hgood & Hdec).
    destruct q as [[i|e|]|]; [|intros [= <- <- <-]|done|intros [= <- <- <-]].
    + destruct Hw as [Hi Hlog]. destruct (decide (i = 0)) as [->|Hnz].
      { intros [= <- <- <-]. rewrite take_0, app_nil_r in Hlog. unfold copy_split in *. rewrite Hlog.
        split_and!; try done. intros Hg. by destruct (Hgood Hg Hne) as (_ & _ & []). }
      destruct Hsp as (d & Hd & Hall & Hcnt).
      destruct (counted_write k0 _ _ _ i Hcnt) as (amt & -> & Hcnt').
      { eapply fits_le; [done|]. rewrite <- Hall, !length_app. lia. }
      destruct (copy_write_step c i amt Hok Hi) as [Hok' Hsl'].
      intros Hr. apply IH in Hr as (? & ? & Hrd & ? & ? & ? & Hg' & Hp); [|..|done|done|].
      * split_and!; try done; try congruence; try lia; [|destruct p as [[]|]; try done; lia].
        intros Hg. apply Hg', (Hgood Hg Hne).
      * rewrite Hsl', length_drop. lia.
      * exists (d ++ take i (cp_slice c)). rewrite Hsl', Hlog, Hd, app_assoc. split_and!; [done| |].
  -- rewrite <- app_assoc, (app_assoc (take i _)), take_drop. done.
  -- cbn [cp_amt]. rewrite length_app, length_take, length_drop, Nat.min_l by done.
    by replace (length d + i + (length (cp_slice c) - i)) with (length d + length (cp_slice c)) by lia.
    + unfold copy_split in *. rewrite Hw. split_and!; try done. intros Hg. by destruct (Hgood Hg Hne) as (_ & ? & _).
    + unfold copy_split in *. rewrite Hw. split_and!; try done; [intros Hg; by destruct (Hgood Hg Hne)|].
      by destruct Hdec as [|[_ ?]].
Qed.

(** The read of a turn moves bytes from the script into the empty buffer. *)
Lemma copy_read_spec k0 base all s w c p s' c' :
  copy_inv k0 base all s w c -> copy_read poll_read s c = (p, s', c') ->
  length s' <= length s /\ rd_weight s' <= rd_weight s /\ (rd_quiet s -> rd_quiet s' /\ is_error p = false) /\
  match p with
  | Ready (Ok _) => copy_inv k0 base all s' w c' /\
    (cp_read_done c' = true \/ cp_slice c <> [] \/ rd_weight s' < rd_weight s)
  | Ready (Err _) => c' = c
  | Ready Panic => False
  | Pending => copy_inv k0 base all s' w c' /\ length s' < length s
  end.
Proof.
  intros [Hok (d & Hd & Hall & Hcnt)]. unfold copy_read. pose proof (cp_slice_nil c Hok) as Hn.
  assert (copy_inv k0 base all s w c) as Hinv by (split; [done|by exists d]).
  destruct (decide (cp_pos c = cp_cap c)) as [He|Hne].
  2:{ intros [= <- <- <-]. split_and!; try done. right. left. by rewrite Hn. }
  apply Hn in He as Hsl. destruct (cp_read_done c) eqn:Erd.
  { intros [= <- <- <-]. split_and!; try done. by left. }
  destruct (poll_read _ s) as [q s1] eqn:Er. pose proof (poll_read_spec _ _ _ _ Er) as Hs.
  apply poll_read_turn in Er as (Hle & Hwle & Hq & Hw).
  assert (copy_rest s c = rd_bytes s) as Hrest by (unfold copy_rest; by rewrite Hsl, Erd).
  destruct Hok as (Hp1 & Hp2 & Hp3).
  destruct q as [[[|b m]|e|]|]; [| |intros [= <- <- <-]|done|intros [= <- <- <-]].
  - intros [= <- <- <-]. destruct Hs as [|Hs]; [lia|]. simpl.
    split_and!; [done|done|by intros ?; split; [apply Hq|done]| |by left].
    split; [done|]. exists d. split; [done|]. unfold copy_rest. cbn [cp_read_done cp_amt].
    change (cp_slice _) with (cp_slice c). rewrite Hsl. split; [by rewrite <- Hall, Hrest, Hs|].
    rewrite Hsl in Hcnt. replace (length d + length (@nil byte)) with (length d + 0 + 0) by (simpl; lia).
    apply counted_read. by replace (length d + 0) with (length d + length (@nil byte)) by (simpl; lia).
  - destruct Hs as [Hcap Hs]. specialize (Hw ltac:(lia)).
    assert (length (b :: m) <> 0) as Hm by done. revert Hcap Hs Hm. generalize (b :: m). intros m' Hcap Hs Hm.
    rewrite decide_False by done. intros [= <- <- <-].
    set (c2 := mkCopy _ _ _ _ _). assert (cp_slice c2 = m') as Hsl2.
    { unfold cp_slice, c2. cbn [cp_pos cp_cap cp_buf]. rewrite drop_0, take_app_length'; done. }
    split_and!; [done|done|by intros ?; split; [apply Hq|done]| |by right; right].
    split.
    + unfold copy_ok, c2. cbn [cp_pos cp_cap cp_buf]. rewrite length_app, length_drop. lia.
    + exists d. split; [done|]. unfold copy_rest. rewrite Hsl2. cbn [cp_read_done cp_amt c2].
      rewrite <- Hs, <- Hrest. split; [done|]. rewrite Hsl in Hcnt.
      replace (length d + length m') with (length d + length (@nil byte) + length m') by (simpl; lia).
      by apply counted_read.
  - by split_and!.
  - destruct Hs as [Hs Hl]. split_and!; try done. split; [done|]. exists d. split; [done|]. split; [|done].
    rewrite <- Hall. unfold copy_rest. by rewrite Erd, Hs.
Qed.

Lemma poll_flush_turn w p w' :
  poll_flush w = (p, w') ->
  wr_log w' = wr_log w /\ wr_script w' = wr_script w /\ length (fl_script w') <= length (fl_script w) /\
  (flush_quiet w -> flush_quiet w' /\ is_error p = false) /\
  match p with
  | Ready (Ok _) => fl_count w' = S (fl_count w)
  | Ready (Err _) => fl_count w' = fl_count w
  | Ready Panic => ~ flush_quiet w
  | Pending => fl_count w' = fl_count w /\ length (fl_script w') < length (fl_script w)
  end.
Proof.
  unfold poll_flush, flush_quiet. intros Hr.
  destruct (fl_script w) as [|[[[]|e|]|] fs] eqn:E; simplify_eq/=; split_and!; try done; try lia;
    intros Hf; by apply Forall_cons in Hf as [[] Hf].
Qed.

Lemma copy_loop_spec fuel k0 base all s w c p s' w' c' :
  rd_weight s + (if decide (cp_slice c = []) then 0 else 1) < fuel ->
  copy_inv k0 base all s w c -> fits k0 (length all) -> copy_loop poll_read poll_write poll_flush fuel s w c = (p, s', w', c') ->
  suspensions s' w' <= suspensions s w /\ (quiet s w -> quiet s' w' /\ is_error p = false) /\
  match p with
  | Ready (Ok amt) => wr_log w' = base ++ all /\ counted k0 (length all) (length all) amt /\ fl_count w' = S (fl_count w)
  | Ready (Err _) => exists d r, all = d ++ r /\ wr_log w' = base ++ d /\ fl_count w' = fl_count w
  | Ready Panic => ~ flush_quiet w
  | Pending => copy_inv k0 base all s' w' c' /\ suspensions s' w' < suspensions s w /\ fl_count w' = fl_count w
  end.
Proof.
  revert s w c. induction fuel as [|f IH]; intros s w c Hf Hinv Hfit; [lia|]. cbn [copy_loop].
  destruct (copy_read poll_read s c) as [[q s1] c1] eqn:Er.
  pose proof Hinv as [_ (d & Hd & Hall & _)].
  apply (copy_read_spec _ _ _ _ _ _ _ _ _ Hinv) in Er as (Hls & Hws & Hq & Hr). unfold suspensions, quiet.
  destruct q as [[[]|e|]|].
  2:{ intros [= <- <- <- <-]. split_and!; [lia|intros (Q & _); by destruct (Hq Q)|]. by exists d, (copy_rest s c). }
  2:{ done. }
  2:{ destruct Hr as [Hr Hl]. intros [= <- <- <- <-]. split_and!; [lia|intros (Q & ? & ?); destruct (Hq Q); by split_and!|done|lia|done]. }
  destruct Hr as [[Hok1 Hsp1] Hturn].
  destruct (copy_write poll_write _ w c1) as [[q2 w1] c2] eqn:Ew.
  unfold copy_rest in Hsp1.
  apply (copy_write_spec _ k0 base all (if cp_read_done c1 then [] else rd_bytes s1)) in Ew
    as (Hok2 & Hsp2 & Hrd & Hfl & Hfc & Hlw & Hgw & Hp2); [|rewrite cp_slice_length by done; lia|done..].
  rewrite <- Hrd in Hsp2. pose proof Hsp2 as (d2 & Hd2 & Hall2 & Hcnt2).
  assert (flush_quiet w -> flush_quiet w1) as Hfq by (unfold flush_quiet; by rewrite Hfl).
  destruct q2 as [[[]|e|]|].
  2:{ intros [= <- <- <- <-]. rewrite Hfl. split_and!; [lia|intros (_ & Q & _); by destruct (Hgw Q)|]. eexists d2, _. split_and!; [by symmetry|done..]. }
  2:{ done. }
  2:{ intros [= <- <- <- <-]. rewrite Hfl. split_and!; [lia|intros (Q & Q2 & Q3); destruct (Hq Q), (Hgw Q2); split_and!; auto|by split|lia|done]. }
  apply (cp_slice_nil _ Hok2) in Hp2 as Hpos. rewrite decide_True by done.
  destruct (cp_read_done c2) eqn:Edone.
  - destruct (poll_flush w1) as [q3 w2] eqn:Ef. apply poll_flush_turn in Ef as (Hl2 & Hs2 & Hlf & Hff & Hp3).
    rewrite Hfl in Hlf, Hp3. rewrite Hp2, app_nil_r in Hall2. subst d2. unfold writes_ok in *. rewrite <- Hs2 in Hgw.
    assert (rd_quiet s /\ Forall (fun e => wr_good e = true) (wr_script w) /\ flush_quiet w ->
      (rd_quiet s1 /\ Forall (fun e => wr_good e = true) (wr_script w2) /\ flush_quiet w2) /\ is_error q3 = false) as Hquiet.
    { intros (Q & Q2 & Q3). destruct (Hq Q), (Hgw Q2), (Hff (Hfq Q3)). by split_and!. }
    destruct q3 as [[[]|e|]|]; intros [= <- <- <- <-]; (split; [rewrite Hs2; lia|]); (split; [exact Hquiet|]).
    + rewrite Hl2. split_and!; [done| |congruence]. rewrite Hp2 in Hcnt2. simpl in Hcnt2. by rewrite Nat.add_0_r in Hcnt2.
    + exists all, []. rewrite app_nil_r. split_and!; [done| |congruence]. by rewrite Hl2.
    + intros Q. by apply Hp3, Hfq.
    + destruct Hp3 as [Hp3 Hp4]. split_and!; [|rewrite Hs2; lia|congruence]. split; [done|]. exists all. rewrite Hl2. unfold copy_rest.
      rewrite Hp2, Edone, app_nil_r. rewrite Hp2 in Hcnt2. done.
  - intros Hr. apply IH in Hr as (Hs' & Hq' & Hp'); [|..|split; [done|unfold copy_rest; by rewrite Edone]|done].
    + unfold suspensions, quiet in *. rewrite Hfl in Hs'. split_and!; [lia| |].
      { intros (Q & Q2 & Q3). apply Hq'. destruct (Hq Q), (Hgw Q2). split_and!; auto. }
      destruct p as [[amt|e|]|]; rewrite <- ?Hfc; [done..|intros Q; by apply Hp', Hfq|]. rewrite Hfl in Hp'. destruct Hp' as (? & ? & ?). split_and!; [done|lia|done].
    + rewrite Hp2, decide_True by done. destruct Hturn as [Ht|[Ht|Ht]]; [congruence| |lia].
      rewrite decide_False in Hf by done. lia.
Qed.

(** One poll of the future. *)
Lemma copy_poll_spec k0 base all s w c p s' w' c' :
  copy_inv k0 base all s w c -> fits k0 (length all) -> copy_poll s w c = (p, s', w', c') ->
  suspensions s' w' <= suspensions s w /\ (quiet s w -> quiet s' w' /\ is_error p = false) /\
  match p with
  | Ready (Ok amt) => wr_log w' = base ++ all /\ counted k0 (length all) (length all) amt /\ fl_count w' = S (fl_count w)
  | Ready (Err _) => exists d r, all = d ++ r /\ wr_log w' = base ++ d /\ fl_count w' = fl_count w
  | Ready Panic => ~ flush_quiet w
  | Pending => copy_inv k0 base all s' w' c' /\ suspensions s' w' < suspensions s w /\ fl_count w' = fl_count w
  end.
Proof. intros Hi Hf. unfold copy_poll. apply copy_loop_spec; [|done..]. case_decide; lia. Qed.

(** The invariant says how much was written. *)
Lemma copy_inv_log k0 base all s w c :
  copy_inv k0 base all s w c -> exists d, wr_log w = base ++ d /\ d ++ copy_rest s c = all.
Proof. intros [_ (d & ? & ? & _)]. by exists d. Qed.

Lemma copy_new_inv k cap s w : 0 < cap -> copy_inv k (wr_log w) (rd_bytes s) s w (Copy_new k cap).
Proof.
  intros Hc. unfold copy_inv, copy_ok, copy_split, copy_rest, cp_slice, Copy_new.
  cbn [cp_pos cp_cap cp_buf cp_read_done cp_amt]. rewrite repeat_length, take_0, drop_nil. split; [lia|].
  exists []. rewrite app_nil_r. split_and!; [done..|]. apply counted_refl.
Qed.

Lemma copy_await_spec fuel k0 base all s w c :
  copy_inv k0 base all s w c -> fits k0 (length all) -> suspensions s w < fuel ->
  exists r s' w' c', copy_await fuel s w c = Some (r, s', w', c') /\
  (quiet s w -> exists amt, r = Ok amt) /\
  match r with
  | Ok amt => wr_log w' = base ++ all /\ counted k0 (length all) (length all) amt /\ fl_count w' = S (fl_count w)
  | Err _ => exists d rest, all = d ++ rest /\ wr_log w' = base ++ d /\ fl_count w' = fl_count w
  | Panic => ~ quiet s w
  end.
Proof.
  revert s w c. induction fuel as [|f IH]; intros s w c Hi Hf Hs; [lia|]. cbn [copy_await].
  destruct (copy_poll s w c) as [[[p s1] w1] c1] eqn:Ep.
  destruct (copy_poll_spec _ _ _ _ _ _ _ _ _ _ Hi Hf Ep) as (Hle & Hq & Hp).
  destruct p as [[amt|e|]|].
  - eexists _, _, _, _. split; [done|]. eauto.
  - eexists _, _, _, _. split; [done|]. split; [|done]. intros Q. by destruct (Hq Q).
  - eexists _, _, _, _. split; [done|]. split; [intros Q; by destruct Hp, Q as (? & ? & ?)|].
    intros Q. by destruct Hp, Q as (? & ? & ?).
  - destruct Hp as (Hi1 & Hs1 & Hfc). destruct (IH s1 w1 c1 Hi1 Hf ltac:(lia)) as (r & s' & w' & c' & -> & Hq' & Hr).
    eexists _, _, _, _. split; [done|]. split; [intros Q; by apply Hq', (Hq Q)|].
    destruct r as [amt|e|]; rewrite <- ?Hfc; [done..|]. intros Q. by apply Hr, (Hq Q).
Qed.

(** *** The relay *)

(** The invariant of a direction, with the polls it can still answer
[Pending]. *)
Definition dir_inv (k0 : K) (base all : bytes) (susp : nat) (q : Prop) (d : direction) : Prop :=
  copy_inv k0 base all (d_rd d) (d_wr d) (d_copy d) /\ suspensions (d_rd d) (d_wr d) <= susp /\
  (q -> quiet (d_rd d) (d_wr d)).

Definition log_prefix (base all : bytes) (d : direction) : Prop :=
  exists x rest, wr_log (d_wr d) = base ++ x /\ x ++ rest = all.

(** What a direction has done when its copy has ended. *)
Definition dir_ended (base all : bytes) (q : Prop) (d : direction) : Prop :=
  log_prefix base all d /\ (q -> wr_log (d_wr d) = base ++ all).

Lemma poll_direction_spec k0 base all susp q d p d' :
  dir_inv k0 base all susp q d -> fits k0 (length all) -> poll_direction d = (p, d') ->
  match relay_branch p with
  | None => exists susp', susp = S susp' /\ dir_inv k0 base all susp' q d'
  | Some Panic => ~ q
  | Some (Err _) => False
  | Some (Ok _) => dir_ended base all q d'
  end.
Proof.
  intros (Hi & Hs & Hq) Hf. unfold poll_direction.
  destruct (copy_poll _ _ _) as [[[p1 s] w] c] eqn:Ep. intros [= <- <-].
  destruct (copy_poll_spec _ _ _ _ _ _ _ _ _ _ Hi Hf Ep) as (_ & Hq' & Hp).
  destruct p1 as [[amt|e|]|]; cbn [relay_branch].
  - destruct Hp as (Hl & _). split; [|by intros _]. exists all, []. by rewrite app_nil_r.
  - destruct Hp as (x & rest & -> & Hl & _). split; [by exists x, rest|]. intros Q. by destruct (Hq' (Hq Q)).
  - intros Q. by destruct Hp, (Hq Q) as (_ & _ & ?).
  - destruct Hp as (Hi' & Hlt & _). exists (pred susp). split; [lia|].
    split_and!; [done|simpl; lia|]. intros Q. simpl. by apply Hq', Hq.
Qed.

Lemma dir_inv_prefix k0 base all susp q d :
  dir_inv k0 base all susp q d -> exists x rest, wr_log (d_wr d) = base ++ x /\ x ++ rest = all.
Proof. intros (Hi & _). destruct (copy_inv_log _ _ _ _ _ _ Hi) as (x & ? & ?). eauto. Qed.

Definition polls_of (d : side) (polls : list side) : nat := length (filter (eq d) polls).

Definition relay_outcome (bd ad bu au : bytes) (sd su : nat) (qd qu : Prop) (polls : list side)
  (a : option (res unit)) (r : Relay) : Prop :=
  match a with
  | Some Panic => ~ qd \/ ~ qu
  | Some (Err _) => False
  | Some (Ok _) => log_prefix bd ad (rl_down r) /\ log_prefix bu au (rl_up r) /\
    ((qd -> wr_log (d_wr (rl_down r)) = bd ++ ad) \/ (qu -> wr_log (d_wr (rl_up r)) = bu ++ au))
  | None => log_prefix bd ad (rl_down r) /\ log_prefix bu au (rl_up r) /\
    polls_of Down polls <= sd /\ polls_of Up polls <= su
  end.

Lemma relay_run_spec kd ku bd ad bu au qd qu polls sd su r a r' :
  fits kd (length ad) -> fits ku (length au) ->
  dir_inv kd bd ad sd qd (rl_down r) -> dir_inv ku bu au su qu (rl_up r) ->
  relay_run poll_relay polls r = (a, r') -> relay_outcome bd ad bu au sd su qd qu polls a r'.
Proof.
  intros Hfd Hfu. revert sd su r. induction polls as [|[] polls IH]; intros sd su r Hd Hu.
  - intros [= <- <-]. unfold relay_outcome, polls_of. cbn. split_and!; [by eapply dir_inv_prefix..|lia|lia].
  - cbn [relay_run poll_relay]. destruct (poll_direction (rl_down r)) as [p d] eqn:Ep.
    pose proof (poll_direction_spec _ _ _ _ _ _ _ _ Hd Hfd Ep) as Hp.
    destruct (relay_branch p) as [[[]|e|]|].
    + intros [= <- <-]. destruct Hp as [? Hq]. split_and!; [done|by eapply dir_inv_prefix|left; apply Hq].
    + done.
    + intros [= <- <-]. by left.
    + destruct Hp as (sd' & -> & Hd'). intros Hr. apply (IH sd' su) in Hr; [|done..].
      destruct a as [[[]|e|]|]; try done. destruct Hr as (? & ? & ? & ?). split_and!; try done. unfold polls_of in *. simpl. lia.
  - cbn [relay_run poll_relay]. destruct (poll_direction (rl_up r)) as [p d] eqn:Ep.
    pose proof (poll_direction_spec _ _ _ _ _ _ _ _ Hu Hfu Ep) as Hp.
    destruct (relay_branch p) as [[[]|e|]|].
    + intros [= <- <-]. destruct Hp as [? Hq]. split_and!; [by eapply dir_inv_prefix|done|right; apply Hq].
    + done.
    + intros [= <- <-]. by right.
    + destruct Hp as (su' & -> & Hu'). intros Hr. apply (IH sd su') in Hr; [|done..].
      destruct a as [[[]|e|]|]; try done. destruct Hr as (? & ? & ? & ?). split_and!; try done. unfold polls_of in *. simpl. lia.
Qed.

(** ** Theorems *)

(** C11: a copy, awaited, always ends.  If neither half fails it ends with
success; success means that everything the reader delivers before its end
was written, in order and once, that the writer was flushed once after
that, and that the counters have counted exactly those bytes; an error
leaves a prefix of them written.  A buffer without room ends the copy at
once with nothing written, whatever the reader has.  This holds for both
kinds of counters. *)
Theorem copy_delivers k cap s w :
  (0 < cap -> fits k (length (rd_bytes s)) ->
    exists r s' w' c', copy_await (S (suspensions s w)) s w (Copy_new k cap) = Some (r, s', w', c') /\
    (quiet s w -> exists amt, r = Ok amt) /\
    match r with
    | Ok amt => wr_log w' = wr_log w ++ rd_bytes s /\
      counted k (length (rd_bytes s)) (length (rd_bytes s)) amt /\ fl_count w' = S (fl_count w)
    | Err _ => exists d rest, rd_bytes s = d ++ rest /\ wr_log w' = wr_log w ++ d /\ fl_count w' = fl_count w
    | Panic => ~ quiet s w
    end) /\
  (forall bs, fl_script w = [] -> exists r s' w' c',
    copy_await 1 (RdData bs :: s) w (Copy_new k 0) = Some (Ok r, s', w', c') /\ wr_log w' = wr_log w).
Proof.
  split.
  - intros Hc Hf. eapply copy_await_spec; [by apply copy_new_inv|done|lia].
  - intros bs Hfl. cbn [copy_await]. unfold copy_poll. cbn [copy_loop Nat.add]. unfold copy_read, Copy_new.
    cbn [cp_pos cp_cap cp_read_done cp_buf repeat length]. rewrite decide_True by done.
    destruct bs as [|b bs]; simpl; unfold poll_flush; rewrite Hfl; by eexists _, _, _, _.
Qed.

(** C12: the relay, for every order in which its two directions are polled.  At
every moment what each side was sent is a prefix of what the other side
delivers; the relay has ended only when one direction has delivered
everything (or failed), and the other direction is then dropped where it
is; and it has ended once a direction was polled more often than its halves
can answer "not ready". *)
Theorem relay_interleavings kd ku inbound outbound n polls a r :
  0 < n -> fits kd (length (rd_bytes (st_rd outbound))) -> fits ku (length (rd_bytes (st_rd inbound))) ->
  relay_run poll_relay polls (relay_new kd ku inbound outbound n) = (a, r) ->
  relay_outcome (wr_log (st_wr inbound)) (rd_bytes (st_rd outbound)) (wr_log (st_wr outbound)) (rd_bytes (st_rd inbound))
  (suspensions (st_rd outbound) (st_wr inbound)) (suspensions (st_rd inbound) (st_wr outbound))
  (quiet (st_rd outbound) (st_wr inbound)) (quiet (st_rd inbound) (st_wr outbound)) polls a r.
Proof.
  intros Hn Hd Hu. assert (0 < LW_BUFFER_SIZE * n) by (unfold LW_BUFFER_SIZE; lia).
  apply (relay_run_spec kd ku); [done..| |]; (split_and!; [by apply copy_new_inv|done|done]).
Qed.
End Copy.

(** ** Witnesses *)

Section Witness.
Definition wit_rd : rd_script := [RdPending; RdData (str "hello "); RdData (str "world")].
Definition wit_wr : Writer := mkWriter [WrAccept 2; WrPending; WrAccept 3] [] [Pending] 0 [] 0.

Lemma copy_delivers_witness :
  match @copy_await _ (plain_counter true) (S (suspensions wit_rd wit_wr)) wit_rd wit_wr (Copy_new 0%Z 4) with
  | Some (Ok amt, _, w, _) => wr_log w = str "hello world" /\ amt = 11%Z
  | _ => False
  end.
Proof.
  destruct (proj1 (@copy_delivers _ (plain_counter true) 0%Z 4 wit_rd wit_wr)) as (r & s' & w' & c' & E & Hq & Hr).
  - lia.
  - split; [lia|]. vm_compute. reflexivity.
  - destruct Hq as [amt ->].
    { split_and!; repeat constructor. }
    rewrite E. destruct Hr as (Hl & Hc & _). split; [exact Hl|]. exact Hc.
Defined.

Definition wit_counters : Counters := mkCounters 0 0.

Lemma relay_interleavings_witness :
  let inbound := mkStream [RdPending; RdPending; RdPending] wit_wr in
  let outbound := mkStream wit_rd (mkWriter [] [] [] 0 [] 0) in
  match relay_run poll_relay [Up; Down; Down; Up; Down; Down] (relay_new wit_counters wit_counters inbound outbound 1) with
  | (Some (Ok _), r) => log_prefix [] (str "hello world") (rl_down r)
  | _ => False
  end.
Proof.
  intros inbound outbound.
  destruct (relay_run poll_relay [Up; Down; Down; Up; Down; Down] (relay_new wit_counters wit_counters inbound outbound 1)) as [a r] eqn:E.
  assert (a = Some (Ok tt)) as -> by (apply (f_equal fst) in E; vm_compute in E; congruence).
  exact (proj1 (relay_interleavings wit_counters wit_counters inbound outbound 1 [Up; Down; Down; Up; Down; Down]
    (Some (Ok tt)) r ltac:(lia) Logic.I Logic.I E)).
Defined.
End Witness.
