(* ===== verification/UdpSplit.v ===== *)
(** * The two halves of a UDP stream (src/src/proxy/udp.rs)

    [split_ext] gives a reading and a writing half of one stream, which two
    tasks use at the same time, on different threads if the runtime has them.
    Each call of a half takes a lock (a compare-exchange on a flag), works on
    the stream through a raw pointer and releases the lock when its guard is
    dropped; a call that finds the lock taken answers [Pending] and wakes
    itself.

    The halves are two threads of a step relation.  The work on the stream is
    not atomic: it starts from the contents the thread finds and later stores
    what it computed, so two calls at work at once would lose an update. *)

From S2P Require Import Prelude StdText Address.
From Stdlib Require Import ZArith Lia List.
From stdpp Require Import base option list strings.

Inductive half := ReadHalf | WriteHalf.

#[export] Instance half_eq_dec : EqDecision half.
Proof. solve_decision. Defined.

Definition other (h : half) : half := match h with ReadHalf => WriteHalf | WriteHalf => ReadHalf end.

(** ** The futures and the connected socket *)

(** [UdpReadHalf::poll], by the answer of the reader's [poll_recv_from] (what
    it put into the buffer's room, and the address): the new buffer and the
    number of bytes. *)
Definition recv_from_poll (answer : Poll (res (bytes * Address))) (buf : bytes) : Poll (res (nat * Address)) * bytes :=
  match answer with
  | Pending => (Pending, buf)
  | Ready (Err e) => (Ready (Err e), buf)
  | Ready Panic => (Ready Panic, buf)
  | Ready (Ok (d, addr)) => (Ready (Ok (length d, addr)), buf ++ d)
  end.

(** [UdpWriteHalf::poll]: the call it was made of. *)
Definition send_to_poll {A} (poll_send_to : bytes -> Address -> A) (target_addr : Address) (buf : bytes) : A :=
  poll_send_to buf target_addr.

(** [ConnectedUdpSocket::connect], by what [lookup_host] answers. *)
Definition connected_connect (addrs : res (list SocketAddr)) : res SocketAddr :=
  addrs ← addrs;
  match addrs with
  | addr :: _ => Ok addr
  | [] => Err (new_error "no valid addr after lookup_host")
  end.

(** [poll_send_to]: the target is not looked at. *)
Definition connected_send_to {A} (socket_send_to : bytes -> SocketAddr -> A) (peer : SocketAddr) (buf : bytes)
    (target : Address) : A := socket_send_to buf peer.

(** ** The lock *)

Section Split.
(** The stream, the calls the halves forward to it ([poll_recv_from],
[poll_read], [poll_send_to], [poll_write], [poll_flush],
[poll_shutdown]), and their answers. *)
Context {T Op R : Type} (exec : Op -> T -> R * T).

(** Where a half is in a call. *)
Inductive pc :=
| Idle
| Locked (o : Op)               (* has the guard *)
| Working (o : Op) (t : T)      (* at work, from the contents it found *)
| Finished (o : Op) (r : R).    (* the guard is about to be dropped *)

Record Inner := mkInner {
  locked : bool;
  stream : T;
  rd_pc : pc;
  wr_pc : pc
}.

Definition pc_of (h : half) (i : Inner) : pc := match h with ReadHalf => rd_pc i | WriteHalf => wr_pc i end.

Definition set_pc (h : half) (p : pc) (i : Inner) : Inner :=
  match h with
  | ReadHalf => mkInner (locked i) (stream i) p (wr_pc i)
  | WriteHalf => mkInner (locked i) (stream i) (rd_pc i) p
  end.

Definition set_locked (b : bool) (i : Inner) : Inner := mkInner b (stream i) (rd_pc i) (wr_pc i).
Definition set_stream (t : T) (i : Inner) : Inner := mkInner (locked i) t (rd_pc i) (wr_pc i).

(** [split_ext]. *)
Definition split_ext (t : T) : Inner := mkInner false t Idle Idle.

(** [compare_exchange(false, true)]: whether it succeeded. *)
Definition compare_exchange (i : Inner) : bool * Inner :=
  if locked i then (false, i) else (true, set_locked true i).

(** [poll_lock]: [None] is [Pending]. *)
Definition poll_lock (h : half) (o : Op) (i : Inner) : option Inner :=
  let '(ok, i) := compare_exchange i in if ok then Some (set_pc h (Locked o) i) else None.

(** [stream_pin] and the start of the stream's own poll. *)
Definition stream_pin (h : half) (o : Op) (i : Inner) : Inner := set_pc h (Working o (stream i)) i.

(** The end of it. *)
Definition stream_store (h : half) (o : Op) (t : T) (i : Inner) : Inner :=
  let '(r, t) := exec o t in set_pc h (Finished o r) (set_stream t i).

(** The guard's [drop]. *)
Definition guard_drop (h : half) (i : Inner) : Inner := set_pc h Idle (set_locked false i).

(** What a step shows: a call that answers [Pending] from the lock, or one
that returns the stream's answer. *)
Inductive event := Tau | Busy (h : half) (o : Op) | Return (h : half) (o : Op) (r : R).

Inductive step : Inner -> event -> Inner -> Prop :=
| step_lock h o i i' : pc_of h i = Idle -> poll_lock h o i = Some i' -> step i Tau i'
| step_busy h o i : pc_of h i = Idle -> poll_lock h o i = None -> step i (Busy h o) i
| step_begin h o i : pc_of h i = Locked o -> step i Tau (stream_pin h o i)
| step_end h o t i : pc_of h i = Working o t -> step i Tau (stream_store h o t i)
| step_drop h o r i : pc_of h i = Finished o r -> step i (Return h o r) (guard_drop h i).

Inductive steps : Inner -> list event -> Inner -> Prop :=
| steps_nil i : steps i [] i
| steps_cons i e j es k : step i e j -> steps j es k -> steps i (e :: es) k.

(** ** Specification: one call at a time *)

Definition returns (es : list event) : list (Op * R) :=
  omap (fun e => match e with Return _ o r => Some (o, r) | _ => None end) es.

(** [os] with the answers [rs] one after the other, from [t] to [t']. *)
Fixpoint sequential (t : T) (calls : list (Op * R)) (t' : T) : Prop :=
  match calls with
  | [] => t = t'
  | (o, r) :: calls => (exec o t).1 = r /\ sequential (exec o t).2 calls t'
  end.

(** The call whose effect is in the stream but which has not returned. *)
Definition unreturned (p : pc) : list (Op * R) := match p with Finished o r => [(o, r)] | _ => [] end.

Definition holds (p : pc) : bool := match p with Idle => false | _ => true end.

Definition inv (t0 : T) (es : list event) (i : Inner) : Prop :=
  locked i = holds (rd_pc i) || holds (wr_pc i) /\
  holds (rd_pc i) && holds (wr_pc i) = false /\
  (forall h o t, pc_of h i = Working o t -> t = stream i) /\
  sequential t0 (returns es ++ unreturned (rd_pc i) ++ unreturned (wr_pc i)) (stream i).

(** ** Lemmas *)

Lemma sequential_app t l1 l2 t' : sequential t (l1 ++ l2) t' <-> exists t1, sequential t l1 t1 /\ sequential t1 l2 t'.
Proof.
  revert t. induction l1 as [|[o r] l1 IH]; intros t; simpl.
  - split; [eauto|]. by intros (t1 & -> & ?).
  - rewrite IH. split; [intros (? & t1 & ? & ?)|intros (t1 & (? & ?) & ?)]; eauto.
Qed.

Lemma returns_snoc es e : returns (es ++ [e]) = returns es ++ match e with Return _ o r => [(o, r)] | _ => [] end.
Proof. unfold returns. rewrite omap_app. by destruct e. Qed.

Lemma inv_init t : inv t [] (split_ext t).
Proof. unfold inv. simpl. split_and!; try done. by intros [] o u. Qed.

(** A half that holds the lock is the only one. *)
Lemma inv_alone t0 es i h : inv t0 es i -> holds (pc_of h i) = true -> locked i = true /\ pc_of (other h) i = Idle.
Proof.
  intros (Hl & Hm & _). rewrite Hl. destruct h; simpl in *; intros Hh; rewrite Hh in *; simpl in *.
  - split; [done|]. by destruct (wr_pc i).
  - rewrite andb_true_r in Hm. split; [apply orb_true_r|]. by destruct (rd_pc i).
Qed.

Lemma inv_step t0 es i e j : inv t0 es i -> step i e j -> inv t0 (es ++ [e]) j.
Proof.
  intros Hi Hs. pose proof Hi as (Hl & Hm & Hw & Hq). unfold inv. rewrite returns_snoc.
  destruct Hs as [h o i i' Hp Hlk|h o i Hp Hlk|h o i Hp|h o t i Hp|h o r i Hp].
  - unfold poll_lock, compare_exchange in Hlk. destruct (locked i) eqn:El; [done|]. injection Hlk as <-.
    symmetry in Hl. apply orb_false_iff in Hl as [H1 H2]. rewrite app_nil_r.
    destruct h; simpl in *; rewrite Hp in *; simpl in *; rewrite ?H1, ?H2; split_and!; try done;
      intros [] o' t' E; simpl in E; try done; by destruct (rd_pc i), (wr_pc i).
  - rewrite app_nil_r. by split_and!.
  - destruct (inv_alone _ _ _ h Hi ltac:(by rewrite Hp)) as [El Eo]. rewrite app_nil_r.
    destruct h; simpl in *; rewrite Hp, Eo in *; simpl in *; split_and!; try done;
      intros [] o' t' E; simpl in *; by simplify_eq.
  - destruct (inv_alone _ _ _ h Hi ltac:(by rewrite Hp)) as [El Eo]. rewrite app_nil_r.
    pose proof (Hw _ _ _ Hp) as ->. unfold stream_store. destruct (exec o (stream i)) as [r t'] eqn:Ex.
    destruct h; simpl in *; rewrite Hp, Eo in *; simpl in *; rewrite ?app_nil_r in *; split_and!; try done;
      try (intros [] o' u E; simpl in *; by simplify_eq);
      apply sequential_app; exists (stream i); simpl; by rewrite Ex.
  - destruct (inv_alone _ _ _ h Hi ltac:(by rewrite Hp)) as [El Eo].
    destruct h; simpl in *; rewrite Hp, Eo in *; simpl in *; rewrite ?app_nil_r in *; split_and!; try done;
      intros [] o' u E; simpl in *; by simplify_eq.
Qed.

Lemma inv_steps t0 es i fs j : inv t0 es i -> steps i fs j -> inv t0 (es ++ fs) j.
Proof.
  intros Hi Hs. revert es Hi. induction Hs as [i|i e j fs k He Hs IH]; intros es Hi; [by rewrite app_nil_r|].
  change (e :: fs) with ([e] ++ fs). rewrite app_assoc. by apply IH, (inv_step _ _ _ _ _ Hi).
Qed.

(** ** Theorems *)

(** C15: the two halves, in every interleaving.  They are never both inside the
stream; the calls that returned, in the order in which they returned, gave
the answers the stream gives when it is called in that order, one call at a
time, and between calls the stream is in the state this leaves it in; a
call is turned away with [Pending] only while the other half is inside; and
a half that is inside can always go on until it returns. *)
Theorem udp_split_linearizable t es i :
  steps (split_ext t) es i ->
  (holds (rd_pc i) = true -> holds (wr_pc i) = true -> False) /\
  (exists t', sequential t (returns es) t' /\ (holds (rd_pc i) = false -> holds (wr_pc i) = false -> t' = stream i)) /\
  (forall h o j, step i (Busy h o) j -> holds (pc_of (other h) i) = true) /\
  (forall h, holds (pc_of h i) = true -> exists fs o r j,
    steps i (fs ++ [Return h o r]) j /\ pc_of h j = Idle /\ locked j = false /\ pc_of (other h) j = Idle).
Proof.
  intros Hs. pose proof (inv_steps t [] _ _ _ (inv_init t) Hs) as Hi. simpl in Hi.
  pose proof Hi as (Hl & Hm & _ & Hq). split_and!.
  - intros H1 H2. by rewrite H1, H2 in Hm.
  - apply sequential_app in Hq as (t' & H1 & H2). exists t'. split; [done|]. intros Hr Hw.
    destruct (rd_pc i), (wr_pc i); done.
  - intros h o j Hb. inversion Hb as [|? ? ? Hp Hk| | |]; subst. unfold poll_lock, compare_exchange in Hk.
    destruct (locked j) eqn:El; [|done]. destruct h; simpl in *; rewrite Hp in Hl; simpl in Hl; [done|].
    by rewrite orb_false_r in Hl.
  - intros h Hh. destruct (inv_alone _ _ _ _ Hi Hh) as [El Eo].
    assert (forall o u k, pc_of h k = Working o u -> pc_of (other h) k = Idle ->
      exists r j, steps k [Tau; Return h o r] j /\ pc_of h j = Idle /\ locked j = false /\ pc_of (other h) j = Idle) as Hwork.
    { intros o u k Hp Ho. destruct (exec o u) as [r t'] eqn:Ex. exists r, (guard_drop h (stream_store h o u k)).
      split; [|by unfold stream_store; rewrite Ex; destruct h].
      eapply steps_cons; [by apply step_end|]. eapply steps_cons; [|constructor]. apply step_drop.
      unfold stream_store. rewrite Ex. by destruct h. }
    destruct (pc_of h i) as [|o|o u|o r] eqn:Hp; [done|..].
    + destruct (Hwork o (stream i) (stream_pin h o i)) as (r & j & Hj & ?); [by destruct h..|].
      exists [Tau; Tau], o, r, j. split; [|done]. eapply steps_cons; [by apply step_begin|]. done.
    + destruct (Hwork o u i Hp Eo) as (r & j & Hj & ?). by exists [Tau], o, r, j.
    + exists [], o, r, (guard_drop h i). split; [|by destruct h].
      eapply steps_cons; [by apply step_drop|constructor].
Qed.
End Split.

(** ** Witness *)

Section Witness.
(** A stream that gives back what was sent. *)
Definition wit_exec (o : option bytes) (q : list bytes) : option bytes * list bytes :=
  match o with
  | Some d => (None, q ++ [d])
  | None => (head q, tail q)
  end.

Definition wit_events : list (event (Op := option bytes) (R := option bytes)) :=
  [Tau; Tau; Busy WriteHalf (Some (str "b")); Tau; Return ReadHalf None (Some (str "a"));
    Tau; Tau; Tau; Return WriteHalf (Some (str "b")) None].

Lemma udp_split_linearizable_witness :
  sequential wit_exec [str "a"] [(None, Some (str "a")); (Some (str "b"), None)] [str "b"].
Proof.
  assert (steps wit_exec (split_ext [str "a"]) wit_events (mkInner false [str "b"] Idle Idle)) as Hs.
  { unfold wit_events.
    eapply steps_cons; [eapply (step_lock _ ReadHalf None); reflexivity|].
    eapply steps_cons; [eapply (step_begin _ ReadHalf); reflexivity|].
    eapply steps_cons; [eapply (step_busy _ WriteHalf); reflexivity|].
    eapply steps_cons; [eapply (step_end _ ReadHalf); reflexivity|].
    eapply steps_cons; [eapply (step_drop _ ReadHalf); reflexivity|].
    eapply steps_cons; [eapply (step_lock _ WriteHalf (Some (str "b"))); reflexivity|].
    eapply steps_cons; [eapply (step_begin _ WriteHalf); reflexivity|].
    eapply steps_cons; [eapply (step_end _ WriteHalf); reflexivity|].
    eapply steps_cons; [eapply (step_drop _ WriteHalf); reflexivity|]. constructor. }
  destruct (udp_split_linearizable wit_exec [str "a"] wit_events _ Hs) as (_ & (t' & Ht & E) & _).
  specialize (E eq_refl eq_refl). simpl in E. subst t'. exact Ht.
Defined.
End Witness.
