(* ===== verification/Server.v ===== *)
(** * The server (src/src/config/server_builder.rs, src/src/api/mod.rs)

    What the server does with an accepted connection, from its first byte to
    the relay, by composing the SOCKS5 handshake, the router, the outbound chain
    and the traffic counters; and the counters' service of the API.

    Listening, accepting and spawning are not modelled: [run] is its effect on
    one connection.  An HTTP connection is handed to another component. *)

From S2P Require Import Prelude Io StdText Address IpTrie Aead Shadowsocks VmessStream Trojan Socks5 Chain Transport Tls Route Config Copy.
From Stdlib Require Import ZArith Lia List Strings.Byte.
From stdpp Require Import base option list gmap strings.

(** ** The traffic counters *)

Definition uplink (kind t : bytes) : bytes := kind ++ str ">>>" ++ t ++ str ">>>traffic>>>uplink".
Definition downlink (kind t : bytes) : bytes := kind ++ str ">>>" ++ t ++ str ">>>traffic>>>downlink".

Definition out_up (t : tag) : bytes := uplink (str "outbound") t.
Definition out_down (t : tag) : bytes := downlink (str "outbound") t.
Definition in_up (t : tag) : bytes := uplink (str "inbound") t.
Definition in_down (t : tag) : bytes := downlink (str "inbound") t.

Abbreviation CounterMap := (gmap bytes Z).

Definition insert_counters (up down : tag -> bytes) (ts : list tag) (m : CounterMap) : CounterMap :=
  fold_left (fun m k => <[down k := 0%Z]> (<[up k := 0%Z]> m)) ts m.

(** [COUNTER_MAP.get_or_init(..)]. *)
Definition counter_map (outbound_tags inbound_tags : list tag) : CounterMap :=
  let map := insert_counters out_up out_down outbound_tags ∅ in
  let map := insert_counters in_up in_down inbound_tags map in
  insert_counters in_up in_down [str "dokodemo"] map.

(** [COUNTER_MAP.get().unwrap().get(name).unwrap()]. *)
Definition counter (m : CounterMap) (name : bytes) : res bytes :=
  match m !! name with Some _ => Ok name | None => Panic end.

(** The four counters of a relay: the names stand for the atomics. *)
Record RelayCounters := mkRelayCounters { rc_in_up : bytes; rc_in_down : bytes; rc_out_up : bytes; rc_out_down : bytes }.

Definition relay_counters (m : CounterMap) (inbound_tag outbound_tag : tag) : res RelayCounters :=
  iu ← counter m (in_up inbound_tag);
  id ← counter m (in_down inbound_tag);
  od ← counter m (out_down outbound_tag);
  ou ← counter m (out_up outbound_tag);
  Ok (mkRelayCounters iu id ou od).

(** ** The statistics service *)

Inductive Status := InvalidArgument (message : string).

(** [value as i64]. *)
Definition as_i64 (z : Z) : Z := if decide (z < 2 ^ 63)%Z then z else (z - 2 ^ 64)%Z.

Definition get_stats (name : bytes) (reset : bool) (m : CounterMap) : (Status + (bytes * Z)) * CounterMap :=
  match m !! name with
  | Some v =>
      if reset then (inr (name, as_i64 v), <[name := 0%Z]> m)        (* v.swap(0) *)
      else (inr (name, as_i64 v), m)                                  (* v.load() *)
  | None => (inl (InvalidArgument "name is invalid"), m)
  end.

(** ** Connections *)

Section Serve.
Context `{AeadCrypto} (sha224 : bytes -> bytes) {Uri Method PathAndQuery : Type}.
Context {CB Connector X509 : Type} `{SslConnectorBuilder CB, SslCertStore CB X509, SslBuild CB Connector}.
Context {S U Ip : Type} (uninit : bytes) (native : res (list X509)).
Abbreviation Cfg := (ProxyConfig (Uri := Uri) (Method := Method) (PathAndQuery := PathAndQuery)).
Abbreviation Bld := (Builder (Uri := Uri) (Method := Method) (PathAndQuery := PathAndQuery) (Connector := Connector)).
Abbreviation SrvBuilder := (ConfigServerBuilder (Uri := Uri) (Method := Method) (PathAndQuery := PathAndQuery) (Connector := Connector)).
Context (apply_tcp : Bld -> S -> res S) (apply_udp : Bld -> U -> bool -> res U) `{Dialer S U Ip}.

#[local] Instance srv_bld : ChainableStreamBuilder Bld S U := Builder_chainable apply_tcp apply_udp.
#[local] Instance srv_cfg : ToChainableStreamBuilder Cfg Bld := ProxyConfig_chainable sha224 uninit native.

Context {R : Type} (match_addr : R -> Address -> res tag) (match_socket_addr : R -> SocketAddr -> res tag).

(** What a connection becomes. *)
Inductive served :=
| ServeHttp
| ServeUdp (socket : SocketAddr)
| ServeRelay (outbound_tag : tag) (out_stream : S) (counters : option RelayCounters)
| ServeDirect (out_stream : S).

(** [io.peek(&mut [0u8; 1])]: at the end of the stream the byte stays 0. *)
Fixpoint peek (s : rd_script) : res byte :=
  match s with
  | [] => Ok x00
  | RdPending :: s => peek s
  | RdData [] :: _ => Ok x00
  | RdData (b :: _) :: _ => Ok b
  | RdErr e :: _ => Err e
  end.

(** [SocketAddr::new(peer_ip, 0)]. *)
Definition peer_any_port (peer : SocketAddr) : SocketAddr :=
  match peer with V4 ip _ => V4 ip 0 | V6 ip _ _ _ => V6 ip 0 0 0 end.

(** From the routing tag on: the chain, the stream through it, the counters. *)
Definition open_outbound (srv : SrvBuilder R) (m : CounterMap) (inbound_tag ob : tag) (target : Address) : res served :=
  match sv_inner_map srv !! ob with
  | None => Panic                            (* inner_map.get(ob).unwrap() *)
  | Some stream_builder =>
    out_stream ← chain_build_tcp stream_builder target;
    counters ← (if sv_enable_api_server srv then c ← relay_counters m inbound_tag ob; Ok (Some c) else Ok None);
    Ok (ServeRelay ob out_stream counters)
  end.

(** The service of an inbound; [None] is a handshake that never ends. *)
Definition serve_inbound (srv : SrvBuilder R) (m : CounterMap) (inbound : Inbounds) (peer local : SocketAddr)
  (bind : SocketAddr -> res SocketAddr) (io : Stream) : option (res served * Stream) :=
  match peek (st_rd io) with
  | Err e => Some (Err e, io)
  | Panic => Some (Panic, io)
  | Ok header =>
    if decide (b2z header <> SOCKS_VERSION) then Some (Ok ServeHttp, io) else
      let addr := if in_enable_udp inbound then Some (peer_any_port peer) else None in
      match init (Socks5Stream_new local) addr bind None io with
      | None => None
      | Some (Err e, _, io) => Some (Err e, io)
      | Some (Panic, _, io) => Some (Panic, io)
      | Some (Ok _, Some udp_socket, io) => Some (Ok (ServeUdp udp_socket), io)
      | Some (Ok target, None, io) =>
        Some (ob ← match_addr (sv_router srv) target; open_outbound srv m (in_tag inbound) ob target, io)
      end
  end.

(** The service of a dokodemo door; with a fixed target it bypasses the
router and the counters. *)
Definition serve_dokodemo (srv : SrvBuilder R) (m : CounterMap) (door : DokodemoDoor) (local : SocketAddr) : res served :=
  match dd_target_addr door with
  | Some addr => out_stream ← connect_tcp addr; Ok (ServeDirect out_stream)
  | None =>
    ob ← match_socket_addr (sv_router srv) local;
    open_outbound srv m (str "dokodemo") ob (SocketAddress local)
  end.

(** The counters of a running server. *)
Definition run_counters (srv : SrvBuilder R) : CounterMap :=
  counter_map (map fst (map_to_list (sv_inner_map srv))) (map in_tag (sv_inbounds srv)).
End Serve.

(** ** Specification *)

(** What happens to the counters: a relay counts, the API reads. *)
Inductive stat_op := Count (name : bytes) (n : nat) | Stats (name : bytes) (reset : bool).

Definition stat_step (o : stat_op) (m : CounterMap) : CounterMap :=
  match o with
  | Count name n => alter (fun v => fetch_add v n) name m
  | Stats name reset => (get_stats name reset m).2
  end.

Definition stat_run (os : list stat_op) (m : CounterMap) : CounterMap := fold_left (fun m o => stat_step o m) os m.

(** The bytes counted under a name. *)
Definition counted_bytes (name : bytes) (os : list stat_op) : Z :=
  fold_right (fun o z => match o with Count k n => if decide (k = name) then Z.of_nat n + z else z | _ => z end)%Z 0%Z os.

(** The values reported by the calls that reset the counter. *)
Fixpoint reported (name : bytes) (os : list stat_op) (m : CounterMap) : Z :=
  match os with
  | [] => 0
  | o :: os =>
      (match o with
       | Stats k true =>
           if decide (k = name) then match (get_stats k true m).1 with inr (_, v) => v | inl _ => 0 end else 0
       | _ => 0
       end + reported name os (stat_step o m))%Z
  end.

(** ** Lemmas *)

Lemma insert_counters_lookup up down ts m k :
  insert_counters up down ts m !! k =
    if decide (k ∈ up <$> ts \/ k ∈ down <$> ts) then Some 0%Z else m !! k.
Proof.
  revert m. induction ts as [|t ts IH]; intros m.
  - unfold insert_counters. cbn. rewrite decide_False; [done|]. intros [Hk|Hk]; by apply not_elem_of_nil in Hk.
  - unfold insert_counters in *. cbn [fold_left]. rewrite IH, !fmap_cons.
    destruct (decide (k ∈ up <$> ts \/ k ∈ down <$> ts)) as [Hin|Hni].
    { rewrite decide_True; [done|]. rewrite !elem_of_cons. tauto. }
    destruct (decide (k = down t)) as [->|Hd].
    { rewrite lookup_insert_eq, decide_True; [done|]. rewrite !elem_of_cons. tauto. }
    rewrite lookup_insert_ne by done. destruct (decide (k = up t)) as [->|Hu].
    { rewrite lookup_insert_eq, decide_True; [done|]. rewrite !elem_of_cons. tauto. }
    rewrite lookup_insert_ne, decide_False by (rewrite ?elem_of_cons; tauto || done). done.
Qed.

Lemma insert_counters_some up down ts m k :
  is_Some (m !! k) \/ k ∈ up <$> ts \/ k ∈ down <$> ts -> is_Some (insert_counters up down ts m !! k).
Proof. rewrite insert_counters_lookup. case_decide; [by eauto|]. tauto. Qed.

(** Every counter a relay asks for is there. *)
Lemma counter_map_in outs ins t : t ∈ ins \/ t = str "dokodemo" ->
  is_Some (counter_map outs ins !! in_up t) /\ is_Some (counter_map outs ins !! in_down t).
Proof.
  intros [Ht| ->]; unfold counter_map; split; apply insert_counters_some.
  - left. apply insert_counters_some. right. left. apply list_elem_of_fmap. eauto.
  - left. apply insert_counters_some. right. right. apply list_elem_of_fmap. eauto.
  - right. left. apply list_elem_of_fmap. exists (str "dokodemo"). split; [done|by left].
  - right. right. apply list_elem_of_fmap. exists (str "dokodemo"). split; [done|by left].
Qed.

Lemma counter_map_out outs ins t : t ∈ outs ->
  is_Some (counter_map outs ins !! out_up t) /\ is_Some (counter_map outs ins !! out_down t).
Proof.
  intros Ht. unfold counter_map. split; apply insert_counters_some; left; apply insert_counters_some; left;
    apply insert_counters_some; right; [left|right]; apply list_elem_of_fmap; eauto.
Qed.

Definition all_counters (i o : tag) : RelayCounters := mkRelayCounters (in_up i) (in_down i) (out_up o) (out_down o).

Lemma relay_counters_ok (m : CounterMap) (outs ins : list tag) (i o : tag) :
  dom m = dom (counter_map outs ins) -> o ∈ outs -> i ∈ ins \/ i = str "dokodemo" ->
  relay_counters m i o = Ok (all_counters i o).
Proof.
  intros Hd Ho Hi. pose proof (counter_map_in outs ins i Hi) as [H1 H2]. pose proof (counter_map_out outs ins o Ho) as [H3 H4].
  assert (forall k, is_Some (counter_map outs ins !! k) -> counter m k = Ok k) as Hc.
  { intros k Hk. unfold counter. apply elem_of_dom in Hk. rewrite <- Hd, elem_of_dom in Hk. by destruct Hk as [v ->]. }
  unfold relay_counters. by rewrite !Hc.
Qed.

Lemma stat_step_dom (o : stat_op) (m : CounterMap) : dom (stat_step o m) = dom m.
Proof.
  destruct o as [k n|k r]; simpl; [apply dom_alter_L|]. unfold get_stats. destruct (m !! k) eqn:E; [|done].
  destruct r; [|done]. simpl. rewrite dom_insert_L. apply elem_of_dom_2 in E. set_solver.
Qed.

Lemma stat_run_dom (os : list stat_op) (m : CounterMap) : dom (stat_run os m) = dom m.
Proof. revert m. induction os as [|o os IH]; intros m; [done|].
  change (stat_run (o :: os) m) with (stat_run os (stat_step o m)). rewrite IH. apply stat_step_dom.
Qed.

Lemma peek_flowing s1 s2 b l : flowing s1 -> rd_bytes s1 = b :: l -> peek (s1 ++ s2) = Ok b.
Proof.
  intros Hs. induction Hs as [|e s1 He Hs IH]; [done|]. destruct e as [|[|c bs]|e]; try done.
  intros Hr. simpl in *. congruence.
Qed.

Lemma as_i64_mod z : (0 <= z < 2 ^ 64)%Z -> (as_i64 z mod 2 ^ 64 = z mod 2 ^ 64)%Z.
Proof.
  intros Hz. unfold as_i64. case_decide; [done|].
  replace (z - 2 ^ 64)%Z with (z + (-1) * 2 ^ 64)%Z by lia. by rewrite Z_mod_plus_full.
Qed.

Lemma fetch_add_range v n : (0 <= fetch_add v n < 2 ^ 64)%Z.
Proof. unfold fetch_add, wrap. apply Z.mod_pos_bound. lia. Qed.

Lemma stat_step_value (name : bytes) (o : stat_op) (m : CounterMap) v : m !! name = Some v -> (0 <= v < 2 ^ 64)%Z ->
  exists v', stat_step o m !! name = Some v' /\ (0 <= v' < 2 ^ 64)%Z /\
    ((reported name [o] m + v') mod 2 ^ 64 = (v + counted_bytes name [o]) mod 2 ^ 64)%Z.
Proof.
  intros Hm Hv. destruct o as [k n|k r]; simpl.
  - destruct (decide (k = name)) as [->|Hne].
    + rewrite lookup_alter_eq, Hm. exists (fetch_add v n). split_and!; [done|apply fetch_add_range..|].
      unfold fetch_add, wrap. rewrite Z.add_0_l, Z.mod_mod by lia. f_equal. lia.
    + rewrite lookup_alter_ne by done. exists v. split_and!; [done|lia|lia|]. f_equal. lia.
  - unfold get_stats. destruct r.
    + destruct (decide (k = name)) as [->|Hne].
      * rewrite Hm. simpl. rewrite lookup_insert_eq. exists 0%Z. split_and!; [done|lia|lia|].
        rewrite !Z.add_0_r. by apply as_i64_mod.
      * exists v. destruct (m !! k); simpl; rewrite ?lookup_insert_ne by done; split_and!; try done; try lia; f_equal; lia.
    + exists v. destruct (m !! k); simpl; split_and!; try done; try lia; f_equal; lia.
Qed.

(** ** Theorems *)

(** C16: no traffic is lost between the relays and the API, however their
    accesses interleave: for every counter, the values reported by the calls
    that reset it and the value it has at the end add up to its first value and
    the bytes counted, modulo 2^64.  A name that is not a counter is refused
    and changes nothing; no access changes which counters there are. *)
Theorem stats_conserved (name : bytes) (os : list stat_op) (m : CounterMap) :
  (forall v, m !! name = Some v -> (0 <= v < 2 ^ 64)%Z ->
     exists v', stat_run os m !! name = Some v' /\
       ((reported name os m + v') mod 2 ^ 64 = (v + counted_bytes name os) mod 2 ^ 64)%Z) /\
  (m !! name = None -> forall r, get_stats name r (stat_run os m) = (inl (InvalidArgument "name is invalid"), stat_run os m)) /\
  dom (stat_run os m) = dom m.
Proof.
  split_and!; [| |apply stat_run_dom].
  - revert m. induction os as [|o os IH]; intros m v Hm Hv.
    + exists v. split; [done|]. simpl. f_equal. lia.
    + destruct (stat_step_value name o m v Hm Hv) as (v1 & Hm1 & Hv1 & E1).
      destruct (IH _ _ Hm1 Hv1) as (v' & Hm' & E'). exists v'. split; [done|].
      assert (reported name (o :: os) m = reported name [o] m + reported name os (stat_step o m))%Z as ->
        by (simpl; lia).
      assert (counted_bytes name (o :: os) = counted_bytes name [o] + counted_bytes name os)%Z as ->
        by (destruct o; simpl; [case_decide; lia|lia]).
      rewrite <- Z.add_assoc, <- Zplus_mod_idemp_r, E', Zplus_mod_idemp_r.
      rewrite Z.add_assoc, <- Zplus_mod_idemp_l, E1, Zplus_mod_idemp_l. f_equal. lia.
  - intros Hn r. unfold get_stats. assert (stat_run os m !! name = None) as ->; [|done].
    apply not_elem_of_dom. rewrite stat_run_dom. by apply not_elem_of_dom.
Qed.

Section ServeProofs.
Context `{AeadCrypto} (sha224 : bytes -> bytes) {Uri Method PathAndQuery : Type}.
Context {CB Connector X509 : Type} `{SslConnectorBuilder CB, SslCertStore CB X509, SslBuild CB Connector}.
Context {S U Ip : Type} (uninit : bytes) (native : res (list X509)).
Context (apply_tcp : Builder (Uri := Uri) (Method := Method) (PathAndQuery := PathAndQuery) (Connector := Connector) -> S -> res S).
Context (apply_udp : Builder (Uri := Uri) (Method := Method) (PathAndQuery := PathAndQuery) (Connector := Connector) -> U -> bool -> res U).
Context `{Dialer S U Ip} {R : Type} (match_addr : R -> Address -> res tag).

Implicit Type srv : ConfigServerBuilder (Uri := Uri) (Method := Method) (PathAndQuery := PathAndQuery) (Connector := Connector) R.

(** The stream through a chain, in the server's environment. *)
Definition through srv (t : tag) (target : Address) : option (res S) :=
  match sv_inner_map srv !! t with
  | Some ch => Some (@chain_build_tcp _ _ _ _ _ (srv_bld apply_tcp apply_udp) (srv_cfg sha224 uninit native) _ ch target)
  | None => None
  end.

Definition serve srv := serve_inbound sha224 uninit native apply_tcp apply_udp match_addr srv.

Lemma open_outbound_spec srv (m : CounterMap) (i ob : tag) target :
  dom m = dom (run_counters srv) -> i ∈ map in_tag (sv_inbounds srv) \/ i = str "dokodemo" ->
  open_outbound sha224 uninit native apply_tcp apply_udp srv m i ob target =
  match through srv ob target with
  | None => Panic
  | Some (Ok out) => Ok (ServeRelay ob out (if sv_enable_api_server srv then Some (all_counters i ob) else None))
  | Some (Err e) => Err e
  | Some Panic => Panic
  end.
Proof.
  intros Hd Hi. unfold open_outbound, through. destruct (sv_inner_map srv !! ob) as [ch|] eqn:Ech; [|done].
  destruct (chain_build_tcp ch target) as [out|e|]; [|done..]. cbn [mbind res_bind].
  destruct (sv_enable_api_server srv); [|done].
  rewrite (relay_counters_ok m (map fst (map_to_list (sv_inner_map srv))) (map in_tag (sv_inbounds srv)) i ob Hd); [done| |done].
  apply elem_of_map_to_list in Ech. apply list_elem_of_In, in_map_iff. exists (ob, ch). split; [done|]. by apply list_elem_of_In.
Qed.

(** C13: a client's CONNECT, from the first byte to the relay.  For a client
that offers "no authentication" and asks for a target, the server answers
the handshake, routes the target, and opens the stream of the routed
outbound to it, or fails as that stream fails; the relay that follows starts
at the first byte after the request and, when the API is enabled, counts on
four counters that exist, whatever was counted or reset before.  The
connection's handler panics when the router answers a tag that is not an
outbound.  Any other first byte hands the connection to the HTTP inbound,
untouched. *)
Theorem serve_connect srv (m : CounterMap) ib peer local bind s1 s2 w methods rsv a r t :
  dom m = dom (run_counters srv) -> ib ∈ sv_inbounds srv ->
  flowing s1 -> rd_bytes s1 = response [SOCKS_VERSION; Z.of_nat (length methods)] ++ methods ->
  length methods < 256 -> contains USER_PASS methods = false -> contains NO_AUTH methods = true -> writes_ok w ->
  Address_ok a = true -> rd_bytes s2 = [z2b SOCKS_VERSION; z2b CONNECT; rsv] ++ Address.encode a ++ r ->
  match_addr (sv_router srv) (wire_norm a) = Ok t ->
  (exists s', serve srv m ib peer local bind (mkStream (s1 ++ s2) w) =
    Some (match through srv t (wire_norm a) with
    | Some (Ok out) => Ok (ServeRelay t out (if sv_enable_api_server srv then Some (all_counters (in_tag ib) t) else None))
    | Some (Err e) => Err e
    | Some Panic | None => Panic
    end, s') /\
    rd_bytes (st_rd s') = r /\
    wr_log (st_wr s') = wr_log w ++ response [SOCKS_VERSION; NO_AUTH] ++ reply SUCCESS (SocketAddress local)) /\
  (forall io b, peek (st_rd io) = Ok b -> b2z b <> SOCKS_VERSION -> serve srv m ib peer local bind io = Some (Ok ServeHttp, io)).
Proof.
  intros Hd Hib Hs1 Hr1 Hl Hu Hn Hw Ha Hr2 Hm. split.
  - unfold serve, serve_inbound. cbn [st_rd]. rewrite (peek_flowing s1 s2 _ _ Hs1 Hr1).
    rewrite (decide_False (P := b2z _ <> _)) by (intros Hc; by apply Hc).
    set (ua := if in_enable_udp ib then _ else _).
    destruct (negotiate_no_auth (Socks5Stream_new local) s1 s2 w methods Hs1 Hr1 Hl Hu Hn Hw)
      as (s1' & w' & En & Hs1' & Hr1' & Hw' & Hlog).
    destruct (request_spec (Socks5Stream_new local) ua bind None (z2b CONNECT) rsv a r (mkStream (s1' ++ s2) w') Ha Hw')
      as (s' & Hrest & Hc & _).
    { cbn [st_rd]. by rewrite rd_bytes_app, Hr1', Hr2. }
    destruct (Hc eq_refl) as [Er Hlog']. exists s'. unfold init. rewrite En, Er, Hm. cbn [mbind res_bind].
    rewrite open_outbound_spec; [|done|left; by apply list_elem_of_In, in_map, list_elem_of_In].
    split; [by destruct (through _ _ _) as [[]|]|]. split; [done|]. rewrite Hlog'. cbn [st_wr]. by rewrite Hlog, <- app_assoc.
  - intros io b Hb Hne. unfold serve, serve_inbound. rewrite Hb. by rewrite decide_True.
Qed.
End ServeProofs.

(** ** Witnesses *)

Section Witness.
#[local] Existing Instance toy_crypto.
#[local] Existing Instances toy_ssl toy_store toy_ssl_build.
#[local] Instance wit_dialer : Dialer Address Address unit := {|
    connect_tcp a := Ok a;
    connect_tcp_u a := Ok a;
    bind_connect_udp _ a := Ok a
  |}.

Definition wit_bld (b : Builder (Uri := bytes) (Method := bytes) (PathAndQuery := bytes) (Connector := list bytes)) (a : Address) : res Address := Ok a.
Definition wit_bld_udp (b : Builder (Uri := bytes) (Method := bytes) (PathAndQuery := bytes) (Connector := list bytes)) (a : Address) (i : bool)
  : res Address := Ok a.

Definition wit_server : ConfigServerBuilder (Uri := bytes) (Method := bytes) (PathAndQuery := bytes) (Connector := list bytes) unit :=
  mkServerBuilder tt {[ str "out" := ChainStreamBuilder_new ]} [mkInbounds new_dummy_address true (str "in")] [] 4096 20 true
  new_dummy_address.

Definition wit_client (a : Address) : Stream :=
  mkStream ([RdData [x05]; RdPending; RdData [x01; x00]] ++ [RdData (response [5; 1; 0]%Z ++ Address.encode a ++ [xff])])
  (mkWriter [] [] [] 0 [] 0).

Lemma serve_connect_witness :
  let a := DomainNameAddress (str "example.org") 443 in
  exists s', serve (fun x => x) [] (Ok []) wit_bld wit_bld_udp (fun _ _ => Ok (str "out")) wit_server (run_counters wit_server)
  (mkInbounds new_dummy_address true (str "in")) (V4 (mkIpv4 x01 x02 x03 x04) 5) (V4 (mkIpv4 x7f x00 x00 x01) 1080)
  (fun x => Ok x) (wit_client a)
  = Some (Ok (ServeRelay (str "out") a (Some (all_counters (str "in") (str "out")))), s') /\ rd_bytes (st_rd s') = [xff].
Proof.
  intros a.
  destruct (proj1 (serve_connect (fun x => x) [] (Ok []) wit_bld wit_bld_udp (fun _ _ => Ok (str "out")) wit_server (run_counters wit_server)
    (mkInbounds new_dummy_address true (str "in")) (V4 (mkIpv4 x01 x02 x03 x04) 5) (V4 (mkIpv4 x7f x00 x00 x01) 1080)
    (fun x => Ok x) [RdData [x05]; RdPending; RdData [x01; x00]] [RdData (response [5; 1; 0]%Z ++ Address.encode a ++ [xff])]
    (mkWriter [] [] [] 0 [] 0) [x00] x00 a [xff] (str "out") eq_refl ltac:(by left) ltac:(repeat constructor; done)
    ltac:(vm_compute; reflexivity) ltac:(simpl; lia) ltac:(vm_compute; reflexivity) ltac:(vm_compute; reflexivity)
    ltac:(constructor) ltac:(vm_compute; reflexivity) ltac:(vm_compute; reflexivity) eq_refl)) as (s' & E & Hr & _).
  exists s'. split; [|exact Hr]. unfold wit_client. rewrite E. reflexivity.
Defined.

Lemma stats_conserved_witness :
  exists v', stat_run [Count (str "c") 5; Stats (str "c") true; Count (str "c") 7] {[ str "c" := 10%Z ]} !! str "c" = Some v' /\
  ((15 + v') mod 2 ^ 64 = 22)%Z.
Proof.
  destruct (proj1 (stats_conserved (str "c") [Count (str "c") 5; Stats (str "c") true; Count (str "c") 7]
    {[ str "c" := 10%Z ]}) 10%Z) as (v' & E & Hv).
  - reflexivity.
  - lia.
  - exists v'. split; [exact E|]. exact Hv.
Defined.
End Witness.
