(* ===== verification/H2Io.v ===== *)
(** * The streams of the crate [h2]

    [h2::RecvStream] and [h2::SendStream] are third-party code: they are
    classes here, and their laws are what the crate documents about DATA
    frames, about the receive window and about the send capacity.  A scripted
    instance of each shows that the laws can hold and runs the witnesses. *)

From S2P Require Import Prelude Io.
From Stdlib Require Import ZArith Lia List.
From stdpp Require Import base option list strings.

(** ** Receiving

    [poll_data] answers the next DATA frame, an error, or [None] after the
    last one.  Each byte received counts as in flight until
    [flow_control().release_capacity] gives its part of the receive window
    back to the peer; releasing more than is in flight is an error. *)
Class RecvStream (R : Type) := {
  poll_data : R -> Poll (option (res bytes)) * R;
  release_capacity : nat -> R -> res unit * R;
  rs_frames : R -> list bytes;          (* the frames still to come *)
  in_flight : R -> nat;
  poll_data_law r p r' :
    poll_data r = (p, r') ->
    match p with
    | Ready (Some (Ok d)) => rs_frames r = d :: rs_frames r' /\ in_flight r' = in_flight r + length d
    | Ready (Some Panic) => False
    | Ready _ => rs_frames r = [] /\ rs_frames r' = [] /\ in_flight r' = in_flight r
    | Pending => rs_frames r' = rs_frames r /\ in_flight r' = in_flight r
    end;
  release_capacity_law n r :
    n <= in_flight r ->
    exists r', release_capacity n r = (Ok tt, r') /\ rs_frames r' = rs_frames r /\ in_flight r' = in_flight r - n
}.

(** ** Sending

    [reserve_capacity n] asks for room for [n] bytes and replaces an earlier
    request; [poll_capacity] answers how much there is, at most what was asked
    for, and [None] when the stream is no longer open; [send_data] queues a
    frame, whatever the capacity. *)
Class SendStream (W : Type) := {
  reserve_capacity : nat -> W -> W;
  poll_capacity : W -> Poll (option (res nat)) * W;
  send_data : bytes -> bool -> W -> res unit * W;
  ss_frames : W -> list bytes;          (* the frames queued so far *)
  ss_requested : W -> nat;
  ss_ended : W -> bool;                 (* END_STREAM was queued *)
  reserve_capacity_law n w :
    ss_frames (reserve_capacity n w) = ss_frames w /\ ss_requested (reserve_capacity n w) = n
    /\ ss_ended (reserve_capacity n w) = ss_ended w;
  poll_capacity_law w p w' :
    poll_capacity w = (p, w') ->
    ss_frames w' = ss_frames w /\ ss_ended w' = ss_ended w /\
    match p with
    | Ready (Some (Ok n)) => n <= ss_requested w
    | Ready (Some Panic) => False
    | _ => True
    end;
  send_data_law d eos w q w' :
    send_data d eos w = (q, w') ->
    match q with
    | Ok _ => ss_frames w' = ss_frames w ++ [d] /\ ss_ended w' = (ss_ended w || eos)
    | Err _ => ss_frames w' = ss_frames w /\ ss_ended w' = ss_ended w
    | Panic => False
    end
}.

Definition broken_pipe : io_error := IoError BrokenPipe "broken pipe".

(** [|e| Error::new(kind, e)]: the kind is replaced, the text kept. *)
Definition with_kind {A} (k : ErrorKind) (r : res A) : res A :=
  match r with
  | Err e => Err (IoError k (err_msg e))
  | r => r
  end.

Section Shutdown.
Context {W : Type} `{SendStream W}.

(** [poll_shutdown] of both transports. *)
Definition h2_poll_shutdown (w : W) : Poll (res unit) * W :=
  let w := reserve_capacity 0 w in
  match poll_capacity w with
  | (Pending, w) => (Pending, w)
  | (Ready None, w) => (Ready (Err broken_pipe), w)
  | (Ready (Some _), w) => let '(q, w) := send_data [] true w in (Ready (with_kind BrokenPipe q), w)
  end.

(** Shutting down queues nothing but the end of the stream. *)
Lemma h2_poll_shutdown_spec w p w' :
  h2_poll_shutdown w = (p, w') ->
  match p with
  | Ready (Ok _) => ss_ended w' = true /\ ss_frames w' = ss_frames w ++ [[]]
  | Ready Panic => False
  | _ => ss_ended w' = ss_ended w /\ ss_frames w' = ss_frames w
  end.
Proof.
  unfold h2_poll_shutdown. destruct (reserve_capacity_law 0 w) as (Hf & _ & He).
  destruct (poll_capacity _) as [q w1] eqn:Ec. apply poll_capacity_law in Ec as (Hf1 & He1 & _).
  destruct q as [[o|]|]; [|intros; simplify_eq/=; split; congruence..].
  destruct (send_data _ _ _) as [q w2] eqn:Es. apply send_data_law in Es.
  intros; simplify_eq. destruct q as [[]|e|]; simpl; [|destruct Es; split; congruence|done].
  destruct Es as [-> ->]. rewrite orb_true_r. split; congruence.
Qed.
End Shutdown.

(** ** Scripted streams *)

Inductive h2_event := H2Pending | H2Data (d : bytes) | H2Err (e : io_error).

Record ScriptRecv := mkScriptRecv { sr_script : list h2_event; sr_in_flight : nat }.

Fixpoint script_frames (l : list h2_event) : list bytes :=
  match l with
  | [] | H2Err _ :: _ => []
  | H2Pending :: l' => script_frames l'
  | H2Data d :: l' => d :: script_frames l'
  end.

Definition script_poll_data (r : ScriptRecv) : Poll (option (res bytes)) * ScriptRecv :=
  match sr_script r with
  | [] => (Ready None, r)
  | H2Pending :: l => (Pending, mkScriptRecv l (sr_in_flight r))
  | H2Data d :: l => (Ready (Some (Ok d)), mkScriptRecv l (sr_in_flight r + length d))
  | H2Err e :: _ => (Ready (Some (Err e)), mkScriptRecv [] (sr_in_flight r))
  end.

#[export] Program Instance script_recv : RecvStream ScriptRecv := {|
  poll_data := script_poll_data;
  release_capacity n r :=
    if decide (n <= sr_in_flight r) then (Ok tt, mkScriptRecv (sr_script r) (sr_in_flight r - n))
    else (Err (IoError Other "user error"), r);
  rs_frames r := script_frames (sr_script r);
  in_flight := sr_in_flight
|}.
Next Obligation. intros [[|[]] ?] p r'; unfold script_poll_data; simpl; intros; simplify_eq/=; auto. Qed.
Next Obligation. intros n r Hn. simpl. rewrite decide_True by done. by eexists. Qed.

(** Answers of [poll_capacity]: a grant of at most [n] bytes. *)
Record ScriptSend := mkScriptSend {
  sn_grants : list (Poll (option nat)); sn_requested : nat; sn_frames : list bytes; sn_ended : bool }.

Definition script_poll_capacity (w : ScriptSend) : Poll (option (res nat)) * ScriptSend :=
  match sn_grants w with
  | [] => (Ready (Some (Ok (sn_requested w))), w)
  | g :: gs =>
      let w := mkScriptSend gs (sn_requested w) (sn_frames w) (sn_ended w) in
      (match g with
       | Pending => Pending
       | Ready None => Ready None
       | Ready (Some n) => Ready (Some (Ok (Nat.min n (sn_requested w))))
       end, w)
  end.

#[export] Program Instance script_send : SendStream ScriptSend := {|
  reserve_capacity n w := mkScriptSend (sn_grants w) n (sn_frames w) (sn_ended w);
  poll_capacity := script_poll_capacity;
  send_data d eos w := (Ok tt, mkScriptSend (sn_grants w) (sn_requested w) (sn_frames w ++ [d]) (sn_ended w || eos));
  ss_frames := sn_frames;
  ss_requested := sn_requested;
  ss_ended := sn_ended
|}.
Next Obligation. done. Qed.
Next Obligation.
  intros [[|[[n|]|] gs] r f e] p w'; unfold script_poll_capacity; simpl; intros; simplify_eq/=; auto with lia.
Qed.
Next Obligation. intros d eos w q w' [= <- <-]. done. Qed.
