(* ===== verification/Http2.v ===== *)
(** * The HTTP/2 transport (src/src/proxy/h2/mod.rs)

    One request whose body and response body are the two directions of a byte
    stream.  [Http2Stream] keeps what did not fit a destination in a buffer.
    The stream is a [PollSource] and a [PollSink]; the theorems add what the
    reader does to the receive window. *)

From S2P Require Import Prelude Io StdText Transport H2Io.
From Stdlib Require Import ZArith Lia List.
From stdpp Require Import base option list strings.

(** ** The request *)

Section Request.
(** The crate [http]: a URI from scheme, authority and path, and what it
accepts as a header. *)
Context {Uri Method PathAndQuery : Type}.
Context (build_uri : bytes -> bytes -> PathAndQuery -> res Uri).
Context (valid_header : bytes -> bytes -> bool).

Record Http2StreamBuilder := mkHttp2Builder {
  hb_hosts : list bytes;
  hb_headers : list (bytes * bytes);     (* in the order of iteration of the map *)
  hb_method : Method;
  hb_path : PathAndQuery
}.

Record Request := mkRequest {
  rq_uri : Uri; rq_method : Method; rq_headers : list (bytes * bytes) }.

(** [req]: [random] is the draw of [random::<usize>()].  The remainder by the
number of hosts panics when there are none; an invalid header is reported by
the builder, whose result is unwrapped. *)
Definition h2_req (random : nat) (b : Http2StreamBuilder) : res Request :=
  if decide (length (hb_hosts b) = 0) then Panic else
    let uri_idx := random mod length (hb_hosts b) in
    match hb_hosts b !! uri_idx with
    | None => Panic
    | Some host =>
      uri ← build_uri (str "https") host (hb_path b);
      let headers := filter (fun kv => kv.1 <> str "Host") (hb_headers b) in
      if forallb (fun kv => valid_header kv.1 kv.2) headers
      then Ok (mkRequest uri (hb_method b) headers)
      else Panic
    end.

Lemma h2_req_spec random b :
  hb_hosts b <> [] ->
  exists host, host ∈ hb_hosts b /\
  match h2_req random b with
  | Ok r => build_uri (str "https") host (hb_path b) = Ok (rq_uri r) /\ rq_method r = hb_method b
    /\ forall k v, (k, v) ∈ rq_headers r <-> (k, v) ∈ hb_headers b /\ k <> str "Host"
  | Err e => build_uri (str "https") host (hb_path b) = Err e
  | Panic => build_uri (str "https") host (hb_path b) = Panic
    \/ exists k v, (k, v) ∈ hb_headers b /\ valid_header k v = false
  end.
Proof.
  intros Hn. unfold h2_req. rewrite decide_False by (by intros ?%nil_length_inv).
  destruct (hb_hosts b) as [|h hs] eqn:E; [done|].
  destruct (lookup_lt_is_Some_2 (h :: hs) (random mod length (h :: hs))) as [host Hh].
  { apply Nat.mod_upper_bound. simpl. lia. }
  rewrite Hh. exists host. split; [by eapply list_elem_of_lookup_2|].
  destruct (build_uri _ _ _) as [uri|e|]; simpl; [|done|by left].
  destruct (forallb _ _) eqn:Ef.
  - simpl. split_and!; [done..|]. intros k v. rewrite list_elem_of_filter. simpl. tauto.
  - right. set (hs' := filter _ _) in Ef.
    destruct (decide (Exists (fun kv => valid_header kv.1 kv.2 = false) hs')) as [Hx|Hx].
    + apply Exists_exists in Hx as ([k v] & Hin & Hv). apply list_elem_of_filter in Hin as [_ Hin]. eauto.
    + rewrite (proj2 (forallb_forall _ _)) in Ef; [done|]. intros kv Hin.
      destruct (valid_header kv.1 kv.2) eqn:Ek; [done|]. destruct Hx. apply Exists_exists. exists kv.
      split; [by apply list_elem_of_In|done].
Qed.
End Request.

(** ** The stream *)

Section Stream.
Context {R W : Type} `{RecvStream R} `{SendStream W}.

Record Http2Stream := mkHttp2 { h2_recv : R; h2_send : W; h2_buffer : bytes }.

Definition Http2Stream_new (recv : R) (send : W) : Http2Stream := mkHttp2 recv send [].

(** [poll_read] with room for [cap] bytes. *)
Definition h2_poll_read (cap : nat) (s : Http2Stream) : Poll (res bytes) * Http2Stream :=
  match h2_buffer s with
  | _ :: _ =>
    let to_read := Nat.min cap (length (h2_buffer s)) in
    (Ready (Ok (take to_read (h2_buffer s))),
      mkHttp2 (h2_recv s) (h2_send s) (drop to_read (h2_buffer s)))
  | [] =>
    match poll_data (h2_recv s) with
    | (Pending, r) => (Pending, mkHttp2 r (h2_send s) [])
    | (Ready (Some (Ok data)), r) =>
      let to_read := Nat.min cap (length data) in
      let buffer := drop to_read data in
      let '(q, r) := release_capacity to_read r in
      (match with_kind ConnectionReset q with
      | Ok _ => Ready (Ok (take to_read data))
      | Err e => Ready (Err e)
      | Panic => Ready Panic
      end, mkHttp2 r (h2_send s) buffer)
    | (Ready _, r) => (Ready (Ok []), mkHttp2 r (h2_send s) [])
    end
  end.

(** [poll_write]: as much as the send capacity allows, as one frame. *)
Definition h2_poll_write (buf : bytes) (s : Http2Stream) : Poll (res nat) * Http2Stream :=
  let upd w := mkHttp2 (h2_recv s) w (h2_buffer s) in
  let w := reserve_capacity (length buf) (h2_send s) in
  match poll_capacity w with
  | (Pending, w) => (Pending, upd w)
  | (Ready (Some (Ok to_write)), w) =>
    if decide (to_write <= length buf) then
      let '(q, w) := send_data (take to_write buf) false w in
      (Ready (with_kind BrokenPipe (_ ← q; Ok to_write)), upd w)
    else (Ready Panic, upd w)
  | (Ready _, w) => (Ready (Err broken_pipe), upd w)
  end.

Definition h2_poll_flush (s : Http2Stream) : Poll (res unit) * Http2Stream := (Ready (Ok tt), s).

Definition h2_shutdown (s : Http2Stream) : Poll (res unit) * Http2Stream :=
  let '(p, w) := h2_poll_shutdown (h2_send s) in (p, mkHttp2 (h2_recv s) w (h2_buffer s)).

(** ** The interfaces *)

Definition h2_content (s : Http2Stream) : bytes := h2_buffer s ++ mjoin (rs_frames (h2_recv s)).
Definition h2_sent (s : Http2Stream) : bytes := mjoin (ss_frames (h2_send s)).

(** One poll: what is delivered, and what it does to the window.  A frame gives
back the part that fits the destination at once; bytes that wait in the
buffer are never given back. *)
Lemma h2_poll_read_step cap s p s' :
  h2_poll_read cap s = (p, s') ->
  h2_content s = answer_bytes p ++ h2_content s' /\ length (answer_bytes p) <= cap
  /\ match p with Ready (Ok _) | Pending => True | _ => False end
  /\ in_flight (h2_recv s') + length (h2_buffer s)
  = in_flight (h2_recv s) + length (h2_buffer s')
  + match h2_buffer s with [] => 0 | _ => length (answer_bytes p) end
  /\ (p = Ready (Ok []) -> 0 < cap -> h2_buffer s = [] /\
    (h2_content s' = [] \/ exists fs, rs_frames (h2_recv s) = [] :: fs)).
Proof.
  unfold h2_poll_read, h2_content. destruct s as [r w [|b buf]]; cbn [h2_buffer h2_recv h2_send].
  - destruct (poll_data r) as [q r1] eqn:Ed. pose proof (poll_data_law _ _ _ Ed) as Hl.
    destruct q as [[[data|e|]|]|].
    2-5: intros; simplify_eq/=; destruct_and?; repeat match goal with H : rs_frames _ = _ |- _ => rewrite H end;
      repeat split; try lia; try done; intros; by auto.
    destruct Hl as [Hf Hi].
    destruct (release_capacity_law (Nat.min cap (length data)) r1) as (r2 & Er & Hf2 & Hi2); [lia|].
    rewrite Er. cbn [with_kind]. intros [= <- <-].
    cbn [answer_bytes h2_buffer h2_recv length app]. rewrite Hf, Hf2. cbn [mjoin list_join].
    rewrite app_assoc, take_drop, length_take, length_drop, Hi2, Hi.
    split_and!; [done|lia|done|lia|]. intros [= Ht] Hc. split; [done|].
    destruct data as [|x data]; [eauto|]. destruct cap; [lia|done].
  - intros [= <- <-]. cbn [answer_bytes h2_buffer h2_recv].
    rewrite app_assoc, take_drop, length_take, length_drop. split_and!; [done|lia|done|lia|].
    intros [= Ht] Hc. by (destruct cap; [lia|]).
Qed.

#[export] Instance h2_source : PollSource h2_poll_read (fun s c => c = h2_content s).
Proof.
  constructor. intros cap s c p s' -> Hp%h2_poll_read_step. destruct Hp as (Hc & Hl & Hp & _).
  split_and!; [done|by intros ->|eauto].
Qed.

#[export] Instance h2_sink : PollSink h2_poll_write (fun _ => True) h2_sent.
Proof.
  constructor. intros buf s p s' _. unfold h2_poll_write, h2_sent.
  destruct (reserve_capacity_law (length buf) (h2_send s)) as (Hf & Hr & _).
  destruct (poll_capacity _) as [q w1] eqn:Ec. apply poll_capacity_law in Ec as (Hf1 & _ & Hn).
  rewrite Hr in Hn. destruct q as [[[n|e|]|]|]; try done.
  2-4: intros; simplify_eq/=; split; [done|congruence].
  rewrite decide_True by done. destruct (send_data _ _ _) as [q w2] eqn:Es. apply send_data_law in Es.
  intros; simplify_eq; split; [done|]. destruct q as [[]|e|]; simpl; [|destruct Es; congruence|done].
  destruct Es as [-> _]. rewrite Hf1, Hf. split; [done|].
  by rewrite join_app; cbn [mjoin list_join]; rewrite app_nil_r.
Qed.

(** ** Whole runs *)

(** The bytes of a run of polls that went through the buffer. *)
Fixpoint via_buffer (caps : list nat) (s : Http2Stream) : nat :=
  match caps with
  | [] => 0
  | cap :: caps' =>
    let '(p, s1) := h2_poll_read cap s in
    match h2_buffer s with [] => 0 | _ => length (answer_bytes p) end + via_buffer caps' s1
  end.

Lemma h2_window_run caps s ps s' :
  poll_reads h2_poll_read caps s = (ps, s') ->
  in_flight (h2_recv s') + length (h2_buffer s)
  = in_flight (h2_recv s) + length (h2_buffer s') + via_buffer caps s.
Proof.
  revert s ps. induction caps as [|cap caps IH]; intros s ps; simpl; [intros [= <- <-]; lia|].
  destruct (h2_poll_read cap s) as [p s1] eqn:E. apply h2_poll_read_step in E as (_ & _ & Hp & Hi & _).
  destruct p as [[d|e|]|]; try done; destruct (poll_reads _ _ _) as [qs s2] eqn:Eq;
    intros [= <- <-]; apply IH in Eq; simpl in *; lia.
Qed.

Lemma h2_reads_ok caps s ps s' :
  poll_reads h2_poll_read caps s = (ps, s') ->
  Forall (fun p => match p with Ready (Ok _) | Pending => True | _ => False end) ps.
Proof.
  revert s ps. induction caps as [|cap caps IH]; intros s ps; simpl; [by intros [= <- <-]|].
  destruct (h2_poll_read cap s) as [p s1] eqn:E. apply h2_poll_read_step in E as (_ & _ & Hp & _).
  destruct p as [[d|e|]|]; try done; destruct (poll_reads _ _ _) as [qs s2] eqn:Eq;
    intros [= <- <-]; constructor; [done|by eapply IH|done|by eapply IH].
Qed.

(** C19: an HTTP/2 stream delivers the data of the frames in order and
unchanged, under any sizes of frames and destinations, and what it was
handed is queued for the peer in order; a poll with room answers nothing only
at the end of the data, or for an empty frame, which its caller takes for
the end; but of the receive window it gives
back only what a destination could take at once: every byte that waited in
the buffer stays charged to the peer for good. *)
Theorem http2_stream recv send caps ps s' :
  poll_reads h2_poll_read caps (Http2Stream_new recv send) = (ps, s') ->
  mjoin (rs_frames recv) = delivered ps ++ h2_content s'
  /\ Forall (fun p => match p with Ready (Ok _) | Pending => True | _ => False end) ps
  /\ in_flight (h2_recv s') = in_flight recv + length (h2_buffer s') + via_buffer caps (Http2Stream_new recv send)
  /\ (forall cap s1, 0 < cap -> h2_poll_read cap s' = (Ready (Ok []), s1) ->
    h2_content s1 = [] \/ exists fs, rs_frames (h2_recv s') = [] :: fs)
  /\ forall fuel data q s2, sink_write_all h2_poll_write fuel data s' = (q, s2) ->
  exists d, d `prefix_of` data /\ h2_sent s2 = mjoin (ss_frames (h2_send s')) ++ d
  /\ (q = Ready (Ok tt) -> d = data).
Proof.
  intros Hr. pose proof (h2_window_run _ _ _ _ Hr) as Hw. simpl in Hw.
  assert (Forall (fun p => match p with Ready (Ok _) | Pending => True | _ => False end) ps) as Hok
    by (by eapply h2_reads_ok).
  split_and!; [|done|..].
  - destruct (source_reads _ _ _ _ _ eq_refl Hr) as (_ & c & Hc & Hs).
    change (h2_content (Http2Stream_new recv send)) with (mjoin (rs_frames recv)) in Hc.
    rewrite Hc, Hs; [done|]. eapply Forall_impl; [exact Hok|]. by intros [[]|].
  - lia.
  - intros cap s1 Hc H1. apply h2_poll_read_step in H1 as (_ & _ & _ & _ & He). by apply He.
  - intros fuel data q s2 Hq. by destruct (sink_write_all_spec _ _ _ _ _ Logic.I Hq) as (_ & _ & Hd).
Qed.
End Stream.

(** ** Building the stream *)

Section Build.
Context {R W : Type} `{RecvStream R} `{SendStream W}.
Context {Uri Method PathAndQuery Io Client : Type}.
Context (build_uri : bytes -> bytes -> PathAndQuery -> res Uri) (valid_header : bytes -> bytes -> bool).
(** [h2::client::handshake], [send_request] and the awaited response. *)
Context (handshake : Io -> res Client).
Context (send_request : Client -> @Request Uri Method -> res (res R * W)).

(** [http2_build_tcp_impl!]. *)
Definition h2_build_tcp (random : nat) (b : @Http2StreamBuilder Method PathAndQuery) (io : Io) : res (@Http2Stream R W) :=
  client ← map_new_error (handshake io);
  req ← h2_req (fun s h p => map_new_error (build_uri s h p)) valid_header random b;
  '(resp, send_stream) ← map_new_error (send_request client req);
  recv_stream ← map_new_error resp;
  Ok (Http2Stream_new recv_stream send_stream).

Definition h2_build_udp (random : nat) (b : @Http2StreamBuilder Method PathAndQuery) (io : Io)
  (build_tcp_inside : bool) : res (@Http2Stream R W + Io) :=
  if build_tcp_inside then inl <$> h2_build_tcp random b io else Ok (inr io).

(** A stream that was built has nothing buffered and reads the response's body. *)
Lemma h2_build_tcp_ok random b io s :
  h2_build_tcp random b io = Ok s ->
  hb_hosts b <> [] /\ h2_buffer s = [] /\
  exists client req, handshake io = Ok client /\ send_request client req = Ok (Ok (h2_recv s), h2_send s)
  /\ rq_method req = hb_method b.
Proof.
  unfold h2_build_tcp. destruct (handshake io) as [c|?|] eqn:Eh; try done. cbn [map_new_error mbind res_bind].
  destruct (h2_req _ _ _ _) as [q|?|] eqn:Eq; try done. cbn [mbind res_bind].
  destruct (send_request c q) as [[resp snd]|?|] eqn:Es; try done. cbn [map_new_error mbind res_bind].
  destruct resp as [r|?|]; try done. cbn [map_new_error mbind res_bind]. intros [= <-].
  assert (hb_hosts b <> []) as Hn by (intros Hn; unfold h2_req in Eq; by rewrite Hn in Eq).
  split_and!; [done..|]. exists c, q. split_and!; [done..|].
  destruct (h2_req_spec (fun s h p => map_new_error (build_uri s h p)) valid_header random b Hn) as (? & _ & Hs).
  rewrite Eq in Hs. tauto.
Qed.
End Build.

(** ** Witnesses *)

Section Witness.
(** Two frames, the first longer than the reader's destination. *)
Definition wit_recv : ScriptRecv := mkScriptRecv [H2Data (str "hello"); H2Pending; H2Data (str "!")] 0.
Definition wit_send : ScriptSend := mkScriptSend [Ready (Some 2); Pending] 0 [] false.
Definition wit_caps : list nat := [3; 8; 8; 8; 8].

Lemma http2_stream_witness :
  let '(ps, s') := poll_reads h2_poll_read wit_caps (Http2Stream_new wit_recv wit_send) in
  delivered ps = str "hello!" /\ in_flight (h2_recv s') = 2
  /\ h2_sent (sink_write_all h2_poll_write 8 (str "answer") s').2 = str "answer".
Proof.
  destruct (poll_reads h2_poll_read wit_caps (Http2Stream_new wit_recv wit_send)) as [ps s'] eqn:E.
  destruct (http2_stream wit_recv wit_send wit_caps ps s' E) as (Hd & _ & Hw & _ & Hs).
  assert (h2_content s' = [] /\ h2_buffer s' = [] /\ ss_frames (h2_send s') = []) as (Hc & Hb & Hf)
    by (apply (f_equal snd) in E; vm_compute in E; subst s'; split_and!; reflexivity).
  rewrite Hc, app_nil_r in Hd. rewrite Hb in Hw. rewrite Hf in Hs.
  destruct (sink_write_all h2_poll_write 8 (str "answer") s') as [q s2] eqn:Eq.
  destruct (Hs _ _ _ _ Eq) as (d & _ & Hd2 & Hk).
  split_and!; [by rewrite <- Hd|by rewrite Hw|].
  cbn [snd]. rewrite Hd2. cbn [mjoin list_join app]. apply Hk.
  apply (f_equal snd) in E. vm_compute in E. subst s'. apply (f_equal fst) in Eq. vm_compute in Eq. by rewrite Eq.
Defined.
End Witness.
