(* ===== verification/Grpc.v ===== *)
(** * The gRPC transport (src/src/proxy/grpc/mod.rs)

    The bytes of a stream travel as gRPC messages with one protobuf field, in
    the bodies of one HTTP/2 request and its response.  The writer sends one
    message per write; the reader strips the message headers.  [payload_len]
    counts the bytes of the current message that were not delivered yet.

    The reader is correct as long as no message begins inside an HTTP/2 frame
    behind another one, and no message header is cut: the theorems say what it
    delivers then, and what happens otherwise. *)

From S2P Require Import Prelude Io StdText Leb128 Transport H2Io.
From Stdlib Require Import ZArith Lia List Strings.Byte.
From stdpp Require Import base option list strings.

(** ** Parameters *)

(** [prost::encoding]: variable-length integers of 64 bits. *)
Class Varint := {
  encode_varint : Z -> bytes;
  decode_varint : bytes -> res (Z * bytes);
  decode_encode v r : (0 <= v < 2 ^ 64)%Z -> decode_varint (encode_varint v ++ r) = Ok (v, r);
  encode_varint_length v : (0 <= v < 2 ^ 64)%Z -> 1 <= length (encode_varint v) <= 10;
  decode_varint_law b :
    match decode_varint b with
    | Ok (v, r) => (0 <= v < 2 ^ 64)%Z /\ length r < length b
    | Err _ => True
    | Panic => False
    end
}.

(** [h2::client::ResponseFuture], mapped to the body of the response. *)
Class ResponseFuture (F R : Type) := {
  poll_response : F -> Poll (res R) * F;
  resp_body : F -> R;
  poll_response_law f p f' :
    poll_response f = (p, f') ->
    resp_body f' = resp_body f /\
    match p with Ready (Ok r) => r = resp_body f | Ready Panic => False | _ => True end
}.

Section Grpc.
Context {F R W : Type} `{RecvStream R} `{SendStream W} `{ResponseFuture F R} `{Varint}.
Context (oc : bool).      (* overflow checks *)

Record GrpcStream := mkGrpc {
  g_resp_fut : F;
  g_recv : option R;
  g_send : W;
  g_buffer : bytes;
  g_payload_len : Z
}.

Definition GrpcStream_new (resp_fut : F) (send : W) : GrpcStream := mkGrpc resp_fut None send [] 0.

(** ** Writing *)

(** [reserve_send_capacity]: the varint is written into 10 bytes, of which
[unused] stay. *)
Definition reserve_send_capacity (data : bytes) (w : W) : W :=
  let unused := 10 - length (encode_varint (Z.of_nat (length data))) in
  reserve_capacity (6 + 10 - unused + length data) w.

Definition encode_buf (data : bytes) : bytes :=
  let buf := repeat x00 5 in
  let buf := put_u8 buf 0x0a in
  let buf := put_slice buf (encode_varint (Z.of_nat (length data))) in
  let payload_len := be_bytes 4 (Z.of_nat (length buf - 5 + length data)) in
  let buf := take 1 buf ++ payload_len ++ drop 5 buf in
  put_slice buf data.

Definition g_poll_write (buf : bytes) (s : GrpcStream) : Poll (res nat) * GrpcStream :=
  let upd w := mkGrpc (g_resp_fut s) (g_recv s) w (g_buffer s) (g_payload_len s) in
  let w := reserve_send_capacity buf (g_send s) in
  match poll_capacity w with
  | (Pending, w) => (Pending, upd w)
  | (Ready (Some (Ok to_write)), w) =>
    let '(q, w) := send_data (encode_buf buf) false w in
    (Ready (with_kind BrokenPipe (_ ← q; Ok to_write)), upd w)
  | (Ready _, w) => (Ready (Err broken_pipe), upd w)
  end.

Definition g_poll_flush (s : GrpcStream) : Poll (res unit) * GrpcStream := (Ready (Ok tt), s).

Definition g_poll_shutdown (s : GrpcStream) : Poll (res unit) * GrpcStream :=
  let '(p, w) := h2_poll_shutdown (g_send s) in
  (p, mkGrpc (g_resp_fut s) (g_recv s) w (g_buffer s) (g_payload_len s)).

(** ** Reading *)

(** The loop over a DATA frame: [room] is what is left of the destination,
[out] what was put there.  Each turn shortens [data], so [length data + 1]
turns are enough. *)
Fixpoint g_loop (fuel room : nat) (payload_len : Z) (data out buffer : bytes)
  : res (bytes * bytes * Z * bytes) :=
  if ((0 <? payload_len)%Z || (6 <? length data))%bool then
    match fuel with
    | O => Panic
    | S f =>
      '(payload_len, data) ← (if (payload_len =? 0)%Z
        then match decode_varint (drop 6 data) with
        | Err e => Err (new_error (err_msg e))
        | r => r
        end
        else Ok (payload_len, data));
      let to_read := Nat.min room (length data) in
      let to_read := Z.to_nat (Z.min payload_len (Z.of_nat to_read)) in
      if decide (to_read = 0) then Ok (out, buffer ++ data, payload_len, [])
      else g_loop f (room - to_read) (payload_len - Z.of_nat to_read) (drop to_read data)
      (out ++ take to_read data) buffer
    end
  else Ok (out, buffer, payload_len, data).

(** The part of [poll_read] behind the response. *)
Definition g_read_body (cap : nat) (r : R) (s : GrpcStream) : Poll (res bytes) * GrpcStream :=
  let upd r b n := mkGrpc (g_resp_fut s) (Some r) (g_send s) b n in
  match g_buffer s with
  | _ :: _ =>
    let to_read := Nat.min cap (length (g_buffer s)) in
    match chk oc 64 (g_payload_len s - Z.of_nat to_read) with
    | Ok n => (Ready (Ok (take to_read (g_buffer s))), upd r (drop to_read (g_buffer s)) n)
    | Err e => (Ready (Err e), s)
    | Panic => (Ready Panic, s)
    end
  | [] =>
    match poll_data r with
    | (Pending, r) => (Pending, upd r [] (g_payload_len s))
    | (Ready (Some (Ok data)), r) =>
      match g_loop (S (length data)) cap (g_payload_len s) data [] [] with
      | Ok (out, buffer, payload_len, rest) =>
        let '(q, r) := release_capacity (length data - length rest) r in
        (match with_kind ConnectionReset q with
        | Ok _ => Ready (Ok out)
        | Err e => Ready (Err e)
        | Panic => Ready Panic
        end, upd r buffer payload_len)
      | Err e => (Ready (Err e), upd r [] (g_payload_len s))
      | Panic => (Ready Panic, upd r [] (g_payload_len s))
      end
    | (Ready _, r) => (Ready (Ok []), upd r [] (g_payload_len s))
    end
  end.

Definition g_poll_read (cap : nat) (s : GrpcStream) : Poll (res bytes) * GrpcStream :=
  match g_recv s with
  | Some r => g_read_body cap r s
  | None =>
    let upd f recv := mkGrpc f recv (g_send s) (g_buffer s) (g_payload_len s) in
    match poll_response (g_resp_fut s) with
    | (Pending, f) => (Pending, upd f None)
    | (Ready (Err e), f) => (Ready (Err (new_error (err_msg e))), upd f None)
    | (Ready Panic, f) => (Ready Panic, upd f None)
    | (Ready (Ok r), f) => g_read_body cap r (upd f (Some r))
    end
  end.

(** ** Messages

What a correct peer sends: the bytes of [encode_buf], by the gRPC framing a
zero byte, the length of the message, then field 1 with the data. *)

Definition message_head (n : nat) : bytes :=
  let field := x0a :: encode_varint (Z.of_nat n) in
  x00 :: be_bytes 4 (Z.of_nat (length field + n)) ++ field.

Lemma encode_buf_message data : encode_buf data = message_head (length data) ++ data.
Proof.
  unfold encode_buf, message_head, put_u8. cbn [put_slice list_BufMut repeat app take drop].
  cbn [length Nat.sub]. change (z2b 10) with x0a. repeat f_equal; lia.
Qed.

Lemma message_head_decode n r :
  (Z.of_nat n < 2 ^ 64)%Z ->
  6 < length (message_head n ++ r) /\ decode_varint (drop 6 (message_head n ++ r)) = Ok (Z.of_nat n, r).
Proof.
  intros Hn. unfold message_head.
  pose proof (encode_varint_length (Z.of_nat n) ltac:(lia)) as Hl.
  split; [cbn [length app]; rewrite !length_app, length_be_bytes; cbn [length]; lia|].
  rewrite <- app_comm_cons, <- app_assoc. cbn [drop].
  rewrite drop_app_ge by (rewrite length_be_bytes; lia). rewrite length_be_bytes. cbn [Nat.sub drop app].
  apply decode_encode. lia.
Qed.

Lemma message_head_length n :
  (Z.of_nat n < 2 ^ 64)%Z ->
  length (message_head n) = 6 + length (encode_varint (Z.of_nat n)).
Proof.
  intros ?. unfold message_head. cbn [length]. rewrite !length_app, length_be_bytes. cbn [length]. lia.
Qed.

Lemma message_head_6 n : 6 <= length (message_head n).
Proof. unfold message_head. cbn [length]. rewrite length_app, length_be_bytes. cbn [length]. lia. Qed.

#[local] Opaque message_head.

(** Frames that carry messages: a frame begins with a message or continues one,
and ends with the message or before. *)
Inductive framed : list bytes -> list bytes -> Prop :=
| framed_nil : framed [] []
| framed_cons d rest data msgs frames :
    data = d ++ mjoin rest -> data <> [] -> (Z.of_nat (length data) < 2 ^ 64)%Z ->
    framed msgs frames ->
    framed (data :: msgs) ((message_head (length data) ++ d) :: rest ++ frames).

(** ** The reader over such frames *)

(** A part of the current message, with [p] bytes of it still undelivered. *)
Lemma g_loop_payload fuel room p data out buffer :
  (0 < p)%Z -> (Z.of_nat (length data) <= p)%Z -> length data < fuel ->
  g_loop fuel room p data out buffer
  = Ok (out ++ take room data, buffer ++ drop room data, (p - Z.of_nat (Nat.min room (length data)))%Z, []).
Proof.
  intros Hp Hd Hf. destruct fuel as [|fuel]; [lia|]. cbn [g_loop].
  rewrite (proj2 (Z.ltb_lt _ _)), (proj2 (Z.eqb_neq _ _)) by lia. cbn [orb mbind res_bind].
  rewrite Z.min_r, Nat2Z.id by lia. case_decide as Hz.
  - rewrite Hz, Z.sub_0_r. repeat f_equal.
    + destruct room; [by rewrite app_nil_r|]. by (destruct data; [rewrite app_nil_r|simpl in Hz; lia]).
    + destruct room; [done|]. by (destruct data; [|simpl in Hz; lia]).
  - destruct fuel as [|fuel]; [lia|]. cbn [g_loop].
    assert (length (drop (Nat.min room (length data)) data) = length data - Nat.min room (length data)) as Hl
      by apply length_drop.
    assert (take (Nat.min room (length data)) data = take room data) as Ht
      by (destruct (Nat.min_spec room (length data)) as [[? ->]|[? ->]]; [done|rewrite !take_ge by lia; done]).
    assert (drop (Nat.min room (length data)) data = drop room data) as Hdr
      by (destruct (Nat.min_spec room (length data)) as [[? ->]|[? ->]]; [done|rewrite !drop_ge by lia; done]).
    rewrite Ht, Hdr in *. destruct (0 <? _)%Z eqn:E.
    + apply Z.ltb_lt in E. rewrite (proj2 (Z.eqb_neq _ _)) by lia. cbn [orb mbind res_bind].
      rewrite Hl. replace (Nat.min _ (length data - _)) with 0 by lia.
      rewrite Z.min_r, decide_True by lia. done.
    + apply Z.ltb_ge in E. rewrite Hl, (proj2 (Nat.ltb_ge _ _)) by lia. cbn [orb].
      rewrite (drop_ge data room), app_nil_r by lia. done.
Qed.

(** A frame that begins with a message. *)
Lemma g_loop_message fuel room n data out buffer :
  0 < n -> (Z.of_nat n < 2 ^ 64)%Z ->
  g_loop (S fuel) room 0 (message_head n ++ data) out buffer = g_loop (S fuel) room (Z.of_nat n) data out buffer.
Proof.
  intros Hn Hn2. destruct (message_head_decode n data Hn2) as [Hl Hd]. cbn [g_loop].
  rewrite (proj2 (Nat.ltb_lt _ _) Hl), Hd, orb_true_r. cbn [Z.eqb mbind res_bind].
  rewrite (proj2 (Z.ltb_lt _ _)), (proj2 (Z.eqb_neq _ _)) by lia. done.
Qed.

(** [p] bytes of the current message are in the frames to come. *)
Definition g_awaits (p : Z) (frames : list bytes) (c : bytes) : Prop :=
  exists rest msgs fs, frames = rest ++ fs /\ framed msgs fs /\ p = Z.of_nat (length (mjoin rest))
  /\ c = mjoin rest ++ mjoin msgs.

(** What the loop does with the next of the frames. *)
Lemma g_loop_frame cap p frames data c :
  g_awaits p (data :: frames) c -> (p < 2 ^ 64)%Z ->
  exists d c' p', g_loop (S (length data)) cap p data [] [] = Ok (take cap d, drop cap d, p', [])
  /\ c = d ++ c' /\ g_awaits (p' - Z.of_nat (length (drop cap d))) frames c' /\ (0 <= p' < 2 ^ 64)%Z
  /\ (Z.of_nat (length (drop cap d)) <= p')%Z.
Proof.
  intros (rest & msgs & fs & Hfr & Hm & -> & ->) Hp. destruct rest as [|d rest]; cbn [app] in Hfr.
  - destruct Hm as [|d rest m msgs frames' -> Hne Hlen Hm]; [done|]. injection Hfr as -> ->.
    change (Z.of_nat (length (mjoin (@nil bytes)))) with 0%Z.
    exists d, (mjoin rest ++ mjoin msgs), (Z.of_nat (length (d ++ mjoin rest)) - Z.of_nat (Nat.min cap (length d)))%Z.
    rewrite length_drop. pose proof (length_app d (mjoin rest)) as Hla.
    assert (0 < length (d ++ mjoin rest)) by (destruct (d ++ mjoin rest); simpl; [done|lia]).
    rewrite g_loop_message, g_loop_payload by (rewrite ?length_app; lia).
    split_and!; [done|by rewrite app_assoc|exists rest, msgs, frames'; split_and!; [done..|lia|done]|lia|lia|lia].
  - simplify_eq. rewrite !mjoin_cons, !length_app in *.
    exists d, (mjoin rest ++ mjoin msgs), (Z.of_nat (length d + length (mjoin rest)) - Z.of_nat (Nat.min cap (length d)))%Z.
    rewrite length_drop.
    destruct (decide (length d + length (mjoin rest) = 0)) as [Hz|Hz].
    + assert (mjoin rest = []) as Hj by (apply nil_length_inv; lia).
      destruct d; [|simpl in Hz; lia]. rewrite Hj, take_nil, drop_nil, Nat.min_0_r. cbn [length Nat.add Z.of_nat Z.sub].
      split_and!; [done..| |lia|lia|lia]. exists rest, msgs, fs. by rewrite Hj.
    + rewrite g_loop_payload by lia. split_and!; [done|by rewrite app_assoc| |lia|lia|lia].
      exists rest, msgs, fs. split_and!; [done..|lia|done].
Qed.

(** The stream still has [c] to deliver, and [n] bytes count as in flight. *)
Definition g_content (n : nat) (s : GrpcStream) (c : bytes) : Prop :=
  let r := default (resp_body (g_resp_fut s)) (g_recv s) in
  let p := (g_payload_len s - Z.of_nat (length (g_buffer s)))%Z in
  exists c1, c = g_buffer s ++ c1 /\ g_awaits p (rs_frames r) c1 /\ (0 <= p)%Z /\ (g_payload_len s < 2 ^ 64)%Z
  /\ in_flight r = n.

Lemma g_read_body_step n cap r s c p s' :
  g_content n s c -> g_recv s = Some r -> g_read_body cap r s = (p, s') ->
  length (answer_bytes p) <= cap /\ match p with Ready (Ok _) | Pending => True | _ => False end /\
  exists c', c = answer_bytes p ++ c' /\ g_content n s' c'.
Proof.
  destruct s as [f rv w buf pl]. unfold g_content. cbn [g_resp_fut g_recv g_send g_buffer g_payload_len].
  intros (c1 & -> & Ha & Hp & Hpl & Hn) ->. unfold g_read_body. cbn [g_buffer g_payload_len g_resp_fut g_send] in *.
  change (default (resp_body f) (Some r)) with r in *. destruct buf as [|b buf].
  - destruct (poll_data r) as [q r1] eqn:Ed. apply poll_data_law in Ed. cbn [length] in *.
    replace (pl - Z.of_nat 0)%Z with pl in * by lia.
    destruct q as [[[data|e|]|]|]; [|destruct Ed as (Hf & Hf1 & Hi)|done|destruct Ed as (Hf & Hf1 & Hi)|destruct Ed as [Hf1 Hi]].
    2-4: intros [= <- <-]; cbn; split_and!; [lia|done|]; exists c1; split; [done|]; exists c1;
      rewrite ?Z.sub_0_r, Hf1; try rewrite Hf in Ha; split_and!; first [done|lia|congruence].
    destruct Ed as [Hf Hi]. rewrite Hf in Ha.
    destruct (g_loop_frame cap _ _ _ _ Ha Hpl) as (d & c' & p' & -> & -> & Ha' & Hp' & Hb).
    destruct (release_capacity_law (length data - length (@nil byte)) r1) as (r2 & -> & Hf2 & Hi2); [simpl; lia|].
    cbn [with_kind]. intros [= <- <-]. cbn [answer_bytes app]. rewrite length_take.
    split_and!; [lia|done|]. exists (drop cap d ++ c'). rewrite app_assoc, take_drop. split; [done|].
    exists c'. cbn [g_recv g_buffer g_payload_len g_resp_fut].
    change (default (resp_body f) (Some r2)) with r2. rewrite Hf2. split_and!; [done|done|lia|lia|].
    rewrite Hi2, Hi. cbn [length]. lia.
  - set (k := Nat.min cap (length (b :: buf))). unfold chk.
    assert (k <= length (b :: buf)) by lia.
    rewrite decide_True by lia. intros [= <- <-]. cbn [answer_bytes g_resp_fut g_recv g_buffer g_payload_len default].
    rewrite length_take, length_drop. split_and!; [lia|done|].
    exists (drop k (b :: buf) ++ c1). rewrite app_assoc, take_drop. split; [done|].
    exists c1. split_and!; [done| |lia|lia|done].
    by replace (pl - Z.of_nat k - Z.of_nat (length (b :: buf) - k))%Z with (pl - Z.of_nat (length (b :: buf)))%Z by lia.
Qed.

#[export] Instance g_source n : PollSource g_poll_read (g_content n).
Proof.
  constructor. intros cap s c p s' Hc. unfold g_poll_read. destruct (g_recv s) as [r|] eqn:Er.
  - intros Hb. destruct (g_read_body_step n _ _ _ _ _ _ Hc Er Hb) as (Hl & Hp & c' & -> & Hc').
    split_and!; [done|by intros ->|eauto].
  - destruct (poll_response _) as [q f] eqn:Ef. apply poll_response_law in Ef as [Hf Hq].
    assert (forall o, o = None \/ o = Some (resp_body (g_resp_fut s)) ->
      g_content n (mkGrpc f o (g_send s) (g_buffer s) (g_payload_len s)) c) as Hk.
    { intros o Ho. destruct s as [f0 ? w buf pl]. unfold g_content in *. simpl in *. subst.
      destruct Ho as [->| ->]; simpl; by rewrite ?Hf. }
    destruct q as [[r|e|]|]; [subst r|intros [= <- <-]|done|intros [= <- <-]].
    + intros Hb. destruct (g_read_body_step n _ _ _ _ _ _ (Hk _ (or_intror eq_refl)) eq_refl Hb) as (Hl & Hp & c' & -> & Hc').
      split_and!; [done|by intros ->|eauto].
    + simpl. split_and!; [lia|done|]. exists c. split; [done|]. intros He. by destruct (He (new_error (err_msg e))).
    + simpl. split_and!; [lia|done|]. eauto.
Qed.

(** ** Theorems *)

(** What the writer queues is framed. *)
Lemma framed_encode_buf chunks :
  Forall (fun d => d <> [] /\ (Z.of_nat (length d) < 2 ^ 64)%Z) chunks -> framed chunks (map encode_buf chunks).
Proof.
  induction 1 as [|d ds [Hd Hl] _ IH]; [constructor|]. cbn [map]. rewrite encode_buf_message.
  apply (framed_cons d [] d ds _); [by rewrite app_nil_r|done..].
Qed.

(** C17: a reader of the gRPC transport, from a peer whose messages are
not empty and whose HTTP/2 frames each begin with a message, header
included, or continue one and hold bytes of no other ([framed]; a message
may go over any number of frames): under any sizes of destinations no poll
panics and what is delivered is a prefix of the data of the messages, in order and unchanged.
Unless a poll failed, the whole receive window is given
back, and everything is delivered once the frames are used up and
the buffer is empty.  For a frame with two messages or
with a cut header this fails: [grpc_two_messages_in_a_frame] and [g_header_cut]
below say what happens then. *)
Theorem grpc_reads fut send msgs caps ps s' :
  framed msgs (rs_frames (resp_body fut)) ->
  poll_reads g_poll_read caps (GrpcStream_new fut send) = (ps, s') ->
  Forall (fun p => p <> Ready Panic) ps /\ delivered ps `prefix_of` mjoin msgs /\
  let r := default (resp_body (g_resp_fut s')) (g_recv s') in
  (Forall (fun p => forall e, p <> Ready (Err e)) ps ->
    in_flight r = in_flight (resp_body fut) /\
    (g_buffer s' = [] -> rs_frames r = [] -> delivered ps = mjoin msgs)).
Proof.
  intros Hm Hr.
  assert (g_content (in_flight (resp_body fut)) (GrpcStream_new fut send) (mjoin msgs)) as Hc.
  { exists (mjoin msgs). cbn. split_and!; [done| |lia|lia|done].
    exists [], msgs, (rs_frames (resp_body fut)). by split_and!. }
  destruct (source_reads _ _ _ _ _ Hc Hr) as (Hp & c' & Hd & Hs). rewrite Hd. cbv zeta.
  split_and!; [done|by eexists|]. intros (c1 & -> & (rest & ms & fs & Hf & Hms & _ & ->) & _ & _ & Hn)%Hs.
  split; [done|]. intros -> Hz. rewrite Hf in Hz. apply app_eq_nil in Hz as [-> ->].
  inversion Hms. by rewrite app_nil_r.
Qed.

Lemma g_poll_write_spec buf s p s' :
  g_poll_write buf s = (p, s') ->
  match p with
  | Ready (Ok n) => ss_frames (g_send s') = ss_frames (g_send s) ++ [encode_buf buf]
    /\ n <= 6 + length (encode_varint (Z.of_nat (length buf))) + length buf
  | Ready Panic => False
  | _ => ss_frames (g_send s') = ss_frames (g_send s)
  end.
Proof.
  unfold g_poll_write, reserve_send_capacity.
  set (n := 6 + 10 - _ + length buf). destruct (reserve_capacity_law n (g_send s)) as (Hf & Hr & _).
  destruct (poll_capacity _) as [q w1] eqn:Ec. apply poll_capacity_law in Ec as (Hf1 & _ & Hn). rewrite Hr in Hn.
  destruct q as [[[k|e|]|]|]; [|intros; simplify_eq/=; congruence|done|intros; simplify_eq/=; congruence..].
  destruct (send_data _ _ _) as [q w2] eqn:Es. apply send_data_law in Es. intros; simplify_eq.
  destruct q as [[]|e|]; simpl; [|destruct Es; congruence|done]. destruct Es as [-> _].
  split; [congruence|]. lia.
Qed.

(** The room the writer asks for is that of the message with its headers. *)
Lemma reserve_send_capacity_spec data : (Z.of_nat (length data) < 2 ^ 64)%Z ->
  reserve_send_capacity data = reserve_capacity (W := W) (length (encode_buf data)).
Proof.
  intros Hd. pose proof (encode_varint_length (Z.of_nat (length data)) ltac:(lia)) as Hv.
  unfold reserve_send_capacity. rewrite encode_buf_message. f_equal.
  rewrite length_app, message_head_length by done. lia.
Qed.

(** The stream with another send half. *)
Definition set_send (s : GrpcStream) (w : W) : GrpcStream := mkGrpc (g_resp_fut s) (g_recv s) w (g_buffer s) (g_payload_len s).

(** A write that is granted [n] bytes for the message queues all of it and
answers [n]. *)
Lemma g_poll_write_granted data s n w1 w2 : (Z.of_nat (length data) < 2 ^ 64)%Z ->
  poll_capacity (reserve_capacity (length (encode_buf data)) (g_send s)) = (Ready (Some (Ok n)), w1) ->
  send_data (encode_buf data) false w1 = (Ok tt, w2) ->
  g_poll_write data s = (Ready (Ok n), set_send s w2) /\ n <= length (encode_buf data) /\
  ss_frames w2 = ss_frames (g_send s) ++ [encode_buf data].
Proof.
  intros Hd Hc Hs. unfold g_poll_write. rewrite (reserve_send_capacity_spec _ Hd), Hc, Hs. split; [done|].
  destruct (reserve_capacity_law (length (encode_buf data)) (g_send s)) as (Hf & Hr & _).
  apply poll_capacity_law in Hc as (Hf1 & _ & Hn). apply send_data_law in Hs as [Hf2 _]. split; [lia|congruence].
Qed.

(** C18: a write of the gRPC transport queues its whole buffer as one message
but answers the send capacity that HTTP/2 granted for the message with its headers.  A
caller that goes by the answer, as every [AsyncWrite] caller does: when the
capacity was smaller than the buffer, sends the tail again as a second
message, so that the two frames carry the buffer and then its tail once more;
when nothing was granted, ends with [WriteZero] although the message
is queued; and when the grant exceeds the buffer, which a grant of all that was asked for
always does, panics in tokio's [write_all]. *)
Theorem grpc_write_answers data s n w1 w2 fuel :
  data <> [] -> (Z.of_nat (length data) < 2 ^ 64)%Z ->
  poll_capacity (reserve_capacity (length (encode_buf data)) (g_send s)) = (Ready (Some (Ok n)), w1) ->
  send_data (encode_buf data) false w1 = (Ok tt, w2) ->
  g_poll_write data s = (Ready (Ok n), set_send s w2) /\
  ss_frames w2 = ss_frames (g_send s) ++ [encode_buf data] /\
  (n = 0 -> sink_write_all g_poll_write (S fuel) data s = (Ready (Err (IoError WriteZero "")), set_send s w2)) /\
  (0 < n < length data -> forall w3 w4,
    poll_capacity (reserve_capacity (length (encode_buf (drop n data))) w2) = (Ready (Some (Ok (length data - n))), w3) ->
    send_data (encode_buf (drop n data)) false w3 = (Ok tt, w4) ->
    sink_write_all g_poll_write (S (S fuel)) data s = (Ready (Ok tt), set_send s w4) /\
    exists frames, ss_frames w4 = ss_frames (g_send s) ++ frames /\ framed [data; drop n data] frames) /\
  (length data < n -> sink_write_all g_poll_write (S fuel) data s = (Ready Panic, set_send s w2)) /\
  length data < length (encode_buf data).
Proof.
  intros Hne Hd Hc Hs. destruct (g_poll_write_granted _ _ _ _ _ Hd Hc Hs) as (Hw & Hn & Hf).
  destruct data as [|b data]; [done|]. set (l := b :: data) in *. split_and!; [done|done| | | |].
  - intros ->. unfold l. cbn [sink_write_all]. fold l. rewrite Hw. by rewrite decide_True.
  - intros Hn1 w3 w4 Hc2 Hs2. assert (length (drop n l) = length l - n) as Hl by apply length_drop.
    destruct (g_poll_write_granted (drop n l) (set_send s w2) _ _ _ ltac:(lia) Hc2 Hs2) as (Hw2 & _ & Hf2). cbn [g_send set_send] in Hf2. split.
    + unfold l. cbn [sink_write_all]. fold l. rewrite Hw, decide_False, decide_True by lia.
      destruct (drop n l) as [|b2 rest] eqn:Ed; [cbn [length] in Hl; lia|]. rewrite Hw2, <- Hl.
      rewrite decide_False, decide_True by (cbn [length]; lia). rewrite drop_ge by done. by destruct fuel.
    + exists [encode_buf l; encode_buf (drop n l)]. rewrite Hf2, Hf, <- app_assoc. split; [done|].
      apply (framed_encode_buf [l; drop n l]). repeat constructor; [done|lia| |lia].
      intros E. rewrite E in Hl. cbn [length] in Hl. lia.
  - intros Hn1. unfold l. cbn [sink_write_all]. fold l. rewrite Hw. by rewrite !decide_False by lia.
  - rewrite encode_buf_message, length_app. pose proof (message_head_6 (length l)). lia.
Qed.

(** A frame that ends inside a message header: the bytes are dropped. *)
Lemma g_header_cut cap s r d r1 :
  g_recv s = Some r -> g_buffer s = [] -> g_payload_len s = 0%Z ->
  poll_data r = (Ready (Some (Ok d)), r1) -> length d <= 6 ->
  exists r2, g_poll_read cap s = (Ready (Ok []), mkGrpc (g_resp_fut s) (Some r2) (g_send s) [] 0)
  /\ in_flight r2 = in_flight r + length d.
Proof.
  intros Hr Hb Hp Hd Hl. unfold g_poll_read, g_read_body. rewrite Hr, Hb, Hd, Hp. cbn [g_loop].
  rewrite (proj2 (Nat.ltb_ge _ _)) by lia. cbn [Z.ltb Z.compare orb]. rewrite Nat.sub_diag.
  destruct (release_capacity_law 0 r1) as (r2 & -> & _ & Hi); [lia|]. cbn [with_kind].
  exists r2. split; [done|]. destruct (poll_data_law _ _ _ Hd) as [_ Hi1]. lia.
Qed.

(** When a frame holds a second message behind one that does not fit the
destination, the first is delivered up to the end of the destination; the
next read panics in a debug build, and in a release build delivers the
header of the second message as data. *)
Theorem grpc_two_messages_in_a_frame cap cap2 s r d1 d2 r1 :
  g_recv s = Some r -> g_buffer s = [] -> g_payload_len s = 0%Z ->
  poll_data r = (Ready (Some (Ok (encode_buf d1 ++ encode_buf d2))), r1) ->
  (Z.of_nat (length d1) < 2 ^ 64)%Z -> cap < length d1 ->
  length (encode_buf d2) + length d1 <= cap2 ->
  exists s1, g_poll_read cap s = (Ready (Ok (take cap d1)), s1)
  /\ (g_poll_read cap2 s1).1 = if oc then Ready Panic else Ready (Ok (drop cap d1 ++ encode_buf d2)).
Proof.
  intros Hr Hb Hp Hd Hl Hc Hc2.
  assert (6 <= length (encode_buf d2)) as H6
    by (rewrite encode_buf_message, length_app; pose proof (message_head_6 (length d2)); lia).
  set (data := d1 ++ encode_buf d2). assert (length data = length d1 + length (encode_buf d2)) as Hld by apply length_app.
  assert (forall fuel, length d1 < fuel -> g_loop fuel cap (Z.of_nat (length d1)) data [] []
    = Ok (take cap d1, drop cap data, (Z.of_nat (length d1) - Z.of_nat cap)%Z, [])) as Hloop.
  { intros [|[|fuel]] Hfl; [lia|lia|]. cbn [g_loop].
    rewrite (proj2 (Z.ltb_lt _ _)), (proj2 (Z.eqb_neq _ _)) by lia. cbn [orb mbind res_bind].
    rewrite Nat.min_l, Z.min_r, Nat2Z.id by lia. case_decide as Hz; [subst cap; by rewrite Z.sub_0_r|].
    rewrite (proj2 (Z.ltb_lt _ _)), (proj2 (Z.eqb_neq _ _)), Nat.sub_diag by lia. cbn [orb mbind res_bind Nat.min].
    rewrite Z.min_r, decide_True by lia. cbn [app]. unfold data. by rewrite take_app_le by lia. }
  unfold g_poll_read at 1, g_read_body. rewrite Hr, Hb, Hd, Hp, encode_buf_message, <- app_assoc. fold data.
  rewrite g_loop_message by lia. rewrite Hloop by (rewrite !length_app; lia).
  destruct (poll_data_law _ _ _ Hd) as [_ Hi].
  rewrite encode_buf_message, <- app_assoc in Hi. fold data in Hi.
  destruct (release_capacity_law (length (message_head (length d1) ++ data) - length (@nil byte)) r1)
    as (r2 & -> & _); [cbn [length]; lia|].
  cbn [with_kind]. eexists. split; [done|]. unfold g_poll_read, g_read_body. cbn [g_recv g_buffer g_payload_len].
  assert (drop cap data = drop cap d1 ++ encode_buf d2) as Hdr by (by apply drop_app_le; lia).
  rewrite Hdr. destruct (drop cap d1 ++ encode_buf d2) as [|b buf] eqn:Ed.
  { apply (f_equal length) in Ed. rewrite length_app in Ed. simpl in Ed. lia. }
  assert (length (b :: buf) = length d1 - cap + length (encode_buf d2)) as Hlb
    by (rewrite <- Ed, length_app, length_drop; done).
  rewrite Nat.min_r by lia. unfold chk. rewrite decide_False by lia. destruct oc; [done|].
  by rewrite take_ge by done.
Qed.
End Grpc.

(** ** Building the stream *)

Section Build.
Context {F R W : Type} {Uri PathAndQuery Io Client : Type}.
(** The crate [http]'s URI builder, [h2::client::handshake] and [send_request]. *)
Context (build_uri : bytes -> bytes -> PathAndQuery -> res Uri).
Context (handshake : Io -> res Client).

Record GrpcStreamBuilder := mkGrpcBuilder { gb_host : bytes; gb_path : PathAndQuery }.

Record GrpcRequest := mkGrpcRequest {
  gq_method : bytes; gq_uri : Uri; gq_headers : list (bytes * bytes) }.

Definition grpc_req (b : GrpcStreamBuilder) : res GrpcRequest :=
  uri ← map_new_error (build_uri (str "https") (gb_host b) (gb_path b));
  Ok (mkGrpcRequest (str "POST") uri
    [(str "content-type", str "application/grpc"); (str "user-agent", str "grpc-go/1.46.0")]).

Context (send_request : Client -> GrpcRequest -> res (F * W)).

(** [grpc_build_tcp_impl!]: the response is not waited for. *)
Definition grpc_build_tcp (b : GrpcStreamBuilder) (io : Io) : res (@GrpcStream F R W) :=
  client ← map_new_error (handshake io);
  req ← grpc_req b;
  '(resp, send_stream) ← map_new_error (send_request client req);
  Ok (GrpcStream_new resp send_stream).

Definition grpc_build_udp (b : GrpcStreamBuilder) (io : Io) (build_tcp_inside : bool) : res (@GrpcStream F R W + Io) :=
  if build_tcp_inside then inl <$> grpc_build_tcp b io else Ok (inr io).
End Build.

(** ** Witnesses: LEB128, a response that arrives at the second poll *)

Section Witness.
#[local] Program Instance leb_varint : Varint := {|
    encode_varint v := leb_encode 10 v;
    decode_varint := leb_decode64
  |}.
Next Obligation.
  intros v r Hv. unfold leb_decode64. destruct (leb_decode_encode 10 v r) as [E _]; [lia|lia|].
  rewrite E. by rewrite decide_True by lia.
Qed.
Next Obligation. intros v Hv. apply (leb_decode_encode 10 v []); lia. Qed.
Next Obligation.
  intros b. unfold leb_decode64. destruct (leb_decode 10 b) as [[v r]|] eqn:E; [|done]. apply leb_decode_law in E.
  case_decide; [lia|done].
Qed.

Record ScriptResp := mkScriptResp { sp_pending : nat; sp_body : ScriptRecv }.

#[local] Program Instance script_resp : ResponseFuture ScriptResp ScriptRecv := {|
    poll_response f := match sp_pending f with
    | O => (Ready (Ok (sp_body f)), f)
    | S n => (Pending, mkScriptResp n (sp_body f))
    end;
    resp_body := sp_body
  |}.
Next Obligation. intros [[|n] b] p f'; simpl; intros [= <- <-]; done. Qed.

(** Two messages; HTTP/2 cut the first one. *)
Definition wit_frames : list bytes :=
  [message_head 5 ++ str "he"; str "llo"; encode_buf (str "!")].
Definition wit_body : ScriptRecv := mkScriptRecv (H2Pending :: map H2Data wit_frames) 0.
Definition wit_send : ScriptSend := mkScriptSend [] 0 [] false.

Lemma grpc_reads_witness :
  let '(ps, s') := poll_reads (g_poll_read true) [4; 4; 1; 9; 2; 2; 9] (GrpcStream_new (mkScriptResp 1 wit_body) wit_send) in
  delivered ps = str "hello!" /\ in_flight (default wit_body (g_recv s')) = 0.
Proof.
  destruct (poll_reads (g_poll_read true) [4; 4; 1; 9; 2; 2; 9] (GrpcStream_new (mkScriptResp 1 wit_body) wit_send))
    as [ps s'] eqn:E.
  assert (framed [str "hello"; str "!"] (rs_frames (resp_body (mkScriptResp 1 wit_body)))) as Hf.
  { apply (framed_cons (str "he") [str "llo"] (str "hello")); [done|done|vm_compute; done|].
    exact (framed_encode_buf [str "!"] ltac:(by repeat constructor)). }
  destruct (grpc_reads true (mkScriptResp 1 wit_body) wit_send _ _ ps s' Hf E) as (_ & _ & Hs).
  destruct Hs as [Hn Hd].
  - apply (f_equal fst) in E. vm_compute in E. subst ps. repeat constructor; by intros ? [=].
  - assert (g_buffer s' = [] /\ rs_frames (default wit_body (g_recv s')) = [] /\ exists r, g_recv s' = Some r) as (Hb & Hr & r & Er)
      by (apply (f_equal snd) in E; vm_compute in E; subst s'; split_and!; [reflexivity..|by eexists]).
    rewrite Er in *. split; [apply Hd; [exact Hb|exact Hr]|exact Hn].
Defined.

(** A grant of two bytes for a message of five. *)
Lemma grpc_write_answers_witness :
  let s := @GrpcStream_new _ ScriptRecv _ (mkScriptResp 0 wit_body) (mkScriptSend [Ready (Some 2); Ready (Some 3)] 0 [] false) in
  ss_frames (g_send (sink_write_all (g_poll_write) 2 (str "hello") s).2)
  = [encode_buf (str "hello"); encode_buf (str "llo")] /\ framed [str "hello"; str "llo"] [encode_buf (str "hello"); encode_buf (str "llo")].
Proof.
  intros s.
  destruct (grpc_write_answers (str "hello") s 2 (mkScriptSend [Ready (Some 3)] 12 [] false)
    (mkScriptSend [Ready (Some 3)] 12 [encode_buf (str "hello")] false) 0) as (_ & _ & _ & Hx & _);
    [done|vm_compute; reflexivity..|].
  destruct (Hx ltac:(vm_compute; lia) (mkScriptSend [] 10 [encode_buf (str "hello")] false)
    (mkScriptSend [] 10 [encode_buf (str "hello"); encode_buf (str "llo")] false)) as (E & fs & Ef & Hfr); [vm_compute; reflexivity..|].
  cbn [ss_frames script_send app] in Ef. rewrite E. split; [reflexivity|]. vm_compute in Ef. subst fs. exact Hfr.
Defined.

Lemma grpc_two_messages_in_a_frame_witness :
  let r := mkScriptRecv [H2Data (encode_buf (str "hello") ++ encode_buf (str "!"))] 0 in
  let s := mkGrpc (mkScriptResp 0 r) (Some r) wit_send [] 0 in
  (g_poll_read false 99 (g_poll_read false 2 s).2).1 = Ready (Ok (str "llo" ++ encode_buf (str "!"))).
Proof.
  intros r s. destruct (grpc_two_messages_in_a_frame false 2 99 s r (str "hello") (str "!")
    (mkScriptRecv [] (length (encode_buf (str "hello") ++ encode_buf (str "!"))))) as (s1 & E & Hr).
  - reflexivity.
  - reflexivity.
  - reflexivity.
  - reflexivity.
  - vm_compute. reflexivity.
  - vm_compute. lia.
  - vm_compute. lia.
  - rewrite E. exact Hr.
Defined.
End Witness.
