(* ===== verification/Websocket.v ===== *)
(** * The WebSocket transport (src/src/proxy/websocket/mod.rs)

    The bytes of a stream travel as binary messages: the writer sends one
    message per write, the reader hands out the payloads and keeps in
    [read_buffer] what did not fit a destination.  The message stream of the
    crate [tokio_tungstenite] is a class. *)

From S2P Require Import Prelude Io StdText Transport.
From Stdlib Require Import ZArith Lia List Strings.Byte.
From stdpp Require Import base option list strings.

(** ** The message stream *)

(** [tungstenite::Message]. *)
Inductive Message :=
| Text (d : bytes)
| Binary (d : bytes)
| Ping (d : bytes)
| Pong (d : bytes)
| Close
| Frame.

(** [WebSocketStream<T>] as a [Stream] and a [Sink] of messages.  After a
    [Close] no message follows. *)
Class WebSocketStream (T : Type) := {
  ws_poll_next : T -> Poll (option (res Message)) * T;
  ws_poll_ready : T -> Poll (res unit) * T;
  ws_start_send : Message -> T -> res unit * T;
  ws_inner_flush : T -> Poll (res unit) * T;
  ws_inner_close : T -> Poll (res unit) * T;
  ws_incoming : T -> list Message;      (* the messages still to come *)
  ws_outgoing : T -> list Message;      (* the messages given to the sink *)
  ws_poll_next_law t p t' :
    ws_poll_next t = (p, t') ->
    ws_outgoing t' = ws_outgoing t /\
    match p with
    | Ready (Some (Ok m)) => ws_incoming t = m :: ws_incoming t' /\ (m = Close -> ws_incoming t' = [])
    | Ready (Some Panic) => False
    | Ready _ => ws_incoming t = [] /\ ws_incoming t' = []
    | Pending => ws_incoming t' = ws_incoming t
    end;
  ws_poll_ready_law t p t' :
    ws_poll_ready t = (p, t') ->
    ws_outgoing t' = ws_outgoing t /\ ws_incoming t' = ws_incoming t /\ p <> Ready Panic;
  ws_start_send_law m t q t' :
    ws_start_send m t = (q, t') ->
    ws_incoming t' = ws_incoming t /\
    match q with
    | Ok _ => ws_outgoing t' = ws_outgoing t ++ [m]
    | Err _ => ws_outgoing t' = ws_outgoing t
    | Panic => False
    end;
  ws_inner_flush_law t p t' :
    ws_inner_flush t = (p, t') ->
    ws_outgoing t' = ws_outgoing t /\ ws_incoming t' = ws_incoming t /\ p <> Ready Panic
}.

(** [io::Error::new(ErrorKind::Other, format!("{:?}", e))]. *)
Definition other_error (e : io_error) : io_error := IoError Other (err_msg e).

Section Websocket.
Context {T : Type} `{WebSocketStream T}.

Record BinaryWsStream := mkBinaryWs { ws_inner : T; ws_read_buffer : option bytes }.

Definition BinaryWsStream_new (inner : T) : BinaryWsStream := mkBinaryWs inner None.

Definition invalid_message (m : Message) : io_error := new_error "invalid message type".

(** The loop of [poll_read]: it goes round once, with the message it received
in [read_buffer]. *)
Fixpoint ws_read_loop (fuel : nat) (cap : nat) (s : BinaryWsStream) : Poll (res bytes) * BinaryWsStream :=
  match ws_read_buffer s with
  | Some read_buffer =>
    if decide (length read_buffer <= cap) then (Ready (Ok read_buffer), mkBinaryWs (ws_inner s) None)
    else (Ready (Ok (take cap read_buffer)), mkBinaryWs (ws_inner s) (Some (drop cap read_buffer)))
  | None =>
    match ws_poll_next (ws_inner s) with
    | (Pending, t) => (Pending, mkBinaryWs t None)
    | (Ready None, t) => (Ready (Err (new_error "websocket stream drained")), mkBinaryWs t None)
    | (Ready (Some (Err e)), t) => (Ready (Err (new_error (err_msg e))), mkBinaryWs t None)
    | (Ready (Some Panic), t) => (Ready Panic, mkBinaryWs t None)
    | (Ready (Some (Ok (Binary binary))), t) =>
      if decide (length binary < cap) then (Ready (Ok binary), mkBinaryWs t None)
      else match fuel with
      | O => (Ready Panic, s)
      | S f => ws_read_loop f cap (mkBinaryWs t (Some binary))
      end
    | (Ready (Some (Ok Close)), t) => (Ready (Ok []), mkBinaryWs t None)
    | (Ready (Some (Ok m)), t) => (Ready (Err (invalid_message m)), mkBinaryWs t None)
    end
  end.

Definition ws_poll_read (cap : nat) (s : BinaryWsStream) : Poll (res bytes) * BinaryWsStream :=
  ws_read_loop 1 cap s.

Definition ws_poll_write (buf : bytes) (s : BinaryWsStream) : Poll (res nat) * BinaryWsStream :=
  let upd t := mkBinaryWs t (ws_read_buffer s) in
  match ws_poll_ready (ws_inner s) with
  | (Pending, t) => (Pending, upd t)
  | (Ready (Err e), t) => (Ready (Err (other_error e)), upd t)
  | (Ready Panic, t) => (Ready Panic, upd t)
  | (Ready (Ok _), t) =>
    let '(q, t) := ws_start_send (Binary buf) t in
    (match q with
    | Ok _ => Ready (Ok (length buf))
    | Err e => Ready (Err (other_error e))
    | Panic => Ready Panic
    end, upd t)
  end.

Definition map_poll_err (f : io_error -> io_error) (p : Poll (res unit)) : Poll (res unit) :=
  match p with
  | Ready (Err e) => Ready (Err (f e))
  | p => p
  end.

Definition ws_poll_flush (s : BinaryWsStream) : Poll (res unit) * BinaryWsStream :=
  let '(p, t) := ws_inner_flush (ws_inner s) in (map_poll_err other_error p, mkBinaryWs t (ws_read_buffer s)).

(** The result of sending the [Close] message is dropped. *)
Definition ws_poll_shutdown (s : BinaryWsStream) : Poll (res unit) * BinaryWsStream :=
  let upd t := mkBinaryWs t (ws_read_buffer s) in
  match ws_poll_ready (ws_inner s) with
  | (Pending, t) => (Pending, upd t)
  | (Ready (Err e), t) => (Ready (Err (other_error e)), upd t)
  | (Ready Panic, t) => (Ready Panic, upd t)
  | (Ready (Ok _), t) =>
    let '(_, t) := ws_start_send Close t in
    let '(p, t) := ws_inner_close t in
    (map_poll_err (fun e => IoError Other ("close " ++ err_msg e)) p, upd t)
  end.

(** ** The interfaces *)

(** The payloads before the first message that is not binary. *)
Fixpoint binary_prefix (ms : list Message) : bytes :=
  match ms with
  | Binary d :: ms' => d ++ binary_prefix ms'
  | _ => []
  end.

(** The first message that is not binary. *)
Fixpoint stop_message (ms : list Message) : option Message :=
  match ms with
  | Binary _ :: ms' => stop_message ms'
  | m :: _ => Some m
  | [] => None
  end.

(** The payloads of all the binary messages. *)
Definition payloads (ms : list Message) : bytes :=
  flat_map (fun m => match m with Binary d => d | _ => [] end) ms.

Definition ws_left (s : BinaryWsStream) : bytes :=
  default [] (ws_read_buffer s) ++ binary_prefix (ws_incoming (ws_inner s)).

(** One poll. *)
Lemma ws_poll_read_step cap s p s' :
  ws_poll_read cap s = (p, s') ->
  length (answer_bytes p) <= cap /\ ((forall e, p <> Ready (Err e)) -> ws_left s = answer_bytes p ++ ws_left s')
  /\ match p with
  | Ready (Ok []) =>
    0 < cap -> ws_read_buffer s = Some [] \/
    exists m ms, ws_incoming (ws_inner s) = m :: ms /\ (m = Close \/ m = Binary [])
  | Ready (Err _) =>
    ws_left s = [] /\ match stop_message (ws_incoming (ws_inner s)) with Some Close => False | _ => True end
  | Ready Panic => False
  | _ => stop_message (ws_incoming (ws_inner s')) = stop_message (ws_incoming (ws_inner s))
  end.
Proof.
  assert (forall t rb, let '(p, s') := if decide (length rb <= cap) then (Ready (Ok rb), mkBinaryWs t None)
    else (Ready (Ok (take cap rb)), mkBinaryWs t (Some (drop cap rb))) in
    length (answer_bytes p) <= cap /\ rb ++ binary_prefix (ws_incoming t) = answer_bytes p ++ ws_left s'
    /\ ws_inner s' = t /\ (p = Ready (Ok []) -> 0 < cap -> rb = []) /\ exists d, p = Ready (Ok d)) as Hbuf.
  { intros t rb. case_decide as Hl; cbn [answer_bytes ws_inner].
    - split_and!; [done|done|done|by intros [= ->]|by eexists].
    - rewrite length_take. unfold ws_left. cbn [ws_read_buffer ws_inner default from_option id].
      rewrite app_assoc, take_drop. split_and!; [lia|done|done| |by eexists].
      intros [= Ht] Hc. destruct cap; [lia|]. by destruct rb. }
  unfold ws_poll_read. destruct s as [t [rb|]]; cbn [ws_read_loop ws_read_buffer ws_inner].
  - intros Hr. specialize (Hbuf t rb). rewrite Hr in Hbuf. destruct Hbuf as (Hl & Hc & Ht & Hz & d & ->).
    unfold ws_left at 1. cbn [ws_read_buffer ws_inner default from_option id]. split_and!; [done..|].
    destruct d; [intros Hcap; left; by rewrite Hz|by rewrite Ht].
  - destruct (ws_poll_next t) as [q t1] eqn:En. apply ws_poll_next_law in En as [_ Hq].
    unfold ws_left at 1 3. cbn [ws_read_buffer ws_inner default from_option id app].
    destruct q as [[[m|e|]|]|]; [destruct Hq as [Hi Hcl]| | | |].
    2-5: intros; simplify_eq/=; destruct_and?; unfold ws_left; cbn [ws_read_buffer ws_inner default from_option id app];
      repeat match goal with H : ws_incoming _ = _ |- _ => rewrite H; clear H end; repeat split; done || lia.
    rewrite Hi. destruct m as [d|d|d|d| |]; cbn [binary_prefix stop_message].
    1,3,4,6: intros [= <- <-]; unfold ws_left; simpl; split_and!; [lia|intros He; by edestruct He|done|done].
    + case_decide as Hl; [intros [= <- <-]|].
      * unfold ws_left. cbn. split_and!; [lia|done|]. destruct d; [intros _; right; eauto|done].
      * cbn [ws_read_loop ws_read_buffer ws_inner]. intros Hr. specialize (Hbuf t1 d). rewrite Hr in Hbuf.
        destruct Hbuf as (Hl2 & Hc & Ht & Hz & d2 & ->). split_and!; [done..|].
        destruct d2; [intros Hcap; right; rewrite Hz by done; eauto|by rewrite Ht].
    + intros [= <- <-]. unfold ws_left. cbn. rewrite Hcl by done. split_and!; [lia|done|]. intros _. right. eauto.
Qed.

#[export] Instance ws_source : PollSource ws_poll_read (fun s c => c = ws_left s).
Proof.
  constructor. intros cap s c p s' -> Hp%ws_poll_read_step. destruct Hp as (Hl & Hc & Hp).
  split_and!; [done|by intros ->|].
  destruct p as [[d|e|]|]; [exists (ws_left s'); by rewrite <- Hc| |done|exists (ws_left s'); by rewrite <- Hc].
  exists (ws_left s). split; [done|]. intros He. by destruct (He e).
Qed.

Definition is_binary (m : Message) : Prop := match m with Binary _ => True | _ => False end.
Definition ws_sending (s : BinaryWsStream) : Prop := Forall is_binary (ws_outgoing (ws_inner s)).
Definition ws_sent (s : BinaryWsStream) : bytes := payloads (ws_outgoing (ws_inner s)).

Lemma payloads_app l1 l2 : payloads (l1 ++ l2) = payloads l1 ++ payloads l2.
Proof. apply flat_map_app. Qed.

Lemma binary_prefix_payloads ms : Forall is_binary ms -> binary_prefix ms = payloads ms.
Proof. induction 1 as [|[] ms Hm _ IH]; simpl; try done. by rewrite IH. Qed.

Lemma ws_poll_write_spec buf s p s' :
  ws_poll_write buf s = (p, s') ->
  match p with
  | Ready (Ok n) => n = length buf /\ ws_outgoing (ws_inner s') = ws_outgoing (ws_inner s) ++ [Binary buf]
  | Ready Panic => False
  | _ => ws_outgoing (ws_inner s') = ws_outgoing (ws_inner s)
  end.
Proof.
  unfold ws_poll_write. destruct (ws_poll_ready _) as [q t] eqn:Er.
  apply ws_poll_ready_law in Er as (Ho & _ & Hp). destruct q as [[[]|e|]|]; [|by intros [= <- <-]|done|by intros [= <- <-]].
  destruct (ws_start_send _ _) as [q t1] eqn:Es. apply ws_start_send_law in Es as [_ Hq].
  intros [= <- <-]. destruct q as [[]|e|]; cbn [ws_inner]; [|congruence|done]. split; [done|congruence].
Qed.

#[export] Instance ws_sink : PollSink ws_poll_write ws_sending ws_sent.
Proof.
  constructor. intros buf s p s' Hg Hp%ws_poll_write_spec. unfold ws_sending, ws_sent in *.
  destruct p as [[n|e|]|]; [destruct Hp as [-> ->]|by rewrite Hp|done|by rewrite Hp].
  split; [apply Forall_app; split; [done|by repeat constructor]|]. split; [done|].
  rewrite payloads_app, take_ge by done. simpl. by rewrite app_nil_r.
Qed.

(** A read fails only when everything was delivered. *)
Lemma ws_reads_error caps s ps s' :
  poll_reads ws_poll_read caps s = (ps, s') ->
  Exists (fun p => is_error p = true) ps -> delivered ps = ws_left s.
Proof.
  revert s ps. induction caps as [|cap caps IH]; intros s ps; simpl; [intros [= <- <-]; by inversion 1|].
  destruct (ws_poll_read cap s) as [p s1] eqn:E. apply ws_poll_read_step in E as (_ & Hc & Hp).
  destruct p as [[d|e|]|]; [|intros [= <- <-] _; by destruct Hp as [-> _]|done|];
    destruct (poll_reads _ _ _) as [qs s2] eqn:Eq; intros [= <- <-] Hex;
    (inversion Hex as [? ? He|? ? Hex']; subst; [done|]);
    cbn [delivered flat_map]; fold (delivered qs); by rewrite (IH _ _ Eq Hex'), Hc.
Qed.

(** A message that is neither data nor the end makes the read that comes to it
fail, with an error that names it. *)
Lemma ws_poll_read_stop cap s p s' m :
  ws_poll_read cap s = (p, s') -> stop_message (ws_incoming (ws_inner s)) = Some m -> m <> Close ->
  match p with Ready (Err e) => e = invalid_message m | _ => stop_message (ws_incoming (ws_inner s')) = Some m end.
Proof.
  unfold ws_poll_read. destruct s as [t [rb|]]; cbn [ws_read_loop ws_read_buffer ws_inner]; intros Hr Hm Hn.
  - case_decide; by simplify_eq/=.
  - destruct (ws_poll_next t) as [q t1] eqn:En. apply ws_poll_next_law in En as [_ Hq].
    destruct q as [[[x|e|]|]|]; [destruct Hq as [Hi Hcl]|destruct Hq as [Hq _]|done|destruct Hq as [Hq _]|]; [|by rewrite Hq in Hm..|].
    + rewrite Hi in Hm. destruct x as [d|d|d|d| |]; cbn [stop_message] in Hm; simplify_eq/=; try done.
      case_decide; [by simplify_eq/=|]. cbn [ws_read_loop ws_read_buffer ws_inner] in Hr. case_decide; by simplify_eq/=.
    + simplify_eq/=. by rewrite Hq.
Qed.

Lemma ws_reads_stop caps s ps s' m e :
  poll_reads ws_poll_read caps s = (ps, s') -> stop_message (ws_incoming (ws_inner s)) = Some m -> m <> Close ->
  Ready (Err e) ∈ ps -> e = invalid_message m.
Proof.
  revert s ps. induction caps as [|cap caps IH]; intros s ps; simpl; [by intros [= <- <-] _ _ ?%not_elem_of_nil|].
  destruct (ws_poll_read cap s) as [p s1] eqn:E. intros Hr Hm Hn Hin. pose proof (ws_poll_read_stop _ _ _ _ _ E Hm Hn) as Hp.
  destruct p as [[d|e'|]|]; try (destruct (poll_reads _ _ _) as [qs s2] eqn:Eq); simplify_eq/=;
    (apply elem_of_cons in Hin as [Hin|Hin]; [simplify_eq/=; done|]); first [by apply not_elem_of_nil in Hin|by eapply IH].
Qed.

Lemma binary_prefix_app l k : Forall is_binary l -> binary_prefix (l ++ k) = payloads l ++ binary_prefix k.
Proof. induction 1 as [|[] l Hm _ IH]; cbn; try done. by rewrite IH, app_assoc. Qed.

Lemma stop_message_app l k : Forall is_binary l -> stop_message (l ++ k) = stop_message k.
Proof. induction 1 as [|[] l Hm _ IH]; by cbn. Qed.

End Websocket.

(** ** The request *)

Section Request.
Context {Uri : Type}.
(** The crate [http]: the authority of a URI, and what it accepts as a header. *)
Context (uri_authority : Uri -> option bytes) (valid_header : bytes -> bytes -> bool).

Record BinaryWsStreamBuilder := mkWsBuilder {
  wb_uri : Uri;
  wb_headers : list (bytes * bytes);      (* in the order of the keys *)
  wb_max_early_data : nat;
  wb_early_data_header_name : bytes
}.

(** [new_from_config]; the [WebSocketConfig] is handed through. *)
Definition ws_new_from_config (uri : Uri) (max_early_data : nat) (early_data_header_name : bytes)
  (headers : list (bytes * bytes)) : BinaryWsStreamBuilder :=
  mkWsBuilder uri headers max_early_data early_data_header_name.

Record WsRequest := mkWsRequest { wr_uri : Uri; wr_headers : list (bytes * bytes) }.

(** The authority behind its first ['@']. *)
Fixpoint after_at (l : bytes) : option bytes :=
  match l with
  | [] => None
  | c :: l' => if decide (c = "@"%byte) then Some l' else after_at l'
  end.

(** [req]: [key] is the draw of [generate_key()]. *)
Definition ws_req (key : bytes) (b : BinaryWsStreamBuilder) : res WsRequest :=
  match uri_authority (wb_uri b) with
  | None => Panic
  | Some authority =>
    let host := default authority (after_at authority) in
    let headers :=
    [(str "Host", host); (str "Connection", str "Upgrade"); (str "Upgrade", str "websocket");
      (str "Sec-WebSocket-Version", str "13"); (str "Sec-WebSocket-Key", key)]
    ++ filter (fun kv => kv.1 <> str "Host") (wb_headers b)
    ++ (if decide (0 < wb_max_early_data b) then [(wb_early_data_header_name b, str "s")] else []) in
    if forallb (fun kv => valid_header kv.1 kv.2) headers then Ok (mkWsRequest (wb_uri b) headers) else Panic
  end.

Lemma after_at_spec l :
  match after_at l with
  | Some r => exists u, l = u ++ "@"%byte :: r /\ "@"%byte ∉ u
  | None => "@"%byte ∉ l
  end.
Proof.
  induction l as [|c l IH]; simpl; [by apply not_elem_of_nil|].
  case_decide as Hc; [subst; exists []; split; [done|by apply not_elem_of_nil]|].
  destruct (after_at l); [destruct IH as (u & -> & Hu); exists (c :: u)|]; rewrite ?not_elem_of_cons; auto.
Qed.

(** The request carries one [Host] header, the host and port of the URI, and
room for early data exactly when some is allowed. *)
Lemma ws_req_spec key b r :
  ws_req key b = Ok r ->
  exists authority, uri_authority (wb_uri b) = Some authority
  /\ (str "Host", default authority (after_at authority)) ∈ wr_headers r
  /\ (forall h, (str "Host", h) ∈ wr_headers r -> wb_early_data_header_name b <> str "Host" ->
    h = default authority (after_at authority))
  /\ forall k v, (k, v) ∈ wb_headers b -> k <> str "Host" -> (k, v) ∈ wr_headers r.
Proof.
  unfold ws_req. destruct (uri_authority _) as [a|]; [|done]. destruct (forallb _ _); [|done]. intros [= <-].
  exists a. cbn [wr_headers]. split_and!; [done|by left| |].
  - intros h Hin Hn. rewrite !elem_of_cons, elem_of_app, list_elem_of_filter in Hin.
    destruct_or? Hin; [by inversion Hin..|by destruct Hin|].
    case_decide; [|by apply not_elem_of_nil in Hin]. apply list_elem_of_singleton in Hin. by inversion Hin.
  - intros k v Hin Hk. rewrite !elem_of_cons, elem_of_app, list_elem_of_filter. do 5 right. by left.
Qed.
End Request.

(** ** A scripted message stream *)

Inductive ws_event := WsPending | WsMessage (m : Message) | WsError (e : io_error).

Record ScriptWs := mkScriptWs {
  sw_script : list ws_event; sw_ready : list (Poll (res unit)); sw_out : list Message }.

Fixpoint script_messages (l : list ws_event) : list Message :=
  match l with
  | WsPending :: l' => script_messages l'
  | WsMessage Close :: _ => [Close]
  | WsMessage m :: l' => m :: script_messages l'
  | _ => []
  end.

Definition script_next (t : ScriptWs) : Poll (option (res Message)) * ScriptWs :=
  let upd l := mkScriptWs l (sw_ready t) (sw_out t) in
  match sw_script t with
  | [] => (Ready None, t)
  | WsPending :: l => (Pending, upd l)
  | WsMessage Close :: _ => (Ready (Some (Ok Close)), upd [])
  | WsMessage m :: l => (Ready (Some (Ok m)), upd l)
  | WsError e :: _ => (Ready (Some (Err e)), upd [])
  end.

Definition script_ready (t : ScriptWs) : Poll (res unit) * ScriptWs :=
  let upd l := mkScriptWs (sw_script t) l (sw_out t) in
  match sw_ready t with
  | [] => (Ready (Ok tt), t)
  | Ready Panic :: l => (Pending, upd l)
  | p :: l => (p, upd l)
  end.

#[export] Program Instance script_ws : WebSocketStream ScriptWs := {|
  ws_poll_next := script_next;
  ws_poll_ready := script_ready;
  ws_start_send m t := (Ok tt, mkScriptWs (sw_script t) (sw_ready t) (sw_out t ++ [m]));
  ws_inner_flush t := (Ready (Ok tt), t);
  ws_inner_close t := (Ready (Ok tt), t);
  ws_incoming t := script_messages (sw_script t);
  ws_outgoing := sw_out
|}.
Next Obligation. intros [[|[|[d|d|d|d| |]|e] l] ? ?] p t'; unfold script_next; simpl; intros; simplify_eq/=; split; by auto. Qed.
Next Obligation. intros [? [|[[[]|?|]|]] ?] p t'; unfold script_ready; simpl; intros; simplify_eq/=; by split_and!. Qed.
Next Obligation. intros m t q t' [= <- <-]. done. Qed.
Next Obligation. by intros t p t' [= <- <-]. Qed.

(** ** Witnesses *)

Section Witness.
Definition wit_sender : @BinaryWsStream ScriptWs := BinaryWsStream_new (mkScriptWs [] [Pending] []).
Definition wit_peer : ScriptWs := mkScriptWs [WsPending; WsMessage (Binary (str "hello")); WsMessage (Text (str "no")); WsMessage (Binary (str "!"))] [] [].

End Witness.
