(* ===== verification/WsEarlyData.v ===== *)
(** * WebSocket early data (src/src/proxy/websocket/ws_early_data.rs)

    The handshake is put off until the first write, whose first bytes travel in
    a header of the request.  Until the handshake is through, readers and
    flushers wait; the write that completes it wakes them.  The polls are the
    steps of a machine over [BinaryWsStreamWithEarlyData]; the wakers it wakes
    are a log. *)

From S2P Require Import Prelude Io StdText Transport Websocket.
From Stdlib Require Import ZArith Lia List Strings.Byte.
From stdpp Require Import base option list strings.

(** ** Parameters *)

(** [tokio_tungstenite::client_async_with_config] as a future of the stream and
    the status of the response; a stream knows the request it was opened with. *)
Class WsHandshake (Req I Cfg Fut T : Type) `{WebSocketStream T} := {
  client_async : Req -> I -> option Cfg -> Fut;
  poll_connect : Fut -> Poll (res (T * Z)) * Fut;
  hs_request : Fut -> Req;
  ws_request : T -> Req;
  client_async_law r i c : hs_request (client_async r i c) = r;
  poll_connect_law f p f' :
    poll_connect f = (p, f') ->
    match p with
    | Pending => hs_request f' = hs_request f
    | Ready (Ok (t, _)) => ws_request t = hs_request f /\ ws_outgoing t = []
    | Ready (Err _) => True
    | Ready Panic => False
    end;
  ws_ready_request t p t' : ws_poll_ready t = (p, t') -> ws_request t' = ws_request t;
  ws_send_request m t q t' : ws_start_send m t = (q, t') -> ws_request t' = ws_request t
}.

(** Headers of a request (crate [http]), base64 (crate [base64]). *)
Class EarlyHeader (Req : Type) := {
  get_header : bytes -> Req -> option bytes;
  set_header : bytes -> bytes -> Req -> Req;
  header_value_ok : bytes -> bool;
  url_safe_no_pad : bytes -> bytes;
  b64_decode : bytes -> option bytes;
  get_set_header n v r : get_header n (set_header n v r) = Some v;
  b64_header_ok b : header_value_ok (url_safe_no_pad b) = true;
  b64_decode_encode b : b64_decode (url_safe_no_pad b) = Some b
}.

Section EarlyData.
Context {Req I Cfg Fut T : Type} `{WsHandshake Req I Cfg Fut T} `{EarlyHeader Req}.
(** The polls of the stream below, which is boxed like the one above it. *)
Context (io_read : nat -> I -> Poll (res bytes) * I) (io_write : bytes -> I -> Poll (res nat) * I).
Context (io_flush io_shutdown : I -> Poll (res unit) * I).

Abbreviation Waker := nat.

Inductive BoxProxyStream := BoxIo (i : I) | BoxWs (b : @BinaryWsStream T).

Record EarlyStream := mkEarly {
  e_stream : option BoxProxyStream;
  e_req : option Req;
  e_future : option (Fut * bool);      (* the future, and whether it completed *)
  e_early_waker : option Waker;
  e_flush_waker : option Waker;
  e_ws_config : option Cfg;
  e_header_name : bytes;
  e_early_data_len : nat;
  e_is_write_early_data : bool;
  e_woken : list Waker                 (* the wakers that were woken *)
}.

Definition EarlyStream_new (io : I) (req : Req) (ws_config : option Cfg) (name : bytes) (len : nat) : EarlyStream :=
  mkEarly (Some (BoxIo io)) (Some req) None None None ws_config name len false [].

Definition set_stream (b : BoxProxyStream) (s : EarlyStream) : EarlyStream :=
  mkEarly (Some b) (e_req s) (e_future s) (e_early_waker s) (e_flush_waker s) (e_ws_config s) (e_header_name s)
  (e_early_data_len s) (e_is_write_early_data s) (e_woken s).

(** The futures of [build_stream_impl]; polled again after its end, an
[async fn] panics. *)
Definition poll_future (f : Fut * bool) : Poll (res BoxProxyStream) * (Fut * bool) :=
  if f.2 then (Ready Panic, f) else
    match poll_connect f.1 with
    | (Pending, f') => (Pending, (f', false))
    | (Ready (Err e), f') => (Ready (Err (new_error (err_msg e))), (f', true))
    | (Ready Panic, f') => (Ready Panic, (f', true))
    | (Ready (Ok (stream, status)), f') =>
      if decide (status = 101%Z) then (Ready (Ok (BoxWs (BinaryWsStream_new stream))), (f', true))
      else (Ready (Err (new_error "bad status")), (f', true))
    end.

Definition box_read (cap : nat) (b : BoxProxyStream) : Poll (res bytes) * BoxProxyStream :=
  match b with
  | BoxIo i => let '(p, i) := io_read cap i in (p, BoxIo i)
  | BoxWs w => let '(p, w) := ws_poll_read cap w in (p, BoxWs w)
  end.

Definition box_write (buf : bytes) (b : BoxProxyStream) : Poll (res nat) * BoxProxyStream :=
  match b with
  | BoxIo i => let '(p, i) := io_write buf i in (p, BoxIo i)
  | BoxWs w => let '(p, w) := ws_poll_write buf w in (p, BoxWs w)
  end.

Definition box_flush (b : BoxProxyStream) : Poll (res unit) * BoxProxyStream :=
  match b with
  | BoxIo i => let '(p, i) := io_flush i in (p, BoxIo i)
  | BoxWs w => let '(p, w) := ws_poll_flush w in (p, BoxWs w)
  end.

Definition box_shutdown (b : BoxProxyStream) : Poll (res unit) * BoxProxyStream :=
  match b with
  | BoxIo i => let '(p, i) := io_shutdown i in (p, BoxIo i)
  | BoxWs w => let '(p, w) := ws_poll_shutdown w in (p, BoxWs w)
  end.

(** A poll of the stream; without one it is [unreachable!()]. *)
Definition on_stream {A} (f : BoxProxyStream -> Poll (res A) * BoxProxyStream) (s : EarlyStream)
  : Poll (res A) * EarlyStream :=
  match e_stream s with
  | None => (Ready Panic, s)
  | Some b => let '(p, b) := f b in (p, set_stream b s)
  end.

Definition ed_poll_read (cap : nat) (cx : Waker) (s : EarlyStream) : Poll (res bytes) * EarlyStream :=
  if e_is_write_early_data s then on_stream (box_read cap) s
  else (Pending, match e_early_waker s with
  | Some _ => s
  | None => mkEarly (e_stream s) (e_req s) (e_future s) (Some cx) (e_flush_waker s) (e_ws_config s)
    (e_header_name s) (e_early_data_len s) (e_is_write_early_data s) (e_woken s)
  end).

(** The first turn of the loop of [poll_write]: the request is completed and
the handshake begun.  (Without [is_write_early_data] the stream is the one
below: a [BoxWs] is put there together with the flag.) *)
Definition ed_connect (buf : bytes) (s : EarlyStream) : res EarlyStream :=
  match e_req s with
  | None => Panic
  | Some req =>
    '(req, len) ← (match get_header (e_header_name s) req with
    | Some _ =>
      let len := Nat.min (e_early_data_len s) (length buf) in
      let header_value := url_safe_no_pad (take len buf) in
      if header_value_ok header_value
      then Ok (set_header (e_header_name s) header_value req, len)
      else Panic
    | None => Ok (req, e_early_data_len s)
    end);
    match e_stream s with
    | Some (BoxIo io) =>
      Ok (mkEarly None None (Some (client_async req io (e_ws_config s), false)) (e_early_waker s) (e_flush_waker s)
        None (e_header_name s) len (e_is_write_early_data s) (e_woken s))
    | _ => Panic
    end
  end.

(** The turn that polls the future. *)
Definition ed_handshake (f : Fut * bool) (s : EarlyStream) : Poll (res nat) * EarlyStream :=
  let upd f' := mkEarly (e_stream s) (e_req s) (Some f') (e_early_waker s) (e_flush_waker s) (e_ws_config s)
  (e_header_name s) (e_early_data_len s) (e_is_write_early_data s) (e_woken s) in
  match poll_future f with
  | (Pending, f') => (Pending, upd f')
  | (Ready (Err e), f') => (Ready (Err e), upd f')
  | (Ready Panic, f') => (Ready Panic, upd f')
  | (Ready (Ok stream), f') =>
    (Ready (Ok (e_early_data_len s)),
      mkEarly (Some stream) (e_req s) (Some f') None None (e_ws_config s) (e_header_name s) (e_early_data_len s) true
      (e_woken s ++ option_list (e_early_waker s) ++ option_list (e_flush_waker s)))
  end.

Definition ed_poll_write (buf : bytes) (s : EarlyStream) : Poll (res nat) * EarlyStream :=
  if e_is_write_early_data s then on_stream (box_write buf) s
  else match e_future s with
  | Some f => ed_handshake f s
  | None =>
    match ed_connect buf s with
    | Ok s => match e_future s with
      | Some f => ed_handshake f s
      | None => (Ready Panic, s)
      end
    | Err e => (Ready (Err e), s)
    | Panic => (Ready Panic, s)
    end
  end.

Definition ed_poll_flush (cx : Waker) (s : EarlyStream) : Poll (res unit) * EarlyStream :=
  if e_is_write_early_data s then on_stream box_flush s
  else (Pending, match e_flush_waker s with
  | Some _ => s
  | None => mkEarly (e_stream s) (e_req s) (e_future s) (e_early_waker s) (Some cx) (e_ws_config s)
    (e_header_name s) (e_early_data_len s) (e_is_write_early_data s) (e_woken s)
  end).

Definition ed_poll_shutdown (cx : Waker) (s : EarlyStream) : Poll (res unit) * EarlyStream :=
  if e_is_write_early_data s then on_stream box_shutdown s
  else match ed_poll_flush cx s with
  | (Ready (Ok _), s) => on_stream box_shutdown s
  | (p, s) => (p, s)
  end.

(** ** Delivery

What an open WebSocket carried of the client's bytes: the early data of the
request it was opened with and the payloads of the messages. *)

Definition early_bytes (name : bytes) (r : Req) : bytes :=
  match get_header name r with
  | Some v => default [] (b64_decode v)
  | None => []
  end.

Definition ed_received (s : EarlyStream) : bytes :=
  match e_stream s with
  | Some (BoxWs w) => early_bytes (e_header_name s) (ws_request (ws_inner w)) ++ ws_sent w
  | _ => []
  end.

(** Before the first write; while the handshake of a write of [data] goes on;
after it. *)
Definition ed_fresh (len : nat) (s : EarlyStream) : Prop :=
  e_is_write_early_data s = false /\ e_future s = None /\ e_early_data_len s = len
  /\ (exists i, e_stream s = Some (BoxIo i))
  /\ exists req v, e_req s = Some req /\ get_header (e_header_name s) req = Some v.

Definition ed_shaking (len : nat) (data : bytes) (s : EarlyStream) : Prop :=
  e_is_write_early_data s = false /\ e_stream s = None /\ e_early_data_len s = Nat.min len (length data)
  /\ exists f, e_future s = Some (f, false) /\ early_bytes (e_header_name s) (hs_request f) = take len data.

Definition ed_open (s : EarlyStream) : Prop :=
  e_is_write_early_data s = true /\ exists w, e_stream s = Some (BoxWs w) /\ ws_sending w.

(** A WebSocket that a handshake opened: its server answered 101 to the request
[r]. *)
Definition opened_by (r : Req) (s : EarlyStream) : Prop :=
  e_is_write_early_data s = true /\ (exists w, e_stream s = Some (BoxWs w) /\ ws_request (ws_inner w) = r) /\
  exists f t f', poll_connect f = (Ready (Ok (t, 101%Z)), f') /\ hs_request f = r.

(** Not opened: no WebSocket is there to take bytes. *)
Definition not_opened (s : EarlyStream) : Prop :=
  e_is_write_early_data s = false /\ forall w, e_stream s <> Some (BoxWs w).

Lemma ed_connect_fresh len data s :
  ed_fresh len s -> exists s1, ed_connect data s = Ok s1 /\ ed_shaking len data s1.
Proof.
  intros (Hw & Hf & Hl & [i Hi] & req & v & Hr & Hv). unfold ed_connect. rewrite Hr, Hv, b64_header_ok, Hi.
  eexists. split; [done|]. unfold ed_shaking. cbn. rewrite Hl, Hw. split_and!; [done..|].
  eexists. split; [done|]. unfold early_bytes. rewrite client_async_law, get_set_header, b64_decode_encode. simpl.
  destruct (Nat.min_spec len (length data)) as [[? ->]|[? ->]]; [done|by rewrite !take_ge].
Qed.

(** A poll of the handshake. *)
Lemma ed_handshake_step len data s f p s' :
  ed_shaking len data s -> e_future s = Some f -> ed_handshake f s = (p, s') ->
  match p with
  | Pending => ed_shaking len data s'
  | Ready (Ok n) => n = Nat.min len (length data) /\ ed_open s' /\ ed_received s' = take len data /\
    exists r, early_bytes (e_header_name s') r = take len data /\ opened_by r s'
  | Ready (Err _) => not_opened s'
  | Ready Panic => False
  end.
Proof.
  intros (Hw & Hi & Hl & f0 & Hf & He) Hf'. rewrite Hf in Hf'. injection Hf' as <-.
  unfold ed_handshake, poll_future. cbn [fst snd].
  destruct (poll_connect f0) as [q f1] eqn:Ec. pose proof Ec as Ec1. apply poll_connect_law in Ec.
  destruct q as [[[t status]|e|]|]; [|intros [= <- <-]; unfold not_opened; cbn; by rewrite Hi|done|].
  - destruct Ec as [Hreq Hout]. case_decide as Hs; intros [= <- <-]; [subst status|unfold not_opened; cbn; by rewrite Hi].
    unfold ed_open, ed_received, opened_by. cbn. rewrite Hreq, He. unfold ws_sent, ws_sending. cbn. rewrite Hout.
    split_and!; [done|done| |by rewrite app_nil_r|].
    + eexists. split; [done|]. cbn. by rewrite Hout.
    + exists (hs_request f0). split; [done|]. split_and!; [done|by eexists|]. by exists f0, t, f1.
  - intros [= <- <-]. unfold ed_shaking. cbn. rewrite Hw, Hl, Hi. split_and!; [done..|]. exists f1. by rewrite Ec.
Qed.

Lemma ws_write_request buf (w : @BinaryWsStream T) q w1 : ws_poll_write buf w = (q, w1) -> ws_request (ws_inner w1) = ws_request (ws_inner w).
Proof.
  unfold ws_poll_write. destruct (ws_poll_ready _) as [r t] eqn:Er. apply ws_ready_request in Er.
  destruct r as [[|e|]|]; [|intros [= <- <-]; done..].
  destruct (ws_start_send _ _) as [r t1] eqn:Es. apply ws_send_request in Es.
  intros [= <- <-]. cbn [ws_inner]. congruence.
Qed.

#[export] Instance ed_open_sink : PollSink (ed_poll_write) ed_open ed_received.
Proof.
  constructor. intros buf s p s' (Hw & w & Hs & Hg). unfold ed_poll_write, on_stream. rewrite Hw, Hs. cbn [box_write].
  destruct (ws_poll_write buf w) as [q w1] eqn:Eq. intros [= <- <-].
  pose proof (ws_write_request _ _ _ _ Eq) as Hreq.
  destruct (sink_write _ _ _ _ Hg Eq) as [Hg1 Hq].
  split; [split; [done|]; by exists w1|]. unfold ed_received. cbn. rewrite Hs, Hreq.
  destruct q as [[n|e|]|]; [|by rewrite Hq|done|by rewrite Hq].
  destruct Hq as [Hn ->]. by rewrite app_assoc.
Qed.

(** The request a WebSocket was opened with stays. *)
Lemma ed_write_opened r buf s p s' :
  opened_by r s -> ed_poll_write buf s = (p, s') -> opened_by r s' /\ e_header_name s' = e_header_name s.
Proof.
  intros (Hw & (w & Hs & Hr) & Hf). unfold ed_poll_write, on_stream. rewrite Hw, Hs. cbn [box_write].
  destruct (ws_poll_write buf w) as [q w1] eqn:Eq. intros [= <- <-]. split; [|done]. split; [done|]. split; [|done].
  exists w1. split; [done|]. by rewrite (ws_write_request _ _ _ _ Eq).
Qed.

Lemma ed_write_all_opened r fuel buf s p s' :
  opened_by r s -> sink_write_all ed_poll_write fuel buf s = (p, s') -> opened_by r s' /\ e_header_name s' = e_header_name s.
Proof.
  revert buf s. induction fuel as [|fuel IH]; intros [|b buf] s Ho; cbn [sink_write_all]; try by intros [= <- <-].
  destruct (ed_poll_write (b :: buf) s) as [q s1] eqn:E. destruct (ed_write_opened _ _ _ _ _ Ho E) as [Ho1 Hn].
  destruct q as [[n|e|]|]; repeat case_decide; try (intros [= <- <-]; by split); rewrite <- Hn; by apply IH.
Qed.

(** How a write of [data] may stand: not through yet, or refused; or the
WebSocket is open, the request carried the first [len] bytes, the messages a prefix of the
rest, which is all of it when the write succeeded. *)
Definition ed_delivery (len : nat) (data : bytes) (p : Poll (res unit)) (s : EarlyStream) : Prop :=
  match e_is_write_early_data s with
  | false => not_opened s /\ p <> Ready (Ok tt)
  | true => exists r w, opened_by r s /\ early_bytes (e_header_name s) r = take len data /\
    e_stream s = Some (BoxWs w) /\ ws_sent w `prefix_of` drop len data /\ (p = Ready (Ok tt) -> ws_sent w = drop len data)
  end.

Lemma ed_write_all_shaking len data fuel s p s' :
  ed_shaking len data s -> 0 < len -> data <> [] ->
  sink_write_all ed_poll_write fuel data s = (p, s') -> p <> Ready Panic /\ ed_delivery len data p s'.
Proof.
  intros Hs Hlen Hne. revert s Hs. induction fuel as [|fuel IH]; intros s Hs.
  - destruct data; [done|]. intros [= <- <-]. unfold ed_delivery. destruct Hs as (Hw & Hi & _). rewrite Hw.
    split; [done|]. split; [split; [done|by rewrite Hi]|done].
  - destruct data as [|b data']; [done|]. set (data := b :: data') in *. cbn [sink_write_all].
    pose proof Hs as (Hw & _ & _ & f & Hf & _). unfold ed_poll_write at 1. rewrite Hw, Hf.
    destruct (ed_handshake (f, false) s) as [q s1] eqn:Eh. pose proof (ed_handshake_step _ _ _ _ _ _ Hs Hf Eh) as Hq.
    destruct q as [[n|e|]|]; [destruct Hq as (-> & Ho & Hr & r & Her & Hopen)| |done|by apply IH].
    + rewrite decide_False, decide_True by (unfold data; simpl; lia). intros Hrun.
      destruct (sink_write_all_spec _ _ _ _ _ Ho Hrun) as (_ & Hp & d & Hd & Hsent & Hall).
      destruct (ed_write_all_opened _ _ _ _ _ _ Hopen Hrun) as [(Hw' & (w & Hw1 & Hw2) & Hf') Hn]. split; [done|].
      assert (drop (Nat.min len (length data)) data = drop len data) as Hdrop
        by (destruct (Nat.min_spec len (length data)) as [[? ->]|[? ->]]; [done|by rewrite !drop_ge]).
      rewrite Hdrop in Hd, Hall. unfold ed_received in Hsent. rewrite Hw1, Hn, Hw2, Her in Hsent.
      unfold ed_received in Hr. rewrite Hr in Hsent. apply app_inv_head in Hsent. unfold ed_delivery. rewrite Hw'.
      exists r, w. rewrite Hn, Hsent. split_and!; try done. split_and!; [done|by exists w|done].
    + intros [= <- <-]. unfold ed_delivery. rewrite (proj1 Hq). by split_and!.
Qed.

(** C21: a write to a new WebSocket stream with early data, of any [data]
and under any number of polls.  It never panics.  Either the handshake is not
through, or it was refused, by the server's status or otherwise: then there is no WebSocket and the write has not succeeded.
Or the server answered 101: then the request it
answered carried exactly the first [len] bytes of the data ([len] the limit, all of
the data when there is less), the messages behind it carry a prefix of the
remaining bytes, each of them once, and all of them when the write
succeeded.  The first write that gets through answers the number of bytes in
the request. *)
Theorem ws_early_data_delivers len name io req cfg v data fuel p s' :
  0 < len -> data <> [] -> get_header name req = Some v ->
  sink_write_all ed_poll_write fuel data (EarlyStream_new io req cfg name len) = (p, s') ->
  p <> Ready Panic /\ ed_delivery len data p s' /\
  (forall n s1, ed_poll_write data (EarlyStream_new io req cfg name len) = (Ready (Ok n), s1) -> n = Nat.min len (length data)).
Proof.
  intros Hlen Hne Hv. set (s := EarlyStream_new io req cfg name len).
  assert (ed_fresh len s) as Hfr.
  { unfold ed_fresh. cbn. split_and!; [done..|by eexists|]. exists req, v. by split. }
  destruct (ed_connect_fresh len data s Hfr) as (s1 & Hc & Hs1). pose proof Hs1 as (Hw1 & _ & _ & f & Hf1 & _).
  assert (forall d, ed_connect d s = Ok s1 -> ed_poll_write d s = ed_poll_write d s1) as Eq.
  { intros d Hd. unfold ed_poll_write. rewrite Hd, Hw1, Hf1. done. }
  assert (forall n s2, ed_poll_write data s = (Ready (Ok n), s2) -> n = Nat.min len (length data)) as Hn.
  { intros n s2. rewrite (Eq _ Hc). unfold ed_poll_write. rewrite Hw1, Hf1. intros Hq.
    by destruct (ed_handshake_step _ _ _ _ _ _ Hs1 Hf1 Hq). }
  destruct data as [|b data]; [done|]. destruct fuel as [|fuel].
  - intros [= <- <-]. by split_and!.
  - intros Hrun. apply and_assoc. split; [|exact Hn]. eapply (ed_write_all_shaking len (b :: data) (S fuel) s1); [done..|].
    rewrite <- Hrun. cbn [sink_write_all]. by rewrite (Eq _ Hc).
Qed.

(** ** Wakers

The tasks of the two directions poll in any order. *)

Inductive ed_op :=
| OpRead (cap : nat) (cx : Waker)
| OpWrite (buf : bytes)
| OpFlush (cx : Waker)
| OpShutdown (cx : Waker).

Inductive ed_answer :=
| AnsRead (p : Poll (res bytes))
| AnsWrite (p : Poll (res nat))
| AnsUnit (p : Poll (res unit)).

Definition ed_step (op : ed_op) (s : EarlyStream) : ed_answer * EarlyStream :=
  match op with
  | OpRead cap cx => let '(p, s) := ed_poll_read cap cx s in (AnsRead p, s)
  | OpWrite buf => let '(p, s) := ed_poll_write buf s in (AnsWrite p, s)
  | OpFlush cx => let '(p, s) := ed_poll_flush cx s in (AnsUnit p, s)
  | OpShutdown cx => let '(p, s) := ed_poll_shutdown cx s in (AnsUnit p, s)
  end.

Fixpoint ed_run (ops : list ed_op) (s : EarlyStream) : list ed_answer * EarlyStream :=
  match ops with
  | [] => ([], s)
  | op :: ops' => let '(a, s1) := ed_step op s in let '(l, s2) := ed_run ops' s1 in (a :: l, s2)
  end.

(** The wakers of the readers, and of those who flush or shut down. *)
Definition op_reader (op : ed_op) : option Waker := match op with OpRead _ cx => Some cx | _ => None end.
Definition op_flusher (op : ed_op) : option Waker :=
  match op with OpFlush cx | OpShutdown cx => Some cx | _ => None end.

Definition ed_waiting (rd fl : option Waker) (s : EarlyStream) : Prop :=
  e_is_write_early_data s = false /\ e_early_waker s = rd /\ e_flush_waker s = fl /\ e_woken s = [].

Definition ed_failed (s : EarlyStream) : Prop :=
  e_is_write_early_data s = false /\ e_woken s = [] /\ exists f, e_future s = Some (f, true).

(** The first of two. *)
Definition or_else {A} (a b : option A) : option A := match a with Some _ => a | None => b end.

Lemma or_else_assoc {A} (a b c : option A) : or_else a (or_else b c) = or_else (or_else a b) c.
Proof. by destruct a. Qed.

Lemma or_else_None {A} (a : option A) : or_else a None = a.
Proof. by destruct a. Qed.

Lemma head_omap_cons {A B} (f : A -> option B) x l : head (omap f (x :: l)) = or_else (f x) (head (omap f l)).
Proof. cbn. by destruct (f x). Qed.

Lemma ed_connect_waiting rd fl buf s s1 :
  ed_waiting rd fl s -> ed_connect buf s = Ok s1 -> ed_waiting rd fl s1.
Proof.
  intros (Hw & Hr & Hf & Hk). unfold ed_connect. destruct (e_req s); [|done].
  destruct (match get_header _ _ with Some _ => _ | None => _ end) as [[q n]|e|]; [|done..].
  cbn [mbind res_bind]. destruct (e_stream s) as [[i|w]|]; [|done..]. intros [= <-]. by split_and!.
Qed.

Lemma ed_connect_no_err buf s e : ed_connect buf s <> Err e.
Proof.
  unfold ed_connect. destruct (e_req s) as [r|]; [|done]. destruct (get_header _ _); [destruct (header_value_ok _)|];
    cbn [mbind res_bind]; try done; by destruct (e_stream s) as [[]|].
Qed.

Lemma ed_handshake_waiting rd fl f s p s' :
  ed_waiting rd fl s -> ed_handshake f s = (p, s') ->
  match p with
  | Ready (Ok _) => e_is_write_early_data s' = true /\ e_woken s' = option_list rd ++ option_list fl
  | Ready (Err _) => ed_waiting rd fl s' /\ ed_failed s'
  | _ => ed_waiting rd fl s'
  end.
Proof.
  intros (Hw & Hr & Hf & Hk). unfold ed_handshake. destruct (poll_future f) as [[[b|e|]|] f1] eqn:Ep;
    intros [= <- <-]; unfold ed_waiting, ed_failed; cbn; rewrite ?Hk, ?Hr, ?Hf; split_and!; try done.
  unfold poll_future in Ep. destruct (f.2); [done|]. destruct (poll_connect f.1) as [[[[t st]|e1|]|] g]; try done;
    [case_decide|]; simplify_eq; by eexists.
Qed.

(** One poll of a stream whose handshake is not through. *)
Lemma ed_step_waiting rd fl op s a s' :
  ed_waiting rd fl s -> ed_step op s = (a, s') ->
  match op with
  | OpWrite _ =>
    ed_waiting rd fl s' /\ (forall e, a = AnsWrite (Ready (Err e)) -> ed_failed s')
    \/ e_is_write_early_data s' = true /\ e_woken s' = option_list rd ++ option_list fl
    /\ exists n, a = AnsWrite (Ready (Ok n))
  | OpRead _ _ => a = AnsRead Pending /\ ed_waiting (or_else rd (op_reader op)) fl s'
  | _ => a = AnsUnit Pending /\ ed_waiting rd (or_else fl (op_flusher op)) s'
  end.
Proof.
  intros Hs. pose proof Hs as (Hw & Hr & Hf & Hk). destruct op as [cap cx|buf|cx|cx]; cbn [ed_step].
  - unfold ed_poll_read. rewrite Hw. intros [= <- <-]. split; [done|]. rewrite Hr. by destruct rd; split_and!.
  - unfold ed_poll_write. rewrite Hw.
    assert (forall f s0 p s1, ed_waiting rd fl s0 -> ed_handshake f s0 = (p, s1) -> (AnsWrite p, s1) = (a, s') ->
      ed_waiting rd fl s' /\ (forall e, a = AnsWrite (Ready (Err e)) -> ed_failed s')
      \/ e_is_write_early_data s' = true /\ e_woken s' = option_list rd ++ option_list fl
      /\ exists n, a = AnsWrite (Ready (Ok n))) as Hgo.
    { intros f s0 p s1 Hs0 Hh [= <- <-]. apply (ed_handshake_waiting rd fl) in Hh; [|done].
      destruct p as [[n|e|]|]; [right; destruct Hh; split_and!; [done..|by eexists]|left..];
        [destruct Hh; by split|split; [done|by intros ? [=]]..]. }
    destruct (e_future s) as [f|] eqn:Ef; [destruct (ed_handshake f s) as [p s1] eqn:Eh; intros Hx; by eapply Hgo|].
    destruct (ed_connect buf s) as [s1|e|] eqn:Ec; [|by apply ed_connect_no_err in Ec|intros [= <- <-]; left; split; [done|by intros ? [=]]].
    pose proof (ed_connect_waiting _ _ _ _ _ Hs Ec) as Hs1.
    destruct (e_future s1) as [f|] eqn:Ef1; [|intros [= <- <-]; left; split; [done|by intros ? [=]]].
    destruct (ed_handshake f s1) as [p s2] eqn:Eh. intros Hx. by eapply Hgo.
  - unfold ed_poll_flush. rewrite Hw. intros [= <- <-]. split; [done|]. rewrite Hf. by destruct fl; split_and!.
  - unfold ed_poll_shutdown, ed_poll_flush. rewrite Hw. intros [= <- <-]. split; [done|]. rewrite Hf. by destruct fl; split_and!.
Qed.

(** One poll after the handshake failed. *)
Lemma ed_step_failed op s a s' :
  ed_failed s -> ed_step op s = (a, s') ->
  ed_failed s' /\ a = match op with
  | OpRead _ _ => AnsRead Pending
  | OpWrite _ => AnsWrite (Ready Panic)
  | _ => AnsUnit Pending
  end.
Proof.
  intros (Hw & Hk & f & Hf). destruct op as [cap cx|buf|cx|cx]; cbn [ed_step];
    unfold ed_poll_read, ed_poll_write, ed_poll_shutdown, ed_poll_flush; rewrite Hw.
  2: { rewrite Hf. unfold ed_handshake. cbn. intros [= <- <-]. split; [|done]. split_and!; [done..|by eexists]. }
  all: intros [= <- <-]; split; [|done]; case_match; split_and!; try done; by eexists.
Qed.

Lemma ed_step_open op s a s' :
  e_is_write_early_data s = true -> ed_step op s = (a, s') -> e_is_write_early_data s' = true.
Proof.
  intros Hw. destruct op as [cap cx|buf|cx|cx]; cbn [ed_step];
    unfold ed_poll_read, ed_poll_write, ed_poll_shutdown, ed_poll_flush, on_stream; rewrite Hw;
    (destruct (e_stream s) as [b|]; [|by intros [= <- <-]]);
    [destruct (box_read cap b)|destruct (box_write buf b)|destruct (box_flush b)|destruct (box_shutdown b)];
    by intros [= <- <-].
Qed.

Lemma ed_run_open ops s l s' :
  e_is_write_early_data s = true -> ed_run ops s = (l, s') -> e_is_write_early_data s' = true.
Proof.
  revert s l. induction ops as [|op ops IH]; intros s l Hw; simpl; [by intros [= <- <-]|].
  destruct (ed_step op s) as [a s1] eqn:E. apply ed_step_open in E; [|done].
  destruct (ed_run ops s1) eqn:Er. intros [= <- <-]. by eapply IH.
Qed.

Lemma ed_run_waiting ops rd fl s l s' :
  ed_waiting rd fl s -> ed_run ops s = (l, s') -> e_is_write_early_data s' = false ->
  Forall (fun a => match a with AnsWrite _ => True | a => a = AnsRead Pending \/ a = AnsUnit Pending end) l
  /\ ed_waiting (or_else rd (head (omap op_reader ops))) (or_else fl (head (omap op_flusher ops))) s'.
Proof.
  revert rd fl s l. induction ops as [|op ops IH]; intros rd fl s l Hs; cbn [ed_run].
  - intros [= <- <-] _. split; [done|]. cbn [omap list_omap head]. by rewrite !or_else_None.
  - destruct (ed_step op s) as [a s1] eqn:E. destruct (ed_run ops s1) as [l1 s2] eqn:Er. intros [= <- <-] Hw.
    assert (e_is_write_early_data s1 = false) as Hw1
      by (destruct (e_is_write_early_data s1) eqn:E1; [by rewrite (ed_run_open _ _ _ _ E1 Er) in Hw|done]).
    pose proof (ed_step_waiting _ _ _ _ _ _ Hs E) as Hst.
    destruct op as [cap cx|buf|cx|cx]; [destruct Hst as [-> Hs1]|destruct Hst as [[Hs1 _]|[Hx _]]; [|congruence];
      assert (exists q, a = AnsWrite q) as [q ->] by (cbn [ed_step] in E; destruct (ed_poll_write buf s); simplify_eq; by eexists);
      rewrite <- (or_else_None rd), <- (or_else_None fl) in Hs1
      |destruct Hst as [-> Hs1]..]; destruct (IH _ _ _ _ Hs1 Er Hw) as [Hf Hs2];
      (split; [constructor; [auto|done]|]); rewrite !head_omap_cons, !or_else_assoc; destruct rd, fl; exact Hs2.
Qed.

Lemma ed_run_failed ops s l s' :
  ed_failed s -> ed_run ops s = (l, s') ->
  e_woken s' = [] /\
  Forall2 (fun op a => a = match op with
  | OpRead _ _ => AnsRead Pending
  | OpWrite _ => AnsWrite (Ready Panic)
  | _ => AnsUnit Pending
  end) ops l.
Proof.
  revert s l. induction ops as [|op ops IH]; intros s l Hs; cbn [ed_run].
  - intros [= <- <-]. split; [apply Hs|constructor].
  - destruct (ed_step op s) as [a s1] eqn:E. apply ed_step_failed in E as [Hs1 Ha]; [|done].
    destruct (ed_run ops s1) as [l1 s2] eqn:Er. intros [= <- <-].
    destruct (IH _ _ Hs1 Er) as [Hk Hf]. split; [done|by constructor].
Qed.

(** C22: while the handshake of a WebSocket stream with early data is not
through, whatever polls its tasks make, reads, flushes and shutdowns wait,
and the write that completes it wakes the first reader and the first flusher
that waited.  Only these: a task that polls again with another waker is not
woken.  A handshake that fails wakes nobody, for good: reads and flushes
stay pending and another write panics. *)
Theorem ws_early_data_wakeups len name io req cfg ops l s op a s1 :
  ed_run ops (EarlyStream_new io req cfg name len) = (l, s) -> e_is_write_early_data s = false ->
  ed_step op s = (a, s1) ->
  Forall (fun a => match a with AnsWrite _ => True | a => a = AnsRead Pending \/ a = AnsUnit Pending end) l
  /\ (e_is_write_early_data s1 = true ->
    e_woken s1 = option_list (head (omap op_reader ops)) ++ option_list (head (omap op_flusher ops)))
  /\ (forall e, a = AnsWrite (Ready (Err e)) ->
    forall ops2 l2 s2, ed_run ops2 s1 = (l2, s2) ->
    e_woken s2 = [] /\
    Forall2 (fun op a => a = match op with
    | OpRead _ _ => AnsRead Pending
    | OpWrite _ => AnsWrite (Ready Panic)
    | _ => AnsUnit Pending
    end) ops2 l2).
Proof.
  intros Hr Hw Hstep. assert (ed_waiting None None (EarlyStream_new io req cfg name len)) as Hs0 by done.
  destruct (ed_run_waiting _ _ _ _ _ _ Hs0 Hr Hw) as [Hf Hs]. cbn [or_else] in Hs.
  pose proof (ed_step_waiting _ _ _ _ _ _ Hs Hstep) as Hst. split; [done|].
  destruct op as [cap cx|buf|cx|cx]; [destruct Hst as [-> (Hw1 & _)]| |destruct Hst as [-> (Hw1 & _)]..];
    [by rewrite Hw1| |by rewrite Hw1..].
  destruct Hst as [[(Hw1 & _) He]|(Hw1 & Hk & n & ->)]; (split; [by rewrite ?Hw1, ?Hk|]); [|by intros e [=]].
  intros e Ha ops2 l2 s2 Hr2. eapply ed_run_failed; [by eapply He|exact Hr2].
Qed.
End EarlyData.

(** ** Building the stream ([build_tcp], [build_udp] of mod.rs) *)

Section Build.
Context {Req I Cfg Fut T : Type}.
(** [client_async_with_config], awaited: the stream and the status. *)
Context (await_connect : Req -> I -> option Cfg -> res (T * Z)).

Definition ws_build_tcp (req : res Req) (max_early_data : nat) (name : bytes) (cfg : option Cfg) (io : I)
  : res (@EarlyStream Req I Cfg Fut T + @BinaryWsStream T) :=
  req ← req;
  if decide (0 < max_early_data) then Ok (inl (EarlyStream_new io req cfg name max_early_data))
  else
    '(stream, status) ← map_new_error (await_connect req io cfg);
    if decide (status <> 101%Z) then Err (new_error "bad status") else Ok (inr (BinaryWsStream_new stream)).

Definition ws_build_udp (req : res Req) (max_early_data : nat) (name : bytes) (cfg : option Cfg) (io : I)
  (build_tcp_inside : bool) : res (@EarlyStream Req I Cfg Fut T + @BinaryWsStream T + I) :=
  if build_tcp_inside then inl <$> ws_build_tcp req max_early_data name cfg io else Ok (inr io).
End Build.

(** ** Witnesses: a handshake that is through at its second poll, or refused *)

Section Witness.
(** A request is its one header; base64 is the identity. *)
#[local] Program Instance wit_header : EarlyHeader (option bytes) := {|
    get_header _ r := r;
    set_header _ v _ := Some v;
    header_value_ok _ := true;
    url_safe_no_pad b := b;
    b64_decode b := Some b
  |}.
Solve All Obligations with done.

(** A stream with the request it was opened with. *)
Definition WitWs : Type := option bytes * ScriptWs.

#[local] Program Instance wit_ws : WebSocketStream WitWs := {|
    ws_poll_next t := let '(p, u) := ws_poll_next t.2 in (p, (t.1, u));
    ws_poll_ready t := let '(p, u) := ws_poll_ready t.2 in (p, (t.1, u));
    ws_start_send m t := let '(p, u) := ws_start_send m t.2 in (p, (t.1, u));
    ws_inner_flush t := (Ready (Ok tt), t);
    ws_inner_close t := (Ready (Ok tt), t);
    ws_incoming t := ws_incoming t.2;
    ws_outgoing t := ws_outgoing t.2
  |}.
Next Obligation.
  intros [r t] p t'. cbn [fst snd]. destruct (ws_poll_next t) as [q u] eqn:E. intros [= <- <-].
  exact (ws_poll_next_law _ _ _ E).
Qed.
Next Obligation.
  intros [r t] p t'. cbn [fst snd]. destruct (ws_poll_ready t) as [q u] eqn:E. intros [= <- <-].
  exact (ws_poll_ready_law _ _ _ E).
Qed.
Next Obligation.
  intros m [r t] q t'. cbn [fst snd]. destruct (ws_start_send m t) as [p u] eqn:E. intros [= <- <-].
  exact (ws_start_send_law _ _ _ _ E).
Qed.
Next Obligation. by intros t p t' [= <- <-]. Qed.

(** The request, the pending polls left, the status. *)
Definition WitFut : Type := option bytes * nat * Z.

Definition wit_connect (f : WitFut) : Poll (res (WitWs * Z)) * WitFut :=
  match f with
  | (r, S n, st) => (Pending, (r, n, st))
  | (r, O, st) => (Ready (Ok ((r, mkScriptWs [] [] []), st)), f)
  end.

#[local] Program Instance wit_handshake : WsHandshake (option bytes) Z unit WitFut WitWs := {|
    client_async r i _ := (r, 1, i);
    poll_connect := wit_connect;
    hs_request f := f.1.1;
    ws_request t := t.1
  |}.
Next Obligation. done. Qed.
Next Obligation. intros [[r [|n]] st] p f'; simpl; intros; by simplify_eq/=. Qed.
Next Obligation. intros [r t] p t'. simpl. destruct (script_ready t). by intros [= <- <-]. Qed.
Next Obligation. intros m [r t] q t'. simpl. by intros [= <- <-]. Qed.

(** The stream below is never polled here. *)
Definition no_poll {A} (i : Z) : Poll (res A) * Z := (Pending, i).
Definition wit_write := @ed_poll_write (option bytes) Z unit WitFut WitWs _ _ _ (fun _ => no_poll).
Definition wit_run := @ed_run (option bytes) Z unit WitFut WitWs _ _ _ (fun _ => no_poll) (fun _ => no_poll) no_poll no_poll.
Definition wit_step := @ed_step (option bytes) Z unit WitFut WitWs _ _ _ (fun _ => no_poll) (fun _ => no_poll) no_poll no_poll.
Definition wit_new (status : Z) := @EarlyStream_new (option bytes) Z unit WitFut WitWs status (Some (str "s")) None (str "h") 3.

(** An open one, and one refused with the status 403. *)
Lemma ws_early_data_delivers_witness :
  let '(p, s) := sink_write_all wit_write 3 (str "hello") (wit_new 101) in
  let '(p', s') := sink_write_all wit_write 3 (str "hello") (wit_new 403) in
  (exists r w, opened_by r s /\ e_stream s = Some (BoxWs w) /\ r = Some (str "hel") /\ ws_sent w = str "lo") /\
  not_opened s' /\ p' = Ready (Err (new_error "bad status")).
Proof.
  destruct (sink_write_all wit_write 3 (str "hello") (wit_new 101)) as [p s] eqn:E.
  destruct (sink_write_all wit_write 3 (str "hello") (wit_new 403)) as [p' s'] eqn:E'.
  pose proof (ws_early_data_delivers (fun _ => no_poll) 3 (str "h") 101%Z (Some (str "s")) None (str "s") (str "hello") 3 p s
    ltac:(lia) ltac:(done) eq_refl E) as (_ & Hd & _).
  pose proof (ws_early_data_delivers (fun _ => no_poll) 3 (str "h") 403%Z (Some (str "s")) None (str "s") (str "hello") 3 p' s'
    ltac:(lia) ltac:(done) eq_refl E') as (_ & Hd' & _).
  unfold ed_delivery in *. assert (e_is_write_early_data s = true /\ p = Ready (Ok tt) /\ e_header_name s = str "h") as (Hw & Hp & Hn)
    by (split_and!; [apply (f_equal snd) in E|apply (f_equal fst) in E|apply (f_equal snd) in E]; vm_compute in E; by subst).
  assert (e_is_write_early_data s' = false /\ p' = Ready (Err (new_error "bad status"))) as [Hw' Hp']
    by (split; [apply (f_equal snd) in E'|apply (f_equal fst) in E']; vm_compute in E'; by subst).
  rewrite Hw in Hd. rewrite Hw' in Hd'. destruct Hd as (r & w & Ho & Hr & Hs & _ & Hall), Hd' as [Hd' _].
  split; [|by split]. exists r, w. split; [exact Ho|]. split; [exact Hs|]. split; [|by apply Hall].
  unfold early_bytes in Hr. cbn in Hr. destruct r; [by subst|discriminate Hr].
Defined.

(** Two readers and a flusher wait; the first reader and the flusher are woken. *)
Lemma ws_early_data_wakeups_witness :
  let ops := [OpRead 9 1; OpWrite (str "hello"); OpRead 9 2; OpFlush 3] in
  e_woken (wit_step (OpWrite (str "hello")) (wit_run ops (wit_new 101)).2).2 = [1; 3].
Proof.
  intros ops. destruct (wit_run ops (wit_new 101)) as [l s] eqn:Er. change ((l, s).2) with s.
  destruct (wit_step (OpWrite (str "hello")) s) as [a s1] eqn:Es.
  assert (e_is_write_early_data s = false) as Hw by (apply (f_equal snd) in Er; vm_compute in Er; by subst s).
  destruct (ws_early_data_wakeups (fun _ => no_poll) (fun _ => no_poll) no_poll no_poll 3 (str "h") 101%Z (Some (str "s"))
    None ops l s (OpWrite (str "hello")) a s1 Er Hw Es) as (_ & Hk & _).
  refine (eq_trans (Hk _) _); [|reflexivity].
  apply (f_equal snd) in Er. vm_compute in Er. subst s. apply (f_equal snd) in Es. vm_compute in Es. by subst s1.
Defined.
End Witness.
