(* ===== verification/SimpleObfs.v ===== *)
(** * The simple-obfs transport (src/src/proxy/simpleobfs/http.rs, mod.rs)

    The first write of a stream goes out behind the head of an HTTP request,
    and of what comes in everything up to the end of an HTTP head is dropped;
    afterwards the stream is transparent.  Both directions are generators (see
    FrameReader.v): [co_await] hands on only [Pending], so a failed poll is a
    result like any other.

    The loop that looks for the end of the head polls the stream again and
    again within one call, so it is defined with fuel and answers [None] when
    that runs out. *)

From S2P Require Import Prelude Io StdText Address Transport.
From Stdlib Require Import ZArith Lia List Strings.Byte.
From stdpp Require Import base option list strings.

(** ** Reading *)

(** [ReadBuf]: what is filled, and the size of the buffer. *)
Record ReadBuf := mkReadBuf { rb_filled : bytes; rb_cap : nat }.
Definition rb_remaining (b : ReadBuf) : nat := rb_cap b - length (rb_filled b).

Definition crlf2 : bytes := [x0d; x0a; x0d; x0a].

(** [windows(4).position(|w| w == b"\r\n\r\n")]. *)
Fixpoint find_crlf2 (l : bytes) : option nat :=
  match l with
  | [] => None
  | _ :: l' => if decide (take 4 l = crlf2) then Some 0 else S <$> find_crlf2 l'
  end.

Record ObfsReader := mkObfsReader { or_stream : rd_script; or_body : bool }.

Definition ObfsReader_new (s : rd_script) : ObfsReader := mkObfsReader s false.

(** A poll of the stream into [buf]. *)
Definition read_into (buf : ReadBuf) (s : rd_script) : Poll (res unit) * ReadBuf * rd_script :=
  match poll_read (rb_remaining buf) s with
  | (Ready (Ok d), s) => (Ready (Ok tt), mkReadBuf (rb_filled buf ++ d) (rb_cap buf), s)
  | (Ready (Err e), s) => (Ready (Err e), buf, s)
  | (Ready Panic, s) => (Ready Panic, buf, s)
  | (Pending, s) => (Pending, buf, s)
  end.

(** The first loop of [priv_poll_read]. *)
Fixpoint obfs_skip_head (fuel : nat) (buf : ReadBuf) (s : rd_script) : option (Poll (res unit) * ReadBuf * ObfsReader) :=
  match fuel with
  | O => None
  | S f =>
      match read_into buf s with
      | (Pending, buf, s) => Some (Pending, buf, mkObfsReader s false)
      | (Ready _, buf, s) =>
          match find_crlf2 (rb_filled buf) with
          | Some i => Some (Ready (Ok tt), mkReadBuf (drop (i + 4) (rb_filled buf)) (rb_cap buf), mkObfsReader s true)
          | None => obfs_skip_head f (mkReadBuf [] (rb_cap buf)) s
          end
      end
  end.

Definition obfs_poll_read (fuel : nat) (buf : ReadBuf) (r : ObfsReader) : option (Poll (res unit) * ReadBuf * ObfsReader) :=
  if or_body r then let '(p, buf, s) := read_into buf (or_stream r) in Some (p, buf, mkObfsReader s true)
  else obfs_skip_head fuel buf (or_stream r).

(** Polls behind the head, each into an empty buffer of the given size. *)
Definition obfs_body_read (cap : nat) (r : ObfsReader) : Poll (res bytes) * ObfsReader :=
  match obfs_poll_read 0 (mkReadBuf [] cap) r with
  | Some (Ready (Ok _), buf, r) => (Ready (Ok (rb_filled buf)), r)
  | Some (Ready (Err e), _, r) => (Ready (Err e), r)
  | Some (Ready Panic, _, r) => (Ready Panic, r)
  | Some (Pending, _, r) => (Pending, r)
  | None => (Ready Panic, r)
  end.

Lemma obfs_body_read_eq cap s :
  obfs_body_read cap (mkObfsReader s true) = let '(p, s') := poll_read cap s in (p, mkObfsReader s' true).
Proof.
  unfold obfs_body_read, obfs_poll_read, read_into, rb_remaining. cbn [or_body or_stream rb_filled rb_cap length].
  rewrite Nat.sub_0_r. by destruct (poll_read cap s) as [[[d|e|]|] s1].
Qed.

Lemma obfs_body_reads caps s :
  poll_reads obfs_body_read caps (mkObfsReader s true)
  = let '(ps, s') := poll_reads poll_read caps s in (ps, mkObfsReader s' true).
Proof.
  revert s. induction caps as [|cap caps IH]; intros s; simpl; [done|]. rewrite obfs_body_read_eq.
  destruct (poll_read cap s) as [[[d|e|]|] s1]; try done; rewrite IH; by destruct (poll_reads poll_read caps s1).
Qed.

(** The end of the head is found where it is. *)
Lemma find_crlf2_app h d :
  find_crlf2 (h ++ crlf2) = Some (length h) -> find_crlf2 (h ++ crlf2 ++ d) = Some (length h).
Proof.
  induction h as [|b h IH]; [done|]. cbn [app find_crlf2 length].
  destruct (decide (take 4 (b :: h ++ crlf2) = crlf2)) as [|Hn]; [done|].
  intros Hf. destruct (find_crlf2 (h ++ crlf2)) as [n|] eqn:E; [|done]. injection Hf as ->.
  assert (take 4 (b :: h ++ crlf2 ++ d) = take 4 (b :: h ++ crlf2)) as ->.
  { rewrite app_assoc. apply (take_app_le (b :: h ++ crlf2) d 4). cbn [length]. rewrite length_app. cbn. lia. }
  rewrite decide_False by done. by rewrite IH.
Qed.

(** Reads without the blank line, then the end of the stream or errors. *)
Definition headless (cap : nat) (s : rd_script) : Prop :=
  Forall (fun e => match e with
                   | RdData d => length d <= cap /\ find_crlf2 d = None
                   | RdErr _ => True
                   | RdPending => False
                   end) s.

Lemma obfs_skip_headless cap s fuel :
  headless cap s -> obfs_skip_head fuel (mkReadBuf [] cap) s = None.
Proof.
  revert s. induction fuel as [|fuel IH]; intros s Hs; [done|]. cbn [obfs_skip_head].
  unfold read_into, rb_remaining. cbn [rb_filled rb_cap length]. rewrite Nat.sub_0_r.
  destruct Hs as [|e s He Hs]; [by apply (IH [] (Forall_nil_2 _))|].
  destruct e as [|d|e]; [done| |by apply IH]. destruct He as [Hl Hf]. cbn [poll_read].
  rewrite decide_True by done. cbn [rb_filled rb_cap app]. rewrite Hf. by apply IH.
Qed.

(** C23: when one read holds the whole end of the response's head, the first
  poll delivers what follows it in that read and every later poll is the poll
  of the stream below.  But a read without the whole blank line is thrown away
  as it is: when the head's end is cut by the reads, nothing of it is found
  again, and when the stream then ends the poll never answers. *)
Theorem obfs_reads cap s :
  (forall h d s1 fuel, poll_read cap s = (Ready (Ok (h ++ crlf2 ++ d)), s1) ->
     find_crlf2 (h ++ crlf2) = Some (length h) ->
     obfs_poll_read (S fuel) (mkReadBuf [] cap) (ObfsReader_new s)
     = Some (Ready (Ok tt), mkReadBuf d cap, mkObfsReader s1 true)
     /\ rd_bytes s = h ++ crlf2 ++ d ++ rd_bytes s1
     /\ forall caps, poll_reads obfs_body_read caps (mkObfsReader s1 true)
                     = let '(ps, s2) := poll_reads poll_read caps s1 in (ps, mkObfsReader s2 true))
  /\ (headless cap s -> forall fuel, obfs_poll_read fuel (mkReadBuf [] cap) (ObfsReader_new s) = None).
Proof.
  split.
  - intros h d s1 fuel Hp Hf. split_and!; [|apply poll_read_spec in Hp|intros caps; apply obfs_body_reads].
    + unfold obfs_poll_read, ObfsReader_new. cbn [or_body or_stream obfs_skip_head].
      unfold read_into, rb_remaining. cbn [rb_filled rb_cap length]. rewrite Nat.sub_0_r, Hp.
      cbn [rb_filled rb_cap app]. rewrite find_crlf2_app by done.
      rewrite app_assoc, drop_app_length' by (rewrite length_app; cbn; lia). done.
    + destruct (h ++ crlf2 ++ d) as [|b l] eqn:E; [by apply app_eq_nil in E as [_ [=]]|].
      destruct Hp as [_ ->]. rewrite <- E, <- !app_assoc. done.
  - intros Hs fuel. by apply obfs_skip_headless.
Qed.

(** ** Writing *)

Section Write.
(** The request of the crates [hyper] and [http]: the path of the URI, the
headers in the order of the map's iteration, base64. *)
Context (uri_path : bytes -> option bytes) (header_iter : list (bytes * bytes) -> list (bytes * bytes)).
Context (url_safe : bytes -> bytes).

(** The draws of [thread_rng] and [random_iv_or_salt]. *)
Record ObfsDraw := mkObfsDraw { od_salt : bytes; od_minor : Z; od_patch : Z }.

Inductive obfs_state := ObfsStart | ObfsHead | ObfsBody.

Record ObfsWriter := mkObfsWriter {
  ow_stream : Writer;
  ow_host : Address;
  ow_buffer : bytes;
  ow_pos : nat;
  ow_state : obfs_state
}.

Definition ObfsWriter_new (host : Address) (stream : Writer) : ObfsWriter :=
  mkObfsWriter stream host [] 0 ObfsStart.

(** The request in front of [len] bytes; a host the URI parser refuses makes
the [unwrap] panic. *)
Definition obfs_request (draw : ObfsDraw) (host : Address) (len : nat) : res bytes :=
  match uri_path (str "http://" ++ to_string host) with
  | None => Panic
  | Some path =>
    let headers :=
    [(str "User-Agent", str "curl/7." ++ show_dec (od_minor draw) ++ str "." ++ show_dec (od_patch draw));
      (str "Upgrade", str "websocket"); (str "Connection", str "Upgrade");
      (str "Sec-WebSocket-Key", url_safe (od_salt draw));
      (str "Content-Length", show_dec (Z.of_nat len)); (str "Host", to_string host)] in
    Ok (str "GET" ++ str " " ++ path ++ str " " ++ str "HTTP/1.1" ++ [x0d; x0a]
      ++ flat_map (fun kv => kv.1 ++ str ": " ++ kv.2 ++ [x0d; x0a]) (header_iter headers)
      ++ [x0d; x0a])
  end.

(** From the [co_await] of [write_buffer_data]: its result, an error too, is
stored and overwritten later. *)
Definition obfs_head (buf : bytes) (o : ObfsWriter) : Poll (res nat) * ObfsWriter :=
  match write_data (ow_stream o) (ow_buffer o) (ow_pos o) with
  | (Pending, w, pos) => (Pending, mkObfsWriter w (ow_host o) (ow_buffer o) pos ObfsHead)
  | (Ready _, w, pos) => (Ready (Ok (length buf)), mkObfsWriter w (ow_host o) (ow_buffer o) pos ObfsBody)
  end.

Definition obfs_poll_write (draw : ObfsDraw) (buf : bytes) (o : ObfsWriter) : Poll (res nat) * ObfsWriter :=
  match ow_state o with
  | ObfsStart =>
    match obfs_request draw (ow_host o) (length buf) with
    | Ok request =>
      obfs_head buf (mkObfsWriter (ow_stream o) (ow_host o) (ow_buffer o ++ request ++ buf) (ow_pos o) ObfsHead)
    | Err e => (Ready (Err e), o)
    | Panic => (Ready Panic, o)
    end
  | ObfsHead => obfs_head buf o
  | ObfsBody =>
    let '(p, w) := poll_write (ow_stream o) buf in
    (p, mkObfsWriter w (ow_host o) (ow_buffer o) (ow_pos o) ObfsBody)
  end.

(** Behind the request the stream is transparent. *)
#[export] Instance obfs_body_sink draw :
  PollSink (obfs_poll_write draw) (fun o => ow_state o = ObfsBody) (fun o => wr_log (ow_stream o)).
Proof.
  constructor. intros buf o p o' Hs. unfold obfs_poll_write. rewrite Hs.
  destruct (poll_write (ow_stream o) buf) as [q w] eqn:E. intros [= <- <-]. split; [done|].
  by apply poll_write_spec in E.
Qed.

(** The request and the first write are being sent: [log] was on the wire
before, [ow_pos] bytes are now. *)
Definition obfs_sending (log : bytes) (o : ObfsWriter) : Prop :=
  ow_state o = ObfsHead /\ ow_pos o <= length (ow_buffer o)
  /\ wr_log (ow_stream o) = log ++ take (ow_pos o) (ow_buffer o).

Lemma obfs_head_step log buf o p o' :
  obfs_sending log o -> obfs_head buf o = (p, o') ->
  ow_buffer o' = ow_buffer o /\ (writes_ok (ow_stream o) -> writes_ok (ow_stream o')) /\
  match p with
  | Pending => obfs_sending log o'
  | Ready (Ok n) => n = length buf /\ ow_state o' = ObfsBody
    /\ (exists k, wr_log (ow_stream o') = log ++ take k (ow_buffer o))
    /\ (writes_ok (ow_stream o) -> wr_log (ow_stream o') = log ++ ow_buffer o)
  | _ => False
  end.
Proof.
  intros (Hs & Hp & Hl). unfold obfs_head. destruct (write_data _ _ _) as [[q w] pos] eqn:E.
  pose proof (write_data_spec _ _ _ _ _ _ E Hp) as (Hpos & Hw & Hq).
  assert (wr_log w = log ++ take pos (ow_buffer o)) as Hw'.
  { rewrite Hw, Hl, <- app_assoc. f_equal. pose proof (take_add_drop (ow_buffer o) 0 (ow_pos o) (pos - ow_pos o)) as Ht.
    rewrite Nat.add_0_l, drop_0 in Ht. rewrite Ht. f_equal. lia. }
  assert (writes_ok (ow_stream o) -> writes_ok w /\ (q = Pending \/ pos = length (ow_buffer o))) as Hok.
  { intros Hok. pose proof (write_data_good _ _ _ _ _ _ Hok E) as [? [->|[-> _]]]; auto. }
  destruct q as [r|]; intros [= <- <-]; cbn [ow_buffer ow_stream ow_state]; (split; [done|split; [tauto|]]).
  - split_and!; [done|done|by exists pos|]. intros Hg. destruct (Hok Hg) as [_ [?| ->]]; [done|].
    by rewrite Hw', take_ge.
  - split_and!; [done|simpl; lia|done].
Qed.

Lemma obfs_write_all_sending draw log data fuel o p o' :
  obfs_sending log o -> data <> [] -> sink_write_all (obfs_poll_write draw) fuel data o = (p, o') ->
  (p = Pending \/ p = Ready (Ok tt) /\ ow_state o' = ObfsBody)
  /\ (exists k, wr_log (ow_stream o') = log ++ take k (ow_buffer o))
  /\ (writes_ok (ow_stream o) -> p = Ready (Ok tt) -> wr_log (ow_stream o') = log ++ ow_buffer o).
Proof.
  intros Ho Hd. revert o Ho. induction fuel as [|fuel IH]; intros o Ho.
  - destruct data; [done|]. intros [= <- <-]. split_and!; [by left| |done]. exists (ow_pos o). apply Ho.
  - destruct data as [|b data']; [done|]. set (data := b :: data') in *. cbn [sink_write_all].
    unfold obfs_poll_write at 1. rewrite (proj1 Ho). destruct (obfs_head data o) as [q o1] eqn:E.
    destruct (obfs_head_step _ _ _ _ _ Ho E) as (Hb & Hg & Hq). destruct q as [[n|e|]|]; [|done..|].
    + destruct Hq as (-> & Hs & Hk & Hall). rewrite decide_False, decide_True, drop_ge by (unfold data; simpl; lia).
      intros Hr. assert (p = Ready (Ok tt) /\ o' = o1) as [-> ->] by (destruct fuel; by injection Hr as <- <-). auto.
    + intros Hr. destruct (IH _ Hq Hr) as (Hp & Hk & Hall). rewrite Hb in Hk, Hall. auto.
Qed.

(** The first write of an obfuscated stream goes out whole behind one
request, in any number of parts, and the following writes as they are.  The
write never fails: when the stream below fails while the request is being
sent, the rest of it is lost and the caller is told that all was written. *)
Theorem obfs_write draw host w request data fuel p o' :
  obfs_request draw host (length data) = Ok request -> data <> [] ->
  sink_write_all (obfs_poll_write draw) fuel data (ObfsWriter_new host w) = (p, o') ->
  (p = Pending \/ p = Ready (Ok tt))
  /\ (exists k, wr_log (ow_stream o') = wr_log w ++ take k (request ++ data))
  /\ (writes_ok w -> p = Ready (Ok tt) -> wr_log (ow_stream o') = wr_log w ++ request ++ data)
  /\ (p = Ready (Ok tt) -> forall fuel2 data2 p2 o2,
    sink_write_all (obfs_poll_write draw) fuel2 data2 o' = (p2, o2) ->
    exists d, d `prefix_of` data2 /\ wr_log (ow_stream o2) = wr_log (ow_stream o') ++ d
    /\ (p2 = Ready (Ok tt) -> d = data2))
  /\ (forall e ws, wr_script w = WrErr e :: ws -> 0 < fuel -> p = Ready (Ok tt) /\ wr_log (ow_stream o') = wr_log w).
Proof.
  intros Hreq Hd Hr. set (o1 := mkObfsWriter w host (request ++ data) 0 ObfsHead).
  assert (obfs_sending (wr_log w) o1) as Ho1 by (split_and!; [done|simpl; lia|by rewrite app_nil_r]).
  destruct data as [|b data']; [done|]. set (data := b :: data') in *. destruct fuel as [|fuel].
  { injection Hr as <- <-. split_and!; [by left|by exists 0; rewrite app_nil_r|done|done|intros; lia]. }
  assert (sink_write_all (obfs_poll_write draw) (S fuel) data o1 = (p, o')) as Hr1.
  { assert (obfs_poll_write draw data (ObfsWriter_new host w) = obfs_poll_write draw data o1) as E.
    { unfold obfs_poll_write. cbn [ow_state ow_host ObfsWriter_new o1]. by rewrite Hreq. }
    rewrite <- Hr. cbn [sink_write_all data]. fold data. by rewrite E. }
  destruct (obfs_write_all_sending _ _ _ _ _ _ _ Ho1 Hd Hr1) as (Hp & Hk & Hall). split_and!; [tauto|done|done| |].
  - intros -> fuel2 data2 p2 o2 Hr2. destruct Hp as [?|[_ Hs]]; [done|].
    by destruct (sink_write_all_spec _ _ _ _ _ Hs Hr2) as (_ & _ & Hd2).
  - intros e ws He _. assert (exists o2, obfs_poll_write draw data o1 = (Ready (Ok (length data)), o2)
      /\ wr_log (ow_stream o2) = wr_log w) as (o2 & E & Hl).
    { unfold obfs_poll_write, obfs_head, write_data. cbn [ow_state ow_stream ow_buffer ow_pos o1 write_data_loop].
      rewrite decide_False by (rewrite length_app; unfold data; simpl; lia).
      unfold poll_write. rewrite He. eexists. split; [done|]. by rewrite app_nil_r. }
    cbn [sink_write_all data] in Hr1. fold data in Hr1. rewrite E, decide_False, decide_True, drop_ge in Hr1 by (unfold data; simpl; lia).
    destruct fuel; by injection Hr1 as <- <-.
Qed.
End Write.

(** [SimpleObfsStreamBuilder::build_tcp]; [build_udp] when the stream below was
    built as TCP. *)
Definition obfs_build (host : Address) (io : Stream) : ObfsReader * ObfsWriter :=
  (ObfsReader_new (st_rd io), ObfsWriter_new host (st_wr io)).

(** ** Witnesses *)

Section Witness.
Definition wit_head : bytes := str "HTTP/1.1 101 Switching Protocols".

(** The theorem at a read that holds the head, and at one that cuts its end. *)
Lemma obfs_reads_witness :
  let s := [RdData (wit_head ++ crlf2 ++ str "hello"); RdData (str "world")] in
  let cut := [RdData (wit_head ++ [x0d; x0a]); RdData ([x0d; x0a] ++ str "hello")] in
  obfs_poll_read 1 (mkReadBuf [] 99) (ObfsReader_new s)
  = Some (Ready (Ok tt), mkReadBuf (str "hello") 99, mkObfsReader [RdData (str "world")] true)
  /\ forall fuel, obfs_poll_read fuel (mkReadBuf [] 99) (ObfsReader_new cut) = None.
Proof.
  intros s cut. split.
  - apply (proj1 (obfs_reads 99 s) wit_head (str "hello") [RdData (str "world")] 0); vm_compute; reflexivity.
  - apply (proj2 (obfs_reads 99 cut)). repeat constructor; vm_compute; lia.
Defined.

Definition wit_path (u : bytes) : option bytes := Some (str "/").
Definition wit_host : Address := DomainNameAddress (str "example.com") 80.
Definition wit_draw : ObfsDraw := mkObfsDraw (str "salt") 7 3.

Lemma obfs_write_witness :
  let w := mkWriter [WrAccept 20; WrPending; WrAccept 50] [] [] 0 [] 0 in
  let write := obfs_poll_write wit_path (fun l => l) (fun b => b) wit_draw in
  exists request, wr_log (ow_stream (sink_write_all write 9 (str "hello") (ObfsWriter_new wit_host w)).2)
  = request ++ str "hello".
Proof.
  intros w write. destruct (sink_write_all write 9 (str "hello") (ObfsWriter_new wit_host w)) as [p o'] eqn:E.
  destruct (obfs_request wit_path (fun l => l) (fun b => b) wit_draw wit_host (length (str "hello"))) as [request|?|] eqn:Er.
  - exists request. destruct (obfs_write wit_path (fun l => l) (fun b => b) wit_draw wit_host w request (str "hello") 9 p o' Er)
      as (_ & _ & Hl & _).
    + done.
    + exact E.
    + apply Hl; [repeat constructor|]. apply (f_equal fst) in E. vm_compute in E. by subst p.
  - exfalso. vm_compute in Er. discriminate.
  - exfalso. vm_compute in Er. discriminate.
Defined.
End Witness.
