(* ===== verification/UdpStack.v ===== *)
(** * Dialling, and the UDP streams a chain is made of

    The network calls of [Address] (src/src/proxy/address.rs) and of
    [ConnectedUdpSocket] (src/src/proxy/udp.rs) over the sockets of tokio,
    which are a class: they implement the [Dialer] of Chain.v.

    Every UDP stream has the byte methods ([AsyncRead], [AsyncWrite]) and the
    packet methods ([UdpRead], [UdpWrite], src/src/proxy/mod.rs), but many
    types leave some of them [unimplemented!()].  [implemented] lists, from the
    [impl]s, which ones panic and which methods of the stream below the others
    poll; the chain is Chain.v's [chain_build_udp] over these streams, of the
    builders of Config.v: each builder makes the request, the connector or the
    keys its own file defines, with the panics these have. *)

From S2P Require Import Prelude Io StdText Address IpTrie Aead ShadowStream Shadowsocks VmessKdf VmessBody VmessHeader VmessStream Trojan UdpSplit Chain.
From S2P Require Import Transport Tls Route RouteProofs Config ConfigProofs H2Io Http2 Grpc Websocket WsEarlyData.
From Stdlib Require Import ZArith Lia List Strings.Byte.
From stdpp Require Import base option list gmap strings sets.

(** ** Sockets *)

(** What an address is connected to: [impl ToSocketAddrs]. *)
Definition host : Type := SocketAddr + bytes * Z.

(** tokio's sockets and resolver.  An address stands for itself. *)
Class Sockets (T K Ip : Type) := {
  tcp_connect : host -> res T;
  udp_bind : Ip -> res K;
  lookup_host : host -> res (list SocketAddr);
  tcp_connect_no_panic h : tcp_connect h <> Panic;
  udp_bind_no_panic i : udp_bind i <> Panic;
  lookup_no_panic h : lookup_host h <> Panic;
  lookup_address a : lookup_host (inl a) = Ok [a]
}.

(** [impl From] for [Address], and the error of a text that is none. *)
Definition address_from_sock (s : SocketAddr) : Address := SocketAddress s.
Definition address_from_pair (p : bytes * Z) : Address := DomainNameAddress p.1 p.2.
Definition address_default : Address := new_dummy_address.
Definition address_error (message : string) : io_error := IoError Other ("address error: " ++ message).

(** [ConnectedUdpSocket(socket, addr)]. *)
Record ConnectedUdpSocket (K : Type) := mkConnected { cu_socket : K; cu_peer : SocketAddr }.
Arguments mkConnected {K}.
Arguments cu_socket {K}.
Arguments cu_peer {K}.

Section Dial.
Context {T K Ip : Type} `{Sockets T K Ip}.

(** [Address::connect_tcp]. *)
Definition address_connect_tcp (a : Address) : res T :=
  match a with
  | SocketAddress addr => tcp_connect (inl addr)
  | DomainNameAddress host port => tcp_connect (inr (host, port))
  end.

(** [ConnectedUdpSocket::connect] and [Address::connect_udp]. *)
Definition connected_udp (socket : K) (addr : host) : res (ConnectedUdpSocket K) :=
  addr ← connected_connect (lookup_host addr); Ok (mkConnected socket addr).

Definition address_connect_udp (a : Address) (socket : K) : res (ConnectedUdpSocket K) :=
  match a with
  | SocketAddress addr => connected_udp socket (inl addr)
  | DomainNameAddress host port => connected_udp socket (inr (host, port))
  end.

(** [to_socket_addrs]. *)
Definition to_socket_addrs (a : Address) : res (list SocketAddr) :=
  match a with
  | SocketAddress addr => Ok [addr]
  | DomainNameAddress addr port => lookup_host (inr (addr, port))
  end.

(** The peer of a connected socket is the first address the target resolves
to. *)
Lemma connect_udp_spec a k : address_connect_udp a k =
  match to_socket_addrs a with
  | Ok (peer :: _) => Ok (mkConnected k peer)
  | Ok [] => Err (new_error "no valid addr after lookup_host")
  | Err e => Err e
  | Panic => Panic
  end.
Proof.
  destruct a as [s|d p]; unfold address_connect_udp, connected_udp, connected_connect; cbn [to_socket_addrs].
  - by rewrite lookup_address.
  - by destruct (lookup_host (inr (d, p))) as [[|x l]|e|].
Qed.

Lemma address_tcp_no_panic a : address_connect_tcp a <> Panic.
Proof. destruct a; apply tcp_connect_no_panic. Qed.

Lemma address_udp_no_panic a k : address_connect_udp a k <> Panic.
Proof.
  rewrite connect_udp_spec. destruct a as [s|d p]; cbn [to_socket_addrs]; [done|].
  pose proof (lookup_no_panic (inr (d, p))) as Hn. by destruct (lookup_host (inr (d, p))) as [[|x l]|e|].
Qed.
End Dial.

(** ** Calls of a connected socket *)

Section Connected.
(** [poll_recv_from] and [poll_send_to] of the socket. *)
Context {K : Type} (sock_recv : nat -> K -> Poll (res (bytes * SocketAddr)) * K) (sock_send : bytes -> SocketAddr -> K -> Poll (res nat) * K).

Definition on_socket {A} (s : ConnectedUdpSocket K) (r : A * K) : A * ConnectedUdpSocket K := (r.1, mkConnected r.2 (cu_peer s)).

Definition poll_map {A B} (f : A -> B) (p : Poll (res A)) : Poll (res B) :=
  match p with
  | Ready (Ok a) => Ready (Ok (f a))
  | Ready (Err e) => Ready (Err e)
  | Ready Panic => Ready Panic
  | Pending => Pending
  end.

(** [AsyncRead]: where the packet came from is dropped. *)
Definition connected_poll_read (cap : nat) (s : ConnectedUdpSocket K) : Poll (res bytes) * ConnectedUdpSocket K :=
  let '(p, s) := on_socket s (sock_recv cap (cu_socket s)) in (poll_map fst p, s).

Definition connected_poll_recv_from (cap : nat) (s : ConnectedUdpSocket K) : Poll (res (bytes * Address)) * ConnectedUdpSocket K :=
  let '(p, s) := on_socket s (sock_recv cap (cu_socket s)) in (poll_map (fun r => (r.1, SocketAddress r.2)) p, s).

Definition connected_poll_write (buf : bytes) (s : ConnectedUdpSocket K) : Poll (res nat) * ConnectedUdpSocket K :=
  on_socket s (sock_send buf (cu_peer s) (cu_socket s)).

(** [UdpWrite]: the target is not looked at. *)
Definition connected_poll_send_to (buf : bytes) (target : Address) (s : ConnectedUdpSocket K) : Poll (res nat) * ConnectedUdpSocket K :=
  on_socket s (connected_send_to (fun buf addr => sock_send buf addr (cu_socket s)) (cu_peer s) buf target).

Definition connected_poll_flush (s : ConnectedUdpSocket K) : Poll (res unit) * ConnectedUdpSocket K := (Ready (Ok tt), s).
Definition connected_poll_shutdown (s : ConnectedUdpSocket K) : Poll (res unit) * ConnectedUdpSocket K := (Ready (Ok tt), s).

(** Whatever is called, and whatever target is asked for, the peer stays the
one of [connect]: bytes written and packets sent take the same way. *)
Lemma connected_peer_fixed cap buf target s :
  cu_peer (connected_poll_read cap s).2 = cu_peer s /\ cu_peer (connected_poll_recv_from cap s).2 = cu_peer s /\
  cu_peer (connected_poll_write buf s).2 = cu_peer s /\ connected_poll_send_to buf target s = connected_poll_write buf s.
Proof. by split_and!. Qed.
End Connected.

(** ** The methods of the UDP streams *)

Inductive method := PollRead | PollWrite | PollFlush | PollShutdown | PollRecvFrom | PollSendTo.

#[export] Instance method_eq_dec : EqDecision method.
Proof. solve_decision. Defined.

Inductive layer_stream :=
| SslStream            (* tls *)
| BinaryWs             (* websocket *)
| BinaryWsEarly        (* websocket with early data *)
| Http2                (* h2 *)
| GrpcLayer            (* grpc *)
| HttpObfs             (* simple-obfs *)
| CryptoTcp            (* CryptoStream of shadowsocks *)
| ShadowUdp            (* ShadowSocksUdpStream *)
| TrojanUdp            (* TrojanUdpStream *)
| VmessLayer.          (* VmessStream *)

Definition byte_methods : list method := [PollRead; PollWrite; PollFlush; PollShutdown].

(** The layers that turn bytes into bytes: [impl UdpRead for .. {}] and
[impl UdpWrite for .. {}] take the defaults of the traits, which are
[unimplemented!()].  Their protocol engines (or the connection tasks they
spawn) may poll any byte method of the stream below. *)
Definition byte_layer (m : method) : option (list method) :=
  match m with
  | PollRecvFrom | PollSendTo => None
  | _ => Some byte_methods
  end.

(** [impl_async_read!] and [impl_async_write!]: the byte methods forward to the
[priv_] ones of the stream, which poll the same method of [self.stream];
[impl_flush_shutdown!] writes two of them. *)
Definition forwarded (m : method) : list method := [m].
Definition flush_shutdown (m : method) : option (list method) :=
  match m with PollFlush => Some [PollFlush] | PollShutdown => Some [PollShutdown] | _ => None end.

Definition crypto_methods (m : method) : option (list method) :=
  match m with PollRecvFrom | PollSendTo => None | _ => Some (forwarded m) end.

Definition shadow_udp_methods (m : method) : option (list method) :=
  match m with PollRecvFrom => Some [PollRecvFrom] | PollSendTo => Some [PollSendTo] | _ => None end.

Definition trojan_udp_methods (m : method) : option (list method) :=
  match m with
  | PollRecvFrom => Some [PollRead]
  | PollSendTo => Some [PollWrite]
  | PollRead | PollWrite => None
  | m => flush_shutdown m
  end.

Definition vmess_methods (m : method) : option (list method) :=
  match m with
  | PollRecvFrom => Some [PollRead]
  | PollSendTo => Some [PollWrite]
  | _ => Some (forwarded m)
  end.

(** [None] is [unimplemented!()]; else the methods polled below. *)
Definition implemented (l : layer_stream) : method -> option (list method) :=
  match l with
  | SslStream | BinaryWs | BinaryWsEarly | Http2 | GrpcLayer | HttpObfs => byte_layer
  | CryptoTcp => crypto_methods
  | ShadowUdp => shadow_udp_methods
  | TrojanUdp => trojan_udp_methods
  | VmessLayer => vmess_methods
  end.

Section Streams.
Context {T K : Type}.

(** A [BoxProxyUdpStream]. *)
Inductive udp_stream :=
| OverTcp (t : T)
| OverUdp (s : ConnectedUdpSocket K)
| Over (l : layer_stream) (io : udp_stream).

(** Whether a poll of [m] reaches no [unimplemented!()].  The methods of [Box]
and [&mut] ([deref_udp_read!], [deref_udp_write!]) are those of what they
point to. *)
Fixpoint polls (u : udp_stream) (m : method) : bool :=
  match u with
  | OverTcp _ => match m with PollRecvFrom | PollSendTo => false | _ => true end
  | OverUdp _ => true
  | Over l io => match implemented l m with Some ms => forallb (polls io) ms | None => false end
  end.

(** A builder that polls [ms] of the stream it is given, before it answers. *)
Definition polled {A} (io : udp_stream) (ms : list method) (k : res A) : res A := if forallb (polls io) ms then k else Panic.

End Streams.

(** ** The builders *)

(** What a builder awaits: a handshake, a request or a write. *)
Inductive awaited := TlsShake | H2Shake | H2Ask | H2Answer | GrpcShake | GrpcAsk | WsShake | HeaderWrite.

Section Stack.
Context {T K Ip : Type} `{Sockets T K Ip}.
Abbreviation udp_stream := (udp_stream (T := T) (K := K)).

(** What is awaited answers success or an error. *)
Context (answers : awaited -> udp_stream -> res unit) (answers_no_panic : forall w u, answers w u <> Panic).
Context (ws_status : udp_stream -> Z).

(** The crate http, and what is drawn at random for a builder over a stream. *)
Context {Uri Method PathAndQuery : Type}.
Context (uri_authority : Uri -> option bytes) (valid_header : bytes -> bytes -> bool).
Context (build_uri : bytes -> bytes -> PathAndQuery -> res Uri) (build_uri_no_panic : forall s h p, build_uri s h p <> Panic).
Context (random : udp_stream -> nat) (generate_key : udp_stream -> bytes) (ss_salt : udp_stream -> bytes) (draws : udp_stream -> VmessRandom).

(** The connector of a TLS section, and a connection configured from it. *)
Context {CB Connector X509 SslCfg : Type} `{SslConnectorBuilder CB, SslCertStore CB X509, SslBuild CB Connector}.
Context `{SslConfigure Connector SslCfg, SslConfiguration SslCfg}.
Context `{AeadCrypto, HmacSha256Crypto, BlockCrypto, Sha256Crypto} (sha224 : bytes -> bytes) (uninit : bytes) (native : res (list X509)).

Abbreviation Cfg := (ProxyConfig (Uri := Uri) (Method := Method) (PathAndQuery := PathAndQuery)).
Abbreviation Bld := (Builder (Uri := Uri) (Method := Method) (PathAndQuery := PathAndQuery) (Connector := Connector)).

(** [build_udp] of the builders.  The layers without packets of their own give
their stream on unless a UDP-over-TCP layer comes after them; a handshake
polls the bytes of the stream. *)
#[local] Instance stack_handshake : TlsHandshake SslCfg udp_stream := {|
    tls_connect _ _ io := polled io byte_methods (_ ← answers TlsShake io; Ok (Over SslStream io))
  |}.

Definition tls_layer_udp (b : TlsStreamBuilder Connector) (io : udp_stream) (build_tcp_inside : bool) : res udp_stream :=
  tls_build_udp b io build_tcp_inside.

Definition h2_layer_udp (b : @Http2StreamBuilder Method PathAndQuery) (io : udp_stream) (build_tcp_inside : bool) : res udp_stream :=
  r ← h2_build_udp (R := unit) (W := unit) build_uri valid_header
    (fun io => polled io byte_methods (_ ← answers H2Shake io; Ok io))
    (fun io _ => _ ← answers H2Ask io; Ok (answers H2Answer io, tt)) (random io) b io build_tcp_inside;
  Ok (match r with inl _ => Over Http2 io | inr io => io end).

Definition grpc_layer_udp (b : @GrpcStreamBuilder PathAndQuery) (io : udp_stream) (build_tcp_inside : bool) : res udp_stream :=
  r ← grpc_build_udp (F := unit) (R := unit) (W := unit) build_uri
    (fun io => polled io byte_methods (_ ← answers GrpcShake io; Ok io))
    (fun io _ => _ ← answers GrpcAsk io; Ok (tt, tt)) b io build_tcp_inside;
  Ok (match r with inl _ => Over GrpcLayer io | inr io => io end).

(** With early data the handshake is put off to the first write. *)
Definition ws_layer_udp (b : @BinaryWsStreamBuilder Uri) (io : udp_stream) (build_tcp_inside : bool) : res udp_stream :=
  r ← ws_build_udp (Fut := unit) (T := udp_stream) (Cfg := unit)
    (fun _ io _ => polled io byte_methods (_ ← answers WsShake io; Ok (io, ws_status io)))
    (ws_req uri_authority valid_header (generate_key io) b) (wb_max_early_data b) (wb_early_data_header_name b) None io build_tcp_inside;
  Ok (match r with inl (inl _) => Over BinaryWsEarly io | inl (inr _) => Over BinaryWs io | inr io => io end).

Definition obfs_layer_udp (io : udp_stream) (build_tcp_inside : bool) : res udp_stream :=
  if build_tcp_inside then Ok (Over HttpObfs io) else Ok io.

(** [CryptoStream::new], on the salt that its loop ends with (Shadowsocks.v
models the draws); then the address is written through the new stream. *)
Definition crypto_stream_new (b : ShadowsocksBuilder) (salt : bytes) : res unit :=
  if decide (sb_method b = CipherKind_None) then Ok tt
  else _ ← EncryptedWriter_new (sb_method b) (sb_key b) salt; Ok tt.

Definition shadow_layer_udp (b : ShadowsocksBuilder) (io : udp_stream) (build_tcp_inside : bool) : res udp_stream :=
  if build_tcp_inside then
    _ ← crypto_stream_new b (ss_salt io);
    let stream := Over CryptoTcp io in
    polled stream [PollWrite] (_ ← answers HeaderWrite io; Ok stream)
  else Ok (Over ShadowUdp io).

(** The request is written to the stream, which a connection request leaves as
it is. *)
Definition trojan_layer_udp (io : udp_stream) (build_tcp_inside : bool) : res udp_stream :=
  polled io [PollWrite] (_ ← answers HeaderWrite io; if build_tcp_inside then Ok io else Ok (Over TrojanUdp io)).

Definition vmess_layer_udp (o : VmessOption) (io : udp_stream) (build_tcp_inside : bool) : res udp_stream :=
  _ ← vmess_build_udp o (draws io) build_tcp_inside; Ok (Over VmessLayer io).

(** [dyn ChainableStreamBuilder]. *)
Definition layer_build_udp (b : Bld) (io : udp_stream) (build_tcp_inside : bool) : res udp_stream :=
  match b with
  | BldTls b => tls_layer_udp b io build_tcp_inside
  | BldWs uri max_early_data name headers =>
    ws_layer_udp (ws_new_from_config uri max_early_data name headers) io build_tcp_inside
  | BldH2 hosts headers method path => h2_layer_udp (mkHttp2Builder hosts headers method path) io build_tcp_inside
  | BldGrpc host path => grpc_layer_udp (mkGrpcBuilder host path) io build_tcp_inside
  | BldSimpleObfs _ => obfs_layer_udp io build_tcp_inside
  | BldSs b => shadow_layer_udp b io build_tcp_inside
  | BldTrojan _ => trojan_layer_udp io build_tcp_inside
  | BldVmess o => vmess_layer_udp o io build_tcp_inside
  | BldDirect => Ok io
  | BldBlackhole => Panic        (* [unimplemented!()] *)
  end.

(** [connect_tcp], and the bound socket of [build_udp], connected. *)
#[export] Instance stack_dialer : Dialer udp_stream udp_stream Ip := {|
    connect_tcp a := t ← address_connect_tcp a; Ok (OverTcp t);
    connect_tcp_u a := t ← address_connect_tcp a; Ok (OverTcp t);
    bind_connect_udp ip a := socket ← udp_bind ip; s ← address_connect_udp a socket; Ok (OverUdp s)
  |}.

(** *** Lemmas *)

Definition bytes_ok (u : udp_stream) : Prop := forallb (polls u) byte_methods = true.
Definition packets_ok (u : udp_stream) : Prop := forallb (polls u) [PollRecvFrom; PollSendTo] = true.

Lemma bytes_ok_iff u : bytes_ok u <-> polls u PollRead = true /\ polls u PollWrite = true /\ polls u PollFlush = true /\ polls u PollShutdown = true.
Proof. unfold bytes_ok. cbn [forallb byte_methods]. rewrite !andb_true_iff. tauto. Qed.

Lemma packets_ok_iff u : packets_ok u <-> polls u PollRecvFrom = true /\ polls u PollSendTo = true.
Proof. unfold packets_ok. cbn [forallb]. rewrite !andb_true_iff. tauto. Qed.

(** *** Sections and builders that can be built *)

(** A builder whose own requests, keys and connections do not panic. *)
Definition builder_sane (b : Bld) : Prop :=
  match b with
  | BldTls b => exists cfg : SslCfg, configure (tsb_connector b) = Ok cfg
  | BldWs uri max_early_data name headers =>
    forall key, exists req, ws_req uri_authority valid_header key (ws_new_from_config uri max_early_data name headers) = Ok req
  | BldH2 hosts headers _ _ => hosts <> [] /\ Forall (fun kv => valid_header kv.1 kv.2 = true) headers
  | BldVmess o => vo_security_num o = 3%Z \/ vo_security_num o = 4%Z
  | BldSs b => length (sb_key b) = key_len (sb_method b)
  | _ => True
  end.

(** The same of a section: TLS can be configured, a WebSocket section has a URI with
an authority and headers that the crate http takes, an HTTP/2 section has a
host and such headers, and VMess has a security that is implemented. *)
Definition section_sane (s : Cfg) : Prop :=
  match s with
  | CfgTls c => exists b (cfg : SslCfg),
    tls_new_from_config (CB := CB) native (tl_sni c) (tl_cert_file c) (tl_verify_hostname c) (tl_verify_sni c) = Ok b
    /\ configure (tsb_connector b) = Ok cfg
  | CfgWs c => builder_sane (ws_builder c)
  | CfgH2 c => h2_hosts c <> [] /\ Forall (fun kv => valid_header kv.1 kv.2 = true) (h2_headers c)
  | CfgVmess c => vc_security_num c = 3%Z \/ vc_security_num c = 4%Z
  | _ => True
  end.

Lemma digest_chain_length n password last : length (digest_chain n password last) = n * 16.
Proof. revert last. induction n as [|n IH]; intros last; [done|]. cbn [digest_chain]. rewrite length_app, md5_length, IH. lia. Qed.

Lemma openssl_bytes_to_key_length password key : length (openssl_bytes_to_key password key) = length key.
Proof.
  unfold openssl_bytes_to_key. rewrite bytes_to_key_loop_spec by lia. rewrite take_0, Nat.sub_0_r, length_app, length_take, digest_chain_length. simpl. lia.
Qed.

Lemma to_builder_sane s a b : section_sane s -> to_builder sha224 uninit native s a = Ok b -> builder_sane b.
Proof.
  destruct s as [c|c|c|c|c|t|c|c|t|c]; cbn [section_sane to_builder]; intros Hs E; [..|injection E as <-; done| | | |];
    try (destruct a as [a|]; [|done]); try (injection E as <-; done).
  - injection E as <-. cbn [builder_sane new_from_config sb_key sb_method].
    rewrite openssl_bytes_to_key_length, length_take, length_app, repeat_length. lia.
  - destruct Hs as (b' & cfg & Eb & Hc). rewrite Eb in E. injection E as <-. by exists cfg.
Qed.

(** A result that is an error or satisfies [P]. *)
Definition fine (P : udp_stream -> Prop) (r : res udp_stream) : Prop :=
  match r with Ok u => P u | Err _ => True | Panic => False end.

Lemma fine_bind {A} (P : udp_stream -> Prop) (r : res A) f : r <> Panic -> (forall a, r = Ok a -> fine P (f a)) -> fine P (a ← r; f a).
Proof. intros Hr Hf. destruct r as [a|e|]; [by apply Hf|done|by destruct Hr]. Qed.

Lemma fine_map (P : udp_stream -> Prop) r : fine P r -> fine P (map_new_error r).
Proof. by destruct r. Qed.

(** What a layer of bytes over bytes offers. *)
Lemma over_bytes l (u : udp_stream) : (implemented l PollRecvFrom = None \/ l = VmessLayer) -> l <> ShadowUdp -> l <> TrojanUdp -> bytes_ok u -> bytes_ok (Over l u).
Proof.
  intros Hn Hs Ht Hu. pose proof (proj1 (bytes_ok_iff u) Hu) as (Hr & Hw & Hf & Hd). apply bytes_ok_iff.
  destruct l; cbn; rewrite ?Hr, ?Hw, ?Hf, ?Hd; done.
Qed.

Lemma polled_ok {A} (u : udp_stream) ms (k : res A) : forallb (polls u) ms = true -> polled u ms k = k.
Proof. unfold polled. by intros ->. Qed.

Lemma h2_req_fine (b : @Http2StreamBuilder Method PathAndQuery) n : hb_hosts b <> [] -> Forall (fun kv => valid_header kv.1 kv.2 = true) (hb_headers b) ->
  h2_req (fun s h p => map_new_error (build_uri s h p)) valid_header n b <> Panic.
Proof.
  intros Hh Hv E. destruct (h2_req_spec (fun s h p => map_new_error (build_uri s h p)) valid_header n b Hh) as (host & _ & Hs). rewrite E in Hs.
  destruct Hs as [Hs|(k & v & Hin & Hk)].
  - pose proof (build_uri_no_panic (str "https") host (hb_path b)). by destruct (build_uri _ _ _).
  - rewrite Forall_forall in Hv. specialize (Hv _ Hin). simpl in Hv. congruence.
Qed.

(** *** Layers with a UDP-over-TCP layer after them *)

Lemma tls_inside b u : builder_sane (BldTls b) -> bytes_ok u -> fine bytes_ok (tls_layer_udp b u true).
Proof.
  intros [cfg Hc] Hu. unfold tls_layer_udp, tls_build_udp, tls_build_tcp. rewrite Hc. cbn [unwrap mbind res_bind tls_connect stack_handshake].
  rewrite polled_ok by done. apply fine_map, fine_bind; [apply answers_no_panic|]. intros _ _. apply over_bytes; auto.
Qed.

Lemma h2_inside b u : hb_hosts b <> [] -> Forall (fun kv => valid_header kv.1 kv.2 = true) (hb_headers b) -> bytes_ok u ->
  fine bytes_ok (h2_layer_udp b u true).
Proof.
  intros Hh Hv Hu. unfold h2_layer_udp, h2_build_udp, h2_build_tcp. rewrite polled_ok by done.
  pose proof (answers_no_panic H2Shake u). pose proof (answers_no_panic H2Ask u). pose proof (answers_no_panic H2Answer u).
  destruct (answers H2Shake u) as [?|?|]; cbn [map_new_error mbind res_bind fmap res_fmap]; [|done..].
  pose proof (h2_req_fine b (random u) Hh Hv). destruct (h2_req _ _ _ _) as [req|?|]; cbn [mbind res_bind fmap res_fmap]; [|done..].
  destruct (answers H2Ask u) as [?|?|]; cbn [map_new_error mbind res_bind fmap res_fmap]; [|done..].
  destruct (answers H2Answer u) as [?|?|]; cbn [map_new_error mbind res_bind fmap res_fmap fine]; [|done..].
  apply over_bytes; auto.
Qed.

Lemma grpc_inside b u : bytes_ok u -> fine bytes_ok (grpc_layer_udp b u true).
Proof.
  intros Hu. unfold grpc_layer_udp, grpc_build_udp, grpc_build_tcp, grpc_req. rewrite polled_ok by done.
  pose proof (answers_no_panic GrpcShake u). pose proof (answers_no_panic GrpcAsk u).
  destruct (answers GrpcShake u) as [?|?|]; cbn [map_new_error mbind res_bind fmap res_fmap]; [|done..].
  pose proof (build_uri_no_panic (str "https") (gb_host b) (gb_path b)).
  destruct (build_uri _ _ _) as [?|?|]; cbn [map_new_error mbind res_bind fmap res_fmap]; [|done..].
  destruct (answers GrpcAsk u) as [?|?|]; cbn [map_new_error mbind res_bind fmap res_fmap fine]; [|done..].
  apply over_bytes; auto.
Qed.

Lemma ws_inside b u : (forall key, exists req, ws_req uri_authority valid_header key b = Ok req) -> bytes_ok u ->
  fine bytes_ok (ws_layer_udp b u true).
Proof.
  intros Hq Hu. unfold ws_layer_udp, ws_build_udp, ws_build_tcp. destruct (Hq (generate_key u)) as [req Ereq]. rewrite Ereq. cbn [mbind res_bind].
  case_decide; cbn [mbind res_bind fmap res_fmap fine]; [apply over_bytes; auto|].
  rewrite polled_ok by done. pose proof (answers_no_panic WsShake u).
  destruct (answers WsShake u) as [?|?|]; cbn [map_new_error mbind res_bind fmap res_fmap]; [|done..].
  case_decide; cbn [mbind res_bind fmap res_fmap fine]; [done|]. apply over_bytes; auto.
Qed.

Lemma crypto_stream_new_fine (b : ShadowsocksBuilder) salt : length (sb_key b) = key_len (sb_method b) -> crypto_stream_new b salt <> Panic.
Proof.
  intros Hk. unfold crypto_stream_new. case_decide as Hm; [done|].
  destruct (AeadCipher_new_ok _ _ salt Hm Hk) as [a E]. unfold EncryptedWriter_new. by rewrite E.
Qed.

Lemma shadow_inside b u : length (sb_key b) = key_len (sb_method b) -> bytes_ok u -> fine bytes_ok (shadow_layer_udp b u true).
Proof.
  intros Hk Hu. unfold shadow_layer_udp. apply fine_bind; [by apply crypto_stream_new_fine|]. intros _ _.
  assert (bytes_ok (Over CryptoTcp u)) as Hc by (apply over_bytes; auto). pose proof (proj1 (bytes_ok_iff _) Hc) as (_ & Hw & _).
  rewrite polled_ok by (cbn [forallb]; by rewrite Hw). by apply fine_bind; [apply answers_no_panic|].
Qed.

Lemma trojan_fine (inside : bool) u : bytes_ok u -> fine (if inside then bytes_ok else packets_ok) (trojan_layer_udp u inside).
Proof.
  intros Hu. pose proof (proj1 (bytes_ok_iff u) Hu) as (Hr & Hw & Hf & Hs). unfold trojan_layer_udp.
  rewrite polled_ok by (cbn [forallb]; by rewrite Hw). apply fine_bind; [apply answers_no_panic|]. intros _ _.
  destruct inside; [done|]. apply packets_ok_iff. cbn. by rewrite Hr, Hw.
Qed.

Lemma vmess_fine (inside : bool) o u : vo_security_num o = 3%Z \/ vo_security_num o = 4%Z -> bytes_ok u ->
  fine (if inside then bytes_ok else packets_ok) (vmess_layer_udp o u inside).
Proof.
  intros Hs Hu. unfold vmess_layer_udp, vmess_build_udp.
  match goal with |- context [VmessStream_new ?o ?r] => pose proof (VmessStream_new_total o r) as Hv end.
  cbn [vo_security_num] in Hv. rewrite decide_True in Hv by done. destruct Hv as [v ->]. cbn [mbind res_bind fine].
  destruct inside; [apply over_bytes; auto|]. pose proof (proj1 (bytes_ok_iff u) Hu) as (Hr & Hw & _).
  apply packets_ok_iff. cbn. by rewrite Hr, Hw.
Qed.

Lemma build_inside b u : bld_protocol_type b <> Blackhole -> builder_sane b -> bytes_ok u -> fine bytes_ok (layer_build_udp b u true).
Proof.
  intros Hb Hs Hu. destruct b; cbn [layer_build_udp builder_sane] in *; try done.
  - by apply shadow_inside.
  - by apply tls_inside.
  - by apply (vmess_fine true).
  - by apply ws_inside.
  - by apply (trojan_fine true).
  - by apply h2_inside; cbn [hb_hosts hb_headers]; destruct Hs.
  - by apply grpc_inside.
  - apply over_bytes; auto.
Qed.

(** The last UDP-over-TCP layer turns bytes into packets, and a layer behind it
keeps packets. *)
Lemma build_outside b u : bld_protocol_type b <> Blackhole -> builder_sane b ->
  (if is_uot (bld_protocol_type b) then bytes_ok u else packets_ok u) -> fine packets_ok (layer_build_udp b u false).
Proof.
  intros Hb Hs. destruct b; cbn [layer_build_udp builder_sane bld_protocol_type is_uot] in *; try done; intros Hu.
  - apply packets_ok_iff in Hu as [Hr Hw]. apply packets_ok_iff. cbn. by rewrite Hr, Hw.
  - by apply (vmess_fine false).
  - by apply (trojan_fine false).
Qed.

(** The stream above the layers so far: bytes while a UDP-over-TCP layer is
still to come, else packets. *)
Definition stream_ok (rest : list ProtocolType) (u : udp_stream) : Prop := if existsb is_uot rest then bytes_ok u else packets_ok u.

Lemma build_layer b rest u : bld_protocol_type b <> Blackhole -> builder_sane b -> stream_ok (bld_protocol_type b :: rest) u ->
  fine (stream_ok rest) (layer_build_udp b u (existsb is_uot rest)).
Proof.
  unfold stream_ok. cbn [existsb]. intros Hb Hs Hu. destruct (existsb is_uot rest).
  - rewrite orb_true_r in Hu. by apply build_inside.
  - rewrite orb_false_r in Hu. by apply build_outside.
Qed.

(** *** The chain of an outbound *)

Context (apply_tcp : Bld -> udp_stream -> res udp_stream).
#[local] Instance stack_builder : ChainableStreamBuilder Bld udp_stream udp_stream := Builder_chainable apply_tcp layer_build_udp.
#[local] Instance stack_config : ToChainableStreamBuilder Cfg Bld := ProxyConfig_chainable sha224 uninit native.

Lemma build_layers (bs : list Bld) rest u :
  Forall (fun b => bld_protocol_type b <> Blackhole) bs -> Forall builder_sane bs -> stream_ok (map bld_protocol_type bs ++ rest) u ->
  fine (stream_ok rest) (build_udp_all (imap (fun i b => (b, uot_after (map bld_protocol_type bs ++ rest) i)) bs) u).
Proof.
  intros Hbs Hsane. revert u. induction Hbs as [|b bs Hb _ IH]; intros u Hu; [done|].
  apply Forall_cons in Hsane as [Hs Hsane].
  cbn [map app] in Hu |- *. pose proof (build_layer b _ _ Hb Hs Hu) as Hf. rewrite imap_cons. cbn [build_udp_all].
  change (uot_after (bld_protocol_type b :: map bld_protocol_type bs ++ rest) 0) with (existsb is_uot (map bld_protocol_type bs ++ rest)).
  cbn [build_udp stack_builder Builder_chainable]. destruct (layer_build_udp b u _) as [u1|e|]; cbn [mbind res_bind]; [|done|done].
  apply (IH Hsane u1 Hf).
Qed.

Lemma no_hole_types (c : ChainStreamBuilder (B := Bld) (C := Cfg)) :
  existsb (fun t => bool_decide (t = Blackhole)) (layers c) = false -> Forall (fun t => t <> Blackhole) (layers c).
Proof.
  intros He. apply Forall_forall. intros t Ht%list_elem_of_In ->. assert (existsb (fun t => bool_decide (t = Blackhole)) (layers c) = true); [|congruence].
  apply existsb_exists. by exists Blackhole.
Qed.

Lemma dial_fine (through_tcp : bool) t0 dial ip :
  fine (fun u => if through_tcp then bytes_ok u else if is_uot t0 then bytes_ok u else packets_ok u)
  (if through_tcp then connect_tcp_u dial else bind_connect_udp ip dial).
Proof.
  destruct through_tcp; cbn [connect_tcp_u bind_connect_udp stack_dialer].
  - by apply fine_bind; [apply address_tcp_no_panic|].
  - apply fine_bind; [apply udp_bind_no_panic|]. intros k _. apply fine_bind; [apply address_udp_no_panic|]. intros s _. by destruct (is_uot t0).
Qed.

(** The last proxy has an address, unless there is no proxy. *)
Lemma packet_target_some bs addr lb : addr <> None -> exists a,
  packet_target (mkChain bs addr None [] lb true false : ChainStreamBuilder (B := Bld) (C := Cfg)) = Some a.
Proof.
  intros Ha. unfold packet_target. cbn [builders remote_addr]. destruct (last _) as [b|] eqn:El; [|destruct addr; [eauto|done]].
  assert (b ∈ filter (fun b : Bld => is_uot (protocol_type b) = true) bs) as Hin
    by (rewrite last_lookup in El; by eapply list_elem_of_lookup_2).
  apply list_elem_of_filter in Hin as [Hb _]. destruct b; try done; cbn; eauto.
Qed.

Lemma sane_not_fails s : section_sane s -> ~ tls_fails (CB := CB) (Connector := Connector) native s.
Proof. destruct s; cbn [tls_fails section_sane]; try tauto. intros (b & cfg & Eb & _). by rewrite Eb. Qed.

Lemma sane_jobs segs tl : Forall seg_ok segs -> Forall (fun s => is_proxy s = false) tl -> Forall section_sane (sections segs tl) ->
  exists bs, make_all sha224 uninit native (jobs segs tl) = Ok bs /\ Forall builder_sane bs /\ length bs = length (jobs segs tl).
Proof.
  intros Hs Ht Hsane. apply (jobs_sections section_sane) in Hsane.
  pose proof (make_all_cases sha224 uninit native _ (jobs_addressed segs tl Hs Ht)) as Hj.
  destruct (make_all _ _ _ _) as [bs|e|]; [|done|].
  - exists bs. destruct Hj as [Hm _]. split; [done|]. split; [|by rewrite (Forall2_length _ _ _ Hm)].
    clear Hs Ht. induction Hm as [|[s a] b xs bs Hx Hm IH]; [constructor|]. apply Forall_cons in Hsane as [Hss Hsane].
    constructor; [by eapply to_builder_sane|by apply IH].
  - exfalso. apply Exists_exists in Hj as (x & Hin & Hx). rewrite Forall_forall in Hsane. by apply (sane_not_fails x.1 (Hsane x Hin)).
Qed.

Lemma last_fine s addr u : section_sane s -> is_proxy s = true -> cfg_protocol_type s <> Blackhole -> is_Some addr ->
  stream_ok [cfg_protocol_type s] u ->
  fine packets_ok (b ← to_builder sha224 uninit native s addr; layer_build_udp b u false).
Proof.
  intros Hs Hp Hb [a ->] Hu. pose proof (to_builder_cases sha224 uninit native s (Some a) (fun _ => ltac:(eauto))) as Hc.
  destruct (to_builder _ _ _ s _) as [b|e|] eqn:E; cbn [mbind res_bind]; [|done|by apply (sane_not_fails s)].
  destruct Hc as (_ & Ht & _). apply (build_layer b []); [congruence|by eapply to_builder_sane|by rewrite Ht].
Qed.

Lemma udp_plan_fine (c : ChainStreamBuilder (B := Bld) (C := Cfg)) target ip :
  layers c <> [] -> Forall builder_sane (builders c) ->
  (forall s, last_builder c = Some s -> section_sane s /\ is_proxy s = true /\ is_Some (packet_target c)) ->
  match udp_plan c target ip with
  | Ok u => polls u PollRecvFrom = true /\ polls u PollSendTo = true
  | Err _ => True
  | Panic => False
  end.
Proof.
  intros Hne Hsane Hlast. change (fine (fun u => polls u PollRecvFrom = true /\ polls u PollSendTo = true) (udp_plan c target ip)).
  unfold udp_plan. destruct (existsb _ (layers c)) eqn:Hh; [done|]. apply no_hole_types in Hh.
  destruct (layers c) as [|t0 behind] eqn:Els; [done|]. rewrite <- Els in *.
  set (dial := match remote_addr c with Some a => a | None => target end).
  pose proof (dial_fine (existsb is_uot behind) t0 dial ip) as Hd.
  destruct (if existsb is_uot behind then _ else _) as [u|e|]; cbn [mbind res_bind fine] in *; [|done|done].
  assert (stream_ok (layers c) u) as Hu.
  { unfold stream_ok. rewrite Els. cbn [existsb]. destruct (existsb is_uot behind); [by rewrite orb_true_r|by rewrite orb_false_r]. }
  unfold layers in Hu, Hh |- * at 1. cbn [protocol_type get_protocol_type stack_builder stack_config Builder_chainable ProxyConfig_chainable] in *.
  apply Forall_app in Hh as [Hbs Hl].
  pose proof (proj1 (List.Forall_map bld_protocol_type (fun t => t <> Blackhole) (builders c)) Hbs) as Hbs'.
  pose proof (build_layers _ _ _ Hbs' Hsane Hu) as Hf.
  destruct (build_udp_all _ u) as [u'|e|]; cbn [mbind res_bind fine] in *; [|done|done].
  destruct (last_builder c) as [s|]; [|by apply packets_ok_iff].
  destruct (Hlast s eq_refl) as (Hs & Hp & Ha). inversion Hl as [|? ? Hnb _].
  assert (fine packets_ok (b ← to_builder sha224 uninit native s (if is_uot (cfg_protocol_type s) then Some target else packet_target c);
    layer_build_udp b u' false)) as Hfin by (apply last_fine; [done..|destruct (is_uot (cfg_protocol_type s)); [by eexists|done]|exact Hf]).
  cbn [to_chainable_stream_builder build_udp]. destruct (mbind _ _) as [u2|e|] in Hfin |- *; [by apply packets_ok_iff|done..].
Qed.

Lemma last_section_spec (segs : list (list Cfg * Cfg)) ts p : last segs = Some (ts, p) -> Forall seg_ok segs ->
  (ts, p) ∈ segs /\ is_proxy p = true /\ (g ← head segs; cfg_addr g.2) <> None.
Proof.
  intros Hl Hs. assert ((ts, p) ∈ segs) as Hin by (rewrite last_lookup in Hl; by eapply list_elem_of_lookup_2).
  pose proof (proj1 (Forall_forall _ _) Hs) as Hok. split; [done|]. split; [by destruct (Hok _ Hin)|].
  destruct segs as [|[ts0 q] segs]; [done|]. cbn [head mbind option_bind snd]. inversion Hs as [|? ? [_ Hq] _].
  cbn [snd] in Hq. by destruct (proxy_addr q Hq) as [a ->].
Qed.

Lemma elem_of_sections (segs : list (list Cfg * Cfg)) tl ts p : (ts, p) ∈ segs -> p ∈ sections segs tl.
Proof.
  intros Hin. unfold sections. apply elem_of_app. left. apply list_elem_of_In, in_flat_map. exists (ts, p).
  split; [by apply list_elem_of_In|]. apply list_elem_of_In. cbn [fst snd]. set_solver.
Qed.

(** C25: the methods a UDP chain needs are implemented.  Take an outbound whose
sections exist, are in any order and are sane: its TLS sections can be
configured, its WebSocket and HTTP/2 sections make well-formed requests (a URI with an authority, a
host, headers that the crate http takes) and its VMess sections have one
of the two securities that are implemented.  Then [build_outbound] succeeds, and
whatever the network, the handshakes and the writes that the builders await
answer (they succeed or fail, but do not panic): building the UDP stream of the
chain polls only methods that the stream below implements and no builder
panics; and the stream that comes out receives and sends packets,
through all its layers down to the socket, without a poll of a method that
is [unimplemented!()]. *)
Theorem udp_chain_implemented conf m out segs tl target (ip : Ip) :
  Forall2 (resolved conf m) (out_chain out) (sections segs tl) -> Forall seg_ok segs ->
  Forall (fun s => is_proxy s = false) tl -> sections segs tl <> [] -> Forall section_sane (sections segs tl) ->
  exists c, build_outbound sha224 uninit native apply_tcp layer_build_udp conf m out = Ok c /\
  match chain_build_udp c target ip with
  | Ok u => polls u PollRecvFrom = true /\ polls u PollSendTo = true
  | Err _ => True
  | Panic => False
  end.
Proof.
  intros Hr Hs Ht Hne Hsane. rewrite (build_outbound_jobs _ _ _ _ _ _ _ _ segs tl Hr Hs Ht).
  destruct (sane_jobs segs tl Hs Ht Hsane) as (bs & -> & Hbs & Hm). cbn [mbind res_bind].
  set (c0 := mkChain bs (g ← head segs; cfg_addr g.2) None [] (snd <$> last segs) true false).
  destruct (inner_markers_total c0) as (c & E & _).
  exists c. split; [exact E|]. rewrite (chain_udp_plan c0 c target ip eq_refl eq_refl E).
  apply udp_plan_fine; [|done|].
  - unfold layers. cbn [c0 builders last_builder]. intros Hl. apply app_eq_nil in Hl as [Hb Hl].
    destruct (last segs) as [g|] eqn:Eg; [done|]. apply last_None in Eg as ->.
    apply map_eq_nil in Hb as ->. destruct tl; [by apply Hne|done].
  - intros s Hls. cbn [c0 last_builder] in Hls. destruct (last segs) as [[ts p]|] eqn:Eg; [|done]. injection Hls as <-. cbn [snd].
    apply last_section_spec in Eg as (Hin & Hip & Hsome); [|done]. rewrite Forall_forall in Hsane. split_and!; [by eapply Hsane, elem_of_sections|done|].
    destruct (packet_target_some bs (g ← head segs; cfg_addr g.2) (snd <$> last segs) Hsome) as [a Ea]. exists a. exact Ea.
Qed.
End Stack.

(** ** Witness: Shadowsocks packets through Trojan over TLS, with a WebSocket *)

Section Witness.
#[local] Existing Instances toy_crypto toy_ssl toy_store toy_ssl_build toy_hmac toy_block toy_sha256.

#[local] Program Instance wit_sockets : Sockets unit unit unit := {|
    tcp_connect _ := Ok tt;
    udp_bind _ := Ok tt;
    lookup_host h := match h with inl a => Ok [a] | inr _ => Ok [] end
  |}.
Next Obligation. done. Qed.
Next Obligation. done. Qed.
Next Obligation. by intros []. Qed.
Next Obligation. done. Qed.

#[local] Instance wit_configure : SslConfigure (list bytes) unit := {| configure _ := Ok tt |}.
#[local] Instance wit_configuration : SslConfiguration unit := {|
    set_use_server_name_indication _ c := c; set_verify_hostname _ c := c; add_application_settings _ _ c := c |}.

Definition wit_stream : Type := udp_stream (T := unit) (K := unit).
Definition wit_answers (w : awaited) (u : wit_stream) : res unit := Ok tt.
Definition wit_authority (uri : bytes) : option bytes := if decide (uri = []) then None else Some uri.
Definition wit_header (k v : bytes) : bool := true.
Definition wit_uri (scheme host path : bytes) : res bytes := Ok (scheme ++ host ++ path).
Definition wit_draws (u : wit_stream) : VmessRandom := mkVmessRandom (repeat x01 64) 0 (repeat x00 16) (repeat x00 8) (repeat x00 4) (repeat x00 8).

Definition wit_build := layer_build_udp (T := unit) (K := unit) (SslCfg := unit) wit_answers (fun _ => 101%Z) wit_authority wit_header wit_uri
  (fun _ => 0) (fun _ => []) (fun _ => repeat x01 16) wit_draws (Method := bytes) (Connector := list bytes).
Definition wit_apply (b : Builder (Uri := bytes) (Method := bytes) (PathAndQuery := bytes) (Connector := list bytes)) (u : wit_stream)
  : res wit_stream := Ok u.
#[local] Instance wit_bld : ChainableStreamBuilder _ wit_stream wit_stream := Builder_chainable wit_apply wit_build.
#[local] Instance wit_cfg : ToChainableStreamBuilder _ _ := ProxyConfig_chainable (Uri := bytes) (Method := bytes) (PathAndQuery := bytes)
  (CB := list bytes) (Connector := list bytes) wit_sha [] wit_native.
#[local] Instance wit_dial : Dialer wit_stream wit_stream unit := stack_dialer.

Definition wit_ws : WebsocketConfig := mkWsConfig (mkEarlyDataUri (str "a.b") [] 0) [] 0 [] (str "ws").
Definition wit_sections : Config.Config (Uri := bytes) (Method := bytes) (PathAndQuery := bytes) :=
  mkConfig false 20 new_dummy_address 4096 [wit_ss_cfg] [wit_tls None] [] [wit_ws] [wit_trojan] [] [] [] [] [] [] [] [] [] []
  [] [mkOutbounds [str "tls"; str "ws"; str "tr"; str "ss"] (str "out")] [].
Definition wit_chain : Outbounds := mkOutbounds [str "tls"; str "ws"; str "tr"; str "ss"] (str "out").

Lemma udp_chain_implemented_witness :
  exists c (u : wit_stream), build_outbound wit_sha [] wit_native wit_apply wit_build wit_sections (config_map wit_sections) wit_chain = Ok c /\
  chain_build_udp c (DomainNameAddress (str "target") 53) tt = Ok u /\
  u = Over ShadowUdp (Over TrojanUdp (Over BinaryWs (Over SslStream (OverTcp tt)))) /\ polls u PollRecvFrom = true /\ polls u PollSendTo = true.
Proof.
  destruct (udp_chain_implemented (T := unit) (K := unit) (SslCfg := unit) wit_answers ltac:(done) (fun _ => 101%Z) wit_authority wit_header wit_uri
    ltac:(done) (fun _ => 0) (fun _ => []) (fun _ => repeat x01 16) wit_draws wit_sha [] wit_native wit_apply wit_sections
    (config_map wit_sections) wit_chain [([CfgTls (wit_tls None); CfgWs wit_ws], CfgTrojan wit_trojan); ([], CfgSs wit_ss_cfg)] []
    (DomainNameAddress (str "target") 53) tt) as (c & Hc & Hu).
  - repeat constructor; vm_compute; reflexivity.
  - repeat constructor.
  - constructor.
  - done.
  - repeat constructor.
    + eexists _, tt. split; [vm_compute; reflexivity|done].
    + intros key. eexists. reflexivity.
  - exists c. pose proof Hc as Hc'. vm_compute in Hc'. injection Hc' as <-.
    match type of Hu with match ?r with Ok _ => _ | _ => _ end => destruct r as [u|e|] eqn:Eu end;
      [|vm_compute in Eu; discriminate Eu|done].
    exists u. split; [exact Hc|]. split; [exact Eu|]. split; [|exact Hu]. vm_compute in Eu. by injection Eu as <-.
Defined.
End Witness.
