(* ===== verification/Deserialize.v ===== *)
(** * The text of the configuration's fields (src/src/config/deserialize.rs)

    The functions that read one field each: the cipher of Shadowsocks and of
    VMess, addresses, the server name of TLS, the paths, and the WebSocket URI
    whose query may ask for early data.  The TOML reader and the parsers of the
    crates [http] and [uuid] are parameters.

    [is_valid_dns_id] is proved to accept exactly the names of the usual
    grammar; the scan of the query is proved to take the [ed] parameter out. *)

From S2P Require Import Prelude Io StdText Address Aead Config.
From Stdlib Require Import ZArith Lia List Strings.Byte.
From stdpp Require Import base option list strings.

(** [D::Error::custom(msg)]. *)
Definition custom_error (msg : string) : io_error := IoError InvalidData msg.

(** ** Ciphers and addresses *)

Definition from_str_to_cipher_kind (method : bytes) : res CipherKind :=
  if decide (method = str "none" \/ method = str "plain") then Ok CipherKind_None
  else if decide (method = str "aes-128-gcm") then Ok Aes128Gcm
  else if decide (method = str "aes-256-gcm") then Ok Aes256Gcm
  else if decide (method = str "chacha20-ietf-poly1305" \/ method = str "chacha20-poly1305") then Ok ChaCha20Poly1305
  else Err (custom_error "wrong ss encryption method").

Definition from_str_to_address (addr : bytes) : res Address :=
  match from_str addr with
  | Some a => Ok a
  | None => Err (custom_error (bytes_to_string addr))
  end.

Definition from_str_to_option_address (addr : bytes) : res (option Address) := Some <$> from_str_to_address addr.

(** [aes_arch]: the target is x86_64 or aarch64. *)
Definition from_str_to_security_num (aes_arch : bool) (security : bytes) : res Z :=
  if decide (security = str "aes-128-gcm") then Ok 0x03%Z
  else if decide (security = str "chacha20-poly1305") then Ok 0x04%Z
  else if decide (security = str "none" \/ security = str "zero")
  then Err (custom_error ("not support vmess security type:" ++ bytes_to_string security))
  else if decide (security = str "auto") then Ok (if aes_arch then 0x03%Z else 0x04%Z)
  else Err (custom_error ("unknown vmess security type " ++ bytes_to_string security)).

(** ** DNS names *)

Definition MAX_LABEL_LENGTH : nat := 63.

Definition is_digit (b : byte) : bool := in_range 48 57 b.
Definition is_letter (b : byte) : bool := (in_range 97 122 b || in_range 65 90 b) || bool_decide (b = "_"%byte).

(** The loop from the byte it reads: the length of the label so far, whether
    the label is all digits, whether it ends with a hyphen. *)
Fixpoint dns_loop (input : bytes) (label_length : nat) (label_is_all_numeric label_ends_with_hyphen : bool) : bool :=
  match input with
  | [] => if label_ends_with_hyphen then false else if label_is_all_numeric then false else true
  | by_ :: input' =>
      if decide (by_ = "-"%byte) then
        if decide (label_length = 0) then false
        else if decide (MAX_LABEL_LENGTH < S label_length) then false
        else dns_loop input' (S label_length) false true
      else if is_digit by_ then
        let label_is_all_numeric := if decide (label_length = 0) then true else label_is_all_numeric in
        if decide (MAX_LABEL_LENGTH < S label_length) then false
        else dns_loop input' (S label_length) label_is_all_numeric false
      else if is_letter by_ then
        if decide (MAX_LABEL_LENGTH < S label_length) then false
        else dns_loop input' (S label_length) false false
      else if decide (by_ = "."%byte) then
        if decide (label_length = 0) then false
        else if label_ends_with_hyphen then false
        else dns_loop input' 0 label_is_all_numeric label_ends_with_hyphen
      else false
  end.

Definition is_valid_dns_id (hostname : bytes) : bool :=
  if decide (253 < length hostname) then false
  else match hostname with
       | [] => false                        (* the first read fails *)
       | _ => dns_loop hostname 0 false false
       end.

Definition from_str_to_sni (sni : bytes) : res bytes :=
  if is_valid_dns_id sni then Ok sni else Err (custom_error "Not a valid sni string").

(** *** The grammar *)

Definition label_char (b : byte) : Prop := b = "-"%byte \/ is_digit b = true \/ is_letter b = true.
#[export] Instance label_char_dec b : Decision (label_char b).
Proof. unfold label_char. solve_decision. Defined.
Definition all_numeric (l : bytes) : bool := forallb is_digit l.

(** Of letters, digits, underscores and inner hyphens, 1 to 63 of them. *)
Definition label_ok (l : bytes) : Prop :=
  1 <= length l <= MAX_LABEL_LENGTH /\ Forall label_char l /\ head l <> Some "-"%byte /\ last l <> Some "-"%byte.

(** Labels between dots, with a dot at the end or not; the last label is not a
    number. *)
Fixpoint labels_ok (ls : list bytes) : Prop :=
  match ls with
  | [] => False
  | [l] | [l; []] => label_ok l /\ all_numeric l = false
  | l :: ls' => label_ok l /\ labels_ok ls'
  end.

Definition dns_name (hostname : bytes) : Prop :=
  length hostname <= 253 /\ labels_ok (split_on "."%byte hostname).

(** *** The automaton accepts the grammar *)

(** A label in progress, as the loop sees it. *)
Definition label_prefix (cur : bytes) (numeric hyphen : bool) : Prop :=
  length cur <= MAX_LABEL_LENGTH /\ Forall label_char cur /\ head cur <> Some "-"%byte
  /\ (cur <> [] -> numeric = all_numeric cur)
  /\ hyphen = bool_decide (last cur = Some "-"%byte).

Lemma label_prefix_nil numeric : label_prefix [] numeric false.
Proof. split_and!; [simpl; lia|constructor|done|done|done]. Qed.

Lemma label_prefix_ok cur numeric hyphen :
  cur <> [] -> label_prefix cur numeric hyphen -> label_ok cur <-> hyphen = false.
Proof.
  intros Hn (Hl & Hc & Hh & _ & ->). rewrite bool_decide_eq_false. unfold label_ok.
  destruct cur; [done|]. simpl length in *. intuition lia.
Qed.

Lemma label_prefix_snoc cur numeric hyphen b :
  label_prefix cur numeric hyphen -> label_char b -> (cur = [] -> b <> "-"%byte) -> S (length cur) <= MAX_LABEL_LENGTH ->
  label_prefix (cur ++ [b]) ((if decide (length cur = 0) then true else numeric) && is_digit b) (bool_decide (b = "-"%byte)).
Proof.
  intros (Hl & Hc & Hh & Hnum & _) Hb Hne Hlen. unfold label_prefix. rewrite length_app. cbn [length].
  split_and!; [lia|by apply Forall_app_2; [|by constructor]| | |].
  - destruct cur; simpl in *; [|done]. intros [= ->]. by apply Hne.
  - intros _. unfold all_numeric. rewrite forallb_app. cbn [forallb]. rewrite andb_true_r. f_equal.
    case_decide as Hz; [by apply nil_length_inv in Hz as ->|]. apply Hnum. by intros ->.
  - rewrite last_snoc. apply bool_decide_ext. by split; [intros ->|intros [= ->]].
Qed.

Lemma labels_ok_head l ls : labels_ok (l :: ls) -> label_ok l.
Proof. destruct ls as [|[|b l2] [|l3 ls]]; simpl; tauto. Qed.

Lemma labels_ok_cons l ls : ls <> [] -> ls <> [[]] -> labels_ok (l :: ls) <-> label_ok l /\ labels_ok ls.
Proof. destruct ls as [|[|b l2] [|l3 ls]]; simpl; tauto. Qed.

Lemma split_on_head c l : exists h t, split_on c l = h :: t.
Proof. destruct l as [|b l]; simpl; [by eexists _, _|]. case_decide; [by eexists _, _|]. case_match; by eexists _, _. Qed.

(** Bytes that are not a separator go in front of the first piece. *)
Lemma split_on_prefix c d s h t :
  c ∉ d -> split_on c s = h :: t -> split_on c (d ++ s) = (d ++ h) :: t.
Proof.
  intros Hd Hs. induction d as [|b d IH]; [done|]. apply not_elem_of_cons in Hd as [Hb Hd].
  cbn [app split_on]. rewrite (IH Hd). by rewrite decide_False.
Qed.

Lemma split_on_nonempty c s : s <> [] -> split_on c s <> [[]].
Proof. destruct s as [|b s]; [done|]. intros _. simpl. case_decide; [|case_match]; [|done..].
  by destruct (split_on_head c s) as (? & ? & ->). Qed.

Lemma label_char_not_dot l : Forall label_char l -> "."%byte ∉ l.
Proof. intros Hl Hin. by destruct (proj1 (Forall_forall _ _) Hl _ Hin) as [?|[?|?]]. Qed.

(** The loop on a byte that may stand in a label. *)
Lemma dns_loop_char b l len numeric hyphen :
  label_char b -> (len = 0 -> b <> "-"%byte) ->
  dns_loop (b :: l) len numeric hyphen
  = if decide (MAX_LABEL_LENGTH < S len) then false
    else dns_loop l (S len) ((if decide (len = 0) then true else numeric) && is_digit b) (bool_decide (b = "-"%byte)).
Proof.
  intros Hb Hz. cbn [dns_loop]. destruct (decide (b = "-"%byte)) as [->|Hh].
  - rewrite decide_False by (intros Hl; by apply Hz). case_decide; [done|]. rewrite andb_false_r. by rewrite bool_decide_true.
  - rewrite bool_decide_false by done. destruct (is_digit b) eqn:Ed; [by rewrite andb_true_r|].
    destruct Hb as [?|[?|El]]; [done|congruence|]. by rewrite El, andb_false_r.
Qed.

(** The first label of a text that begins with [cur ++ [b]]. *)
Lemma split_on_first cur b l :
  Forall label_char cur -> b <> "."%byte ->
  exists h t, split_on "."%byte (cur ++ b :: l) = (cur ++ b :: h) :: t.
Proof.
  intros Hc Hb. destruct (split_on_head "."%byte l) as (h & t & E). exists h, t.
  change (b :: l) with ([b] ++ l). change (b :: h) with ([b] ++ h). rewrite !app_assoc.
  apply split_on_prefix; [|done]. rewrite elem_of_app, list_elem_of_singleton.
  intros [Hin|Hin]; [by apply label_char_not_dot in Hin|congruence].
Qed.

Lemma dns_loop_spec l cur numeric hyphen :
  label_prefix cur numeric hyphen -> (cur = [] -> l <> []) ->
  dns_loop l (length cur) numeric hyphen = true <-> labels_ok (split_on "."%byte (cur ++ l)).
Proof.
  revert cur numeric hyphen. induction l as [|b l IH]; intros cur numeric hyphen Hp Hne.
  - assert (cur <> []) as Hn by (intros Hz; by apply Hne). pose proof (label_prefix_ok _ _ _ Hn Hp) as Hok.
    destruct Hp as (_ & Hc & _ & Hnum & _). rewrite app_nil_r, split_on_none by (by apply label_char_not_dot).
    cbn [dns_loop labels_ok]. rewrite Hok, <- Hnum by done. by destruct hyphen, numeric; intuition.
  - pose proof Hp as (Hl & Hc & Hh & Hnum & Hhy).
    destruct (decide (b = "."%byte)) as [->|Hdot].
    { cbn [dns_loop]. change (is_digit "."%byte) with false. change (is_letter "."%byte) with false.
      rewrite split_on_app by (by apply label_char_not_dot). destruct (decide (cur = [])) as [->|Hn].
      { rewrite decide_False, decide_True, decide_True by done. split; [done|].
        intros Hx%labels_ok_head. destruct Hx as [Hx _]. simpl in Hx. lia. }
      rewrite decide_False, decide_True, decide_False by (done || by intros ?%nil_length_inv).
      pose proof (label_prefix_ok _ _ _ Hn Hp) as Hok. destruct hyphen.
      { split; [done|]. intros Hx%labels_ok_head. by apply Hok in Hx. }
      destruct l as [|b2 l].
      - cbn [dns_loop split_on labels_ok]. rewrite Hok, Hnum by done. by destruct (all_numeric cur); intuition.
      - rewrite labels_ok_cons; [|by destruct (split_on_head "."%byte (b2 :: l)) as (? & ? & ->)|by apply split_on_nonempty].
        rewrite <- (IH [] numeric false); [by intuition|apply label_prefix_nil|done]. }
    destruct (split_on_first cur b l Hc Hdot) as (h & t & Es).
    assert (label_char b /\ (length cur = 0 -> b <> "-"%byte) \/ ~ label_char b \/ cur = [] /\ b = "-"%byte) as Hcase.
    { destruct (decide (label_char b)); [|by auto]. destruct (decide (length cur = 0)) as [->%nil_length_inv|]; [|by auto].
      destruct (decide (b = "-"%byte)); by auto. }
    destruct Hcase as [[Hb Hz]|[Hb|[-> ->]]].
    + rewrite dns_loop_char by done. destruct (decide (MAX_LABEL_LENGTH < S (length cur))) as [Hlen|Hlen].
      * split; [done|]. rewrite Es. intros Hx%labels_ok_head. destruct Hx as [[_ Hx] _].
        rewrite length_app in Hx. simpl in Hx. lia.
      * assert (cur = [] -> b <> "-"%byte) as Hz2 by (intros ->; by apply Hz).
        pose proof (label_prefix_snoc _ _ _ b Hp Hb Hz2 ltac:(lia)) as Hp2.
        change (b :: l) with ([b] ++ l). rewrite app_assoc, <- (IH _ _ _ Hp2) by (by destruct cur).
        rewrite length_app. cbn [length]. by rewrite Nat.add_1_r.
    + assert (dns_loop (b :: l) (length cur) numeric hyphen = false) as ->.
      { unfold label_char in Hb. cbn [dns_loop]. rewrite decide_False by tauto.
        destruct (is_digit b), (is_letter b); try (by exfalso; tauto). by rewrite decide_False. }
      split; [done|]. rewrite Es. intros Hx%labels_ok_head. destruct Hx as (_ & Hx & _).
      apply Forall_app in Hx as [_ Hx]. inversion Hx. by destruct Hb.
    + split; [done|]. rewrite Es. intros Hx%labels_ok_head. by destruct Hx as (_ & _ & Hx & _).
Qed.

(** C24: the names accepted for a TLS server are those of the grammar: labels
  of 1 to 63 letters, digits, underscores and inner hyphens between dots, a
  dot at the end or not, a last label that is not a number, 253 bytes at
  most. *)
Theorem dns_id_grammar hostname : is_valid_dns_id hostname = true <-> dns_name hostname.
Proof.
  unfold is_valid_dns_id, dns_name. case_decide as Hl; [split; [done|intros []; lia]|].
  destruct hostname as [|b h].
  - split; [done|]. intros [_ [Hx _]]. destruct Hx as [Hx _]. simpl in Hx. lia.
  - rewrite (dns_loop_spec (b :: h) [] false false); [|apply label_prefix_nil|done]. split; [split; [lia|done]|by intros []].
Qed.

(** ** Paths, methods, the WebSocket URI *)

(** [str::chars]: the UTF-8 sequences of a text. *)
Definition char_len (b : byte) : nat :=
  if in_range 0 0x7F b then 1 else if in_range 0xC2 0xDF b then 2 else if in_range 0xE0 0xEF b then 3 else 4.

Fixpoint chars_from (fuel : nat) (l : bytes) : list bytes :=
  match fuel, l with
  | S f, b :: _ => take (char_len b) l :: chars_from f (drop (char_len b) l)
  | _, _ => []
  end.

Definition chars (l : bytes) : list bytes := chars_from (length l) l.

(** The first loop over the query: whether it was left at the end of an [ed]
    parameter, the index there, and the last key and value. *)
Fixpoint ed_scan (cs : list bytes) (idx : nat) (tmp_key tmp_value : bytes) (read_key : bool) : bool * nat * bytes * bytes :=
  match cs with
  | [] => (false, idx, tmp_key, tmp_value)
  | c :: cs' =>
      if decide (c = str "=") then ed_scan cs' (S idx) tmp_key tmp_value false
      else if decide (c = str "&") then
        if decide (tmp_key = str "ed") then (true, idx, tmp_key, tmp_value)
        else ed_scan cs' (S idx) [] [] true
      else if read_key then ed_scan cs' (S idx) (tmp_key ++ c) tmp_value read_key
      else ed_scan cs' (S idx) tmp_key (tmp_value ++ c) read_key
  end.

(** The second loop: the characters outside [start_idx .. end_idx]. *)
Fixpoint ed_keep (cs : list bytes) (idx : nat) (start_idx end_idx : Z) : bytes :=
  match cs with
  | [] => []
  | c :: cs' =>
      (if decide ((start_idx <= Z.of_nat idx)%Z /\ (Z.of_nat idx < end_idx)%Z) then [] else c)
      ++ ed_keep cs' (S idx) start_idx end_idx
  end.

Section Uri.
(** The crate [http]. *)
Context {Uri Method PathAndQuery Scheme Authority : Type}.
Context (parse_uri : bytes -> res Uri) (uri_query : Uri -> option bytes) (uri_path : Uri -> bytes).
Context (uri_scheme : Uri -> option Scheme) (uri_authority : Uri -> option Authority).
Context (build_uri : option Scheme -> option Authority -> bytes -> res Uri).
Context (parse_path : bytes -> res PathAndQuery) (parse_method : bytes -> res Method).
Context (oc : bool).      (* overflow checks *)

Definition from_str_to_path (path_and_query : bytes) : res PathAndQuery := parse_path path_and_query.

Definition from_str_to_grpc_path (service_name : bytes) : res PathAndQuery :=
  parse_path (str "/" ++ service_name ++ str "/Tun").

Definition from_str_to_http_method (method : bytes) : res Method := parse_method method.

Abbreviation EarlyDataUri := (@EarlyDataUri Uri).

(** [a - b] on [usize]. *)
Definition usize_sub (a : Z) (b : nat) : res Z := chk oc 64 (a - Z.of_nat b).

Definition early_header_name : bytes := str "Sec-WebSocket-Protocol".

Definition EarlyDataUri_new (uri : bytes) : res EarlyDataUri :=
  ws_uri ← parse_uri uri;
  let plain := Ok (mkEarlyDataUri ws_uri [] 0) in
  match uri_query ws_uri with
  | None => plain
  | Some query =>
    let '(found, idx, tmp_key, tmp_value) := ed_scan (chars query) 0 [] [] true in
    let end_idx := if found then Z.of_nat idx else Z.of_nat (length query) in
    if decide (tmp_key = str "ed") then
      s1 ← usize_sub end_idx (length tmp_value);
      s2 ← usize_sub s1 (length tmp_key);
      start_idx ← usize_sub s2 1;
      match parse_unsigned (2 ^ 64) tmp_value with
      | None => Err (new_error "invalid digit found in string")
      | Some max_early_data =>
        if decide (max_early_data = 0)%Z then Err (new_error "read from query max early data is zero.")
        else
          let new_query := uri_path ws_uri ++ str "?" ++ ed_keep (chars query) 0 start_idx end_idx in
          uri ← build_uri (uri_scheme ws_uri) (uri_authority ws_uri) new_query;
          Ok (mkEarlyDataUri uri early_header_name (Z.to_nat max_early_data))
      end
    else plain
  end.

Definition from_str_to_ws_uri (uri : bytes) : res EarlyDataUri := EarlyDataUri_new uri.

(** *** Parameters of a query *)

(** What the scan takes for the key of a parameter: its text up to the first
['=']. *)
Fixpoint param_key (p : bytes) : bytes :=
  match p with
  | [] => []
  | b :: p' => if decide (b = "="%byte) then [] else b :: param_key p'
  end.

Definition ascii (l : bytes) : Prop := Forall (fun b => in_range 0 0x7F b = true) l.

(** A parameter that is not [ed]. *)
Definition other_param (p : bytes) : Prop := ("&"%byte ∉ p) /\ param_key p <> str "ed".

Lemma chars_ascii l : ascii l -> chars l = map (fun b => [b]) l.
Proof.
  unfold chars. induction 1 as [|b l Hb _ IH]; [done|].
  change (chars_from (length (b :: l)) (b :: l)) with (take (char_len b) (b :: l) :: chars_from (length l) (drop (char_len b) (b :: l))).
  assert (char_len b = 1) as -> by (unfold char_len; by rewrite Hb). cbn [map]. by f_equal.
Qed.

Lemma ed_scan_value l cs idx key value :
  "&"%byte ∉ l ->
  exists value', ed_scan (map (fun b => [b]) l ++ cs) idx key value false = ed_scan cs (idx + length l) key value' false
  /\ ("="%byte ∉ l -> value' = value ++ l).
Proof.
  revert idx value. induction l as [|b l IH]; intros idx value Ha; cbn [map app length].
  - exists value. rewrite Nat.add_0_r. split; [done|]. by rewrite app_nil_r.
  - apply not_elem_of_cons in Ha as [Hb Ha]. cbn [ed_scan].
    destruct (decide ([b] = str "=")) as [He|He].
    + destruct (IH (S idx) value Ha) as (v & -> & _). exists v. rewrite <- Nat.add_succ_comm. split; [done|].
      intros Hn. apply not_elem_of_cons in Hn as [Hn _]. by injection He as ->.
    + rewrite decide_False by (intros [= ->]; done).
      destruct (IH (S idx) (value ++ [b]) Ha) as (v & -> & Hv). exists v. rewrite <- Nat.add_succ_comm. split; [done|].
      intros [_ Hn]%not_elem_of_cons. rewrite Hv by done. by rewrite <- app_assoc.
Qed.

Lemma ed_scan_key p cs idx key :
  "&"%byte ∉ p ->
  exists value rk, ed_scan (map (fun b => [b]) p ++ cs) idx key [] true
  = ed_scan cs (idx + length p) (key ++ param_key p) value rk.
Proof.
  revert idx key. induction p as [|b p IH]; intros idx key Ha; cbn [map app length param_key].
  - exists [], true. by rewrite Nat.add_0_r, app_nil_r.
  - apply not_elem_of_cons in Ha as [Hb Ha]. cbn [ed_scan].
    destruct (decide ([b] = str "=")) as [He|He].
    + injection He as ->. rewrite decide_True by done.
      destruct (ed_scan_value p cs (S idx) key [] Ha) as (v & -> & _). exists v, false.
      by rewrite app_nil_r, <- Nat.add_succ_comm.
    + rewrite decide_False by (intros [= ->]; done). rewrite (decide_False (P := b = _)) by (intros ->; done).
      destruct (IH (S idx) (key ++ [b]) Ha) as (v & rk & ->). exists v, rk.
      by rewrite <- app_assoc, <- Nat.add_succ_comm.
Qed.

(** Parameters that are not [ed] are scanned over. *)
Lemma ed_scan_others ps cs idx :
  Forall other_param ps ->
  ed_scan (map (fun b => [b]) (flat_map (fun p => p ++ str "&") ps) ++ cs) idx [] [] true
  = ed_scan cs (idx + length (flat_map (fun p => p ++ str "&") ps)) [] [] true.
Proof.
  intros Hps. revert idx. induction Hps as [|p ps [Ha Hk] _ IH]; intros idx; cbn [flat_map].
  - simpl. by rewrite Nat.add_0_r.
  - rewrite map_app, map_app, <- !app_assoc.
    change (map (fun b => [b]) (str "&") ++ ?x) with (str "&" :: x).
    destruct (ed_scan_key p (str "&" :: map (fun b => [b]) (flat_map (fun p => p ++ str "&") ps) ++ cs) idx [] Ha)
      as (v & rk & ->).
    cbn [app ed_scan]. rewrite decide_False, decide_True, decide_False by done.
    rewrite IH. f_equal. rewrite !length_app. change (length (str "&")) with 1. lia.
Qed.

Lemma ed_keep_spec l idx (start stop : nat) :
  start <= stop ->
  ed_keep (map (fun b => [b]) l) idx (Z.of_nat start) (Z.of_nat stop) = take (start - idx) l ++ drop (stop - idx) l.
Proof.
  intros Hs. revert idx. induction l as [|b l IH]; intros idx; cbn [map ed_keep]; [by rewrite take_nil, drop_nil|].
  rewrite IH. case_decide as Hc.
  - replace (start - idx) with 0 by lia. replace (start - S idx) with 0 by lia.
    destruct (stop - idx) eqn:E; [lia|]. replace (stop - S idx) with n by lia. done.
  - destruct (decide (idx < start)).
    + replace (start - idx) with (S (start - S idx)) by lia. replace (stop - idx) with (S (stop - S idx)) by lia. done.
    + replace (start - idx) with 0 by lia. replace (start - S idx) with 0 by lia.
      replace (stop - idx) with 0 by lia. replace (stop - S idx) with 0 by lia. done.
Qed.

Lemma show_radix_digits fuel z : (0 <= z)%Z -> Forall (fun b => to_digit 10 b <> None) (show_radix 10 fuel z).
Proof.
  revert z. induction fuel as [|fuel IH]; intros z Hz; cbn [show_radix]; [constructor|].
  pose proof (Z.mod_pos_bound z 10 ltac:(lia)).
  destruct (Z.ltb_spec z 10); [constructor; [by rewrite to_digit_digit_byte by lia|constructor]|].
  apply Forall_app. split; [apply IH, Z.div_pos; lia|].
  constructor; [by rewrite to_digit_digit_byte by lia|constructor].
Qed.

Lemma show_dec_no c n : (0 <= n)%Z -> to_digit 10 c = None -> c ∉ show_dec n.
Proof. intros Hn Hc Hin. by apply (proj1 (Forall_forall _ _) (show_radix_digits 20 n Hn) _ Hin). Qed.

(** The scan of a query with the parameter [ed=n]. *)
Lemma ed_scan_found ps n post :
  Forall other_param ps -> (0 <= n)%Z -> (post = [] \/ exists r, post = "&"%byte :: r) ->
  let pre := flat_map (fun p => p ++ str "&") ps in
  exists found idx, ed_scan (map (fun b => [b]) (pre ++ str "ed=" ++ show_dec n ++ post)) 0 [] [] true
  = (found, idx, str "ed", show_dec n)
  /\ (if found then idx else length (pre ++ str "ed=" ++ show_dec n ++ post)) = length pre + 3 + length (show_dec n).
Proof.
  intros Hps Hn Hpost pre. unfold pre. rewrite map_app, ed_scan_others by done. fold pre.
  change (map (fun b => [b]) (str "ed=" ++ show_dec n ++ post))
    with (str "e" :: str "d" :: str "=" :: map (fun b => [b]) (show_dec n ++ post)).
  cbn [ed_scan]. rewrite !decide_False, decide_True by done. rewrite map_app.
  destruct (ed_scan_value (show_dec n) (map (fun b => [b]) post) (S (S (S (0 + length pre)))) (([] ++ str "e") ++ str "d") [])
    as (v & -> & Hv); [by apply show_dec_no|].
  rewrite Hv by (by apply show_dec_no). cbn [app].
  destruct Hpost as [->|[r ->]].
  - exists false. eexists. split; [done|]. rewrite !length_app. change (length (str "ed=")) with 3. simpl. lia.
  - exists true. eexists. change (map (fun b => [b]) ("&"%byte :: r)) with (str "&" :: map (fun b => [b]) r).
    cbn [ed_scan]. rewrite decide_False, !decide_True by done. split; [done|lia].
Qed.

(** The URI of a WebSocket with a parameter [ed=n] in its query asks for
[n] bytes of early data and loses that parameter, the rest of the URI is
kept; without one the URI is kept as it is and there is no early data. *)
Theorem early_data_uri uri u q ps :
  parse_uri uri = Ok u -> uri_query u = Some q -> ascii q -> (Z.of_nat (length q) < 2 ^ 64)%Z ->
  Forall other_param ps ->
  let pre := flat_map (fun p => p ++ str "&") ps in
  (forall n post, q = pre ++ str "ed=" ++ show_dec n ++ post -> (0 < n < 2 ^ 64)%Z ->
    (post = [] \/ exists r, post = "&"%byte :: r) ->
    EarlyDataUri_new uri = (u' ← build_uri (uri_scheme u) (uri_authority u) (uri_path u ++ str "?" ++ pre ++ post);
      Ok (mkEarlyDataUri u' early_header_name (Z.to_nat n))))
  /\ (forall p, q = pre ++ p -> other_param p -> EarlyDataUri_new uri = Ok (mkEarlyDataUri u [] 0)).
Proof.
  intros Hu Hq Ha Hlen Hps pre. unfold EarlyDataUri_new. rewrite Hu. cbn [mbind res_bind]. rewrite Hq, (chars_ascii q Ha).
  split.
  - intros n post -> Hn Hpost. destruct (ed_scan_found ps n post Hps ltac:(lia) Hpost) as (found & idx & E & Hidx).
    fold pre in E, Hidx. rewrite E. rewrite decide_True by done.
    set (q := pre ++ str "ed=" ++ show_dec n ++ post) in *.
    set (v := length (show_dec n)) in *.
    assert ((if found then Z.of_nat idx else Z.of_nat (length q)) = Z.of_nat (length pre + 3 + v)) as ->
      by (destruct found; by rewrite Hidx).
    assert (length pre + 3 + v <= length q) as Hle.
    { unfold q. rewrite !length_app. change (length (str "ed=")) with 3. fold v. lia. }
    unfold usize_sub, chk. change (length (str "ed")) with 2. fold v.
    rewrite decide_True by lia. cbn [mbind res_bind]. rewrite decide_True by lia. cbn [mbind res_bind].
    rewrite decide_True by lia. cbn [mbind res_bind].
    assert (n < 10 ^ 20)%Z by (assert (2 ^ 64 < 10 ^ 20)%Z by reflexivity; lia).
    rewrite parse_unsigned_show, decide_False by lia.
    replace (Z.of_nat (length pre + 3 + v) - Z.of_nat v - Z.of_nat 2 - Z.of_nat 1)%Z with (Z.of_nat (length pre)) by lia.
    rewrite ed_keep_spec, !Nat.sub_0_r by lia. unfold q. rewrite take_app_length.
    assert (drop (length pre + 3 + v) (pre ++ str "ed=" ++ show_dec n ++ post) = post) as ->; [|done].
    rewrite !app_assoc. apply drop_app_length'. rewrite !length_app. change (length (str "ed=")) with 3. fold v. lia.
  - intros p -> [Hp Hk]. unfold pre. rewrite map_app, ed_scan_others by done. fold pre.
    rewrite <- (app_nil_r (map _ p)). destruct (ed_scan_key p [] (0 + length pre) [] Hp) as (v & rk & ->).
    cbn [ed_scan app]. by rewrite decide_False.
Qed.

(** The parameter [ed] without a value is taken for one character longer than
it is: at the front of the query the subtraction runs below zero. *)
Lemma early_data_bare uri u :
  parse_uri uri = Ok u -> uri_query u = Some (str "ed") ->
  EarlyDataUri_new uri = if oc then Panic else Err (new_error "invalid digit found in string").
Proof. intros Hu Hq. unfold EarlyDataUri_new. rewrite Hu. cbn [mbind res_bind]. rewrite Hq. unfold usize_sub.
by destruct oc. Qed.
End Uri.

(** ** Defaults *)

Definition default_grpc_path {PathAndQuery} (parse_path : bytes -> res PathAndQuery) : res PathAndQuery :=
  match parse_path (str "/GunService/Tun") with
  | Err _ => Panic                          (* unwrap *)
  | r => r
  end.
Definition default_relay_buffer_size : nat := 20.
Definition default_backlog : Z := 4096.
Definition default_true : bool := true.

(** [default_v2ray_asset_path]: the environment, else the directory of the
    executable ([exe_dir]); [join] is [PathBuf::push]. *)
Definition default_v2ray_asset_path {Path} (join : Path -> bytes -> Path) (of_env : bytes -> Path)
    (env : bytes -> option bytes) (exe_dir : Path) (file_name : bytes) : Path :=
  let prefix := match env (str "v2ray.location.asset") with
                | Some p => of_env p
                | None => match env (str "V2RAY_LOCATION_ASSET") with
                          | Some p => of_env p
                          | None => exe_dir
                          end
                end in
  join prefix file_name.

(** ** Witnesses *)

Section Witness.
(** A URI is its text in front of ['?'] and its query. *)
Definition wit_parse (u : bytes) : res (bytes * option bytes) :=
  match split_on "?"%byte u with
  | [p; q] => Ok (p, Some q)
  | _ => Ok (u, None)
  end.

Lemma early_data_uri_witness :
  @EarlyDataUri_new _ unit unit wit_parse snd fst (fun _ => None) (fun _ => None) (fun _ _ p => wit_parse p) true
  (str "ws://example.com/?key=xx&ed=64&n=q")
  = Ok (mkEarlyDataUri (str "ws://example.com/", Some (str "key=xx&&n=q")) early_header_name (Z.to_nat 64)).
Proof.
  refine (eq_trans (proj1 (early_data_uri wit_parse snd fst (fun _ => None) (fun _ => None) (fun _ _ p => wit_parse p) true
    (str "ws://example.com/?key=xx&ed=64&n=q") (str "ws://example.com/", Some (str "key=xx&ed=64&n=q"))
    (str "key=xx&ed=64&n=q") [str "key=xx"] eq_refl eq_refl ltac:(repeat constructor) ltac:(vm_compute; reflexivity) _)
    64%Z (str "&n=q") eq_refl ltac:(lia) (or_intror (ex_intro _ (str "n=q") eq_refl))) _).
  - constructor; [|constructor]. split; [|done]. by apply (bool_decide_unpack _).
  - vm_compute. reflexivity.
Defined.
End Witness.
