(* ===== verification/Wire.v ===== *)
(** * What can be on the wire

    Two properties that cut across the protocols.  The addresses the program
    accepts are exactly the encodings of well-formed values of the type
    [Address] (Address.v).  And the writers of Shadowsocks and VMess stay
    within bounds in every run, failures included: the buffers they keep, the
    answers they give, the lengths they announce. *)

From S2P Require Import Prelude Io StdText Address Aead FrameWriter ShadowStream VmessBody.
From Stdlib Require Import ZArith Lia List Strings.Byte.
From stdpp Require Import base option list strings.

(** ** Addresses *)

Lemma read_exact_inv n s l s' :
  read_exact n s = (Ok l, s') ->
  rd_bytes (st_rd s) = l ++ rd_bytes (st_rd s') /\ length l = n /\ st_wr s' = st_wr s.
Proof.
  unfold read_exact. destruct (read_exact_loop _ _ _) as [r rd] eqn:E. apply read_exact_loop_spec in E.
  intros [= -> <-]. destruct E as (d & -> & Hd & Hb). done.
Qed.

Lemma IO_bind_inv {A B} (m : IO A) (f : A -> IO B) s b s' :
  (x ← m; f x) s = (Ok b, s') -> exists a s1, m s = (Ok a, s1) /\ f a s1 = (Ok b, s').
Proof. unfold mbind, IO_bind. destruct (m s) as [[a|e|] s1]; try done. by eauto. Qed.

Lemma io_lift_inv {A B} (r : res A) (f : A -> IO B) s b s' :
  (x ← io_lift r; f x) s = (Ok b, s') -> exists a, r = Ok a /\ f a s = (Ok b, s').
Proof. intros (a & s1 & [= -> ->] & Hf)%IO_bind_inv. eauto. Qed.

(** The cursor reads of [l] in the context, as an equation for [l] whose length
    is known by [Hl]. *)
Ltac cursor_chain Hl :=
  repeat match goal with E : get_be _ _ = _ |- _ => apply get_be_inv in E as [? ?] end;
  repeat match goal with E : buf_rest ?c = _, F : buf_rest _ = _ ++ buf_rest ?c |- _ => rewrite E in F; clear E end;
  match goal with
  | E : buf_rest (mkCursor ?l 0) = _ |- _ =>
      change (buf_rest (mkCursor l 0)) with l in E; rewrite E in Hl;
      repeat rewrite length_app, length_be_bytes in Hl
  end;
  match type of Hl with
  | context [length (buf_rest ?c)] =>
      let Hz := fresh in
      assert (buf_rest c = []) as Hz by (apply nil_length_inv; lia);
      rewrite Hz in *; clear Hl
  end;
  match goal with E : ?l = be_bytes _ _ ++ _ |- _ => rename E into Hl end.

(** A stream read is a cursor read of the bytes it consumed. *)
Lemma read_from_stream_inv s a s' :
  read_from_stream s = (Ok a, s') ->
  rd_bytes (st_rd s) = Address.encode a ++ rd_bytes (st_rd s') /\ Address_ok a = true /\ wire_norm a = a
  /\ st_wr s' = st_wr s.
Proof.
  unfold read_from_stream. intros (ty & s1 & Hty & Hr)%IO_bind_inv.
  apply read_exact_inv in Hty as (Hb & Hl & Hw). destruct ty as [|t [|]]; try done. rewrite be_val_byte in Hr.
  assert (forall z, b2z t = z -> t = z2b z) as Ht by (intros z <-; by rewrite z2b_b2z).
  destruct (decide (b2z t = ADDR_TYPE_IPV4)) as [E|_]; [|destruct (decide (b2z t = ADDR_TYPE_IPV6)) as [E|_];
    [|destruct (decide (b2z t = ADDR_TYPE_DOMAIN_NAME)) as [E|_]; [|done]]]; apply Ht in E; subst t;
    apply IO_bind_inv in Hr as (l & s2 & Hx & Hr); apply read_exact_inv in Hx as (Hb2 & Hl2 & Hw2).
  - apply io_lift_inv in Hr as ([sa c] & Hc & Hr). injection Hr as <- <-. unfold get_u8, get_u16 in Hc.
    do 5 (get_inv Hc; [|done]). injection Hc as <- <-. cursor_chain Hl2.
    rewrite Hb, Hb2, Hl2. cbn [Address.encode octets4 v4_a v4_b v4_c v4_d Address_ok SocketAddr_ok].
    rewrite !be_bytes_1, u16_ok_range, app_nil_r. simpl in *. split_and!; [done|lia|lia|done|congruence].
  - apply io_lift_inv in Hr as ([sa c] & Hc & Hr). injection Hr as <- <-. unfold get_u16 in Hc.
    do 9 (get_inv Hc; [|done]). injection Hc as <- <-. cursor_chain Hl2.
    rewrite Hb, Hb2, Hl2. split_and!; [by rewrite app_nil_r, <- !app_assoc| |done|congruence].
    simpl. rewrite !andb_true_iff, !u16_ok_range. simpl in *. split_and!; try done; lia.
  - destruct l as [|n [|]]; try done. rewrite be_val_byte in Hr.
    apply IO_bind_inv in Hr as (l & s3 & Hx & Hr); apply read_exact_inv in Hx as (Hb3 & Hl3 & Hw3).
    destruct (utf8_valid _) eqn:Hu; [|done].
    apply io_lift_inv in Hr as ([p c] & Hc & Hr). injection Hr as <- <-.
    apply get_be_inv in Hc as [Hc Hp]. change (buf_rest (take 2 ?x)) with (take 2 x) in Hc.
    pose proof (b2z_range n).
    assert (length (take (Z.to_nat (b2z n)) l) = Z.to_nat (b2z n)) as Hd by (rewrite length_take; lia).
    assert (drop (Z.to_nat (b2z n)) l = be_bytes 2 p) as Hdr.
    { assert (length (drop (Z.to_nat (b2z n)) l) = 2) as Hl4 by (rewrite length_drop; lia).
      rewrite take_ge in Hc by lia. rewrite Hc, length_app, length_be_bytes in Hl4.
      rewrite Hc, (nil_length_inv (buf_rest c)) by lia. by rewrite app_nil_r. }
    pose proof (take_drop (Z.to_nat (b2z n)) l) as El. rewrite Hdr in El.
    set (d := take (Z.to_nat (b2z n)) l) in *.
    rewrite Hb, Hb2, Hb3, <- El. cbn [Address.encode Address_ok app].
    rewrite Hd, Z2Nat.id, z2b_b2z, <- !app_assoc by lia.
    rewrite Hu, !andb_true_iff, Nat.ltb_lt, u16_ok_range. simpl in *. split_and!; try done; try lia. congruence.
Qed.


(** ** Parsed addresses *)

Lemma to_digit_range radix b d : to_digit radix b = Some d -> (0 <= d < radix)%Z.
Proof.
  unfold to_digit, in_range. pose proof (b2z_range b).
  intros Hd. repeat (case_match; try discriminate); simplify_eq;
    repeat match goal with
    | H : (_ && _)%bool = true |- _ => apply andb_true_iff in H as [?%Z.leb_le ?%Z.leb_le]
    | H : (_ <? _)%Z = true |- _ => apply Z.ltb_lt in H
    end; lia.
Qed.

Lemma read_digits_nonneg radix m lim s acc cnt n k r :
  (0 <= acc)%Z -> read_digits radix m lim s acc cnt = Some (n, k, r) -> (0 <= n)%Z.
Proof.
  revert acc cnt. induction s as [|c s IH]; intros acc cnt Ha; simpl; [by intros [= <- _ _]|].
  destruct (to_digit radix c) as [d|] eqn:Ed; [|by intros [= <- _ _]]. apply to_digit_range in Ed.
  destruct m; case_match; try done; apply IH; nia.
Qed.

Lemma read_digits_below radix lim s acc cnt n k r :
  (acc < lim)%Z -> read_digits radix None lim s acc cnt = Some (n, k, r) -> (n < lim)%Z.
Proof.
  revert acc cnt. induction s as [|c s IH]; intros acc cnt Ha; simpl; [by intros [= <- _ _]|].
  destruct (to_digit radix c) as [d|]; [|by intros [= <- _ _]].
  destruct (Z.leb_spec lim (acc * radix + d)); [done|]. by apply IH.
Qed.

Lemma read_number_range radix m az lim s n r :
  read_number radix m az lim s = Some (n, r) -> (0 <= n < lim)%Z.
Proof.
  unfold read_number. destruct (read_digits _ _ _ _ _ _) as [[[v k] q]|] eqn:E; [|done].
  apply read_digits_nonneg in E; [|done]. case_decide; [done|]. case_match; [done|].
  destruct (Z.leb_spec lim v); [done|]. intros [= -> ->]. lia.
Qed.

Lemma parse_unsigned_range lim s n : (0 < lim)%Z -> parse_unsigned lim s = Some n -> (0 <= n < lim)%Z.
Proof.
  intros Hl. unfold parse_unsigned. set (ds := match s with c :: (_ :: _) as rest => _ | _ => _ end).
  destruct ds as [|c ds]; [done|].
  destruct (read_digits _ _ _ _ _ _) as [[[v k] [|]]|] eqn:E; [|done..]. intros [= <-].
  split; [by eapply read_digits_nonneg, E|by eapply read_digits_below, E].
Qed.

Lemma be_val_u16_range a b : u16_ok (be_val [a; b]) = true.
Proof. apply u16_ok_range. pose proof (be_val_range [a; b]) as Hr. change (256 ^ Z.of_nat (length [a; b]))%Z with 65536%Z in Hr. done. Qed.

Lemma read_groups_u16 fuel i limit s gs b r :
  read_groups fuel i limit s = (gs, b, r) -> Forall (fun z => u16_ok z = true) gs.
Proof.
  revert i s gs b r. induction fuel as [|f IH]; intros i s gs b r; cbn [read_groups]; [by intros [= <- _ _]|].
  match goal with |- context [match ?x with Some _ => _ | None => _ end = _ -> _] => destruct x as [[ip s1]|] end;
    [intros [= <- _ _]; by repeat constructor; apply be_val_u16_range|].
  destruct (read_separator _ _ _) as [s1|]; [|by intros [= <- _ _]].
  destruct (read_number _ _ _ _ s1) as [[g s2]|] eqn:En; [|by intros [= <- _ _]].
  destruct (read_groups f (S i) limit s2) as [[gs2 b2] r2] eqn:Eg. intros [= <- _ _].
  apply read_number_range in En. constructor; [by apply u16_ok_range|by eapply IH].
Qed.

Lemma ipv6_of_segments_ok l : Forall (fun z => u16_ok z = true) l -> forallb u16_ok (segments (ipv6_of_segments l)) = true.
Proof.
  intros Hl. assert (forall i, u16_ok (nth i l 0%Z) = true) as Hn.
  { intros i. destruct (nth_in_or_default i l 0%Z) as [Hin| ->]; [|done].
    by apply (proj1 (List.Forall_forall _ _) Hl). }
  cbn [segments ipv6_of_segments forallb v6_0 v6_1 v6_2 v6_3 v6_4 v6_5 v6_6 v6_7]. by rewrite !Hn.
Qed.

Lemma read_ipv6_addr_ok s ip r : read_ipv6_addr s = Some (ip, r) -> forallb u16_ok (segments ip) = true.
Proof.
  unfold read_ipv6_addr. destruct (read_groups 8 0 8 s) as [[gs v4] s1] eqn:E. apply read_groups_u16 in E.
  case_decide; [intros [= <- _]; by apply ipv6_of_segments_ok|]. destruct v4; [done|].
  destruct (read_given_char _ s1) as [s2|]; [|done]. destruct (read_given_char _ s2) as [s3|]; [|done].
  destruct (read_groups (8 - (length gs + 1)) 0 _ s3) as [[tl b] s4] eqn:Et. apply read_groups_u16 in Et.
  intros [= <- _]. apply ipv6_of_segments_ok, Forall_app. split; [done|]. apply Forall_app. split; [|done].
  by apply Forall_replicate.
Qed.

Lemma read_port_range s p r : read_port s = Some (p, r) -> u16_ok p = true.
Proof.
  unfold read_port. destruct (read_given_char _ s); [|done]. intros ?%read_number_range. by apply u16_ok_range.
Qed.

Lemma parse_socket_addr_ok s a : parse_socket_addr s = Some a -> SocketAddr_ok a = true.
Proof.
  unfold parse_socket_addr. destruct (read_socket_addr_v4 s) as [[a4 r]|] eqn:E4.
  - destruct r; [|done]. intros [= <-]. unfold read_socket_addr_v4 in E4.
    destruct (read_ipv4_addr s) as [[ip s1]|]; [|done]. destruct (read_port s1) as [[p s2]|] eqn:Ep; [|done].
    injection E4 as <- _. by eapply read_port_range.
  - destruct (read_socket_addr_v6 s) as [[a6 r]|] eqn:E6; [|done]. destruct r; [|done]. intros [= <-].
    unfold read_socket_addr_v6 in E6. destruct (read_given_char _ s) as [s1|]; [|done].
    destruct (read_ipv6_addr s1) as [[ip s2]|] eqn:Ei; [|done]. apply read_ipv6_addr_ok in Ei.
    destruct (match read_scope_id s2 with Some q => q | None => (0%Z, s2) end) as [sc s3] eqn:Es.
    destruct (read_given_char _ s3) as [s4|]; [|done]. destruct (read_port s4) as [[p s5]|] eqn:Ep; [|done].
    injection E6 as <- _. apply read_port_range in Ep. unfold SocketAddr_ok. rewrite Ei, Ep. cbn [andb].
    assert (u32_ok sc = true) as ->; [|done].
    unfold u32_ok. rewrite andb_true_iff, Z.leb_le, Z.ltb_lt. unfold read_scope_id in Es.
    destruct (read_given_char _ s2) as [s6|]; [|injection Es as <- _; lia].
    destruct (read_number 10 None true (2 ^ 32) s6) as [[n s7]|] eqn:En; [|injection Es as <- _; lia].
    injection Es as <- _. by apply read_number_range in En.
Qed.

Lemma split_on_first_piece c s d l : split_on c s = d :: l -> c ∉ d.
Proof.
  revert d l. induction s as [|b s IH]; intros d l; simpl; [intros [= <- _]; by apply not_elem_of_nil|].
  case_decide; [intros [= <- _]; by apply not_elem_of_nil|].
  destruct (split_on c s) as [|h t] eqn:E; intros [= <- _]; rewrite not_elem_of_cons; split; try done;
    [by apply not_elem_of_nil|by eapply IH].
Qed.

(** C26: every address the program reads is a well-formed value.  What a stream
  read took off the stream is exactly the encoding of its result, with a valid
  name of at most 255 bytes, a port in range and no leftover of the type; what
  is parsed from text has its port and its segments in range. *)
Theorem addresses_well_typed :
  (forall s a s', read_from_stream s = (Ok a, s') ->
     Address_ok a = true /\ wire_norm a = a /\ st_wr s' = st_wr s
     /\ rd_bytes (st_rd s) = Address.encode a ++ rd_bytes (st_rd s'))
  /\ (forall text a, from_str text = Some a ->
      match a with
      | SocketAddress sa => SocketAddr_ok sa = true
      | DomainNameAddress d p => u16_ok p = true /\ ":"%byte ∉ d
      end).
Proof.
  split.
  - intros s a s' Hr. by destruct (read_from_stream_inv _ _ _ Hr) as (? & ? & ? & ?).
  - intros text a. unfold from_str. destruct (parse_socket_addr text) as [sa|] eqn:Ep.
    + intros [= <-]. by eapply parse_socket_addr_ok.
    + assert (forall d l, split_on ":"%byte text = d :: l -> ":"%byte ∉ d) as Hd by (intros d l; apply split_on_first_piece).
      destruct (split_on ":"%byte text) as [|d [|port l]] eqn:Es; [done| |].
      * intros [= <-]. split; [done|by eapply Hd].
      * destruct (parse_unsigned 65536 port) as [p|] eqn:Eu; [|done]. intros [= <-].
        apply parse_unsigned_range in Eu; [|done]. split; [by apply u16_ok_range|by eapply Hd].
Qed.

(** ** Bounds of the writers *)

Section Bounds.
Context {C : Type} `{FrameEncoder C}.
(** A frame is [oh] bytes longer than its payload; [base] bytes (the salt) may
wait in the buffer in front of the first one. *)
Context (oh base : nat).
Context (encode_length : forall c d f c', fe_encode c d = Ok (f, c') -> length f = length d + oh).

Implicit Type e : EncryptedWriter C.

Definition ew_bounded e : Prop :=
  ew_data_len e <= fe_max /\ length (ew_buf e) <= base + fe_max + oh
  /\ (ew_state e = EncAwait -> ew_pos e <= length (ew_buf e))
  /\ (at_boundary e -> length (ew_buf e) <= base).

(** Polls with any data, whatever their answers. *)
Fixpoint enc_polls (datas : list bytes) (w : Writer) e : list (Poll (res nat)) * Writer * EncryptedWriter C :=
  match datas with
  | [] => ([], w, e)
  | data :: datas' =>
    let '(p, w1, e1) := poll_write_encrypted write_data data w e in
    let '(ps, w2, e2) := enc_polls datas' w1 e1 in (p :: ps, w2, e2)
  end.

Lemma enc_write_bounded w e p w' e' :
  ew_data_len e <= fe_max -> length (ew_buf e) <= base + fe_max + oh -> ew_pos e <= length (ew_buf e) ->
  enc_write write_data w e = (p, w', e') ->
  ew_bounded e' /\ match p with Ready (Ok n) => n <= fe_max | Ready Panic => False | _ => True end
  /\ length (wr_log w') <= length (wr_log w) + (base + fe_max + oh).
Proof.
  intros Hd Hl Hp. unfold enc_write. destruct (write_data _ _ _) as [[q w1] pos] eqn:E.
  pose proof (write_data_spec _ _ _ _ _ _ E Hp) as (Hpos & Hlog & Hq).
  assert (length (wr_log w1) <= length (wr_log w) + (base + fe_max + oh)) as Hg
    by (rewrite Hlog, length_app, length_take, length_drop; lia).
  destruct q as [[[]|x|]|]; [| |done|]; intros [= <- <- <-]; unfold ew_bounded, at_boundary; cbn;
    (split; [|by split]); split_and!; try lia; try done; by intros [|].
Qed.

Lemma poll_write_bounded data w e p w' e' :
  ew_bounded e -> poll_write_encrypted write_data data w e = (p, w', e') ->
  ew_bounded e' /\ match p with Ready (Ok n) => n <= fe_max | _ => True end
  /\ length (wr_log w') <= length (wr_log w) + (base + fe_max + oh).
Proof.
  intros He. pose proof He as (Hd & Hl & Hp & Hb). unfold poll_write_encrypted.
  assert (forall st, ew_state e = st -> (st = EncStart \/ st = EncYield) ->
    (if fe_empty_ends && bool_decide (data = [])
    then (Ready (Ok 0), w, mkEncryptedWriter (ew_cipher e) EncDone (ew_buf e) (ew_pos e) (ew_data_len e))
    else match encrypted_buffer e (take (Nat.min fe_max (length data)) data) with
    | Ok e' => enc_write write_data w e' | Err x => (Ready (Err x), w, e) | Panic => (Ready Panic, w, e) end) = (p, w', e') ->
    ew_bounded e' /\ match p with Ready (Ok n) => n <= fe_max | _ => True end
    /\ length (wr_log w') <= length (wr_log w) + (base + fe_max + oh)) as Hstart.
  { intros st Hst Hs. assert (at_boundary e) as Hat by (unfold at_boundary; by rewrite Hst). specialize (Hb Hat).
    destruct (fe_empty_ends && _).
    - intros [= <- <- <-]. split; [|split; lia]. unfold ew_bounded, at_boundary. cbn. split_and!; try lia; try done; by intros [|].
    - unfold encrypted_buffer. destruct (fe_encode _ _) as [[f c]|x|] eqn:Ef; cbn [mbind res_bind];
        [|intros [= <- <- <-]; split; [done|split; [done|lia]]..].
      apply encode_length in Ef. rewrite length_take in Ef. intros Hw.
      apply enc_write_bounded in Hw; cbn; rewrite ?length_app, ?length_take; try lia.
      destruct Hw as (? & Hq & ?). (split; [done|split; [by destruct p as [[]|]|done]]). }
  destruct (ew_state e) eqn:Est; [by apply (Hstart EncStart); auto| |by apply (Hstart EncYield); auto|].
  - intros Hw. apply enc_write_bounded in Hw; [|done..|by apply Hp]. destruct Hw as (? & Hq & ?).
    (split; [done|split; [by destruct p as [[]|]|done]]).
  - intros [= <- <- <-]. split; [done|split; [done|lia]].
Qed.

Lemma enc_polls_bounded datas w e ps w' e' :
  ew_bounded e -> enc_polls datas w e = (ps, w', e') ->
  ew_bounded e' /\ Forall (fun p => match p with Ready (Ok n) => n <= fe_max | _ => True end) ps
  /\ length (wr_log w') <= length (wr_log w) + length datas * (base + fe_max + oh).
Proof.
  revert w e ps. induction datas as [|d ds IH]; intros w e ps He; cbn [enc_polls].
  - intros [= <- <- <-]. split_and!; [done|constructor|lia].
  - destruct (poll_write_encrypted write_data d w e) as [[p w1] e1] eqn:E. destruct (enc_polls ds w1 e1) as [[qs w2] e2] eqn:Eq.
    intros [= <- <- <-]. destruct (poll_write_bounded _ _ _ _ _ _ He E) as (He1 & Hp & Hl).
    destruct (IH _ _ _ He1 Eq) as (He2 & Hf & Hl2). split_and!; [done|by constructor|cbn [length]; lia].
Qed.
End Bounds.

Section WireBounds.
#[local] Opaque MAX_PACKET_SIZE CHUNK_SIZE.
Context `{AeadCrypto} (oc : bool).

Lemma shadow_frame_length c d f c' : shadow_frame c d = Ok (f, c') -> length f = length d + 34.
Proof.
  unfold shadow_frame, TAG_SIZE. destruct (encrypt_room c (be_bytes 2 (Z.of_nat (length d)))) as (o1 & E1 & L1 & _).
  destruct (AeadCipher_encrypt c _) as [r1 c1]. simpl in E1. subst r1.
  destruct (encrypt_room c1 d) as (o2 & E2 & L2 & _). destruct (AeadCipher_encrypt c1 _) as [r2 c2]. simpl in E2. subst r2.
  cbn [mbind res_bind]. intros [= <- _]. rewrite length_app, L1, L2, length_be_bytes. lia.
Qed.

Lemma vmess_frame_length c d f c' : vmess_frame oc c d = Ok (f, c') -> length f = length d + 18.
Proof.
  unfold vmess_frame. destruct (vmess_nonce c) as [nonce|?|]; [|done..]. cbn [mbind res_bind].
  unfold encrypt_inplace_with_slice, TAG_SIZE, vmess_tag_len. rewrite length_app, repeat_length, decide_False, Nat.add_sub by lia.
  rewrite take_app_length. pose proof (aead_seal_length (vc_alg c) (vc_key c) nonce [] d) as [Hl Ht].
  destruct (aead_seal _ _ _ _ d) as [ct tg]. cbn [fst snd mbind res_bind] in *.
  destruct (count_next oc c) as [c2|?|]; [|done..]. cbn [mbind res_bind]. intros [= <- _].
  cbn [length]. rewrite length_app. lia.
Qed.

(** The length a frame announces is the one its reader takes from it. *)
Lemma shadow_announces c d f c' : length d <= MAX_PACKET_SIZE -> shadow_frame c d = Ok (f, c') ->
  (decrypt_length c (take 18 f)).1 = Ok (length d).
Proof.
  intros Hd. unfold shadow_frame, TAG_SIZE.
  destruct (encrypt_room c (be_bytes 2 (Z.of_nat (length d)))) as (o1 & E1 & L1 & D1). rewrite length_be_bytes in L1.
  destruct (AeadCipher_encrypt c _) as [r1 c1]. simpl in E1. subst r1.
  destruct (AeadCipher_encrypt c1 _) as [[o2|e|] c2]; cbn [mbind res_bind]; [|done..]. intros [= <- _].
  rewrite take_app_length' by done. unfold decrypt_length. destruct (AeadCipher_decrypt c o1) as [r c3]. simpl in D1. subst r.
  cbn [fst]. rewrite (take_ge (be_bytes 2 (Z.of_nat (length d)))) by (by rewrite length_be_bytes). pose proof MAX_PACKET_SIZE_Z.
  by rewrite be_val_be_bytes_small, Nat2Z.id, decide_False by lia.
Qed.

Lemma vmess_announces c d f c' : length d <= CHUNK_SIZE - overhead_len -> vmess_frame oc c d = Ok (f, c') ->
  be_val (take 2 f) = Z.of_nat (length d + 16).
Proof.
  intros Hd. pose proof sizes as (_ & Hc & Hs). unfold vmess_frame. destruct (vmess_nonce c) as [nonce|?|]; [|done..]. cbn [mbind res_bind].
  destruct (encrypt_inplace_with_slice _ _ _ _ _) as [m|?|]; [|done..]. cbn [mbind res_bind].
  destruct (count_next oc c) as [c2|?|]; [|done..]. cbn [mbind res_bind]. unfold vmess_tag_len. intros E.
  assert (f = be_bytes 2 (Z.of_nat (length d + 16)) ++ m) as -> by congruence.
  rewrite take_app_length' by (by rewrite length_be_bytes). unfold overhead_len in *. by rewrite be_val_be_bytes_small by lia.
Qed.

(** C27: in every run of a Shadowsocks or VMess writer, whatever data it is
polled with and however the stream below answers or fails: the writer keeps
at most one frame, with the salt in front of the first one, it never answers
more than a frame's payload, and a poll puts at most such a buffer on the
wire.  Every frame that the writers append to their buffer announces its
own length: to the reader with the cipher of the writer a Shadowsocks
frame announces its payload, in less than 14 bits, so that it is not refused; a
VMess frame announces payload and tag, at most 2 to the 14, which is within
the limit of its reader. *)
Theorem writer_bounds method key salt iv security datas w :
  (forall e ps w' e', EncryptedWriter_new method key salt = Ok e -> enc_polls datas w e = (ps, w', e') ->
    length (ew_buf e') <= length salt + MAX_PACKET_SIZE + 34
    /\ Forall (fun p => match p with Ready (Ok n) => n <= MAX_PACKET_SIZE | _ => True end) ps
    /\ length (wr_log w') <= length (wr_log w) + length datas * (length salt + MAX_PACKET_SIZE + 34))
  /\ (forall ps w' e', enc_polls (H := vmess_encoder oc) datas w (VmessAeadWriter_new iv security) = (ps, w', e') ->
    length (ew_buf e') <= CHUNK_SIZE + 2
    /\ Forall (fun p => match p with Ready (Ok n) => n <= CHUNK_SIZE - 16 | _ => True end) ps
    /\ length (wr_log w') <= length (wr_log w) + length datas * (CHUNK_SIZE + 2))
  /\ (forall (e : EncryptedWriter AeadCipher) data e',
    encrypted_buffer e (take (Nat.min fe_max (length data)) data) = Ok e' ->
    exists f n, ew_buf e' = ew_buf e ++ f /\ (decrypt_length (ew_cipher e) (take 18 f)).1 = Ok n /\
    length f = n + 34 /\ (Z.of_nat n < 2 ^ 14)%Z)
  /\ (forall (e : EncryptedWriter VmessCipher) data e',
    encrypted_buffer (H := vmess_encoder oc) e (take (Nat.min (fe_max (FrameEncoder := vmess_encoder oc)) (length data)) data) = Ok e' ->
    exists f n, ew_buf e' = ew_buf e ++ f /\ be_val (take 2 f) = Z.of_nat n /\
    length f = n + 2 /\ (Z.of_nat n <= 2 ^ 14)%Z /\ n <= MAX_SIZE).
Proof.
  split_and!.
  - intros e ps w' e' He Hr. unfold EncryptedWriter_new in He.
    destruct (AeadCipher_new method key salt) as [c|?|]; [|done..]. cbn [mbind res_bind] in He. injection He as <-.
    assert (@ew_bounded _ shadow_encoder 34 (length salt) (mkEncryptedWriter c EncStart salt 0 0)) as Hb
      by (unfold ew_bounded; cbn; split_and!; [lia|lia|done|done]).
    destruct (@enc_polls_bounded _ shadow_encoder 34 (length salt) shadow_frame_length _ _ _ _ _ _ Hb Hr)
      as ((_ & Hl & _) & Hf & Hw).
    split_and!; done.
  - intros ps w' e' Hr. pose proof sizes as (_ & _ & Hs).
    assert (@ew_bounded _ (vmess_encoder oc) 18 0 (VmessAeadWriter_new iv security)) as Hb
      by (unfold ew_bounded; cbn; split_and!; [lia|lia|done|done]).
    destruct (@enc_polls_bounded _ (vmess_encoder oc) 18 0 vmess_frame_length _ _ _ _ _ _ Hb Hr)
      as ((_ & Hl & _) & Hf & Hw).
    cbn [fe_max vmess_encoder] in *. unfold overhead_len in *.
    split_and!; [lia|done|]. replace (CHUNK_SIZE + 2) with (0 + (CHUNK_SIZE - 16) + 18) by lia. done.
  - intros e data e'. cbn [fe_max shadow_encoder]. set (d := take _ data).
    assert (length d <= MAX_PACKET_SIZE) as Hd by (unfold d; rewrite length_take; lia). unfold encrypted_buffer. cbn [fe_encode shadow_encoder].
    destruct (shadow_frame _ d) as [[f c']|x|] eqn:Ef; cbn [mbind res_bind]; [|done..]. intros [= <-]. exists f, (length d).
    pose proof MAX_PACKET_SIZE_Z. split_and!; [done|by eapply shadow_announces|by eapply shadow_frame_length|lia].
  - intros e data e'. cbn [fe_max vmess_encoder]. set (d := take _ data). pose proof sizes as (Hm & Hc & Hs).
    assert (length d <= CHUNK_SIZE - overhead_len) as Hd by (unfold d; rewrite length_take; lia). unfold encrypted_buffer. cbn [fe_encode vmess_encoder].
    destruct (vmess_frame oc _ d) as [[f c']|x|] eqn:Ef; cbn [mbind res_bind]; [|done..]. intros [= <-]. exists f, (length d + 16).
    unfold overhead_len in *. split_and!; [done|by eapply vmess_announces|apply vmess_frame_length in Ef; lia|lia|lia].
Qed.
End WireBounds.

(** ** Witnesses *)

Section Witness.
#[local] Existing Instance toy_crypto.

Lemma addresses_well_typed_witness :
  Address_ok (DomainNameAddress (str "example.com") 80) = true /\
  u16_ok 80 = true.
Proof.
  assert (read_from_stream (mkStream [RdData (Address.encode (DomainNameAddress (str "example.com") 80))] (mkWriter [] [] [] 0 [] 0))
    = (Ok (DomainNameAddress (str "example.com") 80), mkStream [] (mkWriter [] [] [] 0 [] 0))) as E by (vm_compute; reflexivity).
  split.
  - exact (proj1 (proj1 addresses_well_typed _ _ _ E)).
  - exact (proj1 (proj2 addresses_well_typed (str "example.com:80") (DomainNameAddress (str "example.com") 80)
      ltac:(vm_compute; reflexivity))).
Defined.

Lemma writer_bounds_witness :
  match EncryptedWriter_new Aes128Gcm (repeat x01 16) (repeat x02 16) with
  | Ok e => length (ew_buf (enc_polls [str "hello"; str "world"]
      (mkWriter [WrPending; WrErr unexpected_eof] [] [] 0 [] 0) e).2) <= 16 + MAX_PACKET_SIZE + 34
  | _ => False
  end.
Proof.
  destruct (EncryptedWriter_new Aes128Gcm (repeat x01 16) (repeat x02 16)) as [e|x|] eqn:He.
  - destruct (enc_polls [str "hello"; str "world"] (mkWriter [WrPending; WrErr unexpected_eof] [] [] 0 [] 0) e)
      as [[ps w'] e'] eqn:Er.
    exact (proj1 (proj1 (writer_bounds false Aes128Gcm (repeat x01 16) (repeat x02 16) [] (AlgAes128Gcm, [])
      [str "hello"; str "world"] (mkWriter [WrPending; WrErr unexpected_eof] [] [] 0 [] 0)) e ps w' e' He Er)).
  - vm_compute in He. discriminate.
  - vm_compute in He. discriminate.
Defined.
End Witness.
