(* ===== verification/HttpInbound.v ===== *)
(** * The HTTP inbound (src/src/proxy/http/mod.rs, src/src/proxy/http/connector.rs)

    What the service answers to a request: a CONNECT is answered at once and
    its tunnel is opened by a task of its own; any other request is forwarded
    without five headers through a client whose connector opens the routed
    outbound.

    The crates http and hyper are classes: URIs by their accessors, headers by
    the laws of a map from names to lists of values, the client by what it
    does when its connector fails. *)

From S2P Require Import Prelude Io StdText Address IpTrie Aead Shadowsocks VmessStream Trojan Socks5 Chain Transport Tls Route Config Copy Server.
From Stdlib Require Import ZArith Lia List Strings.Byte.
From stdpp Require Import base option list gmap strings.

(** ** The crates *)

(** [http::Uri]: the parts the inbound looks at; [origin] keeps the scheme and
    the authority, as the client does for its connector. *)
Class HttpUri (Uri Scheme : Type) := {
  uri_scheme : Uri -> option Scheme;
  uri_authority : Uri -> option bytes;
  origin : Uri -> Uri;
  is_https : Scheme -> bool;
  scheme_as_str : Scheme -> bytes;
  origin_scheme u : uri_scheme (origin u) = uri_scheme u;
  origin_authority u : uri_authority (origin u) = uri_authority u
}.

(** [http::HeaderMap]. *)
Class HeaderMap (M : Type) := {
  headers_new : M;
  get_all : bytes -> M -> list bytes;
  remove_header : bytes -> M -> M;
  get_all_remove k m : get_all k (remove_header k m) = [];
  get_all_remove_ne k k' m : k <> k' -> get_all k (remove_header k' m) = get_all k m
}.

Definition ACCEPT_ENCODING : bytes := str "accept-encoding".
Definition CONNECTION : bytes := str "connection".
Definition PROXY_AUTHENTICATE : bytes := str "proxy-authenticate".
Definition PROXY_AUTHORIZATION : bytes := str "proxy-authorization".

Definition OK : Z := 200.
Definition BAD_REQUEST : Z := 400.
Definition INTERNAL_SERVER_ERROR : Z := 500.

Class HttpMethod (Method : Type) := { is_connect : Method -> bool }.
Class HttpBody (Body : Type) := { body_empty : Body; body_from : bytes -> Body }.

Section Http.
Context {Uri Scheme Method Headers Body Ext : Type}.
Context `{HttpUri Uri Scheme, HttpMethod Method, HeaderMap Headers, HttpBody Body}.

(** [hyper::Request<Body>]; the extensions carry the upgrade. *)
Record Request := mkRequest { rq_method : Method; rq_uri : Uri; rq_headers : Headers; rq_body : Body; rq_ext : Ext }.
Record Response := mkResponse { rs_status : Z; rs_headers : Headers; rs_body : Body }.

(** A hyper client without idle connections.  A request that is not a CONNECT
needs an absolute URI; one whose connection cannot be opened is an error; and
the client does not panic unless the connector does.  (A CONNECT may be in
authority form; the inbound never gives the client one.) *)
Class HttpClient (Conn : Type) := {
  client_request : (Uri -> res Conn) -> Request -> res Response;
  client_connect_err connect req : is_connect (rq_method req) = false ->
  (exists e, connect (origin (rq_uri req)) = Err e) -> exists e, client_request connect req = Err e;
  client_absolute connect req : is_connect (rq_method req) = false ->
  uri_scheme (rq_uri req) = None \/ uri_authority (rq_uri req) = None -> exists e, client_request connect req = Err e;
  client_no_panic connect req : connect (origin (rq_uri req)) <> Panic -> client_request connect req <> Panic
}.

(** ** The requests *)

Definition remove_proxy_headers (req : Request) : Request :=
  let h := rq_headers req in
  let h := remove_header ACCEPT_ENCODING h in
  let h := remove_header CONNECTION h in
  let h := remove_header (str "proxy-connection") h in
  let h := remove_header PROXY_AUTHENTICATE h in
  let h := remove_header PROXY_AUTHORIZATION h in
  mkRequest (rq_method req) (rq_uri req) h (rq_body req) (rq_ext req).

Definition host_addr (uri : Uri) : option Address :=
  auth ← uri_authority uri; from_str auth.

(** [proxy_connect] up to the task it spawns, which is given by its address. *)
Definition proxy_connect (req : Request) : Response * option Address :=
  match host_addr (rq_uri req) with
  | Some addr => (mkResponse OK headers_new body_empty, Some addr)
  | None => (mkResponse BAD_REQUEST headers_new (body_from (str "CONNECT must be to a socket address")), None)
  end.

Definition proxy `{HttpClient Conn} (connect : Uri -> res Conn) (req : Request) : res Response :=
  let req := remove_proxy_headers req in
  match client_request connect req with
  | Err _ => Ok (mkResponse INTERNAL_SERVER_ERROR headers_new body_empty)
  | response => response
  end.

(** The closure given to [service_fn]. *)
Definition http_service `{HttpClient Conn} (connect : Uri -> res Conn) (req : Request) : res (Response * option Address) :=
  if is_connect (rq_method req) then Ok (proxy_connect req)
  else response ← proxy connect req; Ok (response, None).

(** [serve_http_conn], from what [serve_connection] ended with. *)
Definition serve_http_conn (conn : res unit) : res unit := map_new_error conn.

(** ** The connector's address *)

(** [str::find]. *)
Fixpoint find_char (c : byte) (s : bytes) : option nat :=
  match s with
  | [] => None
  | b :: s => if decide (b = c) then Some 0 else S <$> find_char c s
  end.

(** [str::get(n..)]: [n] has to be on the boundary of a character. *)
Definition get_from (n : nat) (s : bytes) : option bytes :=
  if decide (length s < n) then None else
    match drop n s with
    | b :: s' => if decide (0 < n /\ is_cont b = true) then None else Some (b :: s')
    | [] => Some []
    end.

Definition connector_addr (uri : Uri) : option Address :=
  let addr := default [] (uri_authority uri) in
  from_str (default [] (get_from (match find_char "@"%byte addr with Some x => x + 1 | None => 0 end) addr)).

Definition is_tls_scheme (uri : Uri) : bool :=
  match uri_scheme uri with
  | Some s => is_https s || bool_decide (scheme_as_str s = str "wss")
  | None => false
  end.
End Http.

Arguments Request : clear implicits.
Arguments Response : clear implicits.

Definition err_tls_target : io_error :=
  IoError Other "HTTP inbound target URI is tls and the client is not using CONNECT method.".
Definition err_blackhole_target : io_error := IoError Other "HTTP inbound target URI is in blackhole".
Definition err_invalid_target : io_error := IoError Other "URI must be a valid Address".

(** ** The inbound of a server *)

Section Inbound.
Context `{AeadCrypto} (sha224 : bytes -> bytes) {Uri Method PathAndQuery : Type}.
Context {CB Connector X509 : Type} `{SslConnectorBuilder CB, SslCertStore CB X509, SslBuild CB Connector}.
Context {S U Ip : Type} (uninit : bytes) (native : res (list X509)).
Context (apply_tcp : Builder (Uri := Uri) (Method := Method) (PathAndQuery := PathAndQuery) (Connector := Connector) -> S -> res S).
Context (apply_udp : Builder (Uri := Uri) (Method := Method) (PathAndQuery := PathAndQuery) (Connector := Connector) -> U -> bool -> res U).
Context `{Dialer S U Ip} {R : Type} (match_addr : R -> Address -> res tag).
Context {RUri Scheme : Type} `{HttpUri RUri Scheme}.
Abbreviation Chain := (ChainStreamBuilder
    (B := Builder (Uri := Uri) (Method := Method) (PathAndQuery := PathAndQuery) (Connector := Connector))
    (C := ProxyConfig (Uri := Uri) (Method := Method) (PathAndQuery := PathAndQuery))).
Abbreviation Srv := (ConfigServerBuilder (Uri := Uri) (Method := Method) (PathAndQuery := PathAndQuery) (Connector := Connector) R).

#[local] Instance hi_bld : ChainableStreamBuilder _ S U := srv_bld apply_tcp apply_udp.
#[local] Instance hi_cfg : ToChainableStreamBuilder (ProxyConfig (Uri := Uri) (Method := Method) (PathAndQuery := PathAndQuery)) _ :=
  srv_cfg sha224 uninit native.

(** The counters' names stand for the atomics. *)
Record HttpInbound := mkHttpInbound {
  hi_inner_map : gmap tag Chain;
  hi_router : R;
  hi_client : RUri -> res S;
  hi_enable_api_server : bool;
  hi_in_counter_up : option bytes;
  hi_in_counter_down : option bytes;
  hi_relay_buffer_size : nat
}.

(** [Connector::call]. *)
Definition connector_call (inner_map : gmap tag Chain) (router : R) (uri : RUri) : res S :=
  let is_tls_scheme := is_tls_scheme uri in
  match connector_addr uri with
  | None => Err err_invalid_target
  | Some addr =>
    if is_tls_scheme then Err err_tls_target else
      ob ← match_addr router addr;
      match inner_map !! ob with
      | None => Panic                          (* inner_map.get(ob).unwrap() *)
      | Some stream_builder =>
        if is_black_hole stream_builder then Err err_blackhole_target else
          chain_build_tcp stream_builder addr
      end
  end.

Definition HttpInbound_new (inner_map : gmap tag Chain) (router : R) (enable_api_server : bool)
  (in_counter_up in_counter_down : option bytes) (relay_buffer_size : nat) : HttpInbound :=
  mkHttpInbound inner_map router (connector_call inner_map router) enable_api_server in_counter_up in_counter_down relay_buffer_size.

(** The server's loop over its inbounds: the counters are looked up once. *)
Definition http_inbound (srv : Srv) (m : CounterMap) (inbound : Inbounds) : res HttpInbound :=
  '(in_up, in_down) ← (if sv_enable_api_server srv then
    down ← counter m (in_down (in_tag inbound));
    up ← counter m (in_up (in_tag inbound));
    Ok (Some up, Some down)
    else Ok (None, None));
  Ok (HttpInbound_new (sv_inner_map srv) (sv_router srv) (sv_enable_api_server srv) in_up in_down (sv_relay_buffer_size srv)).

(** [tunnel] up to the relay; [None] is a connection that is dropped. *)
Definition tunnel (h : HttpInbound) (m : CounterMap) (addr : Address) : res (option (served (S := S))) :=
  ob ← match_addr (hi_router h) addr;
  match hi_inner_map h !! ob with
  | None => Panic                              (* inner_map.get(ob).unwrap() *)
  | Some stream_builder =>
    if is_black_hole stream_builder then Ok None else
      server ← chain_build_tcp stream_builder addr;
      if hi_enable_api_server h then
        out_down ← counter m (out_down ob);
        out_up ← counter m (out_up ob);
        match hi_in_counter_up h, hi_in_counter_down h with
        | Some up, Some down => Ok (Some (ServeRelay ob server (Some (mkRelayCounters up down out_up out_down))))
        | _, _ => Panic                          (* in_counter_up.unwrap() *)
        end
      else Ok (Some (ServeRelay ob server None))
  end.

(** The task that [proxy_connect] spawns: errors are logged. *)
Definition connect_task {Upgraded : Type} (h : HttpInbound) (m : CounterMap) (upgrade : res Upgraded) (addr : Address)
  : res (option (Upgraded * served (S := S))) :=
  match upgrade with
  | Ok upgraded =>
    match tunnel h m addr with
    | Ok (Some r) => Ok (Some (upgraded, r))
    | Ok None => Ok None
    | Err _ => Ok None
    | Panic => Panic
    end
  | Err _ => Ok None
  | Panic => Panic
  end.
End Inbound.

(** ** Specification *)

(** The headers that the code names.  They are not the hop-by-hop headers of
HTTP: Accept-Encoding is none, and Keep-Alive, TE, Transfer-Encoding and Upgrade,
which are, are left to the client. *)
Definition removed_headers : list bytes :=
  map str ["accept-encoding"; "connection"; "proxy-connection"; "proxy-authenticate"; "proxy-authorization"].

(** [host] is [auth] without its user part. *)
Definition without_user (auth host : bytes) : Prop :=
  (auth = host /\ ("@"%byte ∉ host)) \/
  (exists user, ("@"%byte ∉ user) /\ auth = user ++ "@"%byte :: host /\ (forall b, head host = Some b -> is_cont b = false)).

(** ** Lemmas *)

Lemma find_char_none c s : c ∉ s -> find_char c s = None.
Proof.
  induction s as [|b s IH]; [done|]. intros [Hb Hs]%not_elem_of_cons. cbn [find_char].
  by rewrite decide_False, IH by congruence.
Qed.

Lemma find_char_app c s1 s2 : c ∉ s1 -> find_char c (s1 ++ c :: s2) = Some (length s1).
Proof.
  induction s1 as [|b s IH]; cbn [find_char app length]; [by rewrite decide_True|].
  intros [Hb Hs]%not_elem_of_cons. by rewrite decide_False, IH by congruence.
Qed.

Lemma get_from_0 s : get_from 0 s = Some s.
Proof.
  unfold get_from. rewrite decide_False by lia. rewrite drop_0. destruct s as [|b s]; [done|].
  case_decide as Hb; [lia|done].
Qed.

Lemma get_from_behind s1 c s2 : (forall b, head s2 = Some b -> is_cont b = false) ->
  get_from (length s1 + 1) (s1 ++ c :: s2) = Some s2.
Proof.
  intros Hh. unfold get_from. rewrite decide_False by (rewrite length_app; simpl; lia).
  replace (drop (length s1 + 1) (s1 ++ c :: s2)) with s2.
  - destruct s2 as [|b s2]; [done|]. rewrite decide_False; [done|]. intros [_ Hc]. by rewrite Hh in Hc.
  - rewrite <- drop_drop, drop_app_length. done.
Qed.

Section UriLemmas.
Context `{HttpUri Uri Scheme}.

Lemma connector_addr_spec uri auth host : uri_authority uri = Some auth -> without_user auth host ->
  connector_addr uri = from_str host.
Proof.
  intros Ha Hw. unfold connector_addr. rewrite Ha. cbn [default from_option id].
  destruct Hw as [[-> Hn]|(user & Hn & -> & Hh)].
  - by rewrite (find_char_none _ host Hn), get_from_0.
  - by rewrite (find_char_app _ user host Hn), get_from_behind.
Qed.

Lemma connector_addr_origin uri : connector_addr (origin uri) = connector_addr uri.
Proof. unfold connector_addr. by rewrite origin_authority. Qed.

Lemma is_tls_scheme_origin uri : is_tls_scheme (origin uri) = is_tls_scheme uri.
Proof. unfold is_tls_scheme. by rewrite origin_scheme. Qed.
End UriLemmas.

(** An IPv6 literal needs its port. *)
Lemma ipv6_without_port : from_str (str "[::1]") = None /\
  from_str (str "[::1]:80") = Some (SocketAddress (V6 (mkIpv6 0 0 0 0 0 0 0 1) 80 0 0)).
Proof. split; vm_compute; reflexivity. Qed.

Section HeaderLemmas.
Context {Uri Method Headers Body Ext : Type} `{HeaderMap Headers}.

Lemma remove_proxy_headers_spec (req : Request Uri Method Headers Body Ext) :
  let req' := remove_proxy_headers req in
  rq_method req' = rq_method req /\ rq_uri req' = rq_uri req /\ rq_body req' = rq_body req /\ rq_ext req' = rq_ext req /\
  forall k, get_all k (rq_headers req') = if decide (k ∈ removed_headers) then [] else get_all k (rq_headers req).
Proof.
  split_and!; try done. intros k. unfold remove_proxy_headers, removed_headers, ACCEPT_ENCODING, CONNECTION, PROXY_AUTHENTICATE, PROXY_AUTHORIZATION. cbn [rq_headers map].
  repeat match goal with
    | |- context [get_all k (remove_header ?x _)] =>
    destruct (decide (k = x)) as [->|?];
    [rewrite get_all_remove, decide_True by (rewrite !elem_of_cons; tauto); done|rewrite get_all_remove_ne by done]
    end.
  rewrite decide_False; [done|]. rewrite !elem_of_cons, elem_of_nil. tauto.
Qed.
End HeaderLemmas.

(** ** Theorems *)

Section InboundProofs.
Context `{AeadCrypto} (sha224 : bytes -> bytes) {Uri Method PathAndQuery : Type}.
Context {CB Connector X509 : Type} `{SslConnectorBuilder CB, SslCertStore CB X509, SslBuild CB Connector}.
Context {S U Ip : Type} (uninit : bytes) (native : res (list X509)).
Context (apply_tcp : Builder (Uri := Uri) (Method := Method) (PathAndQuery := PathAndQuery) (Connector := Connector) -> S -> res S).
Context (apply_udp : Builder (Uri := Uri) (Method := Method) (PathAndQuery := PathAndQuery) (Connector := Connector) -> U -> bool -> res U).
Context `{Dialer S U Ip} {R : Type} (match_addr : R -> Address -> res tag).
Context {RUri Scheme RMethod Headers Body Ext : Type}.
Context `{HttpUri RUri Scheme, HttpMethod RMethod, HeaderMap Headers, HttpBody Body}.
Context `{!HttpClient (Uri := RUri) (Method := RMethod) (Headers := Headers) (Body := Body) (Ext := Ext) S}.

Implicit Type srv : ConfigServerBuilder (Uri := Uri) (Method := Method) (PathAndQuery := PathAndQuery) (Connector := Connector) R.
Implicit Type req : Request RUri RMethod Headers Body Ext.

(** The stream the router and the outbounds give a target. *)
Definition routed srv (a : Address) : res (tag * S) :=
  t ← match_addr (sv_router srv) a;
  match through sha224 uninit native apply_tcp apply_udp srv t a with
  | Some r => out ← r; Ok (t, out)
  | None => Panic
  end.

Definition the_inbound srv (m : CounterMap) (ib : Inbounds) := http_inbound sha224 uninit native apply_tcp apply_udp match_addr srv m ib.
Definition task (h : HttpInbound (RUri := RUri)) (m : CounterMap) :=
  connect_task (Upgraded := unit) sha224 uninit native apply_tcp apply_udp match_addr h m (Ok tt).

Lemma through_hole srv t a ch : sv_inner_map srv !! t = Some ch ->
  through sha224 uninit native apply_tcp apply_udp srv t a =
  Some (if is_black_hole ch then Err err_block else chain_build_tcp (H := hi_bld apply_tcp apply_udp) (H0 := hi_cfg sha224 uninit native) ch a).
Proof. intros Ht. unfold through. rewrite Ht. f_equal. unfold chain_build_tcp at 1. by destruct (is_black_hole ch) eqn:E; [|unfold chain_build_tcp; rewrite E]. Qed.

(** The inbound of a running server: the connector opens what is routed, and
so does the tunnel, whose counters exist. *)
Lemma http_inbound_ok srv (m : CounterMap) ib : dom m = dom (run_counters srv) -> ib ∈ sv_inbounds srv ->
  the_inbound srv m ib = Ok (HttpInbound_new sha224 uninit native apply_tcp apply_udp match_addr (sv_inner_map srv) (sv_router srv)
    (sv_enable_api_server srv)
    (if sv_enable_api_server srv then Some (in_up (in_tag ib)) else None)
    (if sv_enable_api_server srv then Some (in_down (in_tag ib)) else None) (sv_relay_buffer_size srv)).
Proof.
  intros Hd Hi. unfold the_inbound, http_inbound. destruct (sv_enable_api_server srv); [|done].
  assert (in_tag ib ∈ map in_tag (sv_inbounds srv)) as Ht by (apply list_elem_of_In, in_map; by apply list_elem_of_In).
  destruct (counter_map_in (map fst (map_to_list (sv_inner_map srv))) (map in_tag (sv_inbounds srv)) (in_tag ib) (or_introl Ht)) as [Hu Hw].
  apply elem_of_dom in Hu, Hw. fold (run_counters srv) in Hu, Hw. rewrite <- Hd in Hu, Hw.
  apply elem_of_dom in Hu as [u Hu], Hw as [w Hw]. unfold counter. by rewrite Hw, Hu.
Qed.

Lemma out_counters_ok srv (m : CounterMap) t ch : dom m = dom (run_counters srv) ->
  sv_inner_map srv !! t = Some ch ->
  counter m (out_down t) = Ok (out_down t) /\ counter m (out_up t) = Ok (out_up t).
Proof.
  intros Hd Ht. pose proof (counter_map_out (map fst (map_to_list (sv_inner_map srv))) (map in_tag (sv_inbounds srv)) t) as Hc.
  destruct Hc as [Hu Hw].
  { apply elem_of_map_to_list in Ht. apply list_elem_of_In, in_map_iff. exists (t, ch). split; [done|]. by apply list_elem_of_In. }
  apply elem_of_dom in Hu, Hw. fold (run_counters srv) in Hu, Hw. rewrite <- Hd in Hu, Hw.
  apply elem_of_dom in Hu as [u Hu], Hw as [w Hw]. unfold counter. by rewrite Hw, Hu.
Qed.

Lemma task_spec srv (m : CounterMap) ib h a : dom m = dom (run_counters srv) -> ib ∈ sv_inbounds srv -> the_inbound srv m ib = Ok h ->
  task h m a = match routed srv a with
  | Ok (t, out) => Ok (Some (tt, ServeRelay t out (if sv_enable_api_server srv then Some (all_counters (in_tag ib) t) else None)))
  | Err _ => Ok None
  | Panic => Panic
  end.
Proof.
  intros Hd Hi. rewrite (http_inbound_ok srv m ib Hd Hi). intros [= <-]. unfold task, connect_task, tunnel, routed, HttpInbound_new.
  cbn [hi_router hi_inner_map hi_enable_api_server hi_in_counter_up hi_in_counter_down].
  destruct (match_addr (sv_router srv) a) as [t|e|]; [|done..]. cbn [mbind res_bind].
  destruct (sv_inner_map srv !! t) as [ch|] eqn:Ech; [|by unfold through; rewrite Ech].
  rewrite (through_hole _ _ _ _ Ech). destruct (is_black_hole ch); [done|].
  destruct (chain_build_tcp ch a) as [out|e|]; [|done..]. cbn [mbind res_bind].
  destruct (sv_enable_api_server srv); [|done].
  destruct (out_counters_ok srv m t ch Hd Ech) as [-> ->]. done.
Qed.

(** What the connector opens for a request's URI. *)
Lemma connector_spec srv (m : CounterMap) ib h (uri : RUri) : dom m = dom (run_counters srv) -> ib ∈ sv_inbounds srv -> the_inbound srv m ib = Ok h ->
  (connector_addr uri = None \/ is_tls_scheme uri = true \/ (exists a e, connector_addr uri = Some a /\ routed srv a = Err e) ->
    exists e, hi_client h (origin uri) = Err e) /\
  (forall a t out, connector_addr uri = Some a -> is_tls_scheme uri = false -> routed srv a = Ok (t, out) -> hi_client h (origin uri) = Ok out).
Proof.
  intros Hd Hi. rewrite (http_inbound_ok srv m ib Hd Hi). intros [= <-]. cbn [HttpInbound_new hi_client].
  unfold connector_call. rewrite connector_addr_origin, is_tls_scheme_origin. split.
  - intros Hc. destruct (connector_addr uri) as [a|]; [|by eauto]. destruct (is_tls_scheme uri); [by eauto|].
    destruct Hc as [?|[?|(a' & e & [= <-] & Hr)]]; [done..|]. revert Hr. unfold routed.
    destruct (match_addr (sv_router srv) a) as [t|e'|]; cbn [mbind res_bind]; [|by eauto|done].
    destruct (sv_inner_map srv !! t) as [ch|] eqn:Ech; [|by unfold through; rewrite Ech].
    rewrite (through_hole _ _ _ _ Ech). destruct (is_black_hole ch); [by eauto|].
    destruct (chain_build_tcp ch a); [done|by eauto|done].
  - intros a t out -> ->. unfold routed.
    destruct (match_addr (sv_router srv) a) as [t'|e'|]; cbn [mbind res_bind]; [|done..].
    destruct (sv_inner_map srv !! t') as [ch|] eqn:Ech; [|by unfold through; rewrite Ech].
    rewrite (through_hole _ _ _ _ Ech). destruct (is_black_hole ch); [done|].
    destruct (chain_build_tcp ch a); cbn [mbind res_bind]; [by intros [= -> ->]|done..].
Qed.

Lemma connector_panics srv (m : CounterMap) ib h (uri : RUri) : dom m = dom (run_counters srv) -> ib ∈ sv_inbounds srv ->
  the_inbound srv m ib = Ok h -> hi_client h (origin uri) = Panic -> exists a, connector_addr uri = Some a /\ routed srv a = Panic.
Proof.
  intros Hd Hi. rewrite (http_inbound_ok srv m ib Hd Hi). intros [= <-]. cbn [HttpInbound_new hi_client].
  unfold connector_call. rewrite connector_addr_origin, is_tls_scheme_origin.
  destruct (connector_addr uri) as [a|]; [|done]. destruct (is_tls_scheme uri); [done|]. intros Hp. exists a. split; [done|]. revert Hp.
  unfold routed. destruct (match_addr (sv_router srv) a) as [t|e'|]; cbn [mbind res_bind]; [|done..].
  destruct (sv_inner_map srv !! t) as [ch|] eqn:Ech; [|by unfold through; rewrite Ech].
  rewrite (through_hole _ _ _ _ Ech). destruct (is_black_hole ch); [done|]. by intros ->.
Qed.

(** C14: the HTTP inbound of a running server.  A CONNECT to an address is
answered 200 before anything is dialled, and its task then relays to the
stream of the routed outbound, on the counters a SOCKS5 CONNECT has; an
outbound that refuses, a black hole among them, drops the connection
silently.  A CONNECT to anything else is answered 400.  Any other request
is given to the client with its method, URI and body, without the five
headers that the code names and with every other header, over a connection to the
routed outbound of the host behind the user part; it is answered 500 when
the URI is not absolute, is a TLS one, names no address, or the outbound
refuses, and with what the client answers otherwise.  The service never answers
with an error, which would end the connection; and it panics only where
opening the routed outbound does, as it does for a routing tag that is
no outbound.  The task of a CONNECT panics exactly where that does. *)
Theorem http_inbound_serves srv (m : CounterMap) ib : dom m = dom (run_counters srv) -> ib ∈ sv_inbounds srv ->
  exists h, the_inbound srv m ib = Ok h /\
  (forall req, match http_service (hi_client h) req with
    | Ok _ => True
    | Err _ => False
    | Panic => is_connect (rq_method req) = false /\ exists a, connector_addr (rq_uri req) = Some a /\ routed srv a = Panic
    end) /\
  (forall req, is_connect (rq_method req) = true ->
    (forall auth a, uri_authority (rq_uri req) = Some auth -> from_str auth = Some a ->
      http_service (hi_client h) req = Ok (mkResponse OK headers_new body_empty, Some a) /\
      task h m a = match routed srv a with
      | Ok (t, out) => Ok (Some (tt, ServeRelay t out (if sv_enable_api_server srv then Some (all_counters (in_tag ib) t) else None)))
      | Err _ => Ok None
      | Panic => Panic
      end) /\
    (uri_authority (rq_uri req) ≫= from_str = None ->
      http_service (hi_client h) req =
      Ok (mkResponse BAD_REQUEST headers_new (body_from (str "CONNECT must be to a socket address")), None))) /\
  (forall req, is_connect (rq_method req) = false ->
    (exists req', rq_method req' = rq_method req /\ rq_uri req' = rq_uri req /\ rq_body req' = rq_body req /\
      (forall k, get_all k (rq_headers req') = if decide (k ∈ removed_headers) then [] else get_all k (rq_headers req)) /\
      http_service (hi_client h) req = match client_request (hi_client h) req' with
      | Ok resp => Ok (resp, None)
      | Err _ => Ok (mkResponse INTERNAL_SERVER_ERROR headers_new body_empty, None)
      | Panic => Panic
      end) /\
    (uri_scheme (rq_uri req) = None \/ uri_authority (rq_uri req) = None \/ is_tls_scheme (rq_uri req) = true \/
      (exists auth host, uri_authority (rq_uri req) = Some auth /\ without_user auth host /\
        (from_str host = None \/ exists a e, from_str host = Some a /\ routed srv a = Err e)) ->
      http_service (hi_client h) req = Ok (mkResponse INTERNAL_SERVER_ERROR headers_new body_empty, None)) /\
    (forall auth host a t out, uri_authority (rq_uri req) = Some auth -> without_user auth host -> from_str host = Some a ->
      is_tls_scheme (rq_uri req) = false -> routed srv a = Ok (t, out) -> hi_client h (origin (rq_uri req)) = Ok out)).
Proof.
  intros Hd Hi. pose proof (http_inbound_ok srv m ib Hd Hi) as Hh. eexists. split; [exact Hh|].
  set (h := HttpInbound_new _ _ _ _ _ _ _ _ _ _ _ _) in *. split_and!.
  - intros req. unfold http_service, proxy. destruct (is_connect _); [by destruct (proxy_connect req)|].
    pose proof (client_no_panic (hi_client h) (remove_proxy_headers req)) as Hn.
    destruct (client_request _ _) as [resp|e|]; cbn [mbind res_bind]; [done..|]. split; [done|].
    apply (connector_panics srv m ib h (rq_uri req) Hd Hi Hh). destruct (hi_client h _) as [?|?|]; [by destruct Hn..|done].
  - intros req Hc. unfold http_service. rewrite Hc. unfold proxy_connect, host_addr. split.
    + intros auth a -> Ha. cbn [mbind option_bind]. rewrite Ha. split; [done|]. by apply (task_spec srv m ib).
    + destruct (uri_authority (rq_uri req)) as [auth|]; cbn [mbind option_bind]; [|done]. by intros ->.
  - intros req Hc. unfold http_service. rewrite Hc. unfold proxy.
    destruct (remove_proxy_headers_spec req) as (Em & Eu & Eb & _ & Eh). split_and!.
    + exists (remove_proxy_headers req). split_and!; [done..|]. by destruct (client_request _ _).
    + intros Hr. enough (exists e, client_request (hi_client h) (remove_proxy_headers req) = Err e) as [e ->] by done.
      destruct (connector_spec srv m ib h (rq_uri req) Hd Hi Hh) as [Hce _]. rewrite <- Eu in *.
      destruct Hr as [Hr|[Hr|[Hr|(auth & host & Ha & Hw & Hf)]]]; [by apply client_absolute; rewrite ?Em; auto..| |].
      * apply client_connect_err; [by rewrite Em|]. rewrite Eu in *. auto.
      * apply client_connect_err; [by rewrite Em|]. apply Hce. rewrite (connector_addr_spec _ auth host Ha Hw). tauto.
    + intros auth host a t out Ha Hw Hf Ht Hr. destruct (connector_spec srv m ib h (rq_uri req) Hd Hi Hh) as [_ Hco].
      apply (Hco a t out); [|done..]. by rewrite (connector_addr_spec _ auth host Ha Hw).
Qed.
End InboundProofs.

(** ** Witnesses *)

Section Witness.
#[local] Existing Instance toy_crypto.
#[local] Existing Instances toy_ssl toy_store toy_ssl_build.
#[local] Existing Instance wit_dialer.

(** URIs as a scheme and an authority, headers as a list of pairs. *)
#[local] Instance wit_uri : HttpUri (option bytes * option bytes) bytes := {|
    uri_scheme := fst; uri_authority := snd; origin u := u; is_https s := bool_decide (s = str "https"); scheme_as_str s := s;
    origin_scheme u := eq_refl; origin_authority u := eq_refl
  |}.

Abbreviation pairs := (list (bytes * bytes)).
Definition wit_remove (k : bytes) (m : pairs) : pairs := filter (fun e => e.1 <> k) m.
Definition wit_get_all (k : bytes) (m : pairs) : list bytes := snd <$> filter (fun e => e.1 = k) m.

Lemma wit_get_remove k m : wit_get_all k (wit_remove k m) = [].
Proof.
  induction m as [|[k1 v1] m IH]; [done|]. unfold wit_get_all, wit_remove in *. rewrite filter_cons. cbn [fst].
  case_decide; [|done]. rewrite filter_cons_False by done. apply IH.
Qed.

Lemma wit_get_remove_ne k k' m : k <> k' -> wit_get_all k (wit_remove k' m) = wit_get_all k m.
Proof.
  intros Hk. induction m as [|[k1 v1] m IH]; [done|]. unfold wit_get_all, wit_remove in *. rewrite !filter_cons. cbn [fst].
  repeat case_decide; subst; try done; rewrite ?filter_cons_True, ?filter_cons_False, ?fmap_cons by done; [by rewrite IH|apply IH].
Qed.

#[local] Instance wit_headers : HeaderMap pairs := {|
    headers_new := []; get_all := wit_get_all; remove_header := wit_remove;
    get_all_remove := wit_get_remove; get_all_remove_ne := wit_get_remove_ne
  |}.
#[local] Instance wit_method : HttpMethod bytes := {| is_connect m := bool_decide (m = str "CONNECT") |}.
#[local] Instance wit_body : HttpBody bytes := {| body_empty := []; body_from b := b |}.

Abbreviation Req := (Request (option bytes * option bytes) bytes pairs bytes unit).

(** A client whose servers answer with the headers they got. *)
Definition wit_request (connect : option bytes * option bytes -> res Address) (req : Req) : res (Response pairs bytes) :=
  match rq_uri req with
  | (Some _, Some _) => _ ← connect (rq_uri req); Ok (mkResponse OK (rq_headers req) [])
  | _ => Err (new_error "client requires absolute-form URIs")
  end.

Lemma wit_connect_err connect (req : Req) : is_connect (rq_method req) = false -> (exists e, connect (origin (rq_uri req)) = Err e) -> exists e, wit_request connect req = Err e.
Proof. intros _ [e He]. unfold wit_request. cbn in He. rewrite He. destruct (rq_uri req) as [[?|] [?|]]; eauto. Qed.

Lemma wit_absolute connect (req : Req) : is_connect (rq_method req) = false -> uri_scheme (rq_uri req) = None \/ uri_authority (rq_uri req) = None ->
  exists e, wit_request connect req = Err e.
Proof. intros _. unfold wit_request. cbn. destruct (rq_uri req) as [[?|] [?|]]; cbn; intros [|]; eauto; done. Qed.

Lemma wit_no_panic connect (req : Req) : connect (origin (rq_uri req)) <> Panic -> wit_request connect req <> Panic.
Proof. unfold wit_request. cbn. destruct (rq_uri req) as [[?|] [?|]]; try done. by destruct (connect _). Qed.

#[local] Instance wit_client_req : HttpClient (Uri := option bytes * option bytes) (Method := bytes) (Headers := pairs) (Body := bytes)
  (Ext := unit) Address := {|
    client_request := wit_request; client_connect_err := wit_connect_err; client_absolute := wit_absolute;
    client_no_panic := wit_no_panic
  |}.

Definition wit_req (m : string) (scheme : option bytes) (auth : string) (h : pairs) : Req :=
  mkRequest (str m) (scheme, Some (str auth)) h [] tt.

Definition wit_router (_ : unit) (a : Address) : res tag :=
  if decide (a = DomainNameAddress (str "blocked.org") 80) then Ok (str "hole") else Ok (str "out").

Definition wit_holes : ConfigServerBuilder (Uri := bytes) (Method := bytes) (PathAndQuery := bytes) (Connector := list bytes) unit :=
  mkServerBuilder tt (<[str "hole" := mkChain [] None None [] None true true]> (sv_inner_map wit_server))
  (sv_inbounds wit_server) [] 4096 20 true new_dummy_address.

Lemma wit_no_at : "@"%byte ∉ str "me".
Proof. by apply (bool_decide_unpack ("@"%byte ∉ str "me")). Qed.

Lemma http_inbound_serves_witness :
  let ib := mkInbounds new_dummy_address true (str "in") in
  let a := DomainNameAddress (str "example.org") 443 in
  exists h, the_inbound (RUri := option bytes * option bytes) (fun x => x) [] (Ok []) wit_bld wit_bld_udp wit_router wit_holes (run_counters wit_holes) ib = Ok h /\
  http_service (hi_client h) (wit_req "CONNECT" None "example.org:443" []) = Ok (mkResponse OK [] [], Some a) /\
  task (fun x => x) [] (Ok []) wit_bld wit_bld_udp wit_router h (run_counters wit_holes) a
  = Ok (Some (tt, ServeRelay (str "out") a (Some (all_counters (str "in") (str "out"))))) /\
  http_service (hi_client h) (wit_req "GET" (Some (str "http")) "me@blocked.org" [(str "accept", str "x")]) = Ok (mkResponse INTERNAL_SERVER_ERROR [] [], None) /\
  hi_client h (Some (str "http"), Some (str "me@example.org:443")) = Ok a.
Proof.
  intros ib a.
  destruct (http_inbound_serves (RUri := option bytes * option bytes) (RMethod := bytes) (Headers := pairs) (Body := bytes) (Ext := unit)
    (fun x => x) [] (Ok []) wit_bld wit_bld_udp wit_router wit_holes (run_counters wit_holes) ib eq_refl ltac:(by left))
    as (h & Hh & _ & Hc & Hg).
  exists h. split; [exact Hh|].
  destruct (proj1 (Hc (wit_req "CONNECT" None "example.org:443" []) eq_refl) (str "example.org:443") a eq_refl ltac:(vm_compute; reflexivity)) as [Hs Ht].
  split; [exact Hs|]. split; [rewrite Ht; vm_compute; reflexivity|]. split.
  - apply (proj1 (proj2 (Hg (wit_req "GET" (Some (str "http")) "me@blocked.org" [(str "accept", str "x")]) eq_refl))).
    right. right. right. exists (str "me@blocked.org"), (str "blocked.org"). split; [reflexivity|]. split.
    + right. exists (str "me"). split; [apply wit_no_at|]. split; [reflexivity|]. by intros b [= <-].
    + right. exists (DomainNameAddress (str "blocked.org") 80). eexists. split; vm_compute; reflexivity.
  - apply (proj2 (proj2 (Hg (wit_req "GET" (Some (str "http")) "me@example.org:443" []) eq_refl)) (str "me@example.org:443") (str "example.org:443") a (str "out") a eq_refl).
    + right. exists (str "me"). split; [apply wit_no_at|]. split; [reflexivity|]. by intros b [= <-].
    + vm_compute; reflexivity.
    + vm_compute; reflexivity.
    + vm_compute; reflexivity.
Defined.
End Witness.
