(* ===== verification/Services.v ===== *)
(** * The edges of the server

    The outbounds without a protocol (src/src/proxy/direct/mod.rs,
    src/src/proxy/blackhole/mod.rs), the listener of a dokodemo door
    (src/src/proxy/dokodemo_door/mod.rs), the latency service of the API
    (src/src/api/mod.rs) and the program's entry (src/src/main.rs).

    The socket calls are a class; the clock and the timer are arguments. *)

From S2P Require Import Prelude Io StdText Address IpTrie Aead Shadowsocks VmessStream Trojan Socks5 Chain Transport Tls Route Config Copy Server.
From Stdlib Require Import ZArith Lia List Strings.Byte.
From stdpp Require Import base option list gmap strings.

(** ** The program *)

Section Main.
(** The file system, the parser of the crate toml, [build_server] of Config.v
and the running of the server. *)
Context {F Cfg Srv : Type} (open : bytes -> res F) (read_to_string : F -> res bytes) (toml_from_str : bytes -> res Cfg).
Context (build_server : Cfg -> res Srv) (run : Srv -> res unit).

(** [Config::read_from_file]. *)
Definition read_from_file (filename : bytes) : res Cfg :=
  file ← open filename;
  config_string ← read_to_string file;
  toml_from_str config_string.

(** [main], by the command line's [--config] and [--test]. *)
Definition main (config : bytes) (validate : bool) : res unit :=
  if validate then '_ ← read_from_file config; Ok tt
  else
    c ← read_from_file config;
    s ← build_server c;
    run s.

(** [--test] answers for the text of the configuration only; what
[build_server] finds wrong with it, the run finds. *)
Lemma main_answers config :
  match read_from_file config with
  | Ok c => main config true = Ok tt /\ main config false = (s ← build_server c; run s)
  | Err e => main config true = Err e /\ main config false = Err e
  | Panic => main config true = Panic /\ main config false = Panic
  end.
Proof. unfold main. by destruct (read_from_file config). Qed.
End Main.

(** ** Outbounds without a protocol *)

Definition direct_build_tcp {S : Type} (io : S) : res S := Ok io.
Definition direct_build_udp {U : Type} (io : U) (build_tcp_inside : bool) : res U := Ok io.
(** [unimplemented!()]. *)
Definition blackhole_build_tcp {S : Type} (io : S) : res S := Panic.
Definition blackhole_build_udp {U : Type} (io : U) (build_tcp_inside : bool) : res U := Panic.

Section Outbounds.
Context {B C S U Ip : Type} `{ChainableStreamBuilder B S U, ToChainableStreamBuilder C B, Dialer S U Ip}.

(** The builder of a black hole is never asked for a stream: a chain with one
among its layers refuses before it dials, TCP and UDP alike. *)
Theorem black_hole_refuses (c c' : ChainStreamBuilder) (a : Address) (ip : Ip) :
  build_inner_markers c = Ok c' -> Blackhole ∈ layers c ->
  chain_build_tcp c' a = Err err_block /\ chain_build_udp c' a ip = Err err_block.
Proof.
  unfold build_inner_markers. rewrite layer_types_rev. cbn [mbind res_bind]. rewrite hole_reverse. intros Hm Hb.
  assert (is_black_hole c' = true) as Hh.
  { assert (existsb (fun x => bool_decide (x = Blackhole)) (layers c) = true) as He.
    { apply existsb_exists. exists Blackhole. split; [by apply list_elem_of_In|done]. }
    rewrite He in Hm. revert Hm. set (lu := match position_uot _ with Some _ => _ | None => _ end).
    destruct lu as [l|e|]; cbn [mbind res_bind]; [by intros [= <-]|done..]. }
  unfold chain_build_tcp, chain_build_udp. by rewrite Hh.
Qed.

End Outbounds.

(** ** The listener of a dokodemo door *)

Inductive SocketDomain := IPV4 | IPV6.
#[export] Instance domain_eq_dec : EqDecision SocketDomain.
Proof. solve_decision. Defined.

(** The calls on a TCP socket that the listener makes. *)
Class TcpSocket (Sock : Type) := {
  socket_new : SocketDomain -> res Sock;
  set_nonblocking : bool -> Sock -> res Sock;
  set_reuse_address : bool -> Sock -> res Sock;
  set_ipv6_transparent : Z -> Sock -> res Sock;          (* setsockopt(SOL_IPV6, IPV6_TRANSPARENT, ..) *)
  set_ip_transparent : bool -> Sock -> res Sock;
  socket_bind : SocketAddr -> Sock -> res Sock;
  socket_listen : Z -> Sock -> res Sock
}.

(** [backlog as c_int]. *)
Definition as_c_int (z : Z) : Z := if decide (z < 2 ^ 31)%Z then z else (z - 2 ^ 32)%Z.

Section Door.
Context `{TcpSocket Sock} (linux : bool).

Definition err_door_addr : io_error := new_error "unsupported dokodemo door listen addr type.".

Definition build_dokodemo_door_listener (door : DokodemoDoor) (backlog : Z) : res Sock :=
  domain ← match dd_addr door with
  | SocketAddress (V4 _ _) => Ok IPV4
  | SocketAddress (V6 _ _ _ _) => Ok IPV6
  | DomainNameAddress _ _ => Err err_door_addr
  end;
  socket ← socket_new domain;
  socket ← set_nonblocking true socket;
  socket ← (if linux then
    socket ← set_reuse_address true socket;
    if decide (domain = IPV6) then set_ipv6_transparent (if dd_tproxy door then 1%Z else 0%Z) socket
    else set_ip_transparent (dd_tproxy door) socket
    else Ok socket);
  addr ← get_sock_addr (dd_addr door);
  socket ← socket_bind addr socket;
  socket_listen (as_c_int backlog) socket.

End Door.

(** The calls themselves, as a socket that records them. *)
Inductive door_call :=
| CNew (d : SocketDomain) | CNonblocking | CReuse | CTransparent (on : bool) | CTransparent6 (on : Z)
| CBind (a : SocketAddr) | CListen (n : Z).

#[export] Instance trace_socket : TcpSocket (list door_call) := {|
  socket_new d := Ok [CNew d];
  set_nonblocking _ s := Ok (s ++ [CNonblocking]);
  set_reuse_address _ s := Ok (s ++ [CReuse]);
  set_ipv6_transparent z s := Ok (s ++ [CTransparent6 z]);
  set_ip_transparent b s := Ok (s ++ [CTransparent b]);
  socket_bind a s := Ok (s ++ [CBind a]);
  socket_listen n s := Ok (s ++ [CListen n])
|}.

(** On Linux the address can be reused and the transparency of the socket's
own family is set before it is bound to the door's address, and it listens
last; a door with a domain name makes no call. *)
Theorem door_listener (door : DokodemoDoor) (backlog : Z) : (0 <= backlog < 2 ^ 31)%Z ->
  build_dokodemo_door_listener true door backlog =
    match dd_addr door with
    | DomainNameAddress _ _ => Err err_door_addr
    | SocketAddress (V4 ip p) =>
        Ok [CNew IPV4; CNonblocking; CReuse; CTransparent (dd_tproxy door); CBind (V4 ip p); CListen backlog]
    | SocketAddress (V6 ip p f sc) =>
        Ok [CNew IPV6; CNonblocking; CReuse; CTransparent6 (if dd_tproxy door then 1 else 0)%Z; CBind (V6 ip p f sc);
            CListen backlog]
    end.
Proof.
  intros Hb. unfold build_dokodemo_door_listener.
  assert (as_c_int backlog = backlog) as Hc by (unfold as_c_int; by rewrite decide_True by lia).
  destruct (dd_addr door) as [[ip p|ip p f sc]|d p]; cbn -[as_c_int]; by rewrite ?Hc.
Qed.

(** ** What the server starts ([ConfigServerBuilder::run]) *)

Section Run.
Context `{TcpSocket Sock} (linux : bool) {L : Type} (bind : bytes -> res L).
Context {Uri Method PathAndQuery Connector R : Type}.
Abbreviation SrvBuilder := (ConfigServerBuilder (Uri := Uri) (Method := Method) (PathAndQuery := PathAndQuery) (Connector := Connector) R).

(** The tasks: the API, whose address the task itself asks for; the dokodemo
doors, with their listener and fixed target; the inbounds, with their
counters. *)
Inductive service :=
| ApiService (addr : res SocketAddr)
| DoorService (listener : Sock) (target_addr : option Address)
| InboundService (listener : L) (enable_udp : bool) (counters : option (bytes * bytes)).

Definition start_door (backlog : Z) (door : DokodemoDoor) : res service :=
  std_listener ← build_dokodemo_door_listener linux door backlog;
  Ok (DoorService std_listener (dd_target_addr door)).

(** The counters are looked up and unwrapped before the address is bound. *)
Definition start_inbound (enable_api_server : bool) (m : CounterMap) (inbound : Inbounds) : res service :=
  counters ← (if enable_api_server
    then down ← counter m (in_down (in_tag inbound)); up ← counter m (in_up (in_tag inbound)); Ok (Some (up, down))
    else Ok None);
  listener ← bind (to_string (in_addr inbound));
  Ok (InboundService listener (in_enable_udp inbound) counters).

Fixpoint start_all {A} (start : A -> res service) (l : list A) : res (list service) :=
  match l with
  | [] => Ok []
  | x :: l => s ← start x; ss ← start_all start l; Ok (s :: ss)
  end.

Definition run_services (srv : SrvBuilder) (m : CounterMap) : res (list service) :=
  let api := if sv_enable_api_server srv then [ApiService (get_sock_addr (sv_api_server_addr srv))] else [] in
  doors ← start_all (start_door (Z.of_nat (sv_backlog srv))) (sv_dokodemo srv);
  inbounds ← start_all (start_inbound (sv_enable_api_server srv) m) (sv_inbounds srv);
  Ok (api ++ doors ++ inbounds).

Lemma start_all_no_panic {A} (start : A -> res service) (l : list A) : Forall (fun x => start x <> Panic) l -> start_all start l <> Panic.
Proof.
  induction 1 as [|x l Hx _ IH]; [done|]. cbn [start_all]. destruct (start x); cbn [mbind res_bind]; [|done|done].
  destruct (start_all start l); done.
Qed.

Lemma start_all_length {A} (start : A -> res service) (l : list A) ss : start_all start l = Ok ss -> length ss = length l.
Proof.
  revert ss. induction l as [|x l IH]; intros ss; cbn [start_all]; [by intros [= <-]|].
  destruct (start x); cbn [mbind res_bind]; [|done|done]. destruct (start_all start l) as [ss'|e|]; cbn [mbind res_bind]; [|done|done].
  intros [= <-]. cbn. by rewrite (IH _ eq_refl).
Qed.

(** With its own counters the server starts without a panic, as far as the
socket calls do not, and serves every door and every inbound.  The API
task of a server whose API address is a domain name panics. *)
Theorem run_services_start (srv : SrvBuilder) :
  (forall door, build_dokodemo_door_listener linux door (Z.of_nat (sv_backlog srv)) <> Panic) -> (forall a, bind a <> Panic) ->
  run_services srv (run_counters srv) <> Panic /\
  (forall ss, run_services srv (run_counters srv) = Ok ss ->
    length ss = (if sv_enable_api_server srv then 1 else 0) + length (sv_dokodemo srv) + length (sv_inbounds srv)) /\
  (forall ss d p, run_services srv (run_counters srv) = Ok ss -> sv_enable_api_server srv = true ->
    sv_api_server_addr srv = DomainNameAddress d p -> head ss = Some (ApiService Panic)).
Proof.
  intros Hd Hb. unfold run_services.
  assert (start_all (start_door (Z.of_nat (sv_backlog srv))) (sv_dokodemo srv) <> Panic) as Hdoors.
  { apply start_all_no_panic, Forall_forall. intros x _. unfold start_door. specialize (Hd x). by destruct (build_dokodemo_door_listener _ _ _). }
  assert (start_all (start_inbound (sv_enable_api_server srv) (run_counters srv)) (sv_inbounds srv) <> Panic) as Hins.
  { apply start_all_no_panic, Forall_forall. intros x Hx. unfold start_inbound. specialize (Hb (to_string (in_addr x))).
    destruct (counter_map_in (map fst (map_to_list (sv_inner_map srv))) (map in_tag (sv_inbounds srv)) (in_tag x)) as [[u Hu] [d Hdn]].
    { left. by apply list_elem_of_fmap_2. }
    unfold counter, run_counters. rewrite Hu, Hdn. destruct (sv_enable_api_server srv); cbn [mbind res_bind]; by destruct (bind _). }
  destruct (start_all (start_door _) _) as [ds|e|] eqn:E1; cbn [mbind res_bind]; [|done|done].
  destruct (start_all (start_inbound _ _) _) as [is_|e|] eqn:E2; cbn [mbind res_bind]; [|done|done].
  split_and!; [done| |].
  - intros ss [= <-]. rewrite !length_app, (start_all_length _ _ _ E1), (start_all_length _ _ _ E2). destruct (sv_enable_api_server srv); cbn; lia.
  - intros ss d p [= <-] -> ->. done.
Qed.
End Run.


(** ** The latency service *)

(** [as i64] of a [u128]. *)
Definition millis_as_i64 (z : Z) : Z := as_i64 (z mod 2 ^ 64).

(** An answer of the service that is not a response; an [io::Error] becomes a
status by the crate tonic. *)
Inductive LatencyError := LatencyStatus (s : Status) | LatencyIo (e : io_error).

Section Latency.
Context {Chain S : Type} (build_tcp : Chain -> Address -> res S) (write_u128 : S -> res unit).
(** Whether five seconds pass before a probe of an outbound ends, and the time it takes. *)
Context (timed_out : tag -> bool) (elapsed : tag -> Z).

(** One of the probes that are joined. *)
Definition latency_probe (name : tag) (b : Chain) (addr : Address) : res (tag * Z) :=
  if timed_out name then Ok (name, (-1)%Z) else
    match (s ← build_tcp b addr; write_u128 s) with
    | Ok _ => Ok (name, millis_as_i64 (elapsed name))
    | Err _ => Ok (name, (-1)%Z)
    | Panic => Panic
    end.

Fixpoint latency_join (addr : Address) (l : list (tag * Chain)) : res (list (tag * Z)) :=
  match l with
  | [] => Ok []
  | (name, b) :: l => r ← latency_probe name b addr; rs ← latency_join addr l; Ok (r :: rs)
  end.

Definition get_latency (inner_map : gmap tag Chain) (outbound_name : option tag) (test_url : bytes)
  : res (LatencyError + gmap tag Z) :=
  match outbound_name with
  | Some req =>
    match inner_map !! req with
    | None => Ok (inl (LatencyStatus (InvalidArgument "name is invalid")))
    | Some b =>
      match from_str test_url with
      | None => Ok (inl (LatencyStatus (InvalidArgument "test_url is invalid")))
      | Some addr =>
        match build_tcp b addr with
        | Err _ => Ok (inr {[ req := (-1)%Z ]})
        | Ok _ => Ok (inr {[ req := millis_as_i64 (elapsed req) ]})
        | Panic => Panic
        end
      end
    end
  | None =>
    match from_str test_url with
    | None => Ok (inl (LatencyIo (IoError Other "invalid test url")))
    | Some addr =>
      vec_res ← latency_join addr (map_to_list inner_map);
      Ok (inr (fold_left (fun m kv => <[kv.1 := kv.2]> m) vec_res ∅))
    end
  end.

(** ** Lemmas *)

Lemma fold_insert_lookup {V} (l : list (tag * V)) (m : gmap tag V) k :
  NoDup (fst <$> l) ->
  fold_left (fun m kv => <[kv.1 := kv.2]> m) l m !! k =
  match list_to_map (M := gmap tag V) l !! k with Some v => Some v | None => m !! k end.
Proof.
  revert m. induction l as [|[k1 v1] l IH]; intros m Hn; [cbn; by rewrite lookup_empty|].
  rewrite fmap_cons in Hn. apply NoDup_cons in Hn as [Hk Hn]. cbn [fold_left list_to_map foldr fst snd].
  rewrite IH by done. change (foldr _ _ l) with (list_to_map (M := gmap tag V) l). destruct (decide (k = k1)) as [->|Hne].
  - rewrite !lookup_insert_eq. by rewrite not_elem_of_list_to_map_1.
  - by rewrite !lookup_insert_ne by done.
Qed.

Lemma latency_join_spec addr l rs : latency_join addr l = Ok rs ->
  Forall2 (fun nb r => latency_probe nb.1 nb.2 addr = Ok r) l rs.
Proof.
  revert rs. induction l as [|[n b] l IH]; intros rs; cbn [latency_join]; [by intros [= <-]|].
  destruct (latency_probe n b addr) as [r|e|] eqn:Er; [|done..]. cbn [mbind res_bind].
  destruct (latency_join addr l) as [rs'|e|]; [|done..]. cbn [mbind res_bind]. intros [= <-]. constructor; auto.
Qed.

Lemma latency_probe_name n b addr r : latency_probe n b addr = Ok r -> r.1 = n.
Proof. unfold latency_probe. destruct (timed_out n); [by intros [= <-]|]. by destruct (_ ≫= _); [intros [= <-]| intros [= <-]|]. Qed.

Lemma latency_results addr l rs : latency_join addr l = Ok rs ->
  fst <$> rs = fst <$> l /\
  forall n b, (n, b) ∈ l -> exists r, r ∈ rs /\ latency_probe n b addr = Ok r /\ r.1 = n.
Proof.
  intros Hj%latency_join_spec. induction Hj as [|[n b] r l rs Hp Hj [IHn IH]].
  - split; [done|]. by intros n b ?%not_elem_of_nil.
  - pose proof (latency_probe_name _ _ _ _ Hp) as Hr. cbn [fst snd] in *. split; [rewrite !fmap_cons; cbn [fst]; congruence|].
    intros n' b' [[= -> ->]|Hin]%elem_of_cons; [exists r; split; [by left|done]|].
    destruct (IH n' b' Hin) as (r' & Hr' & Hq). exists r'. split; [by right|done].
Qed.

(** ** Theorems *)

(** Without a name every outbound is probed, and the response has a latency for
each of them and for nothing else: the time of a probe that opened its stream
and wrote to it, and -1 for one that failed or was not done in time. *)
Theorem latency_of_all (inner_map : gmap tag Chain) (test_url : bytes) (addr : Address) (latency_res : gmap tag Z) :
  from_str test_url = Some addr -> get_latency inner_map None test_url = Ok (inr latency_res) ->
  forall name, latency_res !! name =
  match inner_map !! name with
  | None => None
  | Some b => Some (if timed_out name then -1
      else match (s ← build_tcp b addr; write_u128 s) with Ok _ => millis_as_i64 (elapsed name) | _ => -1 end)%Z
  end.
Proof.
  intros Ha. unfold get_latency. rewrite Ha. destruct (latency_join addr (map_to_list inner_map)) as [rs|e|] eqn:Ej; [|done..].
  cbn [mbind res_bind]. intros [= <-] name. destruct (latency_results _ _ _ Ej) as [Hn Hr].
  assert (NoDup (fst <$> rs)) as Hd by (rewrite Hn; apply NoDup_fst_map_to_list).
  rewrite fold_insert_lookup by done. rewrite lookup_empty.
  destruct (inner_map !! name) as [b|] eqn:Eb.
  - apply elem_of_map_to_list in Eb. destruct (Hr _ _ Eb) as ([n z] & Hin & Hp & Hn'). cbn [fst] in Hn'. subst n.
    apply elem_of_list_to_map_1 in Hin; [|done]. rewrite Hin. f_equal. revert Hp. unfold latency_probe.
    destruct (timed_out name); [by intros [= <-]|]. destruct (_ ≫= _); by intros [= <-].
  - rewrite (not_elem_of_list_to_map_1 rs); [done|]. rewrite Hn. intros ([n b] & -> & Hin)%list_elem_of_fmap.
    apply elem_of_map_to_list in Hin. cbn [fst] in Eb. congruence.
Qed.
End Latency.
