(* ===== verification/ShadowBuild.v ===== *)
(** * Connecting through Shadowsocks (src/src/proxy/shadowsocks/mod.rs)

    [build_tcp] and [build_udp] of the builder: the stream is wrapped and the
    target's address is the first data that goes through it.  The theorem
    composes the salt, the address, the writer and the reader: what a server
    with the key decodes is the address and then the client's data. *)

From S2P Require Import Prelude Io StdText Address Aead FrameReader FrameWriter ShadowStream Replay Shadowsocks Transport.
From Stdlib Require Import ZArith Lia List Strings.Byte.
From stdpp Require Import base option list strings.

(** ** The writer's frames under [write_all] *)

Section FrameSink.
Context {C : Type} `{FrameEncoder C}.
Implicit Type e : EncryptedWriter C.

(** The poll of a stream that writes frames, as [write_all] sees it. *)
Definition frame_poll (data : bytes) (s : Writer * EncryptedWriter C) : Poll (res nat) * (Writer * EncryptedWriter C) :=
  let '(p, w, e) := poll_write_encrypted write_data data s.1 s.2 in (p, (w, e)).

(** [fuel] polls are enough for a result, and more change nothing. *)
Definition writes_all {St : Type} (poll : bytes -> St -> Poll (res nat) * St) (data : bytes) (s s' : St) : Prop :=
  exists fuel, forall more, sink_write_all poll (fuel + more) data s = (Ready (Ok tt), s').

Lemma frame_poll_op fuel data w e n w' e' :
  write_op fuel data w e = (Ok n, w', e') -> n <> 0 -> n <= length data ->
  exists k, forall more, sink_write_all frame_poll (k + more) data (w, e) = sink_write_all frame_poll more (drop n data) (w', e').
Proof.
  intros Hop Hn Hle. destruct data as [|b data]; [simpl in Hle; lia|].
  revert w e Hop. induction fuel as [|fuel IH]; intros w e; cbn [write_op].
  all: destruct (poll_write_encrypted write_data (b :: data) w e) as [[p w1] e1] eqn:Ep; destruct p as [[n1|x|]|]; try done.
  - intros [= -> -> ->]. exists 1. intros more. cbn [Nat.add sink_write_all]. unfold frame_poll at 1. cbn [fst snd]. rewrite Ep.
    by rewrite decide_False, decide_True by done.
  - intros [= -> -> ->]. exists 1. intros more. cbn [Nat.add sink_write_all]. unfold frame_poll at 1. cbn [fst snd]. rewrite Ep.
    by rewrite decide_False, decide_True by done.
  - intros Hop. destruct (IH _ _ Hop) as [k Hk]. exists (S k). intros more. cbn [Nat.add sink_write_all].
    unfold frame_poll at 1. cbn [fst snd]. rewrite Ep. apply Hk.
Qed.

(** [write_all] over a writer that keeps accepting puts out the frames. *)
Lemma frame_writes_all fuel data w e f c :
  writes_ok w -> at_boundary e -> length data <= fuel -> encode_all (ew_cipher e) (chunks fuel data) = Ok (f, c) -> data <> [] ->
  exists w' e', writes_all frame_poll data (w, e) (w', e') /\ writes_ok w' /\ at_boundary e' /\ ew_buf e' = [] /\
  ew_cipher e' = c /\ wr_log w' = wr_log w ++ ew_buf e ++ f.
Proof.
  revert data w e f c. induction fuel as [|n IH]; intros data w e f c Hw He Hl Hf Hne; destruct data as [|b data]; try done; [simpl in Hl; lia|].
  cbn [chunks encode_all] in Hf. pose proof fe_max_pos as Hmax.
  assert (take (Nat.min fe_max (length (b :: data))) (b :: data) = take fe_max (b :: data)) as Hmin.
  { destruct (Nat.le_ge_cases fe_max (length (b :: data))); [by rewrite Nat.min_l|]. by rewrite Nat.min_r, !take_ge. }
  destruct (fe_encode (ew_cipher e) (take fe_max (b :: data))) as [[f1 c1]|x|] eqn:Ef; [|done..].
  cbn [mbind res_bind] in Hf. destruct (encode_all c1 _) as [[f2 c2]|x|] eqn:Ef2; [|done..].
  cbn [mbind res_bind] in Hf. injection Hf as <- <-. rewrite <- Hmin in Ef.
  destruct (write_op_ok (length (wr_script w)) (b :: data) w e f1 c1 Hw He Hne (le_n _) Ef) as (w1 & e1 & Hop & Hw1 & He1 & Hb1 & Hc1 & Hl1).
  rewrite Hmin in Hop. pose proof (length_take (b :: data) fe_max) as Hlt.
  destruct (frame_poll_op _ _ _ _ _ _ _ Hop) as [k Hk]; [simpl in *; lia..|].
  assert (drop (length (take fe_max (b :: data))) (b :: data) = drop fe_max (b :: data)) as Hdrop.
  { rewrite Hlt. destruct (Nat.le_ge_cases fe_max (length (b :: data))); [by rewrite Nat.min_l|]. by rewrite Nat.min_r, !drop_ge. }
  rewrite Hdrop in Hk. destruct (decide (drop fe_max (b :: data) = [])) as [Hz|Hz].
  - rewrite Hz in *. assert (encode_all c1 [] = Ok (f2, c2)) as [= <- <-] by (by destruct n).
    exists w1, e1. split_and!; [|done..|]; [|by rewrite Hl1, app_nil_r].
    exists k. intros more. rewrite Hk. by destruct more.
  - destruct (IH (drop fe_max (b :: data)) w1 e1 f2 c2 Hw1 He1) as (w2 & e2 & [k2 Hk2] & ? & ? & ? & ? & Hl2);
      [rewrite length_drop; simpl in *; lia|by rewrite Hc1|done|].
    exists w2, e2. split_and!; [|done..|]; [|rewrite Hl2, Hl1, Hb1; simpl; by rewrite <- !app_assoc].
    exists (k + k2). intros more. rewrite <- Nat.add_assoc, Hk. apply Hk2.
Qed.

Lemma encode_all_app c ds1 ds2 f1 c1 f2 c2 :
  encode_all c ds1 = Ok (f1, c1) -> encode_all c1 ds2 = Ok (f2, c2) -> encode_all c (ds1 ++ ds2) = Ok (f1 ++ f2, c2).
Proof.
  revert c f1. induction ds1 as [|d ds IH]; intros c f1; cbn [encode_all app]; [by intros [= <- <-]|].
  destruct (fe_encode c d) as [[g c']|x|]; [|done..]. cbn [mbind res_bind].
  destruct (encode_all c' ds) as [[gs c'']|x|] eqn:E; [|done..]. cbn [mbind res_bind]. intros [= <- <-] H2.
  rewrite (IH c' gs E H2). cbn [mbind res_bind]. by rewrite app_assoc.
Qed.
End FrameSink.

(** ** The builder *)

Section ShadowBuild.
Context `{AeadCrypto} {B : Type} `{Bloom B}.
Abbreviation Ctx := (PingPongBloom B).

(** [poll_write] of a [CryptoStream], as [write_all] sees it. *)
Definition crypto_poll (data : bytes) (s : Writer * CryptoStream) : Poll (res nat) * (Writer * CryptoStream) :=
  let '(p, w, c) := crypto_poll_write poll_write write_data data s.1 s.2 in (p, (w, c)).

(** Over any inner stream, known by its polls of [CryptoStream]. *)
Section Over.
Context {W : Type} (crypto_poll : bytes -> W * CryptoStream -> Poll (res nat) * (W * CryptoStream)).

(** The write half of [build_tcp], polled [fuel] times.  The outer [None]: the
random draws are used up. *)
Definition ss_build_tcp (fuel : nat) (ctx : Ctx) (b : ShadowsocksBuilder) (rng : list bytes) (w : W)
  : option (Poll (res (CryptoStream * Ctx)) * W * list bytes) :=
  match CryptoStream_new ctx (sb_key b) (sb_method b) rng with
  | None => None
  | Some (Err e, rng) => Some (Ready (Err e), w, rng)
  | Some (Panic, rng) => Some (Ready Panic, w, rng)
  | Some (Ok (stream, ctx), rng) =>
    let '(res, (w, stream)) := sink_write_all crypto_poll fuel (write_to_buf (sb_addr b) ([] : bytes)) (w, stream) in
    Some (match res with
    | Pending => Pending
    | Ready (Ok _) => Ready (Ok (stream, ctx))
    | Ready (Err e) => Ready (Err e)
    | Ready Panic => Ready Panic
    end, w, rng)
  end.

(** The layer of a UDP stream: over TCP the same stream, otherwise packets under
the builder's key. *)
Inductive ss_udp_layer :=
| SsOverTcp (stream : CryptoStream) (ctx : Ctx)
| SsPackets (method : CipherKind) (key : bytes) (writer : SsUdpWriter).

Definition ss_build_udp (fuel : nat) (ctx : Ctx) (b : ShadowsocksBuilder) (rng : list bytes) (w : W) (build_tcp_inside : bool)
  : option (Poll (res ss_udp_layer) * W * list bytes) :=
  if build_tcp_inside then
    match ss_build_tcp fuel ctx b rng w with
    | None => None
    | Some (Pending, w, rng) => Some (Pending, w, rng)
    | Some (Ready r, w, rng) => Some (Ready ('(stream, ctx) ← r; Ok (SsOverTcp stream ctx)), w, rng)
    end
  else Some (Ready (Ok (SsPackets (sb_method b) (sb_key b) (mkSsUdpWriter false []))), w, rng).
End Over.

(** ** Lemmas *)

Lemma crypto_sink fuel data w e dec st :
  sink_write_all crypto_poll fuel data (w, mkCryptoStream dec (WriterAead e) st) =
  let '(p, (w', e')) := sink_write_all frame_poll fuel data (w, e) in (p, (w', mkCryptoStream dec (WriterAead e') st)).
Proof.
  revert data w e. induction fuel as [|fuel IH]; intros [|b data] w e; try done. cbn [sink_write_all].
  unfold crypto_poll at 1, frame_poll at 1, crypto_poll_write. cbn [fst snd cs_enc cs_dec cs_status].
  destruct (poll_write_encrypted write_data (b :: data) w e) as [[[[n|x|]|] w1] e1]; [|done..|apply IH].
  case_decide; [done|]. case_decide; [|done]. apply IH.
Qed.

Lemma crypto_writes_all data w e dec st w' e' : writes_all frame_poll data (w, e) (w', e') ->
  writes_all crypto_poll data (w, mkCryptoStream dec (WriterAead e) st) (w', mkCryptoStream dec (WriterAead e') st).
Proof. intros [fuel Hf]. exists fuel. intros more. by rewrite crypto_sink, Hf. Qed.

Lemma encode_nonempty a : Address.encode a <> [].
Proof. by destruct a as [[]|]. Qed.

(** The frames of two writes in a row decode to what was written. *)
Lemma two_writes_decode c d1 d2 :
  exists f1 c1 f2 c2, encode_all c (chunks (length d1) d1) = Ok (f1, c1) /\ encode_all c1 (chunks (length d2) d2) = Ok (f2, c2) /\
  decode c (f1 ++ f2) = (d1 ++ d2, EndShort).
Proof.
  destruct (chunks_spec (length d1) d1 ltac:(lia)) as [Hc1 Ha1]. destruct (chunks_spec (length d2) d2 ltac:(lia)) as [Hc2 Ha2].
  destruct (shadow_encode_decode c _ Ha1) as (f1 & c1 & E1 & _). destruct (shadow_encode_decode c1 _ Ha2) as (f2 & c2 & E2 & _).
  destruct (shadow_encode_decode c (chunks (length d1) d1 ++ chunks (length d2) d2)) as (f & c' & E & Hd).
  { by apply Forall_app. }
  rewrite (encode_all_app _ _ _ _ _ _ _ E1 E2) in E. injection E as <- <-. rewrite concat_app, Hc1, Hc2 in Hd.
  exists f1, c1, f2, c2. done.
Qed.

(** ** Theorem *)

(** C6: connecting through Shadowsocks.  On a stream that keeps accepting
bytes, however slowly, [build_tcp] succeeds after finitely many polls and so
does every write that follows.  What the server receives behind a fresh salt
is, under its key, the address and then the client's data: in any
fragmentation it delivers a prefix of them, and when its stream has ended it
has read back the client's target and every byte written. *)
Theorem shadowsocks_connect ctx b rng c ctx' rng' w data :
  pp_ok ctx -> sb_method b <> CipherKind_None -> length (sb_key b) = key_len (sb_method b) -> Address_ok (sb_addr b) = true ->
  CryptoStream_new ctx (sb_key b) (sb_method b) rng = Some (Ok (c, ctx'), rng') -> writes_ok w -> data <> [] ->
  exists salt cipher c1 w1 c2 w2,
  length salt = salt_len (sb_method b) /\ check_nonce_and_set ctx salt = (false, ctx') /\
  AeadCipher_new (sb_method b) (sb_key b) salt = Ok cipher /\
  (exists fuel, forall more, ss_build_tcp crypto_poll (fuel + more) ctx b rng w = Some (Ready (Ok (c1, ctx')), w1, rng')) /\
  writes_all crypto_poll data (w1, c1) (w2, c2) /\
  forall caps s ps s' st', wr_log w2 = wr_log w ++ salt ++ rd_bytes s -> Forall (fun cap => 0 < cap) caps ->
  read_polls caps s (mkDecryptedReader [] cipher DecLength 0 false) = (ps, s', st') ->
  (flat_map poll_data ps `prefix_of` Address.encode (sb_addr b) ++ data) /\
  ((exists p, p ∈ ps /\ poll_final p = true) ->
    exists n, parse_packet (flat_map poll_data ps) = Ok (n, wire_norm (sb_addr b)) /\ drop n (flat_map poll_data ps) = data).
Proof.
  intros Hok Hm Hk Ha Hnew Hw Hd.
  revert Hnew. unfold ss_build_tcp. intros Hnew. rewrite Hnew. revert Hnew. unfold CryptoStream_new. rewrite decide_False by done.
  destruct (fresh_salt _ _ _ _) as [[[salt ctx1] rng1]|] eqn:Ef; [|done].
  assert (0 < salt_len (sb_method b)) as Hn by (destruct (sb_method b); [done|simpl; lia..]).
  destruct (fresh_salt_spec _ _ _ _ _ _ _ Hok Hn Ef) as (Hl & _ & Hc & _).
  destruct (AeadCipher_new_ok _ _ salt Hm Hk) as [alg Ec].
  set (cipher := mkAeadCipher alg _ _ _) in *. destruct (EncryptedWriter_new_ok _ _ _ _ Ec) as [-> _].
  cbn [mbind res_bind]. intros [= <- <- <-].
  destruct (two_writes_decode cipher (Address.encode (sb_addr b)) data) as (f1 & c1 & f2 & c2 & E1 & E2 & Hdec).
  destruct (frame_writes_all _ (Address.encode (sb_addr b)) w (mkEncryptedWriter cipher EncStart salt 0 0) f1 c1 Hw
    (or_introl eq_refl) (le_n _) E1 (encode_nonempty _)) as (w1 & e1 & Hall1 & Hw1 & He1 & Hb1 & Hc1 & Hl1).
  destruct (frame_writes_all _ data w1 e1 f2 c2 Hw1 He1 (le_n _)) as (w2 & e2 & Hall2 & _ & _ & _ & _ & Hl2);
    [by rewrite Hc1|done|].
  eexists salt, cipher, _, w1, _, w2. split_and!; [done..| |by apply crypto_writes_all|].
  - destruct (crypto_writes_all _ _ _ None (WaitIv [] (salt_len (sb_method b)) (sb_method b) (sb_key b)) _ _ Hall1) as [fuel Hf].
    exists fuel. intros more. by rewrite write_to_buf_list, Hf.
  - intros caps s ps s' st' Hwire Hcaps Er. rewrite Hl2, Hl1, Hb1, <- !app_assoc in Hwire. cbn [ew_buf app] in Hwire.
    apply app_inv_head, app_inv_head in Hwire.
    destruct (read_polls_ok _ _ _ _ _ _ (I : reader_ok (mkDecryptedReader [] cipher DecLength 0 false)) Hcaps Er) as (Hpre & Hfin & _).
    unfold future in Hpre, Hfin. cbn [dr_state dr_buffer dr_cipher app] in Hpre, Hfin. simpl in Hpre, Hfin.
    rewrite <- Hwire, Hdec in Hpre, Hfin. split; [exact Hpre|]. intros Hp. cbn [fst] in Hfin. rewrite (Hfin Hp).
    exists (length (Address.encode (sb_addr b))). rewrite parse_packet_encode by done. by rewrite drop_app_length.
Qed.
End ShadowBuild.

(** ** Witness *)

Section Witness.
#[local] Existing Instance toy_crypto.
#[local] Existing Instance list_Bloom.

Definition wit_ss : ShadowsocksBuilder := mkSsBuilder (DomainNameAddress (str "example.org") 443) Aes128Gcm wit_ss_key.
Definition wit_slow : Writer := mkWriter [WrPending; WrAccept 5; WrPending; WrAccept 1] [] [] 0 [] 0.

Lemma shadowsocks_connect_witness :
  exists c ctx', CryptoStream_new wit_ctx wit_ss_key Aes128Gcm [[]; [x07]] = Some (Ok (c, ctx'), []) /\
  exists cipher c1 w1 c2 w2,
  (exists fuel, forall more, ss_build_tcp crypto_poll (fuel + more) wit_ctx wit_ss [[]; [x07]] wit_slow = Some (Ready (Ok (c1, ctx')), w1, [])) /\
  writes_all crypto_poll (str "hello") (w1, c1) (w2, c2) /\
  exists salt, length salt = 16 /\
  forall caps s ps s' st', wr_log w2 = salt ++ rd_bytes s -> Forall (fun cap => 0 < cap) caps ->
  read_polls caps s (mkDecryptedReader [] cipher DecLength 0 false) = (ps, s', st') ->
  flat_map poll_data ps `prefix_of` Address.encode (sb_addr wit_ss) ++ str "hello".
Proof.
  destruct (CryptoStream_new wit_ctx wit_ss_key Aes128Gcm [[]; [x07]]) as [[[[c ctx']|e|] rng']|] eqn:E; [|vm_compute in E; discriminate E..].
  assert (rng' = []) as -> by (vm_compute in E; congruence).
  exists c, ctx'. split; [reflexivity|].
  destruct (shadowsocks_connect wit_ctx wit_ss [[]; [x07]] c ctx' [] wit_slow (str "hello") wit_ctx_ok ltac:(done) eq_refl
    ltac:(vm_compute; reflexivity) E ltac:(repeat constructor) ltac:(done))
    as (salt & cipher & c1 & w1 & c2 & w2 & Hl & Hc & _ & Hb & Hw & Hr).
  exists cipher, c1, w1, c2, w2. split; [exact Hb|]. split; [exact Hw|].
  exists salt. split; [exact Hl|]. intros caps s ps s' st' Hwire Hcaps Er. exact (proj1 (Hr caps s ps s' st' Hwire Hcaps Er)).
Defined.
End Witness.
