(* ===== verification/Stack.v ===== *)
(** * Layers over layers

    A frame reader or writer (FrameReader.v, FrameWriter.v) over any inner
    stream: the body of the generators is the same, the inner stream is polled
    through the interfaces of Transport.v.  Reading over a source is again a
    source, whose content is the decoding of the inner content, so a stack of
    layers of any height is one; writing over a sink puts the frames into it.

    [room] is the spare room the allocator gives a growing [BytesMut]; it is
    never 0. *)

From S2P Require Import Prelude Io StdText Aead FrameReader FrameWriter ShadowStream Transport Websocket.
From Stdlib Require Import ZArith Lia List Strings.Byte.
From stdpp Require Import base option list strings.

(** ** Sources with room

    A source need only behave for a destination with room: the frame readers
    lose data otherwise ([empty_destination_drops_plaintext]). *)
Class RoomSource {St : Type} (poll : nat -> St -> Poll (res bytes) * St) (content : St -> bytes -> Prop) := {
  room_poll cap s c p s' :
    0 < cap -> content s c -> poll cap s = (p, s') ->
    length (answer_bytes p) <= cap /\ p <> Ready Panic /\
    exists c', c = answer_bytes p ++ c' /\ ((forall e, p <> Ready (Err e)) -> content s' c')
}.

#[export] Instance source_room `{PollSource St poll content} : RoomSource poll content.
Proof. constructor. intros cap s c p s' _. apply source_poll. Qed.

(** ** Reading through a layer *)

Section ReadOver.
Context {St : Type} (poll : nat -> St -> Poll (res bytes) * St) (room : bytes -> nat).

(** [read_at_least] of [impl_read_utils!] over a polled stream.  Each turn adds
a byte, so the missing ones are enough fuel. *)
Fixpoint src_read_loop (fuel : nat) (s : St) (buffer : bytes) (read_zero : bool) (len : nat)
  : Poll (res unit) * St * bytes * bool :=
  if decide (len <= length buffer) then (Ready (Ok tt), s, buffer, read_zero)
  else match fuel with
  | O => (Ready Panic, s, buffer, read_zero)
  | S f =>
    match poll (room buffer) s with
    | (Pending, s) => (Pending, s, buffer, read_zero)
    | (Ready (Err e), s) => (Ready (Err e), s, buffer, read_zero)
    | (Ready Panic, s) => (Ready Panic, s, buffer, read_zero)
    | (Ready (Ok []), s) => (Ready (Err unexpected_eof), s, buffer, true)
    | (Ready (Ok d), s) => src_read_loop f s (buffer ++ d) read_zero len
    end
  end.

Definition src_read_at_least (s : St) (buffer : bytes) (read_zero : bool) (len : nat) : Poll (res unit) * St * bytes * bool :=
  src_read_loop (len - length buffer) s buffer read_zero len.

Context {C : Type} `{FrameFormat C}.

(** The poll of the upper layer, with at most [turns] turns of its loop. *)
Definition layer_poll (turns : nat) (cap : nat) (s : St * DecryptedReader C) : Poll (res bytes) * (St * DecryptedReader C) :=
  let '(p, s, r) := dec_loop src_read_at_least turns cap s.1 s.2 in (p, (s, r)).
End ReadOver.

(** ** Specification *)

Section LayerContent.
Context {St : Type} (content : St -> bytes -> Prop) {C : Type} `{FrameFormat C}.

(** What a reader will deliver of the bytes [l]. *)
Definition future_of (r : DecryptedReader C) (l : bytes) : bytes * ending := future r [RdData l].

(** The content of a reader over an inner stream with the bytes [c]; a reader
that has ended answers errors.  [turns] is more than the bytes left. *)
Definition layer_content (turns : nat) (s : St * DecryptedReader C) (x : bytes) : Prop :=
  (dr_state s.2 = DecDone /\ 0 < turns) \/
  (reader_ok s.2 /\ dr_read_zero s.2 = false /\ exists c, content s.1 c /\ x = (future_of s.2 c).1 /\ (future_of s.2 c).2 <> EndPanic /\
    length (dr_buffer s.2) + length c < turns).

(** The content of a new reader with the bytes [b] over one that holds [c]. *)
Lemma new_layer_content (cipher : C) (r0 : St) b c n turns :
  content r0 c -> (decode cipher (b ++ c)).2 <> EndPanic -> length b + length c < turns ->
  layer_content turns (r0, mkDecryptedReader b cipher DecLength n false) (decode cipher (b ++ c)).1.
Proof.
  intros Hc Hp Ht. right. split; [done|]. split; [done|]. exists c. cbn [fst snd].
  assert (future_of (mkDecryptedReader b cipher DecLength n false) c = decode cipher (b ++ c)) as ->
    by (unfold future_of, future; cbn [dr_state dr_buffer dr_cipher]; by rewrite rd_bytes_one). done.
Qed.
End LayerContent.

(** ** Lemmas: longer input *)

Section Longer.
Context {C : Type} `{FrameFormat C}.

Lemma header_step_app c l k n c' l' : header_step c l = inl (n, c', l') -> header_step c (l ++ k) = inl (n, c', l' ++ k).
Proof.
  unfold header_step. case_decide as Hl; [done|]. rewrite decide_False by (rewrite length_app; lia).
  rewrite take_app_le, drop_app_le by lia. destruct (ff_header c _) as [[m|e|] c1]; by intros [= <- <- <-].
Qed.

Lemma payload_step_app c n l k m c' l' : payload_step c n l = inl (m, c', l') -> payload_step c n (l ++ k) = inl (m, c', l' ++ k).
Proof.
  unfold payload_step. case_decide as Hl; [done|]. rewrite decide_False by (rewrite length_app; lia).
  rewrite take_app_le, drop_app_le by lia. destruct (ff_payload c _) as [[[p|]|e|] c1]; by intros [= <- <- <-].
Qed.

Lemma header_step_end c l k e : header_step c l = inr e -> e <> EndShort -> header_step c (l ++ k) = inr e.
Proof.
  unfold header_step. case_decide as Hl; [by intros [= <-]|]. rewrite decide_False by (rewrite length_app; lia).
  rewrite take_app_le by lia. by destruct (ff_header c _) as [[m|x|] c1].
Qed.

Lemma payload_step_end c n l k e : payload_step c n l = inr e -> e <> EndShort -> payload_step c n (l ++ k) = inr e.
Proof.
  unfold payload_step. case_decide as Hl; [by intros [= <-]|]. rewrite decide_False by (rewrite length_app; lia).
  rewrite take_app_le by lia. by destruct (ff_payload c _) as [[[p|]|x|] c1].
Qed.

(** [o'] continues [o]. *)
Definition continues (o o' : bytes * ending) : Prop := (o.1 `prefix_of` o'.1) /\ (o.2 <> EndShort -> o' = o).

Lemma continues_refl o : continues o o.
Proof. by split. Qed.

Lemma continues_short o : continues ([], EndShort) o.
Proof. split; [apply prefix_nil|done]. Qed.

Lemma continues_app d o o' : continues o o' -> continues (out_app d o) (out_app d o').
Proof. intros [Hp He]. split; [by apply prefix_app|]. cbn. intros Hn. by rewrite (He Hn). Qed.

#[local] Hint Resolve continues_refl continues_short : core.

Lemma decode_app c l k : continues (decode c l) (decode c (l ++ k)).
Proof.
  remember (length l) as n eqn:Hn. revert c l Hn. induction (lt_wf n) as [n _ IH]. intros c l ->.
  rewrite (decode_unfold c l), (decode_unfold c (l ++ k)).
  destruct (header_step c l) as [[[m c1] l1]|e] eqn:Eh.
  - rewrite (header_step_app _ _ k _ _ _ Eh). apply header_step_shrink in Eh. pose proof ff_header_len_pos.
    destruct (payload_step c1 m l1) as [[[d c2] l2]|e] eqn:Ep.
    + rewrite (payload_step_app _ _ _ k _ _ _ Ep). apply payload_step_shrink in Ep.
      apply continues_app, (IH (length l2)); [lia|done].
    + destruct e; [done|by rewrite (payload_step_end _ _ _ k _ Ep)..].
  - destruct e; [done|by rewrite (header_step_end _ _ k _ Eh)..].
Qed.

(** A decoding is no longer than what it decodes. *)
Lemma future_continues r s l k : rd_bytes s = l -> reader_ok r -> continues (future r s) (future_of r (l ++ k)).
Proof.
  intros <- Hok. unfold future_of, future, reader_ok in *. rewrite rd_bytes_one, app_assoc. destruct (dr_state r).
  - apply decode_app.
  - destruct (payload_step _ _ (dr_buffer r ++ rd_bytes s)) as [[[d c] l]|e] eqn:Ep.
    + rewrite (payload_step_app _ _ _ k _ _ _ Ep). apply continues_app, decode_app.
    + destruct e; [done|by rewrite (payload_step_end _ _ _ k _ Ep)..].
  - rewrite (take_app_le (dr_buffer r ++ rd_bytes s)), (drop_app_le (dr_buffer r ++ rd_bytes s)) by (rewrite length_app; lia).
    apply continues_app, decode_app.
  - done.
Qed.
End Longer.

(** ** Lemmas: the stock never grows *)

Section Stock.
Context {C : Type} `{FrameFormat C}.

(** A turn keeps within [n] or ends the reader. *)
Definition flow_within (n : nat) (f : dec_flow rd_script C) : Prop :=
  match f with DecReturn _ s r | DecGo s r => stock r s <= n \/ dr_state r = DecDone end.

Lemma read_at_least_stock s b z len p s' b' z' : read_at_least s b z len = (p, s', b', z') ->
  length b' + length (rd_bytes s') <= length b + length (rd_bytes s) \/ (exists e, p = Ready (Err e)).
Proof.
  intros Hr%read_at_least_spec. destruct p as [[[]|e|]|]; [|by eauto|done|];
    destruct Hr as (_ & Hb & _); left; apply (f_equal length) in Hb; rewrite !length_app in Hb; lia.
Qed.

Lemma dec_yield_stock cap s r : flow_within (stock r s) (dec_yield cap s r).
Proof. unfold dec_yield, flow_within, stock. case_decide; cbn [dr_buffer]; rewrite length_drop; lia. Qed.

Lemma flow_within_le n m f : flow_within n f -> n <= m -> flow_within m f.
Proof. unfold flow_within. destruct f; intros []; auto; lia. Qed.

Lemma dec_payload_stock cap s r : flow_within (stock r s) (dec_payload read_at_least cap s r).
Proof.
  unfold dec_payload. destruct (read_at_least s _ _ _) as [[[p s1] b] z] eqn:Er. apply read_at_least_stock in Er.
  destruct p as [[[]|e|]|]; [|by right..|left; unfold stock; cbn; destruct Er as [|[]]; [lia|done]].
  destruct Er as [Er|[e He]]; [|done]. cbn [dr_cipher].
  destruct (ff_payload _ _) as [[[m|]|e|] c] eqn:Ep; [|by right..].
  apply ff_payload_length in Ep. rewrite length_take in Ep. eapply flow_within_le; [apply dec_yield_stock|].
  unfold stock. cbn [dr_buffer]. rewrite length_app, length_drop. lia.
Qed.

Lemma dec_head_stock cap s r : flow_within (stock r s) (dec_head read_at_least cap s r).
Proof.
  unfold dec_head. destruct (read_at_least s _ _ _) as [[[p s1] b] z] eqn:Er. apply read_at_least_stock in Er.
  destruct p as [[[]|e|]|]; [|by right..|left; unfold stock; cbn; destruct Er as [|[]]; [lia|done]].
  destruct Er as [Er|[e He]]; [|done]. cbn [dr_cipher]. destruct (ff_header _ _) as [[n|e|] c]; [|by right..].
  eapply flow_within_le; [apply dec_payload_stock|]. unfold stock. cbn [dr_buffer]. rewrite length_drop. lia.
Qed.

Lemma dec_loop_stock fuel cap s r p s' r' : dec_loop read_at_least fuel cap s r = (p, s', r') ->
  stock r' s' <= stock r s \/ dr_state r' = DecDone.
Proof.
  revert s r. induction fuel as [|f IH]; intros s r; cbn [dec_loop]; [intros [= <- <- <-]; by left|].
  assert (flow_within (stock r s) (dec_resume read_at_least cap s r)) as Hf.
  { unfold dec_resume. destruct (dr_state r) eqn:Es;
      [apply dec_head_stock|apply dec_payload_stock|apply dec_yield_stock|by right]. }
  destruct (dec_resume read_at_least cap s r) as [q s1 r1|s1 r1] eqn:Er; [by intros [= <- <- <-]|]. intros Hl.
  destruct (IH _ _ Hl) as [Hs|Hd]; [|by right]. destruct Hf as [Hs1|Hd1]; [left; lia|].
  right. destruct f; cbn [dec_loop] in Hl; [by injection Hl as <- <- <-|]. unfold dec_resume in Hl. rewrite Hd1 in Hl.
  by injection Hl as <- <- <-.
Qed.
End Stock.

(** ** Lemmas: a layer over a source behaves as over a script

    What the source answers during a poll is a script; on it, followed by
    anything, the reader of FrameReader.v gives the same answer. *)

Section Traces.
Context {St : Type} {poll : nat -> St -> Poll (res bytes) * St} {content : St -> bytes -> Prop} `{!RoomSource poll content}.
Context (room : bytes -> nat) (room_pos : forall b, 0 < room b).
Context {C : Type} `{FrameFormat C}.
Implicit Types (s : St) (r : DecryptedReader C).

(** The script [evs] took the first bytes of [c]; the source goes on at [s']. *)
Definition alive (evs : rd_script) s' (c : bytes) : Prop := flowing evs /\ exists c', c = rd_bytes evs ++ c' /\ content s' c'.

(** The script took some of [c] and ended. *)
Definition closed (evs : rd_script) (c : bytes) : Prop :=
  (rd_bytes evs `prefix_of` c) /\ forall rest, rd_bytes (evs ++ rest) = rd_bytes evs.

(** A reader that saw an empty read of a source that ends once saw all of it. *)
Definition zeroed (evs : rd_script) (c : bytes) (z z' : bool) : Prop :=
  z = false -> z' = true -> ends_once poll content -> rd_bytes evs = c.

Lemma alive_cons evs s' c ev d : flowing [ev] -> rd_bytes [ev] = d -> alive evs s' c -> alive (ev :: evs) s' (d ++ c).
Proof.
  intros Hf Hd [He (c' & -> & Hc)]. split; [by apply (Forall_app_2 _ [ev] evs)|]. exists c'. split; [|done].
  change (ev :: evs) with ([ev] ++ evs). by rewrite (rd_bytes_app [ev] evs Hf), Hd, app_assoc.
Qed.

Lemma closed_cons evs c ev d : flowing [ev] -> rd_bytes [ev] = d -> closed evs c -> closed (ev :: evs) (d ++ c).
Proof.
  intros Hf Hd [Hp He]. assert (forall t, rd_bytes (ev :: t) = d ++ rd_bytes t) as Hc.
  { intros t. change (ev :: t) with ([ev] ++ t). by rewrite (rd_bytes_app [ev] t Hf), Hd. }
  split; [rewrite Hc; by apply prefix_app|]. intros rest. rewrite <- app_comm_cons, !Hc. by rewrite He.
Qed.

Lemma alive_app evs1 evs2 s' c c' : flowing evs1 -> alive evs2 s' c' -> c = rd_bytes evs1 ++ c' -> alive (evs1 ++ evs2) s' c.
Proof.
  intros H1 [H2 (c2 & -> & Hc)] ->. split; [by apply Forall_app_2|]. exists c2. by rewrite rd_bytes_app, app_assoc.
Qed.

Lemma closed_app evs1 evs2 c c' : flowing evs1 -> closed evs2 c' -> c = rd_bytes evs1 ++ c' -> closed (evs1 ++ evs2) c.
Proof.
  intros H1 [Hp He] ->. split; [rewrite rd_bytes_app by done; by apply prefix_app|].
  intros rest. by rewrite <- app_assoc, (rd_bytes_app evs1 (evs2 ++ rest) H1), (rd_bytes_app evs1 evs2 H1), He.
Qed.

Lemma read_loop_trace fuel s b z len p s' b' z' c : len - length b <= fuel -> content s c ->
  src_read_loop poll room fuel s b z len = (p, s', b', z') ->
  p <> Ready Panic /\ exists evs, (forall rest, read_at_least (evs ++ rest) b z len = (p, rest, b', z')) /\
  match p with Ready (Err _) => closed evs c /\ zeroed evs c z z' | _ => alive evs s' c /\ z' = z end.
Proof.
  revert s b c. induction fuel as [|f IH]; intros s b c Hf Hc; cbn [src_read_loop].
  all: destruct (decide (len <= length b)) as [Hl|Hl]; [intros [= <- <- <- <-]; split; [done|]; exists []; split;
    [intros rest; by destruct rest; cbn [app read_at_least]; rewrite decide_True|split; [split; [constructor|by exists c]|done]]|try lia].
  destruct (poll (room b) s) as [q s1] eqn:Ep. destruct (room_poll _ _ _ _ _ (room_pos b) Hc Ep) as (_ & Hnp & c1 & -> & Hc1).
  destruct q as [[[|x d]|e|]|]; [| | |done|].
  - intros [= <- <- <- <-]. split; [done|]. exists [RdData []]. split; [intros rest; cbn [app read_at_least]; by rewrite decide_False|].
    split; [split; [apply prefix_nil|done]|]. intros _ _ He. symmetry. exact (He _ _ _ _ (room_pos b) Hc Ep).
  - intros Hr. destruct (IH s1 (b ++ x :: d) c1) as (Hp & evs & Hev & Hm); [rewrite length_app; simpl; lia|by apply Hc1|done|].
    split; [done|]. exists (RdData (x :: d) :: evs). split.
    + intros rest. cbn [app read_at_least]. by rewrite decide_False.
    + assert (flowing [RdData (x :: d)]) as Hfl by (by repeat constructor). pose proof (rd_bytes_one (x :: d)) as Hb1.
      destruct p as [[[]|e|]|]; [destruct Hm as [Hm ->]; split; [by eapply alive_cons|done]| |done|destruct Hm as [Hm ->]; split; [by eapply alive_cons|done]].
      destruct Hm as [Hm Hz]. split; [by eapply closed_cons|]. intros H0 H1 He.
      change (RdData (x :: d) :: evs) with ([RdData (x :: d)] ++ evs). rewrite (rd_bytes_app [RdData (x :: d)] evs Hfl), Hb1. cbn [answer_bytes]. by rewrite Hz.
  - intros [= <- <- <- <-]. split; [done|]. exists [RdErr e]. split; [intros rest; cbn [app read_at_least]; by rewrite decide_False|].
    split; [split; [apply prefix_nil|done]|]. intros ? ?. congruence.
  - intros [= <- <- <- <-]. split; [done|]. exists [RdPending]. split; [intros rest; cbn [app read_at_least]; by rewrite decide_False|].
    split; [|done]. split; [by repeat constructor|]. exists c1. split; [done|]. by apply Hc1.
Qed.

(** The same part of the body over [rest] of a script. *)
Definition flow_at (rest : rd_script) (f : dec_flow St C) : dec_flow rd_script C :=
  match f with DecReturn p _ r => DecReturn p rest r | DecGo _ r => DecGo rest r end.

(** The source took part in a turn, or ended it. *)
Definition turn_trace (evs : rd_script) (c : bytes) (z : bool) (f : dec_flow St C) : Prop :=
  match f with
  | DecReturn p s' r' => (alive evs s' c /\ dr_read_zero r' = z) \/
    (closed evs c /\ dr_state r' = DecDone /\ (p = Ready (Ok []) -> zeroed evs c z true))
  | DecGo s' r' => alive evs s' c /\ dr_read_zero r' = z
  end.

Lemma dec_yield_trace cap s r c : content s c ->
  (forall rest, dec_yield cap rest r = flow_at rest (dec_yield cap s r)) /\ turn_trace [] c (dr_read_zero r) (dec_yield cap s r).
Proof.
  intros Hc. unfold dec_yield. case_decide; (split; [done|]); [left|]; (split; [split; [constructor|by exists c]|done]).
Qed.

Abbreviation ral := (src_read_at_least poll room).

Lemma zeroed_app evs1 evs2 c c' z z' : flowing evs1 -> c = rd_bytes evs1 ++ c' -> zeroed evs2 c' z z' -> zeroed (evs1 ++ evs2) c z z'.
Proof. intros H1 -> Hz ? ? ?. rewrite rd_bytes_app by done. by rewrite Hz. Qed.

Lemma turn_trace_app evs1 evs2 c c' z f : flowing evs1 -> c = rd_bytes evs1 ++ c' -> turn_trace evs2 c' z f -> turn_trace (evs1 ++ evs2) c z f.
Proof.
  intros H1 Hc. destruct f as [p s' r'|s' r']; cbn [turn_trace].
  - intros [[? ?]|(? & ? & ?)]; [left; split|right; split_and!]; by eauto using alive_app, closed_app, zeroed_app.
  - intros [? ?]. split; by eauto using alive_app.
Qed.

(** A read that did not end the body. *)
Lemma ended_turn evs c z z' e s' (r : DecryptedReader C) : closed evs c -> zeroed evs c z z' ->
  turn_trace evs c z (dec_end (Ready (if z' then Ok [] else Err e)) s' r).
Proof. intros Hc Hz. right. split_and!; [done..|]. by destruct z'. Qed.

Lemma dec_payload_trace cap s r c : content s c ->
  exists evs, (forall rest, dec_payload read_at_least cap (evs ++ rest) r = flow_at rest (dec_payload ral cap s r)) /\
  turn_trace evs c (dr_read_zero r) (dec_payload ral cap s r).
Proof.
  intros Hc. unfold dec_payload, src_read_at_least. destruct (src_read_loop _ _ _ s _ _ _) as [[[p s1] b] z] eqn:Er.
  destruct (read_loop_trace _ _ _ _ _ _ _ _ _ _ (Nat.le_refl _) Hc Er) as (Hp & evs & Hev & Hm).
  destruct p as [[[]|e|]|]; [| |done|].
  2:{ exists evs. split; [intros rest; by rewrite Hev|]. destruct Hm as [Hcl Hz]. by apply ended_turn. }
  2:{ exists evs. split; [intros rest; by rewrite Hev|]. destruct Hm as [Ha ->]. by left. }
  destruct Hm as [[Hfl (c1 & -> & Hc1)] Hz]. cbn [dr_cipher]. assert (alive evs s1 (rd_bytes evs ++ c1)) as Ha by (split; [done|by exists c1]).
  destruct (ff_payload _ _) as [[[m|]|e|] k] eqn:Ep.
  2-4: exists evs; split; [intros rest; rewrite Hev; cbn [dr_cipher]; by rewrite Ep|by left].
  match goal with |- context [dec_yield cap s1 ?r1] => destruct (dec_yield_trace cap s1 r1 c1 Hc1) as [Hy Ht] end.
  exists (evs ++ []). split.
  - intros rest. rewrite app_nil_r, Hev. cbn [dr_cipher]. rewrite Ep. apply Hy.
  - rewrite <- Hz. by apply (turn_trace_app _ _ _ c1).
Qed.

Lemma dec_head_trace cap s r c : content s c ->
  exists evs, (forall rest, dec_head read_at_least cap (evs ++ rest) r = flow_at rest (dec_head ral cap s r)) /\
  turn_trace evs c (dr_read_zero r) (dec_head ral cap s r).
Proof.
  intros Hc. unfold dec_head. destruct (ral s (dr_buffer r) (dr_read_zero r) ff_header_len) as [[[p s1] b] z] eqn:Er.
  destruct (read_loop_trace _ _ _ _ _ _ _ _ _ _ (Nat.le_refl _) Hc Er) as (Hp & evs & Hev & Hm).
  destruct p as [[[]|e|]|]; [| |done|].
  2:{ exists evs. split; [intros rest; by rewrite Hev|]. destruct Hm as [Hcl Hz]. by apply ended_turn. }
  2:{ exists evs. split; [intros rest; by rewrite Hev|]. destruct Hm as [Ha ->]. by left. }
  destruct Hm as [[Hfl (c1 & -> & Hc1)] Hz]. cbn [dr_cipher]. assert (alive evs s1 (rd_bytes evs ++ c1)) as Ha by (split; [done|by exists c1]).
  destruct (ff_header _ _) as [[n|e|] k] eqn:Eh.
  2-3: exists evs; split; [intros rest; rewrite Hev; cbn [dr_cipher]; by rewrite Eh|by left].
  match goal with |- context [dec_payload ral cap s1 ?r1] => destruct (dec_payload_trace cap s1 r1 c1 Hc1) as (evs2 & Hy & Ht) end.
  exists (evs ++ evs2). split.
  - intros rest. rewrite <- app_assoc, Hev. cbn [dr_cipher]. rewrite Eh. apply Hy.
  - rewrite <- Hz. by apply (turn_trace_app _ _ _ c1).
Qed.

Lemma dec_resume_trace cap s r c : content s c ->
  exists evs, (forall rest, dec_resume read_at_least cap (evs ++ rest) r = flow_at rest (dec_resume ral cap s r)) /\
  turn_trace evs c (dr_read_zero r) (dec_resume ral cap s r).
Proof.
  intros Hc. unfold dec_resume. destruct (dr_state r); [by apply dec_head_trace|by apply dec_payload_trace| |].
  - exists []. by apply dec_yield_trace.
  - exists []. split; [done|]. left. split; [|done]. split; [constructor|by exists c].
Qed.

Lemma dec_loop_trace fuel cap s r c p s' r' : content s c -> dec_loop ral fuel cap s r = (p, s', r') ->
  exists evs, (forall rest, dec_loop read_at_least fuel cap (evs ++ rest) r = (p, rest, r')) /\
  ((alive evs s' c /\ dr_read_zero r' = dr_read_zero r) \/
    (closed evs c /\ dr_state r' = DecDone /\ (p = Ready (Ok []) -> zeroed evs c (dr_read_zero r) true))).
Proof.
  revert s r c. induction fuel as [|f IH]; intros s r c Hc; cbn [dec_loop].
  { intros [= <- <- <-]. exists []. split; [done|]. left. split; [|done]. split; [constructor|by exists c]. }
  destruct (dec_resume_trace cap s r c Hc) as (evs & Hev & Ht). destruct (dec_resume ral cap s r) as [q s1 r1|s1 r1].
  - intros [= <- <- <-]. exists evs. split; [intros rest; by rewrite Hev|done].
  - destruct Ht as [[Hfl (c1 & -> & Hc1)] Hz]. intros Hl. destruct (IH _ _ _ Hc1 Hl) as (evs2 & Hev2 & Ht2). rewrite Hz in Ht2.
    exists (evs ++ evs2). split; [intros rest; rewrite <- app_assoc, Hev; apply Hev2|].
    destruct Ht2 as [[? ?]|(? & ? & ?)]; [left; split|right; split_and!]; by eauto using alive_app, closed_app, zeroed_app.
Qed.

Lemma future_bytes r (t1 t2 : rd_script) : rd_bytes t1 = rd_bytes t2 -> future r t1 = future r t2.
Proof. intros Hb. unfold future. by rewrite Hb. Qed.

Lemma layer_done turns cap s r p (s' : St * DecryptedReader C) : dr_state r = DecDone -> 0 < turns ->
  layer_poll poll room turns cap (s, r) = (p, s') -> p = Ready (Err unexpected_eof) /\ s' = (s, r).
Proof.
  intros Hd Ht. unfold layer_poll. destruct turns; [lia|]. cbn [dec_loop fst snd]. unfold dec_resume. rewrite Hd. by intros [= <- <-].
Qed.

(** A poll of a layer that has not ended. *)
Lemma layer_poll_alive turns cap s r c p s' r' : 0 < cap -> reader_ok r -> dr_read_zero r = false -> content s c -> (future_of r c).2 <> EndPanic ->
  length (dr_buffer r) + length c < turns -> layer_poll poll room turns cap (s, r) = (p, (s', r')) ->
  length (answer_bytes p) <= cap /\ p <> Ready Panic /\ (p = Ready (Ok []) -> ends_once poll content -> (future_of r c).1 = []) /\
  exists x, (future_of r c).1 = answer_bytes p ++ x /\ ((forall e, p <> Ready (Err e)) -> layer_content content turns (s', r') x).
Proof.
  intros Hcap Hok Hrz Hc Hnp Hlt. unfold layer_poll. cbn [fst snd]. destruct (dec_loop ral turns cap s r) as [[q s1] r1] eqn:Ed. intros [= -> -> ->].
  destruct (dec_loop_trace _ _ _ _ _ _ _ _ Hc Ed) as (evs & Hev & [[[Hfl (c' & -> & Hc')] Hz]|([[k ->] Hcl] & Hdone & Hz)]).
  - specialize (Hev [RdData c']). assert (rd_bytes (evs ++ [RdData c']) = rd_bytes evs ++ c') as Hb by (by rewrite rd_bytes_app, rd_bytes_one).
    assert (future r (evs ++ [RdData c']) = future_of r (rd_bytes evs ++ c')) as Hfu by (apply future_bytes; by rewrite Hb, rd_bytes_one).
    pose proof (dec_loop_ok turns r (evs ++ [RdData c']) cap Hok Hcap) as Hl. rewrite Hev in Hl.
    destruct Hl as (Hok' & _ & Ha); [unfold stock; by rewrite Hb|]. apply dec_loop_stock in Hev. unfold stock in Hev. rewrite Hb, rd_bytes_one in Hev.
    rewrite Hfu in Ha. assert (forall x, x = (future_of r' c').1 -> (future_of r' c').2 <> EndPanic -> layer_content content turns (s', r') x) as Hgo.
    { intros x Hx Hp. destruct Hev as [Hs|Hd]; [right|left; split; [done|lia]]. split; [done|]. split; [cbn; congruence|]. exists c'. split_and!; [done..|]. cbn. lia. }
    destruct p as [[[|y d]|e|]|]; cbn [answer_bytes].
    + destruct Ha as [Hf Hd]. rewrite Hf. split_and!; [simpl; lia|done|done|]. exists []. split; [done|]. intros _. left. split; [done|lia].
    + destruct Ha as (Hle & Hf & _). fold (future_of r' c') in Hf. rewrite Hf. split_and!; [done|done|done|]. exists (future_of r' c').1.
      split; [done|]. intros _. apply Hgo; [done|]. intros Hp. apply Hnp. by rewrite Hf.
    + split_and!; [simpl; lia|done|done|]. exists (future_of r (rd_bytes evs ++ c')).1. split; [done|]. intros He. by destruct (He e).
    + destruct Ha as [Hf _]. by rewrite Hf in Hnp.
    + destruct Ha as [Ha _]. fold (future_of r' c') in Ha. split_and!; [simpl; lia|done|done|]. exists (future_of r' c').1. rewrite Ha. split; [done|].
      intros _. apply Hgo; [done|]. by rewrite <- Ha.
  - specialize (Hev []). rewrite app_nil_r in Hev.
    pose proof (future_continues r evs _ k eq_refl Hok) as [[x Hx] Hpan].
    pose proof (dec_loop_ok turns r evs cap Hok Hcap) as Hl. rewrite Hev in Hl.
    destruct Hl as (Hok' & _ & Ha); [unfold stock; rewrite length_app in Hlt; lia|].
    assert (forall x, layer_content content turns (s', r') x) as Hgo by (intros y; left; split; [done|lia]).
    destruct p as [[[|y d]|e|]|]; cbn [answer_bytes].
    + destruct Ha as [Hf _]. split_and!; [simpl; lia|done| |eauto]. intros _ He. pose proof (Hz eq_refl Hrz eq_refl He) as Hk.
      assert (future_of r (rd_bytes evs ++ k) = future r evs) as -> by (unfold future_of; apply future_bytes; by rewrite rd_bytes_one). by rewrite Hf.
    + destruct Ha as (Hle & Hf & _). rewrite Hf in Hx. split_and!; [done|done|done|]. cbn in Hx. rewrite Hx. rewrite <- app_assoc. eauto.
    + split_and!; [simpl; lia|done|done|]. eexists. split; [done|]. intros He. by destruct (He e).
    + destruct Ha as [Hf _]. rewrite Hf in Hpan. rewrite Hpan in Hnp; done.
    + split_and!; [simpl; lia|done|done|eauto].
Qed.

(** A layer is a source, so layers stack. *)
Lemma layer_source turns : RoomSource (layer_poll poll room turns) (layer_content content turns).
Proof.
  constructor. intros cap [s r] x p [s' r'] Hcap [[Hd Ht]|(Hok & Hz & c & Hc & -> & Hnp & Hlt)] Hp.
  - destruct (layer_done _ _ _ _ _ _ Hd Ht Hp) as [-> _]. split_and!; [simpl; lia|done|]. exists x. split; [done|]. intros He. by destruct (He unexpected_eof).
  - by destruct (layer_poll_alive _ _ _ _ _ _ _ _ Hcap Hok Hz Hc Hnp Hlt Hp) as (? & ? & _ & ?).
Qed.

(** [read_at_least] over a source that ends once. *)
Lemma src_read_spec s b len p s' b' z c : ends_once poll content -> content s c ->
  ral s b false len = (p, s', b', z) ->
  match p with
  | Ready (Ok _) => len <= length b' /\ z = false /\ exists c', b' ++ c' = b ++ c /\ content s' c'
  | Ready (Err _) => length (b ++ c) < len \/ True /\ z = false
  | Ready Panic => False
  | Pending => z = false /\ exists c', b' ++ c' = b ++ c /\ content s' c'
  end.
Proof.
  intros He Hc Hr. destruct (read_loop_trace _ _ _ _ _ _ _ _ _ _ (Nat.le_refl _) Hc Hr) as (Hp & evs & Hev & Hm).
  destruct p as [[[]|e|]|]; [| |done|].
  1,3: destruct Hm as [[Hfl (c' & -> & Hc')] ->]; specialize (Hev [RdData c']); apply read_at_least_spec in Hev as (? & Hb & _);
    rewrite rd_bytes_app, rd_bytes_one in Hb by done; eauto.
  destruct Hm as [_ Hz]. destruct z; [left|by right]. specialize (Hev []). rewrite app_nil_r in Hev.
  apply read_at_least_spec in Hev as (Hl & -> & _). by rewrite <- (Hz eq_refl eq_refl He).
Qed.

(** The end of a layer is the end of its decoding. *)
Lemma layer_ends_once turns : ends_once poll content -> ends_once (layer_poll poll room turns) (layer_content content turns).
Proof.
  intros He cap [s r] x [s' r'] Hcap [[Hd Ht]|(Hok & Hz & c & Hc & -> & Hnp & Hlt)] Hp.
  - by destruct (layer_done _ _ _ _ _ _ Hd Ht Hp) as [? _].
  - destruct (layer_poll_alive _ _ _ _ _ _ _ _ Hcap Hok Hz Hc Hnp Hlt Hp) as (_ & _ & Hx & _). by apply Hx.
Qed.
End Traces.

(** ** Whole runs of a source with room *)

Section Runs.
Context {St : Type} {poll : nat -> St -> Poll (res bytes) * St} {content : St -> bytes -> Prop} `{!RoomSource poll content}.

Lemma room_reads caps s c ps s' : Forall (fun cap => 0 < cap) caps -> content s c -> poll_reads poll caps s = (ps, s') ->
  (Ready Panic ∉ ps) /\ exists c', c = delivered ps ++ c' /\ (Forall (fun p => forall e, p <> Ready (Err e)) ps -> content s' c').
Proof.
  intros Hcaps. revert s c ps s'. induction Hcaps as [|cap caps Hcap _ IH]; intros s c ps s' Hc; cbn [poll_reads].
  { intros [= <- <-]. split; [apply not_elem_of_nil|]. by exists c. }
  destruct (poll cap s) as [p s1] eqn:Ep. destruct (room_poll _ _ _ _ _ Hcap Hc Ep) as (_ & Hp & c1 & -> & Hc1).
  assert (forall qs s2, (forall e, p <> Ready (Err e)) -> poll_reads poll caps s1 = (qs, s2) ->
    (Ready Panic ∉ p :: qs) /\ exists c', answer_bytes p ++ c1 = delivered (p :: qs) ++ c' /\
    (Forall (fun p => forall e, p <> Ready (Err e)) (p :: qs) -> content s2 c')) as Hgo.
  { intros qs s2 He Hr. destruct (IH _ _ _ _ (Hc1 He) Hr) as (Hn & c' & -> & Hk). split; [by apply not_elem_of_cons|].
    exists c'. cbn [delivered flat_map]. rewrite app_assoc. split; [done|]. intros HF. apply Hk. by inversion HF. }
  destruct p as [[d|e|]|]; [|intros [= <- <-]|done|].
  - destruct (poll_reads poll caps s1) as [qs s2]. intros [= <- <-]. by apply Hgo.
  - split; [by apply not_elem_of_cons; split; [|apply not_elem_of_nil]|]. exists c1. split; [done|].
    intros HF. inversion HF as [|? ? He]. by destruct (He e).
  - destruct (poll_reads poll caps s1) as [qs s2]. intros [= <- <-]. by apply Hgo.
Qed.
End Runs.

(** ** Writing through a layer *)

Section WriteOver.
Context {St : Type} (poll_write : bytes -> St -> Poll (res nat) * St).

(** The [write_data] loop over a polled stream; each turn hands over a byte. *)
Fixpoint sink_data_loop (fuel : nat) (s : St) (buf : bytes) (pos : nat) : Poll (res unit) * St * nat :=
  if decide (length buf <= pos) then (Ready (Ok tt), s, pos)
  else match fuel with
  | O => (Ready Panic, s, pos)
  | S f =>
    match poll_write (drop pos buf) s with
    | (Pending, s) => (Pending, s, pos)
    | (Ready (Err e), s) => (Ready (Err e), s, pos)
    | (Ready Panic, s) => (Ready Panic, s, pos)
    | (Ready (Ok n), s) =>
      if decide (n = 0) then (Ready (Err write_zero_error), s, pos + n) else sink_data_loop f s buf (pos + n)
    end
  end.

Definition sink_write_data (s : St) (buf : bytes) (pos : nat) : Poll (res unit) * St * nat :=
  sink_data_loop (length buf - pos) s buf pos.

Context {C : Type} `{FrameEncoder C}.

Definition layer_write (data : bytes) (s : St * EncryptedWriter C) : Poll (res nat) * (St * EncryptedWriter C) :=
  let '(p, s, e) := poll_write_encrypted sink_write_data data s.1 s.2 in (p, (s, e)).
End WriteOver.

Section WriteLemmas.
Context {St : Type} {poll_write : bytes -> St -> Poll (res nat) * St}.
Context {wrote : St -> bytes -> option bytes -> Prop} {handed : St -> bytes -> Prop} `{!RetrySink poll_write wrote handed}.
Context {C : Type} `{FrameEncoder C}.
(** With a fit cipher, frames of the right size can be built, and leave a fit
cipher. *)
Context (fit : C -> Prop).
Context (encode_ok : forall c d, fit c -> length d <= fe_max -> exists f c', fe_encode c d = Ok (f, c') /\ fit c').
Implicit Type e : EncryptedWriter C.

Lemma sink_data_spec fuel s buf pos a p s' pos' : length buf - pos <= fuel -> pos <= length buf -> offered (wrote := wrote) s a (drop pos buf) ->
  sink_data_loop poll_write fuel s buf pos = (p, s', pos') ->
  match p with
  | Ready (Ok _) => wrote s' (a ++ drop pos buf) None
  | Ready (Err _) => handed s' (a ++ drop pos buf)
  | Ready Panic => False
  | Pending => pos <= pos' <= length buf /\ offered (wrote := wrote) s' (a ++ take (pos' - pos) (drop pos buf)) (drop pos' buf)
  end.
Proof.
  revert s pos a. induction fuel as [|f IH]; intros s pos a Hf Hp Ho; cbn [sink_data_loop].
  all: case_decide as Hl; [intros [= <- <- <-]; rewrite (drop_ge buf), app_nil_r in * by lia; by destruct Ho as (o & Hw & [->|[_ []]])|try lia].
  assert (drop pos buf <> []) as Hne by (intros Hz; apply (f_equal length) in Hz; rewrite length_drop in Hz; simpl in Hz; lia).
  pose proof (offered_some _ _ _ Ho Hne) as Hw. destruct (poll_write (drop pos buf) s) as [q s1] eqn:Ew.
  pose proof (rs_write _ _ _ _ _ Hne Hw Ew) as Hq.
  destruct q as [[n|x|]|]; [|by intros [= <- <- <-]|done|intros [= <- <- <-]].
  - destruct Hq as [Hn Hw1]. rewrite length_drop in Hn. case_decide as Hz.
    + intros [= <- <- <-]. subst n. rewrite take_0, app_nil_r in Hw1. apply offered_handed. by apply wrote_offered.
    + intros Hr. pose proof (IH s1 (pos + n) (a ++ take n (drop pos buf))) as Hi. rewrite <- drop_drop in Hi.
      specialize (Hi ltac:(lia) ltac:(lia) (wrote_offered _ _ _ Hw1) Hr). rewrite <- !app_assoc, take_drop in Hi.
      destruct p as [[[]|x|]|]; [exact Hi..|]. destruct Hi as [Hi Ho']. split; [lia|].
      rewrite take_take_drop in Ho'. by replace (n + (pos' - (pos + n))) with (pos' - pos) in Ho' by lia.
  - split; [lia|]. rewrite Nat.sub_diag, take_0, app_nil_r. exists (Some (drop pos buf)). auto.
Qed.

(** The size of the next frame's payload. *)
Definition next_len (data : bytes) : nat := Nat.min fe_max (length data).

Lemma next_len_max data : length (take (next_len data) data) <= fe_max.
Proof. rewrite length_take. unfold next_len. lia. Qed.

(** The bytes the next write hands over, and the cipher behind them. *)
Definition todo e (data o : bytes) (c : C) : Prop :=
  (at_boundary e /\ exists f, fe_encode (ew_cipher e) (take (next_len data) data) = Ok (f, c) /\ o = ew_buf e ++ f) \/
  (ew_state e = EncAwait /\ ew_pos e <= length (ew_buf e) /\ ew_data_len e = next_len data /\ o = drop (ew_pos e) (ew_buf e) /\ c = ew_cipher e).

Lemma todo_boundary e data : at_boundary e -> fit (ew_cipher e) ->
  exists f c, fe_encode (ew_cipher e) (take (next_len data) data) = Ok (f, c) /\ fit c /\ todo e data (ew_buf e ++ f) c.
Proof.
  intros He Hc. destruct (encode_ok (ew_cipher e) _ Hc (next_len_max data)) as (f & c & E & Hf).
  exists f, c. split_and!; [done..|]. left. eauto.
Qed.

(** A poll of a write that hands over [o]. *)
Definition handed_over e data (o : bytes) (c : C) s' e' (a : bytes) (p : Poll (res nat)) : Prop :=
  match p with
  | Ready (Ok n) => n = next_len data /\ at_boundary e' /\ ew_buf e' = [] /\ ew_cipher e' = c /\ wrote s' (a ++ o) None
  | Ready (Err _) => handed s' (a ++ o)
  | Ready Panic => False
  | Pending => exists w o', o = w ++ o' /\ offered (wrote := wrote) s' (a ++ w) o' /\ todo e' data o' c
  end.

Lemma enc_write_step e data o s a p s' e' : offered (wrote := wrote) s a o -> ew_state e = EncAwait -> todo e data o (ew_cipher e) ->
  enc_write (sink_write_data poll_write) s e = (p, s', e') -> handed_over e data o (ew_cipher e) s' e' a p.
Proof.
  intros Ho Hs [[[Hb|Hb] _]|(_ & Hp & Hl & -> & _)]; [congruence..|]. unfold enc_write, sink_write_data.
  destruct (sink_data_loop _ _ _ _ _) as [[q s1] pos] eqn:Ed.
  pose proof (sink_data_spec _ _ _ _ _ _ _ _ (Nat.le_refl _) Hp Ho Ed) as Hq.
  destruct q as [[[]|x|]|]; intros [= <- <- <-]; cbn [handed_over]; [|done|done|].
  - split_and!; try done. by right.
  - destruct Hq as [Hpos Ho']. exists (take (pos - ew_pos e) (drop (ew_pos e) (ew_buf e))), (drop pos (ew_buf e)). split; [|split; [done|]].
    + rewrite <- (take_drop (pos - ew_pos e) (drop (ew_pos e) (ew_buf e))) at 1. rewrite drop_drop. do 2 f_equal. lia.
    + right. split_and!; try done; cbn; lia.
Qed.

Lemma layer_write_step e data o c s a p s' e' : data <> [] -> offered (wrote := wrote) s a o -> todo e data o c ->
  layer_write poll_write data (s, e) = (p, (s', e')) -> handed_over e data o c s' e' a p.
Proof.
  intros Hd Ho Ht. unfold layer_write, poll_write_encrypted. cbn [fst snd].
  assert (todo e data o c -> at_boundary e -> (if fe_empty_ends && bool_decide (data = [])
    then (Ready (Ok 0), s, mkEncryptedWriter (ew_cipher e) EncDone (ew_buf e) (ew_pos e) (ew_data_len e))
    else match encrypted_buffer e (take (Nat.min fe_max (length data)) data) with
    | Ok e' => enc_write (sink_write_data poll_write) s e' | Err x => (Ready (Err x), s, e) | Panic => (Ready Panic, s, e) end)
    = enc_write (sink_write_data poll_write) s (mkEncryptedWriter c EncAwait o 0 (next_len data))) as Hb.
  { intros [[_ (f & Hf & ->)]|(Ha & _)] [He|He]; [|
      |congruence..]; rewrite bool_decide_eq_false_2, andb_false_r by done; unfold encrypted_buffer;
      fold (next_len data); rewrite Hf; cbn [mbind res_bind]; unfold enc_write; cbn [ew_buf ew_pos ew_cipher ew_data_len];
      rewrite length_take; by replace (Nat.min (next_len data) (length data)) with (next_len data) by (unfold next_len; lia). }
  assert (forall q s1 e1, enc_write (sink_write_data poll_write) s (mkEncryptedWriter c EncAwait o 0 (next_len data)) = (q, s1, e1) ->
    handed_over e data o c s1 e1 a q) as Hgo.
  { intros q s1 e1 Ew. apply (enc_write_step (mkEncryptedWriter c EncAwait o 0 (next_len data)) data o s a q s1 e1 Ho eq_refl); [|exact Ew].
    right. cbn. split_and!; by auto with lia. }
  destruct (ew_state e) eqn:Es.
  - rewrite Hb; [|done|by left]. destruct (enc_write _ s _) as [[q s1] e1] eqn:Ew. intros [= -> -> ->]. by apply Hgo.
  - destruct (enc_write _ s e) as [[q s1] e1] eqn:Ew. intros [= -> -> ->].
    assert (c = ew_cipher e) as -> by (destruct Ht as [[[?|?] _]|(_ & _ & _ & _ & ->)]; congruence). by eapply enc_write_step.
  - rewrite Hb; [|done|by right]. destruct (enc_write _ s _) as [[q s1] e1] eqn:Ew. intros [= -> -> ->]. by apply Hgo.
  - destruct Ht as [[[?|?] _]|(? & _)]; congruence.
Qed.

(** *** The layer suspends like its sink

[base] was accepted by the sink before the layer was there, [pre] is what the
first write sends before its frame, and [c0] the cipher of the first frame. *)
Context (base pre : bytes) (c0 : C).

(** The frames of [ds], which are the bytes [a], are in the sink or in the
buffer. *)
Definition layer_wrote (s : St * EncryptedWriter C) (a : bytes) (o : option bytes) : Prop :=
  exists w ds f c1, Forall (fun d => length d <= fe_max) ds /\ concat ds = a /\ encode_all c0 ds = Ok (f, c1) /\ fit c1 /\
  match o with
  | None => wrote s.1 (base ++ w) None /\ at_boundary s.2 /\ ew_cipher s.2 = c1 /\ w ++ ew_buf s.2 = pre ++ f /\ (ds <> [] -> ew_buf s.2 = [])
  | Some buf => exists f1 c2 o', fe_encode c1 (take (next_len buf) buf) = Ok (f1, c2) /\ fit c2 /\ todo s.2 buf o' c2 /\
    offered (wrote := wrote) s.1 (base ++ w) o' /\ w ++ o' = pre ++ f ++ f1
  end.

(** What went out is of the frames of a prefix of [x]. *)
Definition layer_handed (s : St * EncryptedWriter C) (x : bytes) : Prop :=
  exists ds f c1, Forall (fun d => length d <= fe_max) ds /\ encode_all c0 ds = Ok (f, c1) /\
  handed s.1 (base ++ pre ++ f) /\ (concat ds `prefix_of` x).

Lemma encode_all_snoc c ds d f c1 f1 c2 :
  encode_all c ds = Ok (f, c1) -> fe_encode c1 d = Ok (f1, c2) -> encode_all c (ds ++ [d]) = Ok (f ++ f1, c2).
Proof.
  revert c f. induction ds as [|d0 ds IH]; intros c f; cbn [encode_all app].
  - intros [= <- <-] E. rewrite E. cbn [mbind res_bind]. by rewrite app_nil_r.
  - destruct (fe_encode c d0) as [[f0 c3]|x|]; cbn [mbind res_bind]; [|done..].
    destruct (encode_all c3 ds) as [[f2 c4]|x|] eqn:E; cbn [mbind res_bind]; [|done..]. intros [= <- ->] E1.
    rewrite (IH _ _ E E1). cbn [mbind res_bind]. by rewrite app_assoc.
Qed.

Lemma frames_snoc ds buf : Forall (fun d => length d <= fe_max) ds -> Forall (fun d => length d <= fe_max) (ds ++ [take (next_len buf) buf]).
Proof. intros Hds. apply Forall_app. split; [done|]. constructor; [apply next_len_max|done]. Qed.

Lemma concat_snoc (ds : list bytes) (d : bytes) : concat (ds ++ [d]) = concat ds ++ d.
Proof. rewrite concat_app. cbn [concat]. by rewrite app_nil_r. Qed.

Lemma layer_retry : RetrySink (layer_write poll_write) layer_wrote layer_handed.
Proof.
  constructor.
  - intros [s e] a buf (w & ds & f & c1 & Hds & Ha & Hf & Hc & Hw & Hb & <- & Hwb & _) _. cbn [fst snd] in *.
    exists w, ds, f, (ew_cipher e). split_and!; [done..|]. destruct (todo_boundary e buf Hb Hc) as (f1 & c2 & E & Hc2 & Ht).
    exists f1, c2, (ew_buf e ++ f1). split_and!; [done..|by apply wrote_offered|]. by rewrite !app_assoc, Hwb.
  - intros buf [s e] a p [s' e'] Hne (w & ds & f & c1 & Hds & <- & Hf & Hc & f1 & c2 & o & E & Hc2 & Ht & Ho & Hw) Hp. cbn [fst snd] in *.
    pose proof (layer_write_step _ _ _ _ _ _ _ _ _ Hne Ho Ht Hp) as Hq. pose proof (encode_all_snoc _ _ _ _ _ _ _ Hf E) as Hf'.
    assert ((base ++ w) ++ o = base ++ pre ++ f ++ f1) as Hbw by (by rewrite <- app_assoc, Hw).
    destruct p as [[n|x|]|]; cbn [handed_over] in Hq; [| |done|].
    + destruct Hq as (-> & Hb & Hbuf & <- & Hw'). split; [unfold next_len; lia|].
      exists (w ++ o), (ds ++ [take (next_len buf) buf]), (f ++ f1), (ew_cipher e').
      rewrite concat_snoc, app_assoc. cbn [fst snd]. split_and!; try done; [by apply frames_snoc|by rewrite Hbuf, app_nil_r].
    + exists (ds ++ [take (next_len buf) buf]), (f ++ f1), c2. rewrite concat_snoc. cbn [fst snd].
      split_and!; [by apply frames_snoc|done|by rewrite <- Hbw|]. apply prefix_app, prefix_take.
    + destruct Hq as (w' & o' & -> & Ho' & Ht'). exists (w ++ w'), ds, f, c1. cbn [fst snd]. split_and!; [done..|].
      exists f1, c2, o'. rewrite app_assoc. split_and!; [done..|]. by rewrite <- app_assoc.
  - intros [s e] a o (w & ds & f & c1 & Hds & <- & Hf & Hc & Ho). cbn [fst snd] in *. destruct o as [buf|]; cbn [default from_option].
    + destruct Ho as (f1 & c2 & o' & E & _ & _ & Ho & Hw). exists (ds ++ [take (next_len buf) buf]), (f ++ f1), c2. rewrite concat_snoc.
      cbn [fst snd]. split_and!; [by apply frames_snoc|by eapply encode_all_snoc| |apply prefix_app, prefix_take].
      apply offered_handed in Ho. by rewrite <- app_assoc, Hw in Ho.
    + destruct Ho as (Hw & _ & _ & Hwb & _). exists ds, f, c1. cbn [fst snd]. split_and!; [done..| |by eexists].
      rewrite <- Hwb. eapply rs_handed_mono; [by eapply rs_handed|]. rewrite app_nil_r, app_assoc. by eexists.
  - intros [s e] x y (ds & f & c1 & ? & ? & ? & ?) Hxy. exists ds, f, c1. split_and!; [done..|]. by etrans.
Qed.

(** A new writer of the layer. *)
Lemma layer_wrote_new s e : wrote s base None -> fit c0 -> at_boundary e -> ew_cipher e = c0 -> ew_buf e = pre -> layer_wrote (s, e) [] None.
Proof.
  intros Hw Hc Hb He Hp. exists [], [], [], c0. cbn [fst snd]. rewrite !app_nil_r. split_and!; done.
Qed.

(** The sink may move on by itself, as long as what it accepted stays. *)
Lemma layer_wrote_keeps s e a o s' : layer_wrote (s, e) a o -> (forall b x, wrote s b x -> wrote s' b x) -> layer_wrote (s', e) a o.
Proof.
  intros (w & ds & f & c1 & Hds & Ha & Hf & Hc & Ho) Hk. exists w, ds, f, c1. split_and!; [done..|]. cbn [fst snd] in *. destruct o as [buf|].
  - destruct Ho as (f1 & c2 & o' & E & Hc2 & Ht & (x & Hx & Hx') & Hw). exists f1, c2, o'. split_and!; [done..|by exists x; auto|done].
  - destruct Ho as (Hw & ?). auto.
Qed.

(** The writer between two writes. *)
Lemma layer_wrote_none s e a : layer_wrote (s, e) a None -> exists b, wrote s b None.
Proof. intros (w & ds & f & c1 & _ & _ & _ & _ & Hw & _). by exists (base ++ w). Qed.

Lemma layer_wrote_none_keeps s e a s' : layer_wrote (s, e) a None -> (forall b, wrote s b None -> wrote s' b None) -> layer_wrote (s', e) a None.
Proof.
  intros (w & ds & f & c1 & Hds & Ha & Hf & Hc & Hw & Ho) Hk. exists w, ds, f, c1. repeat (split; [done|]). split; [by apply Hk|done].
Qed.

(** Between two writes all the frames are in the sink. *)
Lemma layer_wrote_all s e a : layer_wrote (s, e) a None -> pre = [] \/ a <> [] ->
  exists ds f c1, Forall (fun d => length d <= fe_max) ds /\ concat ds = a /\ encode_all c0 ds = Ok (f, c1) /\ wrote s (base ++ pre ++ f) None.
Proof.
  intros (w & ds & f & c1 & Hds & <- & Hf & _ & Hw & _ & _ & Hwb & Hbuf) Hpre. cbn [fst snd] in *. exists ds, f, c1. split_and!; [done..|].
  destruct ds as [|d ds].
  - destruct Hpre as [->|[]]; [|done]. injection Hf as <- _. apply app_nil in Hwb as [-> _]. done.
  - by rewrite Hbuf, app_nil_r in Hwb by done; rewrite <- Hwb.
Qed.
End WriteLemmas.

(** ** What the loops keep of the inner stream *)

Section InnerKeeps.
Context {S : Type} (P : S -> Prop).

Section Reading.
Context {rd : nat -> S -> Poll (res bytes) * S} (rd_keeps : forall cap s p s', P s -> rd cap s = (p, s') -> P s').
Context (room : bytes -> nat).

Lemma src_read_loop_keeps fuel s b z len p s' b' z' : P s -> src_read_loop rd room fuel s b z len = (p, s', b', z') -> P s'.
Proof.
  revert s b. induction fuel as [|f IH]; intros s b Hp; cbn [src_read_loop]; case_decide; try (intros; by simplify_eq).
  destruct (rd (room b) s) as [q s1] eqn:Er. apply rd_keeps in Er; [|done].
  destruct q as [[[|x d]|e|]|]; try (intros; by simplify_eq). by apply IH.
Qed.

Lemma dec_loop_keeps {C} `{FrameFormat C} fuel cap s (r : DecryptedReader C) p s' r' :
  P s -> dec_loop (src_read_at_least rd room) fuel cap s r = (p, s', r') -> P s'.
Proof.
  assert (forall s (r : DecryptedReader C), P s -> match dec_yield cap s r with DecReturn _ s1 _ | DecGo s1 _ => P s1 end) as Hy
    by (intros s1 r1; unfold dec_yield; by case_decide).
  assert (forall s (r : DecryptedReader C), P s -> match dec_payload (src_read_at_least rd room) cap s r with DecReturn _ s1 _ | DecGo s1 _ => P s1 end) as Hpl.
  { intros s1 r1 Hp. unfold dec_payload, src_read_at_least. destruct (src_read_loop _ _ _ _ _ _ _) as [[[q s2] b] z] eqn:Er.
    apply src_read_loop_keeps in Er; [|done]. destruct q as [[[]|e|]|]; try done. destruct (ff_payload _ _) as [[[m|]|e|] k]; try done. by apply Hy. }
  assert (forall s (r : DecryptedReader C), P s -> match dec_head (src_read_at_least rd room) cap s r with DecReturn _ s1 _ | DecGo s1 _ => P s1 end) as Hh.
  { intros s1 r1 Hp. unfold dec_head, src_read_at_least at 1. destruct (src_read_loop _ _ _ _ _ _ _) as [[[q s2] b] z] eqn:Er.
    apply src_read_loop_keeps in Er; [|done]. destruct q as [[[]|e|]|]; try done. destruct (ff_header _ _) as [[n|e|] k]; try done. by apply Hpl. }
  revert s r. induction fuel as [|f IH]; intros s r Hp; cbn [dec_loop]; [intros; by simplify_eq|].
  assert (match dec_resume (src_read_at_least rd room) cap s r with DecReturn _ s1 _ | DecGo s1 _ => P s1 end) as Hr
    by (unfold dec_resume; destruct (dr_state r); [by apply Hh|by apply Hpl|by apply Hy|done]).
  destruct (dec_resume _ _ _ _) as [q s1 r1|s1 r1]; [intros; by simplify_eq|by apply IH].
Qed.
End Reading.

Lemma sink_data_loop_keeps {wr : bytes -> S -> Poll (res nat) * S} (wr_keeps : forall buf s p s', P s -> wr buf s = (p, s') -> P s')
  fuel s buf pos p s' pos' : P s -> sink_data_loop wr fuel s buf pos = (p, s', pos') -> P s'.
Proof.
  revert s pos. induction fuel as [|f IH]; intros s pos Hp; cbn [sink_data_loop]; case_decide; try (intros; by simplify_eq).
  destruct (wr _ s) as [q s1] eqn:Ew. apply wr_keeps in Ew; [|done].
  destruct q as [[n|e|]|]; try (intros; by simplify_eq). case_decide; [intros; by simplify_eq|by apply IH].
Qed.

Lemma write_encrypted_keeps {C} `{FrameEncoder C} {wr : bytes -> S -> Poll (res nat) * S} (wr_keeps : forall buf s p s', P s -> wr buf s = (p, s') -> P s')
  buf s (e : EncryptedWriter C) p s' e' : P s -> poll_write_encrypted (sink_write_data wr) buf s e = (p, s', e') -> P s'.
Proof.
  assert (forall s (e : EncryptedWriter C) p s' e', P s -> enc_write (sink_write_data wr) s e = (p, s', e') -> P s') as He.
  { intros s1 e1 q s2 e2 Hp. unfold enc_write, sink_write_data. destruct (sink_data_loop _ _ _ _ _) as [[q1 s3] pos] eqn:Ed.
    apply (sink_data_loop_keeps wr_keeps) in Ed; [|done]. destruct q1 as [[[]|x|]|]; intros; by simplify_eq. }
  intros Hp. unfold poll_write_encrypted. destruct (ew_state e); [|by apply He| |intros; by simplify_eq].
  all: destruct (fe_empty_ends && _); [intros; by simplify_eq|].
  all: destruct (encrypted_buffer _ _); [by apply He|intros; by simplify_eq..].
Qed.
End InnerKeeps.

(** ** Shadowsocks over any transport *)

Section ShadowOver.
Context `{AeadCrypto}.
Context {Tw : Type} {poll_write : bytes -> Tw -> Poll (res nat) * Tw} {good : Tw -> Prop} {sent : Tw -> bytes} `{!PollSink poll_write good sent}.
Context {Tr : Type} {poll : nat -> Tr -> Poll (res bytes) * Tr} {content : Tr -> bytes -> Prop} `{!RoomSource poll content}.

Lemma shadow_encode_ok (c : AeadCipher) d : True -> length d <= fe_max -> exists f c', fe_encode c d = Ok (f, c') /\ True.
Proof. intros _ Hd. destruct (shadow_frame_decode c d Hd) as (f & c' & Hf & _). eauto. Qed.

(** The content of a new reader over a transport that holds the bytes [c]. *)
Lemma new_reader_content (cipher : AeadCipher) r0 c turns : content r0 c -> length c < turns ->
  layer_content content turns (r0, mkDecryptedReader [] cipher DecLength 0 false) (decode cipher c).1.
Proof.
  intros Hc Ht. apply (new_layer_content content cipher r0 [] c); [done|apply decode_never_panics|done].
Qed.

(** A Shadowsocks stream over any transport, itself a layer or not: what
[write_all] has put into any sink is a prefix of the salt and frames of a
prefix of the data, whatever the sink accepts, suspends or refuses; and a
reader over any source that holds what follows the salt, under every
fragmentation, never panics, delivers a prefix of the data, and, when the
write succeeded and it has not failed, loses nothing: what it has not
delivered is the decoding of what it and the source still hold. *)
Theorem shadow_over_transport room method key salt e0 d0 fuel data s0 p s1 e1 :
  (forall b, 0 < room b) -> EncryptedWriter_new method key salt = Ok e0 -> DecryptedReader_new method key salt = Ok d0 -> good s0 -> data <> [] ->
  sink_write_all (layer_write poll_write) fuel data (s0, e0) = (p, (s1, e1)) ->
  good s1 /\ p <> Ready Panic /\ exists w, sent s1 = sent s0 ++ w /\
  forall c r0 turns caps ps r1 d1,
  w = salt ++ c -> content r0 c -> length c < turns -> Forall (fun cap => 0 < cap) caps ->
  poll_reads (layer_poll poll room turns) caps (r0, d0) = (ps, (r1, d1)) ->
  (Ready Panic ∉ ps) /\ (delivered ps `prefix_of` data) /\
  (p = Ready (Ok tt) -> Forall (fun q => forall e, q <> Ready (Err e)) ps -> dr_state d1 <> DecDone ->
    exists c', content r1 c' /\ data = delivered ps ++ (future_of d1 c').1).
Proof.
  intros Hroom He0 Hd0 Hg Hd Hw. destruct (AeadCipher_new method key salt) as [cipher|x|] eqn:Hc;
    [|unfold EncryptedWriter_new in He0; by rewrite Hc in He0..].
  destruct (EncryptedWriter_new_ok _ _ _ _ Hc) as [Hce Hcd]. rewrite Hce in He0. rewrite Hcd in Hd0. injection He0 as <-. injection Hd0 as <-.
  set (e0 := mkEncryptedWriter cipher EncStart salt 0 0) in *.
  pose proof (layer_retry (RetrySink0 := plain_retry (sent s0)) (fun _ => True) shadow_encode_ok (sent s0) salt cipher) as Hretry.
  assert (layer_wrote (wrote := plain_wrote (good := good) (sent := sent) (sent s0)) (fun _ => True) (sent s0) salt cipher (s0, e0) [] None) as Hw0
    by (apply layer_wrote_new; try done; by left).
  apply wrote_offered with (b := data) in Hw0. destruct (retry_write_all _ _ _ _ _ _ Hw0 Hw) as (Hp & Hh & Hok). clear Hw0.
  destruct Hh as (ds & f & c1 & Hds & Ef & (Hg1 & [w Hs] & Hpre) & Hcat). cbn [fst snd app] in *.
  split; [done|]. split; [done|]. exists w. split; [done|]. intros c r0 turns caps ps r1 d1 Hwc Hc0 Hturns Hcaps Hr.
  assert (forall ds f c1, Forall (fun d => length d <= fe_max) ds -> encode_all cipher ds = Ok (f, c1) -> decode cipher f = (concat ds, EndShort)) as Hdec.
  { intros ds1 f1 c2 Hd1 E1. destruct (shadow_encode_decode cipher ds1 Hd1) as (g & c3 & Eg & Hg2). rewrite E1 in Eg. by injection Eg as <- _. }
  rewrite Hs in Hpre. apply prefix_app_inv in Hpre. subst w. apply prefix_app_inv in Hpre as [k Hk].
  pose proof (new_reader_content cipher r0 c turns Hc0 Hturns) as Hx.
  destruct (decode_app cipher c k) as [Hxp _]. rewrite <- Hk, (Hdec _ _ _ Hds Ef) in Hxp.
  pose proof (layer_source room Hroom turns) as Hsrc.
  destruct (room_reads _ _ _ _ _ Hcaps Hx Hr) as (Hnp & x' & Hx' & Hgo). split; [done|]. split.
  - etrans; [|exact Hcat]. etrans; [|exact Hxp]. rewrite Hx'. by eexists.
  - intros Hpok He Hst. destruct (Hok Hpok) as (w2 & ds2 & f2 & c2 & Hds2 & Hcat2 & Ef2 & _ & (_ & Hs2 & _) & _ & _ & Hwb & Hbuf).
    cbn [fst snd] in *. rewrite Hs in Hs2. apply app_inv_head in Hs2. subst w2.
    assert (ew_buf e1 = []) as Hz by (apply Hbuf; intros ->; by destruct data).
    rewrite Hz, app_nil_r in Hwb. apply app_inv_head in Hwb. subst f2. rewrite (Hdec _ _ _ Hds2 Ef2), Hcat2 in Hx'. cbn [fst] in Hx'.
    destruct (Hgo He) as [[? _]|(_ & _ & c3 & Hc3 & -> & _)]; [done|]. by exists c3.
Qed.
End ShadowOver.

(** ** Witness *)

Section Witness.
#[local] Existing Instance toy_crypto.

(** The frame of [hello], in two WebSocket messages. *)
Definition wit_stream : bytes := match encode_all wit_cipher [str "hello"] with Ok (f, _) => f | _ => [] end.
Definition wit_ws : @BinaryWsStream ScriptWs :=
  BinaryWsStream_new (mkScriptWs [WsPending; WsMessage (Binary (take 9 wit_stream)); WsMessage (Binary (drop 9 wit_stream))] [] []).
Definition wit_enc : EncryptedWriter AeadCipher := mkEncryptedWriter wit_cipher EncStart wit_salt 0 0.
Definition wit_dec : DecryptedReader AeadCipher := mkDecryptedReader [] wit_cipher DecLength 0 false.

Lemma shadow_over_transport_witness :
  delivered (poll_reads (layer_poll ws_poll_read (fun _ => 64) 99) [3; 3; 3] (wit_ws, wit_dec)).1 = str "hello".
Proof.
  destruct (sink_write_all (layer_write ws_poll_write) 3 (str "hello") (wit_sender, wit_enc)) as [p [s1 e1]] eqn:Ew.
  destruct (poll_reads (layer_poll ws_poll_read (fun _ => 64) 99) [3; 3; 3] (wit_ws, wit_dec)) as [ps [r1 d1]] eqn:Er.
  destruct (shadow_over_transport (fun _ => 64) Aes128Gcm wit_key wit_salt wit_enc wit_dec 3 (str "hello") wit_sender p s1 e1)
    as (_ & _ & w & Hw & H); [lia|reflexivity|reflexivity|constructor|done|exact Ew|].
  vm_compute in Ew. injection Ew as <- <- _. vm_compute in Hw.
  destruct (H wit_stream wit_ws 99 [3; 3; 3] ps r1 d1) as (_ & _ & Hd); [|reflexivity|vm_compute; lia|repeat constructor; lia|exact Er|].
  { subst w. vm_compute. reflexivity. }
  vm_compute in Er. injection Er as <- <- <-. destruct (Hd eq_refl) as (c & Hc & Hx); [repeat (constructor; [done|]); constructor|done|].
  vm_compute in Hc. subst c. rewrite Hx. vm_compute. reflexivity.
Defined.
End Witness.
