(* ===== verification/Relay.v ===== *)
(** * Relaying between streams (src/src/common/net/)

    The copy of Copy.v between two duplex streams that are known by their
    interfaces only.  [Transport] is what a byte stream promises to a layer
    above it; [Endpoint] is what the relay needs of a stream, a layer included:
    a layer that suspended a write has taken a part of the buffer and must be
    given the same buffer again, which the copy does.  A transport is an
    endpoint; the layers of ShadowLayer.v and VmessLayer.v are endpoints over any
    endpoint.  The relay is proved once, for two endpoints, in every order of
    polls.

    Both halves of a stream work on one state, as those of [tokio::io::split]
    do.  The transports of the program follow at the end: WebSocket, HTTP/2, and
    the scripted streams of Io.v. *)

From S2P Require Import Prelude Io StdText Copy Transport H2Io Http2 Websocket Stack.
From Stdlib Require Import ZArith Lia List Strings.Byte.
From stdpp Require Import base option list strings.

(** ** Interfaces *)

(** [AsyncRead] and [AsyncWrite] of one stream. *)
Class DuplexStream (S : Type) := {
  dx_read : nat -> S -> Poll (res bytes) * S;
  dx_write : bytes -> S -> Poll (res nat) * S;
  dx_flush : S -> Poll (res unit) * S
}.

(** A stream of bytes: a source that ends once and a sink, which do not disturb
each other. *)
Class Transport {S : Type} `{DuplexStream S} (content : S -> bytes -> Prop) (good : S -> Prop) (sent : S -> bytes) := {
  tp_source :: RoomSource dx_read content;
  tp_ends : ends_once dx_read content;
  tp_sink :: PollSink dx_write good sent;
  tp_flush s p s' : good s -> dx_flush s = (p, s') -> p <> Ready Panic /\ good s' /\ sent s' = sent s;
  tp_read_keeps cap s p s' : good s -> dx_read cap s = (p, s') -> good s' /\ sent s' = sent s;
  tp_write_keeps buf s c p s' : content s c -> dx_write buf s = (p, s') -> content s' c;
  tp_flush_keeps s c p s' : content s c -> dx_flush s = (p, s') -> content s' c
}.

(** A stream that may suspend a write half way. *)
Class Endpoint {S : Type} `{DuplexStream S} (content : S -> bytes -> Prop)
  (wrote : S -> bytes -> option bytes -> Prop) (handed : S -> bytes -> Prop) := {
  ep_source :: RoomSource dx_read content;
  ep_ends : ends_once dx_read content;
  ep_retry :: RetrySink dx_write wrote handed;
  ep_flush s a p s' : wrote s a None -> dx_flush s = (p, s') -> p <> Ready Panic /\ wrote s' a None;
  ep_read_keeps cap s a o p s' : wrote s a o -> dx_read cap s = (p, s') -> wrote s' a o;
  ep_write_keeps buf s c p s' : content s c -> dx_write buf s = (p, s') -> content s' c;
  ep_flush_keeps s c p s' : content s c -> dx_flush s = (p, s') -> content s' c
}.

(** A [write_all] through an endpoint. *)
Lemma endpoint_write_all {S : Type} `{DuplexStream S} {content : S -> bytes -> Prop} {wrote : S -> bytes -> option bytes -> Prop} {handed : S -> bytes -> Prop}
  `{!Endpoint content wrote handed} fuel buf s a c s' :
  wrote s a None -> content s c -> sink_write_all dx_write fuel buf s = (Ready (Ok tt), s') -> wrote s' (a ++ buf) None /\ content s' c.
Proof.
  intros Hw Hc Hr. split.
  - destruct (retry_write_all _ _ _ _ _ _ (wrote_offered s a buf Hw) Hr) as (_ & _ & Hok). by apply Hok.
  - clear Hw. revert buf s Hc Hr. induction fuel as [|f IH]; intros [|y buf] s Hc; cbn [sink_write_all]; try (by intros [= <-]).
    destruct (dx_write (y :: buf) s) as [q s1] eqn:Ew. pose proof (ep_write_keeps _ _ _ _ _ Hc Ew) as Hc1.
    destruct q as [[n|e|]|]; [|done|done|by apply IH]. repeat case_decide; [done| |done]. by apply IH.
Qed.

(** ** The copy between endpoints *)

Section CopyEndpoints.
Context {R : Type} `{DuplexStream R} {rcontent : R -> bytes -> Prop} {rwrote : R -> bytes -> option bytes -> Prop} {rhanded : R -> bytes -> Prop}.
Context `{!Endpoint rcontent rwrote rhanded}.
Context {W : Type} `{DuplexStream W} {wcontent : W -> bytes -> Prop} {wrote : W -> bytes -> option bytes -> Prop} {handed : W -> bytes -> Prop}.
Context `{!Endpoint wcontent wrote handed}.
Context {K : Type} `{CopyCounter K}.
Implicit Type c : CopyWithCapacity K.

(** One poll of a copy; each turn of its loop takes bytes or is the last. *)
Definition link_poll (turns : nat) (r : R) (w : W) (c : CopyWithCapacity K) : Poll (res K) * R * W * CopyWithCapacity K :=
  copy_loop dx_read (fun w b => dx_write b w) dx_flush turns r w c.

(** [all] is what was written beyond [a0], what is buffered, and what the
reader still has ([rest]); the counters tell the first two apart. *)
Definition flow (k0 : K) (a0 all rest : bytes) (r : R) (w : W) (c : CopyWithCapacity K) : Prop :=
  copy_ok c /\ rcontent r rest /\ (cp_read_done c = true -> rest = []) /\
  exists a, offered (wrote := wrote) w (a0 ++ a) (cp_slice c) /\ a ++ cp_slice c ++ rest = all /\
  counted k0 (length a + length (cp_slice c)) (length a) (cp_amt c).

Lemma flow_handed k0 a0 all rest r w c : flow k0 a0 all rest r w c -> handed w (a0 ++ all).
Proof.
  intros (_ & _ & _ & a & Ho & <- & _). apply offered_handed in Ho. eapply rs_handed_mono; [done|].
  rewrite <- app_assoc. apply prefix_app, prefix_app. by eexists.
Qed.

(** A copy that has ended has handed everything over. *)
Lemma flow_done k0 a0 all rest r w c :
  flow k0 a0 all rest r w c -> cp_slice c = [] -> cp_read_done c = true -> wrote w (a0 ++ all) None.
Proof.
  intros (_ & _ & Hr & a & (o & Hw & Ho) & <- & _) Hs Hd. rewrite (Hr Hd), Hs, !app_nil_r. rewrite Hs in Ho. by destruct Ho as [->|[_ []]].
Qed.

Lemma link_write_spec fuel k0 a0 all rest r w c p w' c' :
  length (cp_slice c) <= fuel -> fits k0 (length all) -> flow k0 a0 all rest r w c ->
  copy_write (fun w b => dx_write b w) fuel w c = (p, w', c') ->
  cp_read_done c' = cp_read_done c /\
  match p with
  | Ready (Ok _) => flow k0 a0 all rest r w' c' /\ cp_slice c' = []
  | Ready (Err _) => handed w' (a0 ++ all)
  | Ready Panic => False
  | Pending => flow k0 a0 all rest r w' c' /\ cp_slice c' <> []
  end.
Proof.
  intros Hf Hfit. revert w c Hf. induction fuel as [|f IH]; intros w c Hf Hfl; pose proof Hfl as (Hok & Hc & Hrd & a & Ho & Hall & Hk);
    pose proof (cp_slice_nil c Hok) as Hnil; cbn [copy_write].
  { assert (cp_slice c = []) as Hs by (apply length_zero_iff_nil; lia). apply Hnil in Hs as Hp. rewrite decide_False by lia.
    intros [= <- <- <-]. by split_and!. }
  destruct (decide (cp_pos c < cp_cap c)) as [Hlt|Hge].
  2:{ intros [= <- <- <-]. split_and!; [done..|]. apply Hnil. destruct Hok. lia. }
  assert (cp_slice c <> []) as Hne by (rewrite Hnil; lia). pose proof (offered_some _ _ _ Ho Hne) as Hb.
  assert ((a0 ++ a) ++ cp_slice c `prefix_of` a0 ++ all) as Hpre by (rewrite <- app_assoc, <- Hall; apply prefix_app, prefix_app; by eexists).
  destruct (dx_write (cp_slice c) w) as [q w1] eqn:Ew. pose proof (rs_write _ _ _ _ _ Hne Hb Ew) as Hq.
  destruct q as [[i|e|]|]; [| |done|].
  - destruct Hq as [Hi Hw1]. destruct (decide (i = 0)) as [->|Hnz].
    { intros [= <- <- <-]. split; [done|]. rewrite take_0, app_nil_r in Hw1. apply wrote_offered with (b := cp_slice c) in Hw1.
      eapply rs_handed_mono; [by eapply offered_handed|done]. }
    destruct (counted_write k0 _ _ _ i Hk) as (amt & -> & Hk').
    { eapply fits_le; [done|]. rewrite <- Hall, !length_app. lia. }
    destruct (copy_write_step c i amt Hok Hi) as [Hok' Hsl]. intros Hr.
    apply IH in Hr as [Hrd' Hp]; [by split|rewrite Hsl, length_drop; lia|].
    split; [done|]. split; [done|]. split; [done|]. exists (a ++ take i (cp_slice c)). rewrite Hsl, app_assoc. split_and!; [by apply wrote_offered| |].
    + by rewrite <- app_assoc, (app_assoc (take i _)), take_drop.
    + cbn [cp_amt]. rewrite length_app, length_take, length_drop, Nat.min_l by done.
      by replace (length a + i + (length (cp_slice c) - i)) with (length a + length (cp_slice c)) by lia.
  - intros [= <- <- <-]. split; [done|]. by eapply rs_handed_mono.
  - intros [= <- <- <-]. split_and!; [done| |done]. split_and!; [done..|]. exists a. split_and!; [|done|done]. exists (Some (cp_slice c)). auto.
Qed.

Lemma link_read_spec k0 a0 all rest r w c p r' c' :
  flow k0 a0 all rest r w c -> copy_read dx_read r c = (p, r', c') ->
  match p with
  | Ready (Ok _) => exists rest', flow k0 a0 all rest' r' w c' /\ length rest' <= length rest /\
    (cp_read_done c' = true \/ cp_slice c <> [] /\ rest' = rest \/ length rest' < length rest)
  | Ready (Err _) => True
  | Ready Panic => False
  | Pending => exists rest', flow k0 a0 all rest' r' w c' /\ length rest' <= length rest
  end.
Proof.
  intros Hfl. pose proof Hfl as (Hok & Hc & Hrd & a & Ho & Hall & Hk). pose proof (cp_slice_nil c Hok) as Hn. unfold copy_read.
  destruct (decide (cp_pos c = cp_cap c)) as [He|Hne].
  2:{ intros [= <- <- <-]. exists rest. split_and!; [done..|]. right. left. by rewrite Hn. }
  apply Hn in He as Hsl. destruct (cp_read_done c) eqn:Erd; [intros [= <- <- <-]; exists rest; auto|].
  assert (wrote w (a0 ++ a) None) as Hw by (destruct Ho as (o & Hw & [->|[_ []]]); [done|by rewrite Hsl]). destruct Hok as (Hp1 & Hp2 & Hp3).
  destruct (dx_read _ r) as [q r1] eqn:Er. destruct (room_poll _ _ _ _ _ Hp3 Hc Er) as (Hl & Hnp & rest1 & -> & Hc1).
  rewrite Hsl in Hall, Hk. destruct q as [[d|e|]|]; cbn [answer_bytes] in *; [|by intros [= <- <- <-]|done|].
  - specialize (Hc1 ltac:(done)). destruct (decide (length d = 0)) as [Hd|Hd]; intros [= <- <- <-].
    + apply length_zero_iff_nil in Hd as ->. exists rest1. split; [|by split; [|left]]. split; [done|]. split; [done|].
      split; [intros _; exact (ep_ends _ _ _ _ Hp3 Hc Er)|]. exists a. change (cp_slice (mkCopy true _ _ _ _)) with (cp_slice c). rewrite Hsl.
      split_and!; [by apply wrote_offered|done|].
      cbn [cp_amt]. replace (length a + length (@nil byte)) with (length a + length (@nil byte) + 0) by lia. by apply counted_read.
    + rewrite length_app. exists rest1. split; [|split; [lia|right; right; lia]]. set (c2 := mkCopy _ _ _ _ _).
      assert (cp_slice c2 = d) as Hs2 by (unfold cp_slice, c2; cbn [cp_pos cp_cap cp_buf]; by rewrite drop_0, take_app_length').
      split; [unfold copy_ok, c2; cbn [cp_pos cp_cap cp_buf]; rewrite length_app, length_drop; lia|]. split; [done|]. split; [cbn; congruence|].
      exists a. rewrite Hs2. split_and!; [by apply wrote_offered|done|]. cbn [cp_amt c2].
      replace (length a + length d) with (length a + length (@nil byte) + length d) by (simpl; lia). by apply counted_read.
  - intros [= <- <- <-]. exists rest1. split; [|simpl; lia]. split; [done|]. split; [by apply Hc1|]. split; [congruence|].
    exists a. rewrite Hsl. split_and!; [by apply wrote_offered|done|done].
Qed.

(** One poll: nothing is lost, duplicated or reordered, it does not panic, and
a copy that ends with success has handed everything over. *)
Lemma link_poll_spec turns k0 a0 all rest r w c p r' w' c' :
  length rest + (if decide (cp_slice c = []) then 0 else 1) < turns -> fits k0 (length all) -> flow k0 a0 all rest r w c ->
  link_poll turns r w c = (p, r', w', c') ->
  match p with
  | Ready (Ok amt) => wrote w' (a0 ++ all) None /\ cp_amt c' = amt
  | Ready (Err _) => handed w' (a0 ++ all)
  | Ready Panic => False
  | Pending => exists rest', flow k0 a0 all rest' r' w' c' /\ length rest' <= length rest
  end.
Proof.
  unfold link_poll. revert rest r w c. induction turns as [|f IH]; intros rest r w c Hf Hfit Hfl; [lia|]. cbn [copy_loop].
  destruct (copy_read dx_read r c) as [[q r1] c1] eqn:Er. pose proof (link_read_spec _ _ _ _ _ _ _ _ _ _ Hfl Er) as Hr.
  destruct q as [[[]|e|]|]; [|intros [= <- <- <- <-]|done|by intros [= <- <- <- <-]].
  2:{ by eapply flow_handed. }
  destruct Hr as (rest1 & Hfl1 & Hle & Hturn). pose proof Hfl1 as (Hok1 & _).
  destruct (copy_write _ _ w c1) as [[q2 w1] c2] eqn:Ew.
  assert (length (cp_slice c1) <= cp_cap c1 - cp_pos c1) as Hfu by (by rewrite cp_slice_length by done).
  destruct (link_write_spec _ _ _ _ _ _ _ _ _ _ _ Hfu Hfit Hfl1 Ew) as [Hrd Hp2].
  destruct q2 as [[[]|e|]|]; [|by intros [= <- <- <- <-]|done|intros [= <- <- <- <-]; exists rest1; by split; [apply Hp2|]].
  destruct Hp2 as [Hfl2 Hs2]. pose proof Hfl2 as (Hok2 & _).
  assert (cp_pos c2 = cp_cap c2) as -> by (by apply cp_slice_nil). rewrite decide_True by done.
  destruct (cp_read_done c2) eqn:Edone.
  - destruct (dx_flush w1) as [q3 w2] eqn:Ef. pose proof (flow_done _ _ _ _ _ _ _ Hfl2 Hs2 Edone) as Hw.
    destruct (ep_flush _ _ _ _ Hw Ef) as [Hnp Hw2]. destruct q3 as [[[]|e|]|]; [| |done|]; intros [= <- <- <- <-]; [done| |].
    + apply rs_handed in Hw2. by rewrite app_nil_r in Hw2.
    + exists rest1. split; [|done]. destruct Hfl2 as (? & ? & Hr2 & a & Ho & Hall & Hk). split_and!; [done|done|done|]. exists a. split_and!; [|done|done].
      rewrite (Hr2 Edone), Hs2, !app_nil_r in Hall. subst a. exists None. auto.
  - intros Hr. pose proof (fun Hlt => IH rest1 r1 w1 c2 Hlt Hfit Hfl2 Hr) as Hp. rewrite Hs2, decide_True in Hp by done.
    assert (length rest1 + 0 < f) as Hlt.
    { destruct Hturn as [Ht|[[Hne ->]|Ht]]; [congruence| |lia]. rewrite decide_False in Hf by done. lia. }
    specialize (Hp Hlt). destruct p as [[amt|e|]|]; try done. destruct Hp as (rest' & ? & ?). exists rest'. split; [done|lia].
Qed.
End CopyEndpoints.

(** What the streams keep through a poll of a copy. *)
Section Keeps.
Context {R W : Type} {rd : nat -> R -> Poll (res bytes) * R} {wr : W -> bytes -> Poll (res nat) * W} {fl : W -> Poll (res unit) * W}.
Context {K : Type} `{CopyCounter K} (P : R -> Prop) (Q : W -> Prop).
Context (rd_keeps : forall cap s p s', P s -> rd cap s = (p, s') -> P s').
Context (wr_keeps : forall buf w p w', Q w -> wr w buf = (p, w') -> Q w') (fl_keeps : forall w p w', Q w -> fl w = (p, w') -> Q w').

Lemma copy_read_keeps r (c : CopyWithCapacity K) p r' c' : P r -> copy_read rd r c = (p, r', c') -> P r'.
Proof.
  intros Hp. unfold copy_read. repeat case_decide; try destruct (cp_read_done c); try (intros; by simplify_eq).
  all: destruct (rd _ r) as [[[d|e|]|] r1] eqn:Er; intros; simplify_eq; by eapply rd_keeps.
Qed.

Lemma copy_write_keeps fuel w (c : CopyWithCapacity K) p w' c' : Q w -> copy_write wr fuel w c = (p, w', c') -> Q w'.
Proof.
  revert w c. induction fuel as [|f IH]; intros w c Hq; cbn [copy_write]; case_decide; try (intros; by simplify_eq).
  destruct (wr w _) as [q w1] eqn:Ew. apply wr_keeps in Ew; [|done].
  destruct q as [[i|e|]|]; try (intros; by simplify_eq). case_decide; [intros; by simplify_eq|].
  destruct (on_write i _); try (intros; by simplify_eq). by apply IH.
Qed.

Lemma copy_loop_keeps fuel r w (c : CopyWithCapacity K) p r' w' c' :
  P r -> Q w -> copy_loop rd wr fl fuel r w c = (p, r', w', c') -> P r' /\ Q w'.
Proof.
  revert r w c. induction fuel as [|f IH]; intros r w c Hp Hq; cbn [copy_loop]; [intros; by simplify_eq|].
  destruct (copy_read rd r c) as [[q r1] c1] eqn:Er. apply copy_read_keeps in Er; [|done].
  destruct q as [[[]|e|]|]; try (intros; by simplify_eq).
  destruct (copy_write wr _ w c1) as [[q2 w1] c2] eqn:Ew. apply copy_write_keeps in Ew; [|done].
  destruct q2 as [[[]|e|]|]; try (intros; by simplify_eq). case_decide; [|by apply IH]. destruct (cp_read_done c2); [|by apply IH].
  destruct (fl w1) as [q3 w2] eqn:Ef. apply fl_keeps in Ef; [|done]. destruct q3 as [[[]|e|]|]; intros; by simplify_eq.
Qed.
End Keeps.

(** ** The relay between endpoints *)

Section LinkedRelay.
Context {In : Type} `{DuplexStream In} {icontent : In -> bytes -> Prop} {iwrote : In -> bytes -> option bytes -> Prop} {ihanded : In -> bytes -> Prop}.
Context `{!Endpoint icontent iwrote ihanded}.
Context {Out : Type} `{DuplexStream Out} {ocontent : Out -> bytes -> Prop} {owrote : Out -> bytes -> option bytes -> Prop} {ohanded : Out -> bytes -> Prop}.
Context `{!Endpoint ocontent owrote ohanded}.
Context {K : Type} `{CopyCounter K}.

(** The two streams, and the two copies over their halves. *)
Record LinkedRelay := mkLinked { lr_in : In; lr_out : Out; lr_down : CopyWithCapacity K; lr_up : CopyWithCapacity K }.

Definition linked_new (down_counter up_counter : K) (inbound : In) (outbound : Out) (relay_buffer_size : nat) : LinkedRelay :=
  mkLinked inbound outbound (Copy_new down_counter (LW_BUFFER_SIZE * relay_buffer_size)) (Copy_new up_counter (LW_BUFFER_SIZE * relay_buffer_size)).

Definition poll_linked (turns : nat) (d : side) (x : LinkedRelay) : Poll (res K) * LinkedRelay :=
  match d with
  | Down => let '(p, o, i, c) := link_poll turns (lr_out x) (lr_in x) (lr_down x) in (p, mkLinked i o c (lr_up x))
  | Up => let '(p, i, o, c) := link_poll turns (lr_in x) (lr_out x) (lr_up x) in (p, mkLinked i o (lr_down x) c)
  end.

(** Both directions flow; [reply] and [data] are what the outbound and the
inbound had to deliver. *)
Definition linked (kd ku : K) (i0 o0 reply data : bytes) (turns : nat) (x : LinkedRelay) : Prop :=
  (exists rest, flow (rcontent := ocontent) (wrote := iwrote) kd i0 reply rest (lr_out x) (lr_in x) (lr_down x) /\ S (length rest) < turns) /\
  (exists rest, flow (rcontent := icontent) (wrote := owrote) ku o0 data rest (lr_in x) (lr_out x) (lr_up x) /\ S (length rest) < turns).

Lemma copy_new_flow {R W} (rcontent : R -> bytes -> Prop) (wrote : W -> bytes -> option bytes -> Prop) (k : K) n a0 rest r w :
  0 < n -> rcontent r rest -> wrote w a0 None -> flow (rcontent := rcontent) (wrote := wrote) k a0 rest rest r w (Copy_new k (LW_BUFFER_SIZE * n)).
Proof.
  intros Hn Hc Hw. unfold flow, copy_ok, cp_slice, Copy_new, LW_BUFFER_SIZE. cbn [cp_pos cp_cap cp_buf cp_amt cp_read_done]. rewrite repeat_length, take_0, drop_nil.
  split; [lia|]. split; [done|]. split; [done|]. exists []. rewrite app_nil_r. split_and!; [by apply wrote_offered|done|apply counted_refl].
Qed.

(** A poll of one direction: the other direction's source and sink are as they
were. *)
Lemma poll_linked_spec kd ku i0 o0 reply data turns d x p x' :
  fits kd (length reply) -> fits ku (length data) -> linked kd ku i0 o0 reply data turns x -> poll_linked turns d x = (p, x') ->
  match p with
  | Pending => linked kd ku i0 o0 reply data turns x'
  | Ready Panic => False
  | Ready r => ihanded (lr_in x') (i0 ++ reply) /\ ohanded (lr_out x') (o0 ++ data) /\
    (is_ok r = true -> match d with Down => iwrote (lr_in x') (i0 ++ reply) None | Up => owrote (lr_out x') (o0 ++ data) None end)
  end.
Proof.
  intros Hfd Hfu [(rd & Hd & Htd) (ru & Hu & Htu)]. destruct x as [i o cd cu]. unfold poll_linked. cbn [lr_in lr_out lr_down lr_up] in *.
  destruct d; cbn [lr_in lr_out lr_down lr_up].
  - destruct (link_poll turns o i cd) as [[[q o1] i1] c1] eqn:Ep. intros [= <- <-].
    assert (length rd + (if decide (cp_slice cd = []) then 0 else 1) < turns) as Hlt by (case_decide; lia).
    pose proof (link_poll_spec _ _ _ _ _ _ _ _ _ _ _ _ Hlt Hfd Hd Ep) as Hq.
    destruct Hu as (Hok & Hc & Hrn & a & (b & Hw & Hb) & Hall).
    destruct (copy_loop_keeps (fun o => owrote o (o0 ++ a) b) (fun i => icontent i ru) (fun _ _ _ _ => ep_read_keeps _ _ _ _ _ _)
      (fun _ _ _ _ => ep_write_keeps _ _ _ _ _) (fun _ _ _ => ep_flush_keeps _ _ _ _) _ _ _ _ _ _ _ _ Hw Hc Ep) as [Hw1 Hc1].
    assert (flow (rcontent := icontent) (wrote := owrote) ku o0 data ru i1 o1 cu) as Hu1 by (split_and!; [done|done|done|]; exists a; split; [by exists b|done]).
    pose proof (flow_handed _ _ _ _ _ _ _ Hu1) as Hh. destruct q as [[amt|e|]|]; try done.
    + destruct Hq as [Hq _]. pose proof (rs_handed _ _ _ Hq) as Hq'. by rewrite app_nil_r in Hq'.
    + destruct Hq as (rest & Hd1 & Hle). split; cbn; [exists rest; split; [done|lia]|by exists ru].
  - destruct (link_poll turns i o cu) as [[[q i1] o1] c1] eqn:Ep. intros [= <- <-].
    assert (length ru + (if decide (cp_slice cu = []) then 0 else 1) < turns) as Hlt by (case_decide; lia).
    pose proof (link_poll_spec _ _ _ _ _ _ _ _ _ _ _ _ Hlt Hfu Hu Ep) as Hq.
    destruct Hd as (Hok & Hc & Hrn & a & (b & Hw & Hb) & Hall).
    destruct (copy_loop_keeps (fun i => iwrote i (i0 ++ a) b) (fun o => ocontent o rd) (fun _ _ _ _ => ep_read_keeps _ _ _ _ _ _)
      (fun _ _ _ _ => ep_write_keeps _ _ _ _ _) (fun _ _ _ => ep_flush_keeps _ _ _ _) _ _ _ _ _ _ _ _ Hw Hc Ep) as [Hw1 Hc1].
    assert (flow (rcontent := ocontent) (wrote := iwrote) kd i0 reply rd o1 i1 cd) as Hd1 by (split_and!; [done|done|done|]; exists a; split; [by exists b|done]).
    pose proof (flow_handed _ _ _ _ _ _ _ Hd1) as Hh. destruct q as [[amt|e|]|]; try done.
    + destruct Hq as [Hq _]. pose proof (rs_handed _ _ _ Hq) as Hq'. by rewrite app_nil_r in Hq'.
    + destruct Hq as (rest & Hu1 & Hle). split; cbn; [by exists rd|exists rest; split; [done|lia]].
Qed.

(** *** Somebody else changes the outbound between two polls

A poll of the relay, after the change that its event names. *)
Section Run.
Context {E : Type} (env : E -> Out -> Out).
Context (env_content : forall e o c, ocontent o c -> ocontent (env e o) c) (env_wrote : forall e o a b, owrote o a b -> owrote (env e o) a b).

Definition poll_env (turns : nat) (e : side * E) (x : LinkedRelay) : Poll (res K) * LinkedRelay :=
  poll_linked turns e.1 (mkLinked (lr_in x) (env e.2 (lr_out x)) (lr_down x) (lr_up x)).

Lemma linked_env kd ku i0 o0 reply data turns e x :
  linked kd ku i0 o0 reply data turns x -> linked kd ku i0 o0 reply data turns (mkLinked (lr_in x) (env e (lr_out x)) (lr_down x) (lr_up x)).
Proof.
  intros [(rd & (? & ? & ?) & ?) (ru & (? & ? & ? & a & (b & Hw & Hb) & ?) & ?)]. split; cbn [lr_in lr_out lr_down lr_up].
  - exists rd. split; [|done]. split; [done|]. split; [by apply env_content|done].
  - exists ru. split; [|done]. split; [done|]. split; [done|]. split; [done|]. exists a. split; [exists b|done]. split; [by apply env_wrote|done].
Qed.

(** The poll that ended the relay. *)
Definition ended_by (turns : nat) (polls : list (side * E)) (x x' : LinkedRelay) (d : side) (r : res K) : Prop :=
  exists before e after x1, polls = before ++ (d, e) :: after /\ relay_run (poll_env turns) before x = (None, x1) /\
  poll_env turns (d, e) x1 = (Ready r, x').

(** The relay in every order of polls: it never panics, what each stream has
put on the wire is of what the other had to deliver, until it ends nothing is
lost, and when a direction ends with success everything was accepted. *)
Lemma linked_run kd ku i0 o0 reply data turns polls x a x' :
  fits kd (length reply) -> fits ku (length data) -> linked kd ku i0 o0 reply data turns x ->
  relay_run (poll_env turns) polls x = (a, x') ->
  ihanded (lr_in x') (i0 ++ reply) /\ ohanded (lr_out x') (o0 ++ data) /\
  match a with
  | None => linked kd ku i0 o0 reply data turns x'
  | Some q => q = Ok tt /\ exists d r, ended_by turns polls x x' d r /\
    (is_ok r = true -> match d with Down => iwrote (lr_in x') (i0 ++ reply) None | Up => owrote (lr_out x') (o0 ++ data) None end)
  end.
Proof.
  intros Hfd Hfu. revert x. induction polls as [|[d e] polls IH]; intros x Hl; cbn [relay_run].
  - intros [= <- <-]. pose proof Hl as [(rd & Hd & _) (ru & Hu & _)]. split_and!; [by eapply flow_handed..|done].
  - destruct (poll_env turns (d, e) x) as [p x1] eqn:Ep.
    pose proof (poll_linked_spec _ _ _ _ _ _ _ _ _ _ _ Hfd Hfu (linked_env _ _ _ _ _ _ _ e _ Hl) Ep) as Hp.
    destruct p as [r|]; cbn [relay_branch].
    + destruct r as [k|y|]; [| |done]; destruct Hp as (? & ? & ?); intros [= <- <-]; (split_and!; [done..|]); exists d;
        [exists (Ok k)|exists (Err y)]; (split; [|done]); by exists [], e, polls, x.
    + intros Hr. destruct (IH _ Hp Hr) as (? & ? & Ha). split_and!; [done..|]. destruct a as [q|]; [|done].
      destruct Ha as (-> & d1 & r & (before & e1 & after & x2 & -> & Hb & Hx) & Hok). split; [done|]. exists d1, r. split; [|done].
      exists ((d, e) :: before), e1, after, x2. split_and!; [done| |done]. cbn [relay_run]. by rewrite Ep.
Qed.
End Run.
End LinkedRelay.

(** ** A transport is an endpoint *)

Section PlainEndpoint.
Context {S : Type} `{DuplexStream S} {content : S -> bytes -> Prop} {good : S -> Prop} {sent : S -> bytes} `{!Transport content good sent}.

Lemma plain_endpoint base : Endpoint content (plain_wrote (good := good) (sent := sent) base) (plain_handed (good := good) (sent := sent) base).
Proof.
  constructor.
  - apply tp_source.
  - apply tp_ends.
  - apply plain_retry.
  - intros s a p s' (Hg & <- & Hb) Hf. destruct (tp_flush _ _ _ Hg Hf) as (? & ? & Hs). by unfold plain_wrote; rewrite Hs.
  - intros cap s a o p s' (Hg & <- & Hb) Hr. destruct (tp_read_keeps _ _ _ _ Hg Hr) as (? & Hs). by unfold plain_wrote; rewrite Hs.
  - intros. by eapply tp_write_keeps.
  - intros. by eapply tp_flush_keeps.
Qed.
End PlainEndpoint.

(** ** Transports *)

(** WebSocket. *)
Section WsTransport.
Context {T : Type} `{WebSocketStream T}.

#[export] Instance ws_duplex : DuplexStream (@BinaryWsStream T) := {|
    dx_read := ws_poll_read;
    dx_write := ws_poll_write;
    dx_flush := ws_poll_flush
  |}.

Lemma ws_read_loop_outgoing fuel cap s p s' :
  ws_read_loop fuel cap s = (p, s') -> ws_outgoing (ws_inner s') = ws_outgoing (ws_inner s).
Proof.
  revert s. induction fuel as [|f IH]; intros [t [rb|]]; cbn [ws_read_loop ws_read_buffer ws_inner].
  1,3: by case_decide; intros [= <- <-].
  all: destruct (ws_poll_next t) as [q t1] eqn:En; apply ws_poll_next_law in En as [Ho _]; rewrite <- Ho.
  all: destruct q as [[[[]|e|]|]|]; try (by intros [= <- <-]); case_decide; try (by intros [= <- <-]).
  intros Hr. by rewrite (IH _ Hr).
Qed.

(** The peer sends no empty message; to a reader one looks like the end. *)
Definition ws_no_empty (s : @BinaryWsStream T) : Prop := ws_read_buffer s <> Some [] /\ Binary [] ∉ ws_incoming (ws_inner s).
Definition ws_content (s : @BinaryWsStream T) (c : bytes) : Prop := ws_no_empty s /\ c = ws_left s.

Lemma ws_next_no_empty (t : T) p t' : ws_poll_next t = (p, t') -> (Binary [] ∉ ws_incoming t) ->
  (Binary [] ∉ ws_incoming t') /\ p <> Ready (Some (Ok (Binary []))).
Proof.
  intros [_ Hn]%ws_poll_next_law Hi. destruct p as [[[m|e|]|]|]; [|by destruct Hn as (_ & ->); split; [apply not_elem_of_nil|]|done| |by rewrite Hn].
  - destruct Hn as [Hm _]. rewrite Hm, not_elem_of_cons in Hi. split; [tauto|]. intros [= ->]. tauto.
  - destruct Hn as (_ & ->). split; [apply not_elem_of_nil|done].
Qed.

Lemma ws_read_loop_no_empty fuel cap s p s' : ws_no_empty s -> ws_read_loop fuel cap s = (p, s') -> ws_no_empty s'.
Proof.
  assert (forall t (rb : bytes), rb <> [] -> Binary [] ∉ ws_incoming t ->
    ws_no_empty (if decide (length rb <= cap) then (Ready (Ok rb), mkBinaryWs t None) else (Ready (Ok (take cap rb)), mkBinaryWs t (Some (drop cap rb)))).2) as Hbuf.
  { intros t rb Hrb Hi. case_decide as Hl; (split; [|done]); cbn; [done|]. intros [= Hd]. apply (f_equal length) in Hd. rewrite length_drop in Hd. simpl in Hd. lia. }
  revert s. induction fuel as [|f IH]; intros [t [rb|]] [Hb Hi]; cbn [ws_read_loop ws_read_buffer ws_inner] in *.
  1,3: intros Hr; specialize (Hbuf t rb ltac:(congruence) Hi); by rewrite Hr in Hbuf.
  all: destruct (ws_poll_next t) as [q t1] eqn:En; pose proof (ws_next_no_empty _ _ _ En Hi) as [Hi1 Hq].
  all: destruct q as [[[[]|e|]|]|]; try (by intros [= <- <-]; split); case_decide; try (by intros [= <- <-]; split).
  apply IH. split; [cbn; congruence|done].
Qed.

#[export] Instance ws_transport : Transport ws_content ws_sending ws_sent.
Proof.
  constructor.
  - constructor. intros cap s c p s' Hcap [Hn ->] Hr. destruct (source_poll cap s _ p s' eq_refl Hr) as (? & ? & c' & ? & Hk).
    split_and!; [done..|]. exists c'. split; [done|]. intros He. split; [exact (ws_read_loop_no_empty _ _ _ _ _ Hn Hr)|by apply Hk].
  - intros cap [t [rb|]] c s' Hcap [[Hb Hi] ->] Hr; unfold ws_left; cbn [ws_inner ws_read_buffer] in *.
    + exfalso. apply Hb. f_equal. unfold dx_read, ws_duplex, ws_poll_read in Hr. cbn [ws_read_loop ws_read_buffer ws_inner] in Hr. case_decide; [congruence|].
      apply (f_equal fst) in Hr. cbn in Hr. injection Hr as Ht. destruct cap; [lia|]. by destruct rb.
    + apply ws_poll_read_step in Hr as (_ & _ & Hz). destruct (Hz Hcap) as [?|(m & ms & Hm & Hd)]; [done|]. cbn [ws_inner] in Hm.
      rewrite Hm, not_elem_of_cons in *. by destruct Hd as [-> | ->], Hi.
  - apply ws_sink.
  - intros s p s' Hg. unfold dx_flush, ws_duplex, ws_poll_flush. destruct (ws_inner_flush _) as [q t] eqn:Ef.
    apply ws_inner_flush_law in Ef as (Ho & _ & Hq). intros [= <- <-]. split; [by destruct q as [[]|]|].
    unfold ws_sending, ws_sent in *. cbn [ws_inner]. by rewrite Ho.
  - intros cap s p s' Hg Hr. apply ws_read_loop_outgoing in Hr. unfold ws_sending, ws_sent in *. by rewrite Hr.
  - intros buf s c p s' [[Hb Hn] ->]. unfold dx_write, ws_duplex, ws_poll_write, ws_content, ws_no_empty, ws_left.
    destruct (ws_poll_ready _) as [q t] eqn:Er. apply ws_poll_ready_law in Er as (_ & Hi & _).
    destruct q as [[[]|e|]|]; [|intros [= <- <-]; cbn [ws_inner ws_read_buffer]; by rewrite Hi..].
    destruct (ws_start_send _ t) as [q t1] eqn:Es. apply ws_start_send_law in Es as [Hi1 _].
    intros [= <- <-]. cbn [ws_inner ws_read_buffer]. by rewrite Hi1, Hi.
  - intros s c p s' [[Hb Hn] ->]. unfold dx_flush, ws_duplex, ws_poll_flush, ws_content, ws_no_empty, ws_left. destruct (ws_inner_flush _) as [q t] eqn:Ef.
    apply ws_inner_flush_law in Ef as (_ & Hi & _). intros [= <- <-]. cbn [ws_inner ws_read_buffer]. by rewrite Hi.
Qed.
End WsTransport.

(** HTTP/2. *)
Section H2Transport.
Context {R W : Type} `{RecvStream R} `{SendStream W}.

#[export] Instance h2_duplex : DuplexStream (@Http2Stream R W) := {|
    dx_read := h2_poll_read;
    dx_write := h2_poll_write;
    dx_flush := h2_poll_flush
  |}.

(** The peer sends no empty frame; to a reader one looks like the end. *)
Definition h2_holds (s : @Http2Stream R W) (c : bytes) : Prop := ([] ∉ rs_frames (h2_recv s)) /\ c = h2_content s.

Lemma h2_read_frames cap (s : @Http2Stream R W) p s' : h2_poll_read cap s = (p, s') ->
  h2_send s' = h2_send s /\ ([] ∉ rs_frames (h2_recv s) -> [] ∉ rs_frames (h2_recv s')).
Proof.
  unfold h2_poll_read. destruct s as [r w [|b buf]]; cbn [h2_buffer h2_recv h2_send]; [|by intros [= <- <-]].
  destruct (poll_data r) as [q r1] eqn:Ed. apply poll_data_law in Ed.
  destruct q as [[[data|e|]|]|]; [| |done| |].
  2-4: intros [= <- <-]; split; [done|]; cbn [h2_recv]; destruct Ed as (_ & -> & _) || destruct Ed as (-> & _); done || intros _; apply not_elem_of_nil.
  destruct Ed as [Hf Hi]. destruct (release_capacity_law (Nat.min cap (length data)) r1) as (r2 & Er & Hf2 & _); [lia|].
  rewrite Er. intros [= <- <-]. split; [done|]. cbn [h2_recv]. rewrite Hf2, Hf, not_elem_of_cons. tauto.
Qed.

#[export] Instance h2_transport : Transport h2_holds (fun _ => True) h2_sent.
Proof.
  constructor.
  - constructor. intros cap s c p s' Hcap [Hn ->] Hr. destruct (source_poll cap s _ p s' eq_refl Hr) as (? & ? & c' & ? & Hk).
    split_and!; [done..|]. exists c'. split; [done|]. intros He. split; [by apply (h2_read_frames cap s p)|by apply Hk].
  - intros cap s c s' Hcap [Hn ->] Hr. apply h2_poll_read_step in Hr as (Hc & _ & _ & _ & Hz). destruct (Hz eq_refl Hcap) as [_ [Hs|(fs & Hf)]].
    + rewrite Hc, Hs. done.
    + rewrite Hf, not_elem_of_cons in Hn. by destruct Hn.
  - apply h2_sink.
  - intros s p s' _ [= <- <-]. done.
  - intros cap s p s' _ Hr. apply h2_read_frames in Hr as [Hs _]. unfold h2_sent. by rewrite Hs.
  - intros buf s c p s' [Hn ->]. unfold dx_write, h2_duplex, h2_poll_write, h2_holds, h2_content.
    destruct (poll_capacity _) as [q w1]. destruct q as [[[n|e|]|]|]; try (by intros [= <- <-]).
    case_decide; [|by intros [= <- <-]]. destruct (send_data _ _ _). by intros [= <- <-].
  - by intros s c p s' Hc [= <- <-].
Qed.
End H2Transport.

(** The scripted streams of Io.v. *)
#[export] Instance script_duplex : DuplexStream Stream := {|
    dx_read cap s := let '(p, r) := poll_read cap (st_rd s) in (p, mkStream r (st_wr s));
    dx_write buf s := let '(p, w) := poll_write (st_wr s) buf in (p, mkStream (st_rd s) w);
    dx_flush s := let '(p, w) := poll_flush (st_wr s) in (p, mkStream (st_rd s) w)
  |}.

(** What a script delivers to a reader that does not stop at an empty read. *)
Fixpoint script_left (s : rd_script) : bytes :=
  match s with
  | [] | RdErr _ :: _ => []
  | RdPending :: s' => script_left s'
  | RdData bs :: s' => bs ++ script_left s'
  end.

Definition script_holds (s : Stream) (c : bytes) : Prop := (RdData [] ∉ st_rd s) /\ c = script_left (st_rd s).
Definition script_good (s : Stream) : Prop := Ready Panic ∉ fl_script (st_wr s).

Lemma script_read_no_empty cap r p r' : RdData [] ∉ r -> poll_read cap r = (p, r') -> RdData [] ∉ r'.
Proof.
  intros Hn. destruct r as [|[|bs|e] r]; cbn [poll_read]; [by intros [= <- <-]|..]; rewrite not_elem_of_cons in Hn.
  - destruct Hn. by intros [= <- <-].
  - destruct Hn. case_decide as Hl; intros [= <- <-]; [done|]. rewrite not_elem_of_cons. split; [|done]. intros [= Hd].
    apply (f_equal length) in Hd. rewrite length_drop in Hd. simpl in Hd. lia.
  - destruct Hn. by intros [= <- <-].
Qed.

#[export] Instance script_transport : Transport script_holds script_good (fun s => wr_log (st_wr s)).
Proof.
  constructor.
  - constructor. intros cap [r w] c p s' _ [Hn ->]. unfold dx_read, script_duplex. cbn [st_rd st_wr] in *. destruct (poll_read cap r) as [q r1] eqn:Er.
    intros [= <- <-]. apply (script_read_no_empty _ _ _ _ Hn) in Er as Hn1. unfold script_holds. cbn [st_rd].
    destruct r as [|[|bs|e] r]; cbn [poll_read] in Er; [| |case_decide as Hl|]; injection Er as <- <-; cbn [answer_bytes script_left].
    + split_and!; [simpl; lia|done|]. by exists [].
    + split_and!; [simpl; lia|done|]. by exists (script_left r).
    + split_and!; [done|done|]. by exists (script_left r).
    + rewrite length_take. split_and!; [lia|done|]. exists (drop cap bs ++ script_left r). by rewrite app_assoc, take_drop.
    + split_and!; [simpl; lia|done|]. exists []. split; [done|]. intros He. by destruct (He e).
  - intros cap [r w] c s' Hcap [Hn ->]. unfold dx_read, script_duplex. cbn [st_rd st_wr] in *.
    destruct r as [|[|bs|e] r]; cbn [poll_read]; [done|done| |done]. rewrite not_elem_of_cons in Hn.
    case_decide; intros [= Hb _]; [by destruct Hn; subst|]. destruct cap; [lia|]. by destruct bs; destruct Hn.
  - constructor. intros buf [r w] p s' Hg. unfold dx_write, script_duplex, script_good in *. cbn [st_rd st_wr] in *.
    destruct (poll_write w buf) as [q w1] eqn:Ew. pose proof (poll_write_spec _ _ _ _ Ew) as Hw. apply poll_write_turn in Ew as (Hf & _).
    intros [= <- <-]. cbn [st_wr]. rewrite Hf. split; [done|]. by destruct q as [[]|].
  - intros [r w] p s' Hg. unfold dx_flush, script_duplex, script_good in *. cbn [st_rd st_wr] in *.
    destruct w as [ws lg fs fc ss sc]. unfold poll_flush. cbn [fl_script wr_script wr_log fl_count sd_script sd_count] in *.
    destruct fs as [|[[[]|e|]|] fs]; rewrite ?not_elem_of_cons in Hg; intros [= <- <-]; cbn [st_wr fl_script wr_log]; split_and!; tauto || done.
  - intros cap [r w] p s' Hg. unfold dx_read, script_duplex. cbn [st_rd st_wr]. destruct (poll_read cap r). by intros [= <- <-].
  - intros buf [r w] c p s' Hc. unfold dx_write, script_duplex. cbn [st_rd st_wr]. destruct (poll_write w buf). by intros [= <- <-].
  - intros [r w] c p s' Hc. unfold dx_flush, script_duplex. cbn [st_rd st_wr]. destruct (poll_flush w). by intros [= <- <-].
Qed.

