(* ===== verification/ShadowLayer.v ===== *)
(** * Shadowsocks as a layer (src/src/proxy/shadowsocks/)

    [CryptoStream] of Shadowsocks.v over any stream that is an [Endpoint] of
    Relay.v, another layer included: the handshake, the frames and the replay
    check of the code over that stream make an endpoint again, and [build_tcp]
    of the builder makes one whose first data is the address of the target.  The
    method [None] makes the plain stream ([keys] is [None]).

    The context of salts is one for the process ([SS_LOCAL_SHARED_CONTEXT]):
    it is a part of the innermost state ([Shared]), every layer reaches it
    through [SaltStore], and the laws of [SaltEndpoint] let anybody else change
    it between two polls. *)

From S2P Require Import Prelude Io StdText Address Aead FrameReader FrameWriter ShadowStream Replay Shadowsocks Transport ShadowBuild Stack Relay.
From Stdlib Require Import ZArith Lia List Strings.Byte.
From stdpp Require Import base option list strings.

(** ** The shared context *)

Class SaltStore (B S : Type) := {
  ctx_of : S -> PingPongBloom B;
  set_ctx : PingPongBloom B -> S -> S
}.

(** [check_nonce_and_set] of the shared context. *)
Definition salt_check {B S : Type} `{Bloom B} `{SaltStore B S} (nonce : bytes) (s : S) : bool * S :=
  let '(seen, ctx) := check_nonce_and_set (ctx_of s) nonce in (seen, set_ctx ctx s).

(** A stream does not look at the context. *)
Class SaltEndpoint {B S : Type} `{SaltStore B S} (content : S -> bytes -> Prop) (wrote : S -> bytes -> option bytes -> Prop) := {
  se_content ctx s c : content s c -> content (set_ctx ctx s) c;
  se_wrote ctx s a o : wrote s a o -> wrote (set_ctx ctx s) a o
}.

Lemma salt_check_keeps {B S : Type} `{Bloom B} `{SaltStore B S} (P : S -> Prop) nonce s seen s' :
  (forall ctx, P (set_ctx ctx s)) -> salt_check nonce s = (seen, s') -> P s'.
Proof. unfold salt_check. destruct (check_nonce_and_set _ nonce). intros Hp [= _ <-]. apply Hp. Qed.

(** *** A transport and the context behind it *)

Section SharedStream.
Context {B : Type} `{Bloom B} {T : Type} `{DuplexStream T}.

Record Shared := mkShared { sh_stream : T; sh_ctx : PingPongBloom B }.

Definition shared_duplex : DuplexStream Shared := {|
    dx_read cap s := let '(p, t) := dx_read cap (sh_stream s) in (p, mkShared t (sh_ctx s));
    dx_write buf s := let '(p, t) := dx_write buf (sh_stream s) in (p, mkShared t (sh_ctx s));
    dx_flush s := let '(p, t) := dx_flush (sh_stream s) in (p, mkShared t (sh_ctx s))
  |}.

Definition shared_store : SaltStore B Shared := {| ctx_of := sh_ctx; set_ctx ctx s := mkShared (sh_stream s) ctx |}.

Context {content : T -> bytes -> Prop} {wrote : T -> bytes -> option bytes -> Prop} {handed : T -> bytes -> Prop} `{!Endpoint content wrote handed}.

Definition shared_content (s : Shared) : bytes -> Prop := content (sh_stream s).
Definition shared_wrote (s : Shared) : bytes -> option bytes -> Prop := wrote (sh_stream s).
Definition shared_handed (s : Shared) : bytes -> Prop := handed (sh_stream s).

Lemma shared_endpoint : Endpoint (H := shared_duplex) shared_content shared_wrote shared_handed.
Proof.
  unfold shared_content, shared_wrote, shared_handed. constructor.
  - constructor. intros cap [t ctx] c p s' Hcap Hc. cbn. destruct (dx_read cap t) as [q t1] eqn:Er. intros [= <- <-]. by eapply room_poll.
  - intros cap [t ctx] c s' Hcap Hc. cbn. destruct (dx_read cap t) as [q t1] eqn:Er. intros [= -> _]. by eapply ep_ends.
  - constructor.
    + intros [t ctx]. apply rs_start.
    + intros buf [t ctx] a p s' Hb Hw. cbn. destruct (dx_write buf t) as [q t1] eqn:Ew. intros [= <- <-]. exact (rs_write _ _ _ _ _ Hb Hw Ew).
    + intros [t ctx]. apply rs_handed.
    + intros [t ctx]. apply rs_handed_mono.
  - intros [t ctx] a p s' Hw. cbn. destruct (dx_flush t) as [q t1] eqn:Ef. intros [= <- <-]. exact (ep_flush _ _ _ _ Hw Ef).
  - intros cap [t ctx] a o p s' Hw. cbn. destruct (dx_read cap t) as [q t1] eqn:Er. intros [= <- <-]. by eapply ep_read_keeps.
  - intros buf [t ctx] c p s' Hc. cbn. destruct (dx_write buf t) as [q t1] eqn:Ew. intros [= <- <-]. by eapply ep_write_keeps.
  - intros [t ctx] c p s' Hc. cbn. destruct (dx_flush t) as [q t1] eqn:Ef. intros [= <- <-]. by eapply ep_flush_keeps.
Qed.

Lemma shared_salt : SaltEndpoint (H := shared_store) shared_content shared_wrote.
Proof. by constructor. Qed.
End SharedStream.
Arguments Shared : clear implicits.

(** ** [CryptoStream] over a stream *)

Section CryptoConn.
Context `{AeadCrypto} {B : Type} `{Bloom B} {T : Type} `{DuplexStream T} `{SaltStore B T}.
(** The spare room of a read buffer, and the turns of a reader's loop. *)
Context (room : bytes -> nat) (turns : nat).

Definition CryptoConn : Type := T * CryptoStream.

Definition conn_read (cap : nat) (s : CryptoConn) : Poll (res bytes) * CryptoConn :=
  let '(p, t, c) := crypto_poll_read dx_read salt_check (dec_loop (src_read_at_least dx_read room) turns) cap s.1 s.2 in (p, (t, c)).

Definition conn_write (buf : bytes) (s : CryptoConn) : Poll (res nat) * CryptoConn :=
  let '(p, t, c) := crypto_poll_write (fun t b => dx_write b t) (sink_write_data dx_write) buf s.1 s.2 in (p, (t, c)).

(** [impl_flush_shutdown!]. *)
Definition conn_flush (s : CryptoConn) : Poll (res unit) * CryptoConn :=
  let '(p, t) := dx_flush s.1 in (p, (t, s.2)).

Definition crypto_duplex : DuplexStream CryptoConn := {|
    dx_read := conn_read;
    dx_write := conn_write;
    dx_flush := conn_flush
  |}.
End CryptoConn.
Arguments CryptoConn : clear implicits.

(** The context is that of the inner stream. *)
Definition layer_store {B T L : Type} `{SaltStore B T} : SaltStore B (T * L) := {|
  ctx_of s := ctx_of s.1;
  set_ctx ctx s := (set_ctx ctx s.1, s.2)
|}.

(** What a reader of the key delivers of the bytes [l], a salt first; in plain
mode all of them. *)
Definition reply_plain `{AeadCrypto} (method : CipherKind) (key : bytes) (l : bytes) : bytes :=
  if decide (method = CipherKind_None) then l
  else match DecryptedReader_new method key (take (salt_len method) l) with
  | Ok r => (decode (dr_cipher r) (drop (salt_len method) l)).1
  | _ => []
  end.

Section CryptoEndpoint.
Context `{AeadCrypto} {B : Type} `{Bloom B} {T : Type} `{DuplexStream T} `{SaltStore B T}.
Context {content : T -> bytes -> Prop} {wrote : T -> bytes -> option bytes -> Prop} {handed : T -> bytes -> Prop}.
Context `{!Endpoint content wrote handed} `{!SaltEndpoint content wrote}.
Context (room : bytes -> nat) (room_pos : forall b, 0 < room b) (turns : nat).
Abbreviation Conn := (CryptoConn T).
#[local] Instance conn_duplex : DuplexStream Conn := crypto_duplex room turns.
#[local] Instance conn_store : SaltStore B Conn := layer_store.
Abbreviation lwrote := (layer_wrote (wrote := wrote) (fun _ => True)).

Definition conn_content (s : Conn) (x : bytes) : Prop :=
  match cs_status s.2 with
  | WaitIv buf capacity method key =>
    method <> CipherKind_None /\ length key = key_len method /\ capacity = salt_len method /\ length buf <= capacity /\
    exists l, content s.1 l /\ x = reply_plain method key (buf ++ l) /\ length (buf ++ l) < turns
  | Established =>
    match cs_dec s.2 with
    | Some (ReaderAead r) => layer_content content turns (s.1, r) x
    | Some ReaderNone => content s.1 x
    | None => False
    end
  end.

(** [base] is what the inner stream had accepted before, and [keys] are the
salt and the cipher of this stream, or nothing in plain mode. *)
Definition conn_wrote (base : bytes) (keys : option (bytes * AeadCipher)) (s : Conn) (a : bytes) (o : option bytes) : Prop :=
  match keys, cs_enc s.2 with
  | Some (salt, cipher), WriterAead e => lwrote base salt cipher (s.1, e) a o
  | None, WriterNone => wrote s.1 (base ++ a) o
  | _, _ => False
  end.

Definition conn_handed (base : bytes) (keys : option (bytes * AeadCipher)) (s : Conn) (x : bytes) : Prop :=
  match keys, cs_enc s.2 with
  | Some (salt, cipher), WriterAead e => layer_handed (handed := handed) base salt cipher (s.1, e) x
  | None, WriterNone => handed s.1 (base ++ x)
  | _, _ => False
  end.

(** *** Reading *)

(** The handshake takes bytes of the source into the buffer. *)
Lemma handshake_source fuel (t : T) buf capacity l p t' buf' :
  content t l -> length buf <= capacity -> capacity - length buf <= fuel ->
  handshake_loop dx_read fuel t buf capacity = (p, t', buf') ->
  p <> Ready Panic /\ length buf' <= capacity /\ (p = Ready (Ok tt) -> length buf' = capacity) /\
  ((forall e, p <> Ready (Err e)) -> exists l', content t' l' /\ buf ++ l = buf' ++ l').
Proof.
  revert t buf l. induction fuel as [|f IH]; intros t buf l Hc Hb Hf; cbn [handshake_loop].
  all: case_decide as Hl; [intros [= <- <- <-]; split_and!; [done|done|done|intros _; by exists l]|try lia].
  assert (0 < capacity - length buf) as Hcap by lia.
  destruct (dx_read _ t) as [q t1] eqn:Er. destruct (room_poll _ _ _ _ _ Hcap Hc Er) as (Hd & Hnp & l1 & -> & Hc1).
  destruct q as [[[|x d]|e|]|]; cbn [answer_bytes] in *; [| | |done|].
  - intros [= <- <- <-]. split_and!; [done..|]. intros He. by destruct (He unexpected_eof).
  - intros Hr. apply IH with (l := l1) in Hr as (? & ? & ? & Hk); [|by apply Hc1|rewrite length_app; lia|rewrite length_app; simpl in *; lia].
    split_and!; [done..|]. intros He. destruct (Hk He) as (l' & ? & E). exists l'. by rewrite <- E, <- app_assoc.
  - intros [= <- <- <-]. split_and!; [done..|]. intros He. by destruct (He e).
  - intros [= <- <- <-]. split_and!; [done..|]. intros _. exists l1. split; [by apply Hc1|done].
Qed.

(** The answer of a poll of a source that ends once. *)
Definition answers (cap : nat) (x : bytes) (p : Poll (res bytes)) (s' : Conn) : Prop :=
  length (answer_bytes p) <= cap /\ p <> Ready Panic /\ (p = Ready (Ok []) -> x = []) /\
  exists x', x = answer_bytes p ++ x' /\ ((forall e, p <> Ready (Err e)) -> conn_content s' x').

Lemma answers_err cap x e s' : answers cap x (Ready (Err e)) s'.
Proof. split_and!; [simpl; lia|done|done|]. exists x. split; [done|]. intros He. by destruct (He e). Qed.

(** A reader that is established. *)
Lemma established_poll t r enc cap x p s' :
  0 < cap -> layer_content content turns (t, r) x ->
  (let '(p, t, r) := dec_loop (src_read_at_least dx_read room) turns cap t r in
    (p, (t, mkCryptoStream (Some (ReaderAead r)) enc Established))) = (p, s') ->
  answers cap x p s'.
Proof.
  intros Hcap Hc. destruct (dec_loop _ _ _ _ _) as [[q t1] r1] eqn:Ed. intros [= <- <-].
  pose proof (layer_source (poll := dx_read) (content := content) room room_pos turns) as Hsrc.
  assert (layer_poll dx_read room turns cap (t, r) = (q, (t1, r1))) as Hl by (unfold layer_poll; cbn [fst snd]; by rewrite Ed).
  destruct (room_poll cap (t, r) x q (t1, r1) Hcap Hc Hl) as (? & ? & ?). split_and!; [done..| |done]. intros ->.
  exact (layer_ends_once room room_pos turns ep_ends cap (t, r) x (t1, r1) Hcap Hc Hl).
Qed.

Lemma conn_poll cap (s : Conn) x p s' : 0 < cap -> conn_content s x -> conn_read room turns cap s = (p, s') -> answers cap x p s'.
Proof.
  destruct s as [t c]. intros Hcap Hx. unfold conn_read, crypto_poll_read, poll_read_handshake. cbn [fst snd]. unfold conn_content in Hx. cbn [fst snd] in Hx.
  destruct (cs_status c) as [buf capacity method key|] eqn:Es.
  2:{ destruct (cs_dec c) as [[|r]|] eqn:Ed; [| |done].
  { destruct (dx_read cap t) as [q t1] eqn:Er. intros [= <- <-]. destruct (room_poll _ _ _ _ _ Hcap Hx Er) as (? & ? & x' & ? & Hk).
    split_and!; [done..| |].
    - intros ->. by eapply ep_ends.
    - exists x'. split; [done|]. intros He. unfold conn_content. cbn [fst snd]. rewrite Es, Ed. by apply Hk. }
  intros Hr. eapply (established_poll t r (cs_enc c)); [done|done|].
  destruct (dec_loop _ _ _ _ _) as [[q t1] r1]. rewrite <- Es. exact Hr. }
  destruct Hx as (Hm & Hk & -> & Hb & l & Hc & -> & Hlt).
  destruct (handshake_loop dx_read _ t buf _) as [[q t1] buf1] eqn:Eh.
  destruct (handshake_source _ _ _ _ _ _ _ _ Hc Hb (Nat.le_refl _) Eh) as (Hnp & Hb1 & Hfull & Hrest).
  destruct q as [[[]|e|]|]; [|intros [= <- <-]; apply answers_err|done|].
  - destruct (Hrest ltac:(done)) as (l1 & Hc1 & El). specialize (Hfull eq_refl).
    destruct (salt_check buf1 t1) as [seen t2] eqn:Ec. apply (salt_check_keeps (fun t => content t l1)) in Ec as Hc2; [|intros ctx; by apply se_content].
    destruct seen; [intros [= <- <-]; apply answers_err|].
    rewrite decide_False by done. assert (exists k, AeadCipher_new method key buf1 = Ok k) as [a Ea] by (destruct (AeadCipher_new_ok method key buf1 Hm Hk); by eauto).
    destruct (EncryptedWriter_new_ok _ _ _ _ Ea) as [_ Hd]. rewrite Hd. cbn [mbind res_bind cs_dec cs_enc cs_status].
    assert (reply_plain method key (buf ++ l) = (decode a l1).1) as ->.
    { unfold reply_plain. rewrite decide_False, El by done. rewrite take_app_length', drop_app_length' by done. by rewrite Hd. }
    intros Hr. eapply (established_poll t2 _ (cs_enc c)); [done|apply (new_reader_content (content := content) a _ l1); [done|]|].
    + rewrite El, length_app in Hlt. lia.
    + destruct (dec_loop _ _ _ _ _) as [[q1 t3] r1]. exact Hr.
  - intros [= <- <-]. split_and!; [simpl; lia|done|done|]. eexists. split; [done|]. intros _.
    destruct (Hrest ltac:(done)) as (l1 & Hc1 & El). unfold conn_content. cbn [cs_status fst snd]. split_and!; [done..|].
    exists l1. by rewrite <- El.
Qed.

(** *** What a poll of one half leaves of the other *)

Section HandshakeKeeps.
Context (P : T -> Prop) (rd_keeps : forall cap s p s', P s -> dx_read cap s = (p, s') -> P s').
Lemma handshake_loop_keeps fuel (s : T) b cap p s' b' : P s -> handshake_loop dx_read fuel s b cap = (p, s', b') -> P s'.
Proof.
  revert s b. induction fuel as [|f IH]; intros s b Hp; cbn [handshake_loop]; case_decide; try (intros; by simplify_eq).
  destruct (dx_read _ s) as [q s1] eqn:Er. apply rd_keeps in Er; [|done].
  destruct q as [[[|x d]|e|]|]; try (intros; by simplify_eq). by apply IH.
Qed.
End HandshakeKeeps.

(** A poll of the reader keeps what the inner stream keeps, and the writer. *)
Lemma conn_read_inner (P : T -> Prop) cap (s : Conn) p s' :
  (forall cap t p t', P t -> dx_read cap t = (p, t') -> P t') -> (forall ctx t, P t -> P (set_ctx ctx t)) -> P s.1 ->
  conn_read room turns cap s = (p, s') -> P s'.1 /\ cs_enc s'.2 = cs_enc s.2.
Proof.
  destruct s as [t c]. intros HP Hctx Ht. unfold conn_read, crypto_poll_read, poll_read_handshake. cbn [fst snd] in *.
  assert (forall t1 (c1 : CryptoStream), P t1 -> cs_enc c1 = cs_enc c ->
    (let '(p, t, c) := match cs_dec c1 with
    | None => (Ready Panic, t1, c1)
    | Some ReaderNone => let '(p, s) := dx_read cap t1 in (p, s, c1)
    | Some (ReaderAead r) => let '(p, s, r) := dec_loop (src_read_at_least dx_read room) turns cap t1 r in
    (p, s, mkCryptoStream (Some (ReaderAead r)) (cs_enc c1) (cs_status c1))
    end in (p, (t, c))) = (p, s') -> P s'.1 /\ cs_enc s'.2 = cs_enc c) as Hest.
  { intros t1 c1 Ht1 Hc1. destruct (cs_dec c1) as [[|r]|].
    - destruct (dx_read cap t1) as [q t2] eqn:Er. intros [= <- <-]. split; [by eapply HP|done].
    - destruct (dec_loop _ _ _ _ _) as [[q t2] r1] eqn:Ed. intros [= <- <-]. split; [|done]. by eapply (dec_loop_keeps P HP).
    - by intros [= <- <-]. }
  destruct (cs_status c) as [buf capacity method key|]; [|by apply Hest].
  destruct (handshake_loop dx_read _ t buf _) as [[q t1] buf1] eqn:Eh. apply (handshake_loop_keeps P HP) in Eh; [|done].
  destruct q as [[[]|x|]|]; [|by intros [= <- <-]..].
  destruct (salt_check buf1 t1) as [seen t2] eqn:Ec. apply (salt_check_keeps P) in Ec; [|intros ctx; by apply Hctx].
  destruct seen; [by intros [= <- <-]|].
  match goal with |- context [match ?d with Ok _ => _ | Err _ => _ | Panic => _ end] => destruct d as [dec|x|] end;
    [by apply Hest|by intros [= <- <-]..].
Qed.

Lemma conn_content_keeps t1 t2 dec enc enc' st x : (forall l, content t1 l -> content t2 l) ->
  conn_content (t1, mkCryptoStream dec enc st) x -> conn_content (t2, mkCryptoStream dec enc' st) x.
Proof.
  intros Hk Hx. unfold conn_content in *. cbn [cs_status cs_dec fst snd] in *. destruct st as [buf1 capacity method key|].
  - destruct Hx as (? & ? & ? & ? & l & ? & ?). split_and!; [done..|]. exists l. by auto.
  - destruct dec as [[|r]|]; [by apply Hk| |done]. destruct Hx as [?|(? & ? & l & ? & ?)]; [by left|right]. split; [done|]. split; [done|]. exists l. by auto.
Qed.

Lemma conn_flush_spec base keys (s : Conn) a p s' : conn_wrote base keys s a None -> conn_flush s = (p, s') ->
  p <> Ready Panic /\ conn_wrote base keys s' a None.
Proof.
  destruct s as [t c]. unfold conn_wrote, conn_flush. cbn [fst snd]. destruct (dx_flush t) as [q t1] eqn:Ef. intros Hw [= <- <-]. cbn [fst snd].
  destruct keys as [[salt cipher]|], (cs_enc c) as [|e]; try done; [|exact (ep_flush _ _ _ _ Hw Ef)].
  destruct (layer_wrote_none _ _ _ _ _ _ _ Hw) as [b Hb]. split; [exact (proj1 (ep_flush _ _ _ _ Hb Ef))|].
  eapply layer_wrote_none_keeps; [exact Hw|]. intros b1 Hb1. exact (proj2 (ep_flush _ _ _ _ Hb1 Ef)).
Qed.

Lemma conn_retry base keys : RetrySink (conn_write (T := T)) (conn_wrote base keys) (conn_handed base keys).
Proof.
  assert (forall salt cipher, RetrySink (layer_write dx_write) (lwrote base salt cipher) (layer_handed (handed := handed) base salt cipher)) as Hl
    by (intros; apply layer_retry, shadow_encode_ok).
  constructor; unfold conn_wrote, conn_handed.
  - intros [t c] a buf. cbn [fst snd]. destruct keys as [[salt cipher]|], (cs_enc c); try done; apply rs_start.
  - intros buf [t c] a p s' Hne. cbn [fst snd]. unfold conn_write, crypto_poll_write. cbn [fst snd].
    destruct keys as [[salt cipher]|], (cs_enc c) as [|e] eqn:Ee; try done; intros Hw.
    + destruct (poll_write_encrypted _ _ _ _) as [[q t1] e1] eqn:Ep. intros [= <- <-].
      apply (rs_write buf (t, e) a q (t1, e1) Hne Hw). unfold layer_write. cbn [fst snd]. by rewrite Ep.
    + destruct (dx_write buf t) as [q t1] eqn:Ew. intros [= <- <-]. cbn [fst snd]. rewrite Ee. pose proof (rs_write _ _ _ _ _ Hne Hw Ew) as Hq.
      destruct q as [[n|e|]|]; by rewrite <- ?app_assoc in Hq.
  - intros [t c] a o. cbn [fst snd]. destruct keys as [[salt cipher]|], (cs_enc c); try done; [apply rs_handed|]. intros Hw. rewrite app_assoc. by apply rs_handed.
  - intros [t c] x y. cbn [fst snd]. destruct keys as [[salt cipher]|], (cs_enc c); try done; [apply rs_handed_mono|].
    intros Hx Hp. eapply rs_handed_mono; [exact Hx|]. by apply prefix_app.
Qed.

(** A Shadowsocks stream over an endpoint is an endpoint. *)
Lemma conn_endpoint base keys : Endpoint (H := conn_duplex) conn_content (conn_wrote base keys) (conn_handed base keys).
Proof.
  constructor.
  - constructor. intros cap s x p s' Hcap Hx Hp. by destruct (conn_poll _ _ _ _ _ Hcap Hx Hp) as (? & ? & _ & ?).
  - intros cap s x s' Hcap Hx Hp. destruct (conn_poll _ _ _ _ _ Hcap Hx Hp) as (_ & _ & He & _). by apply He.
  - apply conn_retry.
  - intros. by eapply conn_flush_spec.
  - intros cap s a o p s' Hw Hr. destruct (conn_read_inner (fun t => forall b x, wrote s.1 b x -> wrote t b x) cap s p s') as [Hk He]; [| |done|exact Hr|].
    + intros cap1 t q t1 Ht Hq b x Hb. eapply ep_read_keeps; [by apply Ht|exact Hq].
    + intros ctx t Ht b x Hb. by apply se_wrote, Ht.
    + unfold conn_wrote in *. rewrite He. destruct keys as [[salt cipher]|], (cs_enc s.2) as [|e]; try done; [|by apply Hk]. by eapply layer_wrote_keeps.
  - intros buf [t [dec enc st]] x p s' Hx. change (dx_write buf (t, mkCryptoStream dec enc st)) with (conn_write buf (t, mkCryptoStream dec enc st)).
    unfold conn_write, crypto_poll_write. cbn [fst snd cs_enc cs_dec cs_status].
    assert (forall l buf t1 p t2, content t1 l -> dx_write buf t1 = (p, t2) -> content t2 l) as Hk by (intros; by eapply ep_write_keeps).
    destruct enc as [|e].
    + destruct (dx_write buf t) as [q t1] eqn:Ew. intros [= <- <-]. eapply conn_content_keeps; [|exact Hx]. eauto.
    + destruct (poll_write_encrypted _ _ _ _) as [[q t1] e1] eqn:Ep. intros [= <- <-]. eapply conn_content_keeps; [|exact Hx].
      intros l Hl. by eapply (write_encrypted_keeps (fun t => content t l) (Hk l)).
  - intros [t [dec enc st]] x p s' Hx. change (dx_flush (t, mkCryptoStream dec enc st)) with (conn_flush (t, mkCryptoStream dec enc st)).
    unfold conn_flush. cbn [fst snd]. destruct (dx_flush t) as [q t1] eqn:Ef. intros [= <- <-]. eapply conn_content_keeps; [|exact Hx]. intros. by eapply ep_flush_keeps.
Qed.

Lemma conn_salt base keys : SaltEndpoint (H := conn_store) conn_content (conn_wrote base keys).
Proof.
  constructor.
  - intros ctx [t [dec enc st]] x Hx. eapply conn_content_keeps; [|exact Hx]. intros. by apply se_content.
  - intros ctx [t c] a o. unfold conn_wrote. cbn [fst snd set_ctx conn_store layer_store].
    destruct keys as [[salt cipher]|], (cs_enc c); try done; intros Hw; [|by apply se_wrote]. eapply layer_wrote_keeps; [exact Hw|]. intros. by apply se_wrote.
Qed.
End CryptoEndpoint.

(** ** The builder *)

Section ShadowNew.
Context `{AeadCrypto} {B : Type} `{Bloom B}.

(** A new stream: a salt of the method, and the cipher of its key. *)
Lemma crypto_stream_new_cipher (ctx : PingPongBloom B) key method rng c ctx' rng' :
  method <> CipherKind_None -> length key = key_len method -> CryptoStream_new ctx key method rng = Some (Ok (c, ctx'), rng') ->
  exists salt cipher, length salt = salt_len method /\ AeadCipher_new method key salt = Ok cipher /\
  c = mkCryptoStream None (WriterAead (mkEncryptedWriter cipher EncStart salt 0 0)) (WaitIv [] (salt_len method) method key).
Proof.
  intros Hm Hk. unfold CryptoStream_new. rewrite decide_False by done.
  assert (0 < salt_len method) as Hn by (destruct method; [done|simpl; lia..]).
  assert (forall fuel ctx rng salt ctx' rng', fresh_salt fuel ctx (salt_len method) rng = Some (salt, ctx', rng') -> length salt = salt_len method) as Hl.
  { clear - Hn. induction fuel as [|f IH]; intros ctx rng salt ctx' rng'; cbn [fresh_salt]; rewrite decide_True by done;
      destruct (random_iv_or_salt _ rng) as [[iv rng1]|] eqn:Er; try done; destruct (check_nonce_and_set ctx iv) as [[] ctx1]; try done; [| |];
      first [by apply IH|intros [= <- _ _]; by apply random_iv_nonzero in Er as [Hl _]]. }
  destruct (fresh_salt _ _ _ _) as [[[iv ctx1] rng1]|] eqn:Ef; [|done]. apply Hl in Ef.
  destruct (AeadCipher_new_ok method key iv Hm Hk) as [a Ea]. destruct (EncryptedWriter_new_ok _ _ _ _ Ea) as [He _]. rewrite He.
  intros [= <- _ _]. by eexists iv, _.
Qed.

(** What a server reads behind a salt is of the data, whatever part of the salt
and the frames it has. *)
Lemma reply_plain_handed method key salt cipher ds f c1 y :
  method <> CipherKind_None -> length salt = salt_len method -> AeadCipher_new method key salt = Ok cipher ->
  Forall (fun d => length d <= fe_max) ds -> encode_all cipher ds = Ok (f, c1) -> y `prefix_of` salt ++ f ->
  reply_plain method key y `prefix_of` concat ds.
Proof.
  intros Hm Hl Hc Hds Ef [k Hk]. unfold reply_plain. rewrite decide_False by done. destruct (shadow_encode_decode cipher ds Hds) as (g & c2 & Eg & Hdec).
  rewrite Ef in Eg. injection Eg as <- <-. destruct (decide (length y <= salt_len method)) as [Hle|Hgt].
  - rewrite (drop_ge y) by done. destruct (DecryptedReader_new _ _ _) as [r|e|]; [|apply prefix_nil..].
    rewrite decode_unfold. unfold header_step. pose proof (ff_header_len_pos (C := AeadCipher)).
    rewrite decide_True by (simpl length; lia). apply prefix_nil.
  - assert (take (salt_len method) y = salt) as Ht.
    { apply (f_equal (take (salt_len method))) in Hk. rewrite <- Hl in *. by rewrite take_app_length, take_app_le in Hk by lia. }
    rewrite Ht. destruct (EncryptedWriter_new_ok _ _ _ _ Hc) as [_ Hd]. rewrite Hd. cbn [dr_cipher].
    rewrite <- (take_drop (salt_len method) y), Ht, <- app_assoc in Hk. apply app_inv_head in Hk. subst f.
    destruct (decode_app cipher (drop (salt_len method) y) k) as [Hp _]. by rewrite Hdec in Hp.
Qed.

(** With the whole of them it reads all the data. *)
Lemma reply_plain_whole method key salt cipher ds f c1 :
  method <> CipherKind_None -> length salt = salt_len method -> AeadCipher_new method key salt = Ok cipher ->
  Forall (fun d => length d <= fe_max) ds -> encode_all cipher ds = Ok (f, c1) -> reply_plain method key (salt ++ f) = concat ds.
Proof.
  intros Hm Hl Hc Hds Ef. unfold reply_plain. rewrite decide_False by done. destruct (shadow_encode_decode cipher ds Hds) as (g & c2 & Eg & Hdec).
  rewrite Ef in Eg. injection Eg as <- <-. rewrite take_app_length', drop_app_length' by done.
  destruct (EncryptedWriter_new_ok _ _ _ _ Hc) as [_ Hd]. rewrite Hd. cbn [dr_cipher]. by rewrite Hdec.
Qed.

Lemma reply_plain_length method key l : length (reply_plain method key l) <= length l.
Proof.
  unfold reply_plain. case_decide; [done|]. destruct (DecryptedReader_new _ _ _) as [r|e|]; [|simpl; lia..].
  pose proof (decode_length (dr_cipher r) (drop (salt_len method) l)). rewrite length_drop in *. lia.
Qed.

Context {T : Type} `{DuplexStream T} `{SaltStore B T}.

(** [build_tcp], polled [fuel] times: the address is written through the new
stream. *)
Definition conn_build (fuel : nat) (b : ShadowsocksBuilder) (rng : list bytes) (t : T) : option (Poll (res (CryptoConn T))) :=
  match ss_build_tcp conn_write fuel (ctx_of t) b rng t with
  | None => None
  | Some (Pending, _, _) => Some Pending
  | Some (Ready r, t, _) => Some (Ready ('(c, ctx) ← r; Ok (set_ctx ctx t, c)))
  end.

Context {content : T -> bytes -> Prop} {wrote : T -> bytes -> option bytes -> Prop} {handed : T -> bytes -> Prop}.
Context `{!Endpoint content wrote handed} `{!SaltEndpoint content wrote}.
Context (room : bytes -> nat) (room_pos : forall b, 0 < room b) (turns : nat).

(** The salt and the cipher of a key. *)
Definition keys_ok (method : CipherKind) (key : bytes) (keys : option (bytes * AeadCipher)) : Prop :=
  match keys with
  | Some (salt, cipher) => method <> CipherKind_None /\ length salt = salt_len method /\ AeadCipher_new method key salt = Ok cipher
  | None => method = CipherKind_None
  end.

(** To a server what was handed over is of the data. *)
Lemma conn_handed_serve method key base keys s x : keys_ok method key keys -> conn_handed (handed := handed) base keys s x ->
  exists u, handed s.1 (base ++ u) /\ forall y, y `prefix_of` u -> reply_plain method key y `prefix_of` x.
Proof.
  intros Hk. unfold conn_handed. destruct keys as [[salt cipher]|], (cs_enc s.2) as [|e]; try done.
  - destruct Hk as (Hm & Hsl & Hc). intros (ds & f & c2 & Hds & Ef & Hx & Hp). exists (salt ++ f). split; [done|]. intros y Hy.
    etrans; [|exact Hp]. by eapply reply_plain_handed.
  - intros Hx. exists x. split; [done|]. intros y Hy. unfold reply_plain. by rewrite decide_True.
Qed.

(** And all of it when a write has ended. *)
Lemma conn_wrote_serve method key base keys s a : keys_ok method key keys -> a <> [] -> conn_wrote (wrote := wrote) base keys s a None ->
  exists u, wrote s.1 (base ++ u) None /\ reply_plain method key u = a.
Proof.
  intros Hk Ha. unfold conn_wrote. destruct keys as [[salt cipher]|], (cs_enc s.2) as [|e]; try done.
  - destruct Hk as (Hm & Hsl & Hc). intros Hw. destruct (layer_wrote_all _ _ _ _ _ _ _ Hw) as (ds & f & c2 & Hds & <- & Ef & Hw1); [by right|].
    exists (salt ++ f). split; [done|]. by eapply reply_plain_whole.
  - intros Hw. exists a. split; [done|]. unfold reply_plain. by rewrite decide_True.
Qed.

(** What a connection has written when it is built, and will read. *)
Lemma conn_build_ok fuel b rng t base l s :
  (sb_method b <> CipherKind_None -> length (sb_key b) = key_len (sb_method b)) -> wrote t base None -> content t l -> length l < turns ->
  conn_build fuel b rng t = Some (Ready (Ok s)) ->
  exists keys, keys_ok (sb_method b) (sb_key b) keys /\ conn_wrote (wrote := wrote) base keys s (Address.encode (sb_addr b)) None /\
  conn_content (content := content) turns s (reply_plain (sb_method b) (sb_key b) l).
Proof.
  intros Hk Hw Hc Hl. unfold conn_build, ss_build_tcp.
  destruct (CryptoStream_new _ _ _ _) as [[[[c0 ctx]|e|] rng2]|] eqn:Hnew; [|done..].
  assert (exists keys, keys_ok (sb_method b) (sb_key b) keys /\ conn_wrote (wrote := wrote) base keys (t, c0) [] None /\
    conn_content (content := content) turns (t, c0) (reply_plain (sb_method b) (sb_key b) l)) as (keys & Hok & Hw0 & Hc0).
  { destruct (decide (sb_method b = CipherKind_None)) as [Hm|Hm].
    - unfold CryptoStream_new in Hnew. rewrite decide_True in Hnew by done. injection Hnew as <- _ _. exists None. split; [done|].
      unfold conn_wrote, conn_content, reply_plain. rewrite app_nil_r, decide_True by done. done.
    - destruct (crypto_stream_new_cipher _ _ _ _ _ _ _ Hm (Hk Hm) Hnew) as (salt & cipher & Hsl & Hcip & ->). exists (Some (salt, cipher)). split; [done|]. split.
      + unfold conn_wrote. cbn [fst snd cs_enc]. apply layer_wrote_new; try done. by left.
      + unfold conn_content. cbn [fst snd cs_status]. split_and!; [done|by apply Hk|done|simpl; lia|]. by exists l. }
  destruct (sink_write_all _ fuel _ (t, c0)) as [q [t2 c2]] eqn:Ew. destruct q as [[[]|x|]|]; try done. intros [= <-].
  exists keys. split; [done|]. pose proof (conn_endpoint (content := content) room room_pos turns base keys) as Hep.
  destruct (endpoint_write_all (H := crypto_duplex room turns) fuel (write_to_buf (sb_addr b) []) (t, c0) []
    (reply_plain (sb_method b) (sb_key b) l) (t2, c2) Hw0 Hc0 Ew) as [Hw2 Hc2].
  rewrite write_to_buf_list in Hw2. pose proof (conn_salt (content := content) (wrote := wrote) turns base keys) as Hsalt. split.
  - exact (se_wrote (SaltEndpoint := Hsalt) ctx (t2, c2) _ _ Hw2).
  - exact (se_content (SaltEndpoint := Hsalt) ctx (t2, c2) _ Hc2).
Qed.
End ShadowNew.
