(* ===== verification/VmessLayer.v ===== *)
(** * VMess as a layer (src/src/proxy/vmess/)

    [VmessStream] of VmessStream.v over any stream that is an [Endpoint] of
    Relay.v: the request header, which the first writes send, and the frames
    behind it; the response header and the frames behind that.  The build is
    the release one, whose frame counter wraps.

    [vmess_serve] is a server that opens the header and then reads the frames
    with the cipher the header names; what a stream hands over is, to it, of the
    data written.  Its keys are derived as the client derives them
    ([vmess_security]): for AES-128-GCM as the protocol says, for
    ChaCha20-Poly1305 by the client's own rule, which [chacha_key_halves_constant]
    of VmessStream.v states. *)

From S2P Require Import Prelude Io StdText Address Aead FrameReader FrameWriter VmessKdf.
From S2P Require Import VmessBody VmessHeader VmessStream Replay Transport Stack Relay ShadowLayer.
From Stdlib Require Import ZArith Lia List Strings.Byte.
From stdpp Require Import base option list strings.

(** The cipher of a direction that can go on: [vmess_nonce] slices the IV. *)
Definition vmess_fit (c : VmessCipher) : Prop := 12 <= length (vc_iv c).

Lemma vmess_fit_next c : vmess_fit c -> 12 <= length (vc_iv c) /\ exists c', count_next false c = Ok c' /\ vmess_fit c'.
Proof. intros Hf. split; [done|]. unfold count_next, chk. case_decide; cbn [mbind res_bind]; eexists; by split. Qed.

(** The frames of the release build. *)
#[export] Hint Extern 0 (FrameFormat VmessCipher) => exact (vmess_format false) : typeclass_instances.
#[export] Hint Extern 0 (FrameEncoder VmessCipher) => exact (vmess_encoder false) : typeclass_instances.

(** ** [VmessStream] over a stream *)

Section VmessConn.
Context `{AeadCrypto} {T : Type} `{DuplexStream T}.
(** The spare room of a read buffer, and the turns of a reader's loop. *)
Context (room : bytes -> nat) (turns : nat).

Definition VmessConn : Type := T * VmessStream.

Definition vconn_read (cap : nat) (s : VmessConn) : Poll (res bytes) * VmessConn :=
  let '(p, t, v) := vmess_poll_read (src_read_at_least dx_read room) (dec_loop (src_read_at_least dx_read room) turns) cap s.1 s.2 in (p, (t, v)).

Definition vconn_write (buf : bytes) (s : VmessConn) : Poll (res nat) * VmessConn :=
  let '(p, t, v) := vmess_poll_write false (fun t b => dx_write b t) (sink_write_data dx_write) buf s.1 s.2 in (p, (t, v)).

(** [impl_flush_shutdown!]. *)
Definition vconn_flush (s : VmessConn) : Poll (res unit) * VmessConn :=
  let '(p, t) := dx_flush s.1 in (p, (t, s.2)).

Definition vmess_duplex : DuplexStream VmessConn := {|
    dx_read := vconn_read;
    dx_write := vconn_write;
    dx_flush := vconn_flush
  |}.
End VmessConn.
Arguments VmessConn : clear implicits.

Section VmessEndpoint.
Context `{AeadCrypto} `{HmacSha256Crypto} `{BlockCrypto} `{Sha256Crypto} {T : Type} `{DuplexStream T}.
Context {content : T -> bytes -> Prop} {wrote : T -> bytes -> option bytes -> Prop} {handed : T -> bytes -> Prop}.
Context `{!Endpoint content wrote handed}.
Context (room : bytes -> nat) (room_pos : forall b, 0 < room b) (turns : nat).
Abbreviation Conn := (VmessConn T).
#[local] Instance vconn_duplex : DuplexStream Conn := vmess_duplex room turns.
Abbreviation vlayer_wrote := (layer_wrote (wrote := wrote) vmess_fit).

(** A response header that a client of the byte [respv] accepts. *)
Definition response_ok (respv : byte) (payload : bytes) : Prop :=
  nth 0 payload x00 = respv /\ nth 2 payload x00 = x00 /\ 4 <= length payload /\ (Z.of_nat (length payload) < 65536)%Z.

(** The server's bytes are a response header, whole or in part read, and
frames on which the reader does not stop the program. *)
Definition vconn_content (s : Conn) (x : bytes) : Prop :=
  let v := s.2 in
  match vs_state_1 v with
  | RWait =>
    let hr := vs_header_reader v in
    hr_received_resp hr = false /\ hr_read_zero hr = false /\ dr_state (vs_reader v) = DecLength /\ dr_read_zero (vs_reader v) = false /\
    exists l payload rest, content s.1 l /\ response_left hr l payload rest /\ response_ok (hr_respv hr) payload /\
    (decode (dr_cipher (vs_reader v)) rest).2 <> EndPanic /\ x = (decode (dr_cipher (vs_reader v)) rest).1 /\ length rest < turns
  | RBody => layer_content content turns (s.1, vs_reader v) x
  | RDone => False
  end.

(** [base] is what the inner stream had accepted before, [hdr] the request
header, and [c0] the cipher of the first frame. *)
Definition vconn_wrote (base hdr : bytes) (c0 : VmessCipher) (s : Conn) (a : bytes) (o : option bytes) : Prop :=
  let v := s.2 in
  match vs_state_2 v with
  | WHeader =>
    vs_header_buffer v = hdr /\ a = [] /\ at_boundary (vs_writer v) /\ ew_cipher (vs_writer v) = c0 /\ ew_buf (vs_writer v) = [] /\ vmess_fit c0 /\
    match o with
    | None => vs_header_pos v = 0 /\ wrote s.1 base None
    | Some _ => vs_header_pos v <= length hdr /\
      offered (wrote := wrote) s.1 (base ++ take (vs_header_pos v) hdr) (drop (vs_header_pos v) hdr)
    end
  | WBody => vlayer_wrote (base ++ hdr) [] c0 (s.1, vs_writer v) a o
  | WDone => False
  end.

Definition vconn_handed (base hdr : bytes) (c0 : VmessCipher) (s : Conn) (x : bytes) : Prop :=
  layer_handed (handed := handed) (base ++ hdr) [] c0 (s.1, vs_writer s.2) x.

(** *** Reading *)

(** The answer of a poll of a source that ends once. *)
Definition vanswers (cap : nat) (x : bytes) (p : Poll (res bytes)) (s' : Conn) : Prop :=
  length (answer_bytes p) <= cap /\ p <> Ready Panic /\ (p = Ready (Ok []) -> x = []) /\
  exists x', x = answer_bytes p ++ x' /\ ((forall e, p <> Ready (Err e)) -> vconn_content s' x').

Lemma vanswers_err cap x e s' : vanswers cap x (Ready (Err e)) s'.
Proof. split_and!; [simpl; lia|done|done|]. exists x. split; [done|]. intros He. by destruct (He e). Qed.

Lemma body_answers cap t v x p s' : 0 < cap -> layer_content content turns (t, vs_reader v) x ->
  (let '(p, t, v) := vmess_read_body (dec_loop (src_read_at_least dx_read room) turns) cap t v in (p, (t, v))) = (p, s') -> vanswers cap x p s'.
Proof.
  intros Hcap Hc. unfold vmess_read_body. destruct (dec_loop _ _ _ _ _) as [[q t1] r1] eqn:Ed. intros [= <- <-].
  pose proof (layer_source (C := VmessCipher) (poll := dx_read) (content := content) room room_pos turns) as Hsrc.
  assert (layer_poll dx_read room turns cap (t, vs_reader v) = (q, (t1, r1))) as Hl by (unfold layer_poll; cbn [fst snd]; by rewrite Ed).
  destruct (room_poll cap _ x q (t1, r1) Hcap Hc Hl) as (? & ? & ?). split_and!; [done..| |done]. intros ->.
  exact (layer_ends_once room room_pos turns ep_ends cap _ x (t1, r1) Hcap Hc Hl).
Qed.

Lemma vconn_poll cap (s : Conn) x p s' : 0 < cap -> vconn_content s x -> vconn_read room turns cap s = (p, s') -> vanswers cap x p s'.
Proof.
  destruct s as [t v]. intros Hcap Hx. unfold vconn_read, vmess_poll_read. unfold vconn_content in Hx. cbn [fst snd] in *.
  destruct (vs_state_1 v); [|by apply body_answers|done].
  destruct Hx as (Hr & Hz & Hd & Hdz & l & payload & rest & Hc & Hl & Hpay & Hnp & -> & Hlt). rewrite Hr.
  destruct (header_poll _ t (vs_header_reader v)) as [[q t1] hr] eqn:Eh.
  pose proof (header_poll_accepts (may_fail := True) (fun s l b n p s' b' z Hs => src_read_spec room room_pos s b n p s' b' z l ep_ends Hs)
    payload rest t l (vs_header_reader v) q t1 hr Hc Hz Hl) as Ha.
  destruct Hpay as (Hp0 & Hp2 & Hp4 & Hmax). specialize (Ha Hp0 Hp2 Hp4 Hmax Eh).
  destruct Ha as [(-> & Hrv & Hr1 & Hz1 & l1 & Hl1 & Hc1)|[(-> & _ & l1 & Hl1 & Hc1)|(_ & e & ->)]].
  - intros [= <- <-]. split_and!; [simpl; lia|done|done|]. eexists. split; [done|]. intros _. unfold vconn_content.
    cbn [fst snd vs_state_1 vs_header_reader vs_reader vs_set_read]. split_and!; [done..|]. exists l1, payload, rest. rewrite Hrv. by split_and!.
  - intros Hp. refine (body_answers _ _ _ _ _ _ Hcap _ Hp). cbn [vs_reader steal_buffer vs_set_read get_buffer vs_header_reader]. rewrite Hd, Hdz, <- Hl1.
    apply new_layer_content; [done|by rewrite Hl1|]. rewrite <- length_app. by rewrite Hl1.
  - intros [= <- <-]. apply vanswers_err.
Qed.

(** *** What a poll of one half leaves of the other *)

(** The fields of the writer. *)
Definition same_writer (v v' : VmessStream) : Prop :=
  vs_writer v' = vs_writer v /\ vs_header_buffer v' = vs_header_buffer v /\ vs_header_pos v' = vs_header_pos v /\ vs_state_2 v' = vs_state_2 v.

(** The fields of the reader. *)
Definition same_reader (v v' : VmessStream) : Prop :=
  vs_reader v' = vs_reader v /\ vs_header_reader v' = vs_header_reader v /\ vs_state_1 v' = vs_state_1 v.

Lemma vconn_wrote_keeps base hdr c0 t v t' v' a o : (forall b x, wrote t b x -> wrote t' b x) -> same_writer v v' ->
  vconn_wrote base hdr c0 (t, v) a o -> vconn_wrote base hdr c0 (t', v') a o.
Proof.
  intros Hk (E1 & E2 & E3 & E4). unfold vconn_wrote. cbn [fst snd]. rewrite E1, E2, E3, E4. destruct (vs_state_2 v); [| |done].
  - intros (? & ? & ? & ? & ? & ? & Ho). split_and!; [done..|]. destruct o; destruct Ho as [? Ho]; (split; [done|]); [|by apply Hk].
    destruct Ho as (x & Hx & Hx'). exists x. auto.
  - intros Hw. by eapply layer_wrote_keeps.
Qed.

Lemma vconn_content_keeps t v t' v' x : (forall l, content t l -> content t' l) -> same_reader v v' ->
  vconn_content (t, v) x -> vconn_content (t', v') x.
Proof.
  intros Hk (E1 & E2 & E3). unfold vconn_content. cbn [fst snd]. rewrite E1, E2, E3. destruct (vs_state_1 v); [| |done].
  - intros (? & ? & ? & ? & l & payload & rest & Hc & ?). split_and!; [done..|]. exists l, payload, rest. split; [by apply Hk|done].
  - intros [?|(? & ? & l & ? & ?)]; [by left|right]. split; [done|]. split; [done|]. exists l. auto.
Qed.

Section Inner.
Context (P : T -> Prop).

Lemma header_poll_keeps s r p s' r' (rd_keeps : forall cap s p s', P s -> dx_read cap s = (p, s') -> P s') : P s ->
  header_poll (src_read_at_least dx_read room) s r = (p, s', r') -> P s'.
Proof.
  assert (forall s r p s' r', P s -> header_data (src_read_at_least dx_read room) s r = (p, s', r') -> P s') as Hd.
  { intros s1 r1 p1 s2 r2 Hp. unfold header_data, src_read_at_least. destruct (src_read_loop _ _ _ _ _ _ _) as [[[q s3] b] z] eqn:Er.
    apply (src_read_loop_keeps P rd_keeps) in Er; [|done]. destruct q as [[[]|e|]|]; try (by intros [= _ <- _]).
    destruct (decrypt_inplace_with_slice _ _ _ _ _) as [[m|]|e|]; try (by intros [= _ <- _]). repeat case_decide; by intros [= _ <- _]. }
  intros Hp. unfold header_poll. destruct (hr_state r); [|by apply Hd|by intros [= _ <- _]].
  unfold header_length, src_read_at_least at 1. destruct (src_read_loop _ _ _ _ _ _ _) as [[[q s3] b] z] eqn:Er.
  apply (src_read_loop_keeps P rd_keeps) in Er; [|done]. destruct q as [[[]|e|]|]; try (by intros [= _ <- _]).
  destruct (decrypt_inplace_with_slice _ _ _ _ _) as [[m|]|e|]; try (by intros [= _ <- _]). by apply Hd.
Qed.

Lemma vconn_read_inner (rd_keeps : forall cap s p s', P s -> dx_read cap s = (p, s') -> P s') cap s p s' : P s.1 ->
  vconn_read room turns cap s = (p, s') -> P s'.1 /\ same_writer s.2 s'.2.
Proof.
  destruct s as [t v]. cbn [fst snd]. intros Hp. unfold vconn_read, vmess_poll_read. cbn [fst snd].
  assert (forall t1 v1, P t1 -> same_writer v v1 ->
    (let '(p, t, v) := vmess_read_body (dec_loop (src_read_at_least dx_read room) turns) cap t1 v1 in (p, (t, v))) = (p, s') -> P s'.1 /\ same_writer v s'.2) as Hb.
  { intros t1 v1 Ht Hv. unfold vmess_read_body. destruct (dec_loop _ _ _ _ _) as [[q t2] r1] eqn:Ed. intros [= <- <-]. split; [|exact Hv].
    by eapply (dec_loop_keeps P rd_keeps). }
  destruct (vs_state_1 v); [|by apply Hb|by intros [= <- <-]].
  destruct (hr_received_resp _); [by apply Hb|]. destruct (header_poll _ t _) as [[q t1] hr] eqn:Eh. apply (header_poll_keeps _ _ _ _ _ rd_keeps) in Eh; [|done].
  destruct q as [[[]|e|]|]; [by apply Hb|by intros [= <- <-]..].
Qed.

Lemma vconn_write_inner (wr_keeps : forall buf s p s', P s -> dx_write buf s = (p, s') -> P s') buf (s : Conn) p s' : P s.1 ->
  vconn_write buf s = (p, s') -> P s'.1 /\ same_reader s.2 s'.2.
Proof.
  destruct s as [t v]. cbn [fst snd]. intros Hp. unfold vconn_write, vmess_poll_write. cbn [fst snd].
  assert (forall t1 v1, P t1 -> same_reader v v1 ->
    (let '(p, t, v) := vmess_write_body false (sink_write_data dx_write) buf t1 v1 in (p, (t, v))) = (p, s') -> P s'.1 /\ same_reader v s'.2) as Hb.
  { intros t1 v1 Ht Hv. unfold vmess_write_body. destruct (poll_write_encrypted _ _ _ _) as [[q t2] e1] eqn:Ed. intros [= <- <-]. split; [|exact Hv].
    by eapply (write_encrypted_keeps P wr_keeps). }
  destruct (vs_state_2 v); [|by apply Hb|by intros [= <- <-]].
  case_decide; [|by apply Hb]. destruct (dx_write _ t) as [q t1] eqn:Ew. apply wr_keeps in Ew; [|done].
  destruct (is_error q); [by intros [= <- <-]|]. destruct q as [[n|e|]|]; try (by intros [= <- <-]); (case_decide; [by intros [= <- <-]|by apply Hb]).
Qed.
End Inner.

(** *** Writing *)

Lemma vmess_encode_ok (c : VmessCipher) d : vmess_fit c -> length d <= fe_max (C := VmessCipher) -> exists f c', fe_encode c d = Ok (f, c') /\ vmess_fit c'.
Proof.
  intros Hf Hd. destruct (vmess_fit_next c Hf) as (Hiv & c' & Hn & Hc'). destruct (vmess_frame_decode_next false c c' d Hiv Hn Hd) as (f & E & _). eauto.
Qed.

#[local] Instance vlayer_retry base pre c0 : RetrySink (layer_write (C := VmessCipher) dx_write) (vlayer_wrote base pre c0) (layer_handed (handed := handed) base pre c0) :=
  layer_retry vmess_fit vmess_encode_ok base pre c0.

Section Write.
Context (base hdr : bytes) (c0 : VmessCipher).

(** What a poll of a write promises. *)
Definition write_answer (buf a : bytes) (p : Poll (res nat)) (s' : Conn) : Prop :=
  match p with
  | Ready (Ok n) => n <= length buf /\ vconn_wrote base hdr c0 s' (a ++ take n buf) None
  | Ready (Err _) => vconn_handed base hdr c0 s' (a ++ buf)
  | Ready Panic => False
  | Pending => vconn_wrote base hdr c0 s' a (Some buf)
  end.

Lemma write_body_answer buf t v a p s' : buf <> [] -> vlayer_wrote (base ++ hdr) [] c0 (t, vs_writer v) a (Some buf) ->
  (let '(p, t, v) := vmess_write_body false (sink_write_data dx_write) buf t v in (p, (t, v))) = (p, s') -> write_answer buf a p s'.
Proof.
  intros Hne Hw. unfold vmess_write_body. destruct (poll_write_encrypted _ _ _ _) as [[q t1] e1] eqn:Ep. intros [= <- <-].
  apply (rs_write buf (t, vs_writer v) a q (t1, e1) Hne Hw). unfold layer_write. cbn [fst snd]. by rewrite Ep.
Qed.

(** The header is in the inner stream: the frames follow. *)
Lemma write_first_answer buf t v p s' : buf <> [] -> wrote t (base ++ hdr) None ->
  at_boundary (vs_writer v) -> ew_cipher (vs_writer v) = c0 -> ew_buf (vs_writer v) = [] -> vmess_fit c0 ->
  (let '(p, t, v) := vmess_write_body false (sink_write_data dx_write) buf t v in (p, (t, v))) = (p, s') -> write_answer buf [] p s'.
Proof.
  intros Hne Hw Hb Hc Hbuf Hf. apply write_body_answer; [done|]. apply rs_start; [|done]. by apply layer_wrote_new.
Qed.

Lemma vconn_write_answer buf s a p s' : buf <> [] -> vconn_wrote base hdr c0 s a (Some buf) -> vconn_write buf s = (p, s') -> write_answer buf a p s'.
Proof.
  destruct s as [t v]. intros Hne Hw. unfold vconn_write, vmess_poll_write. unfold vconn_wrote in Hw. cbn [fst snd] in *.
  destruct (vs_state_2 v) eqn:Es; [|by apply write_body_answer|done].
  destruct Hw as (Eh & -> & Hb & Hc & Hbuf & Hf & Hp & Ho). rewrite Eh. set (pos := vs_header_pos v) in *.
  case_decide as Hlt.
  2:{ assert (pos = length hdr) as Hpos by lia. rewrite Hpos, drop_all, firstn_all in Ho. apply write_first_answer; try done.
  by destruct Ho as (o & Ho & [->|[_ []]]). }
  assert (drop pos hdr <> []) as Hd by (intros Hz; apply (f_equal length) in Hz; rewrite length_drop in Hz; simpl in Hz; lia).
  pose proof (offered_some _ _ _ Ho Hd) as Hw. destruct (dx_write (drop pos hdr) t) as [q t1] eqn:Ew.
  pose proof (rs_write _ _ _ _ _ Hd Hw Ew) as Hq. rewrite <- app_assoc in Hq. destruct q as [[n|e|]|]; cbn [is_error get_poll_res] in *; [| |done|].
  - destruct Hq as [Hn Hw1]. rewrite length_drop in Hn. rewrite <- app_assoc, take_take_drop in Hw1. cbn [vs_header_pos vs_header_buffer vs_set_write]. rewrite Eh. fold pos.
    case_decide as Hmore.
    + intros [= <- <-]. unfold write_answer, vconn_wrote. cbn [fst snd vs_state_2 vs_header_buffer vs_header_pos vs_writer vs_set_write].
      split_and!; try done; [lia|by apply wrote_offered].
    + apply write_first_answer; try done. replace (pos + n) with (length hdr) in Hw1 by lia. by rewrite firstn_all in Hw1.
  - intros [= <- <-]. unfold write_answer, vconn_handed. rewrite take_drop in Hq. exists [], [], c0. cbn [fst snd]. rewrite !app_nil_r.
    split_and!; [done|done|done|apply prefix_nil].
  - cbn [vs_header_pos vs_header_buffer vs_set_write]. change (@inhabitant nat _) with 0. rewrite Nat.add_0_r, Eh. rewrite decide_True by done.
    intros [= <- <-]. unfold write_answer, vconn_wrote. cbn [fst snd vs_state_2 vs_header_buffer vs_header_pos vs_writer vs_set_write].
    split_and!; try done. exists (Some (drop pos hdr)). auto.
Qed.

Lemma vconn_retry : RetrySink (vconn_write (T := T)) (vconn_wrote base hdr c0) (vconn_handed base hdr c0).
Proof.
  constructor.
  - intros [t v] a buf. unfold vconn_wrote. cbn [fst snd]. destruct (vs_state_2 v); [| |done].
    + intros (? & ? & ? & ? & ? & ? & -> & Hw) _. split_and!; [done..|lia|]. rewrite take_0, app_nil_r, drop_0. by apply wrote_offered.
    + apply rs_start.
  - intros buf s a p s' Hne Hw Hp. exact (vconn_write_answer _ _ _ _ _ Hne Hw Hp).
  - intros [t v] a o. unfold vconn_wrote, vconn_handed. cbn [fst snd]. destruct (vs_state_2 v); [|apply rs_handed|done].
    intros (_ & -> & _ & _ & _ & _ & Ho). exists [], [], c0. cbn [fst snd concat app]. rewrite !app_nil_r. split_and!; [done|done| |apply prefix_nil].
    destruct o as [buf|]; destruct Ho as [_ Ho].
    + apply offered_handed in Ho. by rewrite <- app_assoc, take_drop in Ho.
    + eapply rs_handed_mono; [by eapply rs_handed|]. cbn. rewrite app_nil_r. by eexists.
  - intros s x y. apply (rs_handed_mono (RetrySink := vlayer_retry (base ++ hdr) [] c0)).
Qed.

Lemma vconn_flush_spec s a p s' : vconn_wrote base hdr c0 s a None -> vconn_flush s = (p, s') ->
  p <> Ready Panic /\ vconn_wrote base hdr c0 s' a None.
Proof.
  destruct s as [t v]. unfold vconn_wrote, vconn_flush. cbn [fst snd]. destruct (dx_flush t) as [q t1] eqn:Ef. intros Hw [= <- <-]. cbn [fst snd].
  destruct (vs_state_2 v); [| |done].
  - destruct Hw as (? & ? & ? & ? & ? & ? & ? & Hw). destruct (ep_flush _ _ _ _ Hw Ef). by split_and!.
  - destruct (layer_wrote_none _ _ _ _ _ _ _ Hw) as [b Hb]. split; [exact (proj1 (ep_flush _ _ _ _ Hb Ef))|].
    eapply layer_wrote_none_keeps; [exact Hw|]. intros b1 Hb1. exact (proj2 (ep_flush _ _ _ _ Hb1 Ef)).
Qed.

(** A VMess stream over an endpoint is an endpoint. *)
Lemma vconn_endpoint : Endpoint (H := vconn_duplex) vconn_content (vconn_wrote base hdr c0) (vconn_handed base hdr c0).
Proof.
  constructor.
  - constructor. intros cap s x p s' Hcap Hx Hp. by destruct (vconn_poll _ _ _ _ _ Hcap Hx Hp) as (? & ? & _ & ?).
  - intros cap s x s' Hcap Hx Hp. destruct (vconn_poll _ _ _ _ _ Hcap Hx Hp) as (_ & _ & He & _). by apply He.
  - apply vconn_retry.
  - intros. by eapply vconn_flush_spec.
  - intros cap [t v] a o p [t' v'] Hw Hr.
    destruct (vconn_read_inner (fun t1 => forall b x, wrote t b x -> wrote t1 b x)) with (cap := cap) (s := (t, v)) (p := p) (s' := (t', v')) as [Hk Hv];
      [|done|exact Hr|by eapply vconn_wrote_keeps]. intros cap1 t1 q t2 Ht Hq b y Hb. eapply ep_read_keeps; [by apply Ht|exact Hq].
  - intros buf [t v] x p [t' v'] Hx Hr.
    destruct (vconn_write_inner (fun t1 => forall l, content t l -> content t1 l)) with (buf := buf) (s := (t, v)) (p := p) (s' := (t', v')) as [Hk Hv];
      [|done|exact Hr|by eapply vconn_content_keeps]. intros buf1 t1 q t2 Ht Hq l Hl. eapply ep_write_keeps; [by apply Ht|exact Hq].
  - intros [t v] x p s' Hx. change (dx_flush (t, v)) with (vconn_flush (t, v)). unfold vconn_flush. cbn [fst snd].
    destruct (dx_flush t) as [q t1] eqn:Ef. intros [= <- <-]. eapply vconn_content_keeps; [|by repeat split|exact Hx]. intros l Hl. by eapply ep_flush_keeps.
Qed.

Lemma vconn_salt {B} `{SaltStore B T} `{!SaltEndpoint content wrote} :
  SaltEndpoint (H := layer_store) vconn_content (vconn_wrote base hdr c0).
Proof.
  constructor.
  - intros ctx [t v] x. apply vconn_content_keeps; [|by repeat split]. intros l. apply se_content.
  - intros ctx [t v] a o. apply vconn_wrote_keeps; [|by repeat split]. intros b x. apply se_wrote.
Qed.
End Write.
End VmessEndpoint.

(** ** A server *)

Section VmessServe.
Context `{AeadCrypto} `{HmacSha256Crypto} `{BlockCrypto} `{Sha256Crypto}.

(** The cipher of the requests, from the header data: IV, key and security.  The
key is derived as the client derives it. *)
Definition request_cipher (d : bytes) : res VmessCipher :=
  let iv := take 16 (drop 1 d) in
  let key := take 16 (drop 17 d) in
  '(alg, _) ← vmess_security (Z.land (b2z (nth 35 d x00)) 15) key key;
  Ok (mkVmessCipher alg.1 alg.2 iv 0).

(** The length of a header, from its first 42 bytes: auth id, sealed length and
nonce. *)
Definition header_size (cmd_key l : bytes) : option nat :=
  let auth_id := take 16 l in
  _ ← open_auth_id cmd_key auth_id;
  n ← open_sealed cmd_key (str "VMess Header AEAD Key_Length") (str "VMess Header AEAD Nonce_Length")
  auth_id (take 8 (drop 34 l)) (take 18 (drop 16 l));
  Some (42 + Z.to_nat (be_val n) + 16).

(** What a server of the user reads from [l] for the target: nothing until the
header is whole; [None] when it refuses the header. *)
Definition vmess_serve (opt : VmessOption) (l : bytes) : option bytes :=
  let cmd_key := vmess_cmd_key (vo_uuid opt) in
  if decide (length l < 42) then Some []
  else n ← header_size cmd_key (take 42 l);
  if decide (length l < n) then Some []
  else '(_, d, rest) ← open_vmess_aead_header cmd_key l;
  let target := encode_vmess (vo_addr opt) in
  if decide (take (length target) (drop 38 d) = target) then
    match request_cipher d with
    | Ok c => Some (decode c rest).1
    | _ => None
    end
  else None.

(** *** The client's header *)

(** The header data before the address. *)
Definition header_fixed (opt : VmessOption) (salt : bytes) (respv : byte) (r : VmessRandom) : bytes :=
  [z2b VERSION] ++ req_body_iv salt ++ req_body_key salt ++ [respv] ++ [z2b OPT_CHUNK_STREAM] ++
  [z2b (Z.lor (wrap 8 (Z.shiftl (rnd_x r mod 16) 4)) (vo_security_num opt))] ++ [z2b 0] ++ [z2b (if vo_is_udp opt then COMMAND_UDP else COMMAND_TCP)].

Lemma header_plain_eq opt salt respv r : exists rest, length rest <= 19 /\
  header_plain opt salt respv r = header_fixed opt salt respv r ++ encode_vmess (vo_addr opt) ++ rest.
Proof.
  unfold header_plain, header_fixed. cbv zeta. set (x := (rnd_x r mod 16)%Z).
  assert (0 <= x < 16)%Z as Hx by (apply Z.mod_pos_bound; lia).
  assert (forall b : bytes, write_to_buf_vmess (vo_addr opt) b = b ++ encode_vmess (vo_addr opt)) as Hw by exact (write_to_buf_vmess_data (B := bytes) (vo_addr opt)).
  rewrite Hw. unfold put_u8, put_u32. cbn [put_slice list_BufMut].
  match goal with |- context [be_bytes 4 ?h] => set (sum := be_bytes 4 h); assert (length sum = 4) as Hsum by apply length_be_bytes; clearbody sum end.
  destruct (decide (0 < x)%Z).
  - exists (take (Z.to_nat x) (rnd_padding r) ++ sum). split; [rewrite length_app, length_take; lia|]. by rewrite <- !app_assoc.
  - exists sum. split; [lia|]. by rewrite <- !app_assoc.
Qed.

(** What a server finds in it. *)
Lemma header_fixed_fields opt salt respv r rest : length salt = 64 ->
  let d := header_fixed opt salt respv r ++ rest in
  take 16 (drop 1 d) = req_body_iv salt /\ take 16 (drop 17 d) = req_body_key salt /\
  nth 35 d x00 = z2b (Z.lor (wrap 8 (Z.shiftl (rnd_x r mod 16) 4)) (vo_security_num opt)) /\ drop 38 d = rest.
Proof.
  intros Hs. assert (length (req_body_iv salt) = 16) as Hiv by (unfold req_body_iv; rewrite length_take; lia).
  assert (length (req_body_key salt) = 16) as Hkey by (unfold req_body_key; rewrite length_take, length_drop; lia).
  unfold header_fixed. destruct (req_body_iv salt) as [|x0 l] eqn:E1; [done|]. do 15 (destruct l as [|? l]; [done|]). destruct l; [|done].
  destruct (req_body_key salt) as [|y0 l] eqn:E2; [done|]. do 15 (destruct l as [|? l]; [done|]). destruct l; [|done]. done.
Qed.

Lemma length_encode_vmess a : Address_ok a = true -> length (encode_vmess a) <= 259.
Proof.
  intros Ha. destruct a as [[ip p|ip p f sc]|d p]; cbn [encode_vmess].
  1-2: rewrite length_app, length_be_bytes; by apply Nat.leb_le.
  apply Address_ok_domain in Ha as (_ & _ & Hd). rewrite length_app, length_be_bytes. simpl. lia.
Qed.

(** The low half of the byte that holds padding length and security. *)
Lemma security_low x n : (0 <= x < 16)%Z -> (n = 3 \/ n = 4)%Z -> Z.land (b2z (z2b (Z.lor (wrap 8 (Z.shiftl x 4)) n))) 15 = n.
Proof.
  intros Hx Hn. assert (exists k, k < 16 /\ x = Z.of_nat k) as (k & Hk & ->) by (exists (Z.to_nat x); lia).
  do 16 (destruct k as [|k]; [by destruct Hn as [-> | ->]|]). lia.
Qed.

(** The writer's key does not depend on the response key. *)
Lemma vmess_security_writer n k1 k2 k3 w r : vmess_security n k1 k2 = Ok (w, r) -> (n = 3 \/ n = 4)%Z /\ exists r', vmess_security n k1 k3 = Ok (w, r').
Proof.
  unfold vmess_security, AES_128_GCM_SECURITY_NUM, CHACHA20POLY1305_SECURITY_NUM. repeat case_decide; [| |done].
  - intros [= <- <-]. split; [by left|]. by eexists.
  - rewrite !chacha_key_halves_constant. intros [= <- <-]. split; [by right|]. by eexists.
Qed.

(** The draws of a stream have the lengths the code draws. *)
Definition random_ok (r : VmessRandom) : Prop :=
  length (rnd_salt r) = 64 /\ length (rnd_time r) = 8 /\ length (rnd_4 r) = 4 /\ length (rnd_8 r) = 8.

(** A new stream: a sealed header, and the cipher that a server finds in it. *)
Lemma vmess_new_parts opt r v : random_ok r -> Address_ok (vo_addr opt) = true -> VmessStream_new opt r = Ok v ->
  exists plain, (Z.of_nat (length plain) < 65536)%Z /\
  seal_vmess_aead_header (vmess_cmd_key (vo_uuid opt)) plain (rnd_time r) (rnd_4 r) (rnd_8 r) = Ok (vs_header_buffer v) /\
  take (length (encode_vmess (vo_addr opt))) (drop 38 plain) = encode_vmess (vo_addr opt) /\
  request_cipher plain = Ok (ew_cipher (vs_writer v)) /\ vmess_fit (ew_cipher (vs_writer v)) /\
  vs_header_pos v = 0 /\ vs_state_1 v = RWait /\ vs_state_2 v = WHeader /\
  vs_writer v = mkEncryptedWriter (ew_cipher (vs_writer v)) EncStart [] 0 0 /\
  vs_reader v = mkDecryptedReader [] (dr_cipher (vs_reader v)) DecLength 0 false /\
  hr_respv (vs_header_reader v) = vs_respv v /\ hr_state (vs_header_reader v) = HrLength /\ hr_buffer (vs_header_reader v) = [] /\
  hr_received_resp (vs_header_reader v) = false /\ hr_read_zero (vs_header_reader v) = false.
Proof.
  intros (Hsalt & _ & _ & _) Ha Hv. unfold VmessStream_new in Hv. set (salt := take 32 (rnd_salt r) ++ _ ++ _) in Hv.
  assert (length salt = 64) as Hs.
  { unfold salt. rewrite !length_app, !length_take, !sha256_length, Hsalt. done. }
  assert (length (req_body_iv salt) = 16) as Hiv by (unfold req_body_iv; rewrite length_take; lia).
  assert (length (req_body_key salt) = 16) as Hkey by (unfold req_body_key; rewrite length_take, length_drop; lia).
  destruct (vmess_security _ _ _) as [[wc rc]|e|] eqn:Es; [|done..]. cbn [mbind res_bind] in Hv.
  set (respv := nth 32 (rnd_salt r) x00) in *. set (plain := header_plain opt salt respv r). fold plain in Hv.
  destruct (construct_header_data _ _ _ _) as [h|e|] eqn:Eh; [|done..]. cbn [mbind res_bind] in Hv. injection Hv as <-.
  destruct (header_plain_eq opt salt respv r) as (rest & Hrest & Hplain). fold plain in Hplain.
  destruct (header_fixed_fields opt salt respv r (encode_vmess (vo_addr opt) ++ rest) Hs) as (Fiv & Fkey & Fsec & Faddr). rewrite <- Hplain in *.
  destruct (vmess_security_writer _ _ _ (req_body_key salt) _ _ Es) as [Hn [rc' Es']].
  exists plain. cbn [vs_header_buffer vs_writer vs_header_pos vs_state_1 vs_state_2 vs_reader vs_header_reader vs_respv VmessAeadWriter_new VmessAeadReader_new
    ew_cipher dr_cipher hr_respv VmessHeaderReader_new hr_received_resp hr_read_zero hr_state hr_buffer].
  split_and!; try done.
  - apply (f_equal length) in Faddr. rewrite length_drop, length_app in Faddr. pose proof (length_encode_vmess _ Ha). lia.
  - by rewrite Faddr, take_app_length.
  - unfold request_cipher. rewrite Fiv, Fkey, Fsec, security_low by (done || apply Z.mod_pos_bound; lia). by rewrite Es'.
  - unfold vmess_fit. cbn [vc_iv]. unfold req_body_iv. rewrite length_take. lia.
Qed.

Lemma take_drop_take {A} (k j m : nat) (l : list A) : j + k <= m -> take k (drop j (take m l)) = take k (drop j l).
Proof. intros Hm. rewrite !take_drop_commute, take_take. do 2 f_equal. lia. Qed.

(** The size of a sealed header is its length. *)
Lemma sealed_header_size cmd_key plain time rand4 rand8 h :
  length time = 8 -> length rand4 = 4 -> length rand8 = 8 -> (Z.of_nat (length plain) < 65536)%Z ->
  seal_vmess_aead_header cmd_key plain time rand4 rand8 = Ok h ->
  42 <= length h /\ header_size cmd_key (take 42 h) = Some (length h).
Proof.
  intros Ht H4 H8 Hp Eh. destruct (sealed_header_opens cmd_key plain time rand4 rand8 [x00] Ht H4 H8 Hp) as (h' & Eh' & Ho).
  rewrite Eh in Eh'. injection Eh' as <-. unfold open_vmess_aead_header in Ho. set (l := h ++ [x00]) in *.
  destruct (open_auth_id cmd_key (take 16 l)) as [t|] eqn:Ea; [|done]. cbn [mbind option_bind] in Ho.
  destruct (open_sealed _ _ _ _ _ (take 18 (drop 16 l))) as [n|] eqn:En; [|done]. cbn [mbind option_bind] in Ho.
  destruct (open_sealed _ _ _ _ _ (take _ (drop 42 l))) as [d|]; [|done]. cbn [mbind option_bind] in Ho.
  assert (42 + Z.to_nat (be_val n) + 16 = length h) as Hn.
  { injection Ho as _ _ Hr. apply (f_equal length) in Hr. rewrite length_drop in Hr. unfold l in Hr. rewrite length_app in Hr. cbn [length] in Hr. lia. }
  split; [lia|]. unfold header_size.
  assert (take 42 h = take 42 l) as -> by (unfold l; by rewrite take_app_le by lia).
  assert (take 16 (take 42 l) = take 16 l) as -> by (by rewrite take_take).
  rewrite !take_drop_take by lia. rewrite Ea. cbn [mbind option_bind]. rewrite En. cbn [mbind option_bind]. by rewrite Hn.
Qed.

(** Behind the header a server reads what the frames decode to. *)
Lemma vmess_serve_behind opt r v g : random_ok r -> Address_ok (vo_addr opt) = true -> VmessStream_new opt r = Ok v ->
  vmess_serve opt (vs_header_buffer v ++ g) = Some (decode (ew_cipher (vs_writer v)) g).1.
Proof.
  intros Hr Ha Hv. destruct (vmess_new_parts _ _ _ Hr Ha Hv) as (plain & Hlt & Eh & Haddr & Hreq & _).
  destruct Hr as (_ & Ht & H4 & H8). destruct (sealed_header_size _ _ _ _ _ _ Ht H4 H8 Hlt Eh) as [H42 Hsize].
  unfold vmess_serve. rewrite decide_False by (rewrite length_app; lia). rewrite take_app_le by lia. rewrite Hsize. cbn [mbind option_bind].
  rewrite decide_False by (rewrite length_app; lia).
  destruct (sealed_header_opens (vmess_cmd_key (vo_uuid opt)) plain (rnd_time r) (rnd_4 r) (rnd_8 r) g Ht H4 H8 Hlt) as (h' & Eh' & Ho).
  rewrite Eh in Eh'. injection Eh' as <-. rewrite Ho. cbn [mbind option_bind]. by rewrite Haddr, decide_True, Hreq by done.
Qed.

(** A server that has a part of a header waits. *)
Lemma vmess_serve_short opt r v y : random_ok r -> Address_ok (vo_addr opt) = true -> VmessStream_new opt r = Ok v ->
  y `prefix_of` vs_header_buffer v -> length y < length (vs_header_buffer v) -> vmess_serve opt y = Some [].
Proof.
  intros Hr Ha Hv [k Hk] Hl. destruct (vmess_new_parts _ _ _ Hr Ha Hv) as (plain & Hlt & Eh & _).
  destruct Hr as (_ & Ht & H4 & H8). destruct (sealed_header_size _ _ _ _ _ _ Ht H4 H8 Hlt Eh) as [H42 Hsize].
  unfold vmess_serve. case_decide as Hshort; [done|].
  assert (take 42 y = take 42 (vs_header_buffer v)) as -> by (rewrite Hk; by rewrite take_app_le by lia).
  rewrite Hsize. cbn [mbind option_bind]. by rewrite decide_True by done.
Qed.

(** Of any part of what a stream hands over, a server reads a part of the data,
and of all of it the data. *)
Lemma vmess_serve_handed opt r v ds f c1 y : random_ok r -> Address_ok (vo_addr opt) = true -> VmessStream_new opt r = Ok v ->
  Forall (fun d => length d <= fe_max (C := VmessCipher)) ds -> encode_all (ew_cipher (vs_writer v)) ds = Ok (f, c1) -> y `prefix_of` vs_header_buffer v ++ f ->
  exists x, vmess_serve opt y = Some x /\ x `prefix_of` concat ds.
Proof.
  intros Hr Ha Hv Hds Ef [k Hk]. set (h := vs_header_buffer v) in *. destruct (decide (length y < length h)) as [Hl|Hl].
  - exists []. split; [|apply prefix_nil]. apply (vmess_serve_short opt r v); try done. exists (drop (length y) h). fold h.
    apply (f_equal (take (length y))) in Hk. rewrite take_app_length, take_app_le in Hk by lia. rewrite <- Hk at 1. by rewrite take_drop.
  - assert (exists g, y = h ++ g) as [g ->].
    { exists (drop (length h) y). rewrite <- (take_drop (length h) y) at 1. f_equal.
      apply (f_equal (take (length h))) in Hk. by rewrite take_app_length, take_app_le in Hk by lia. }
    rewrite <- app_assoc in Hk. apply app_inv_head in Hk. subst f.
    exists (decode (ew_cipher (vs_writer v)) g).1. split; [by apply (vmess_serve_behind opt r v)|].
    destruct (vmess_new_parts _ _ _ Hr Ha Hv) as (_ & _ & _ & _ & _ & Hfit & _).
    destruct (vmess_encode_decode_next false vmess_fit _ _ vmess_fit_next Hfit Hds) as (g' & c2 & Eg & _ & Hdec).
    rewrite Ef in Eg. injection Eg as <- <-. destruct (decode_app (ew_cipher (vs_writer v)) g k) as [Hp _]. by rewrite Hdec in Hp.
Qed.

Lemma vmess_serve_whole opt r v ds f c1 : random_ok r -> Address_ok (vo_addr opt) = true -> VmessStream_new opt r = Ok v ->
  Forall (fun d => length d <= fe_max (C := VmessCipher)) ds -> encode_all (ew_cipher (vs_writer v)) ds = Ok (f, c1) ->
  vmess_serve opt (vs_header_buffer v ++ f) = Some (concat ds).
Proof.
  intros Hr Ha Hv Hds Ef. rewrite (vmess_serve_behind opt r v) by done. destruct (vmess_new_parts _ _ _ Hr Ha Hv) as (_ & _ & _ & _ & _ & Hfit & _).
  destruct (vmess_encode_decode_next false vmess_fit _ _ vmess_fit_next Hfit Hds) as (g' & c2 & Eg & _ & Hdec).
  rewrite Ef in Eg. injection Eg as <- <-. by rewrite Hdec.
Qed.
End VmessServe.

(** ** A new stream *)

Section VmessNew.
Context `{AeadCrypto} `{HmacSha256Crypto} `{BlockCrypto} `{Sha256Crypto} {T : Type} `{DuplexStream T}.
Context {content : T -> bytes -> Prop} {wrote : T -> bytes -> option bytes -> Prop} (turns : nat).

(** What the client of a stream reads of a server's bytes [l]: they are a
response header that it accepts, and frames. *)
Definition vmess_reply (v : VmessStream) (l x : bytes) : Prop :=
  exists payload rest, l = seal_response (vs_header_reader v) payload ++ rest /\ response_ok (vs_respv v) payload /\
  (decode (dr_cipher (vs_reader v)) rest).2 <> EndPanic /\ x = (decode (dr_cipher (vs_reader v)) rest).1.

Lemma vmess_reply_length v l x : vmess_reply v l x -> length x <= length l.
Proof. intros (payload & rest & -> & _ & _ & ->). rewrite length_app. pose proof (decode_length (dr_cipher (vs_reader v)) rest). lia. Qed.

Lemma vmess_new_wrote opt r v t base : random_ok r -> Address_ok (vo_addr opt) = true -> VmessStream_new opt r = Ok v -> wrote t base None ->
  vconn_wrote (wrote := wrote) base (vs_header_buffer v) (ew_cipher (vs_writer v)) (t, v) [] None.
Proof.
  intros Hr Ha Hv Hw. destruct (vmess_new_parts _ _ _ Hr Ha Hv) as (plain & _ & _ & _ & _ & Hfit & Hpos & _ & Hs2 & Hwr & _).
  unfold vconn_wrote. cbn [fst snd]. rewrite Hs2. split_and!; try done; rewrite Hwr; first [by left|done].
Qed.

Lemma vmess_new_content opt r v t l x : random_ok r -> Address_ok (vo_addr opt) = true -> VmessStream_new opt r = Ok v ->
  content t l -> vmess_reply v l x -> length l < turns -> vconn_content (content := content) turns (t, v) x.
Proof.
  intros Hr Ha Hv Hc (payload & rest & -> & Hpay & Hnp & ->) Hl.
  destruct (vmess_new_parts _ _ _ Hr Ha Hv) as (plain & _ & _ & _ & _ & _ & _ & Hs1 & _ & _ & Hrd & Hrv & Hst & Hb & Hrc & Hz).
  unfold vconn_content. cbn [fst snd]. rewrite Hs1, Hrd. cbn [dr_state dr_read_zero dr_cipher]. split_and!; [done..|]. eexists _, payload, rest.
  split; [exact Hc|]. split; [unfold response_left; by rewrite Hst, Hb|]. rewrite Hrv. rewrite length_app in Hl. split_and!; [done..|lia].
Qed.
End VmessNew.
