(* ===== verification/ChainRelay.v ===== *)
(** * Relaying through a chain of proxies (src/src/proxy/mod.rs, src/src/common/net/)

    The whole path of a connection: a chain of Shadowsocks, VMess, Trojan and
    direct layers, of any height and in any order, is built over a transport, each by
    the [build_tcp] of its builder, and the client's stream is relayed through
    it.  The layers are those of ShadowLayer.v, VmessLayer.v and Trojan.v, the
    relay is that of Relay.v.

    [peel] are the servers of the chain, the first nearest to the client: each
    decodes what it receives, reads the address of the next one, and passes the
    rest on.  [replies] is what the client reads of the bytes that come back. *)

From S2P Require Import Prelude Io StdText Address Aead FrameReader FrameWriter ShadowStream Replay Shadowsocks Transport ShadowBuild.
From S2P Require Import VmessKdf VmessBody VmessHeader VmessStream Trojan Copy Stack Relay ShadowLayer VmessLayer Websocket.
From Stdlib Require Import ZArith Lia List Strings.Byte.
From stdpp Require Import base option list strings.

Section Chain.
Context `{AeadCrypto} `{HmacSha256Crypto} `{BlockCrypto} `{Sha256Crypto} {B : Type} `{Bloom B}.

(** ** The layers *)

(** A builder with the random draws of its connection. *)
Inductive layer_cfg :=
| CfgShadow (b : ShadowsocksBuilder) (rng : list bytes)
| CfgVmess (opt : VmessOption) (r : VmessRandom)
| CfgTrojan (b : TrojanStreamBuilder)
| CfgDirect.

Definition cfg_ok (cfg : layer_cfg) : Prop :=
  match cfg with
  | CfgShadow b _ => sb_method b <> CipherKind_None -> length (sb_key b) = key_len (sb_method b)
  | CfgVmess opt r => random_ok r /\ Address_ok (vo_addr opt) = true
  | CfgTrojan _ | CfgDirect => True
  end.

(** ** The servers *)

(** [a] and what is behind it; [None] when it is not [a]. *)
Definition strip (a w : bytes) : option bytes :=
  if decide (a `prefix_of` w) then Some (drop (length a) w) else if decide (w `prefix_of` a) then Some [] else None.

Definition trojan_header (b : TrojanStreamBuilder) : bytes := header_bytes (TcpConnect (tb_password b) (tb_addr b)).

(** What the server of a layer passes on of [w]; [None] when it refuses, or is
sent elsewhere. *)
Definition serve (cfg : layer_cfg) (w : bytes) : option bytes :=
  match cfg with
  | CfgShadow b _ => strip (Address.encode (sb_addr b)) (reply_plain (sb_method b) (sb_key b) w)
  | CfgVmess opt _ => vmess_serve opt w
  | CfgTrojan b => strip (trojan_header b) w
  | CfgDirect => Some w
  end.

Fixpoint peel (bs : list layer_cfg) (w : bytes) : option bytes :=
  match bs with
  | [] => Some w
  | cfg :: bs => w' ← serve cfg w; peel bs w'
  end.

(** What the client's layer reads of [l]; a VMess server answers with a header
that the client accepts. *)
Definition reads (cfg : layer_cfg) (l x : bytes) : Prop :=
  match cfg with
  | CfgShadow b _ => x = reply_plain (sb_method b) (sb_key b) l
  | CfgVmess opt r => exists v, VmessStream_new opt r = Ok v /\ vmess_reply v l x
  | CfgTrojan _ | CfgDirect => x = l
  end.

Fixpoint replies (bs : list layer_cfg) (l x : bytes) : Prop :=
  match bs with
  | [] => x = l
  | cfg :: bs => exists l', reads cfg l l' /\ replies bs l' x
  end.

Lemma strip_app a y z : z `prefix_of` a ++ y -> exists x, strip a z = Some x /\ x `prefix_of` y.
Proof.
  intros [k Hk]. unfold strip. case_decide as Ha.
  - destruct Ha as [x ->]. exists x. rewrite drop_app_length. split; [done|]. rewrite <- app_assoc in Hk. apply app_inv_head in Hk. subst y. by eexists.
  - exists []. split; [|apply prefix_nil]. rewrite decide_True; [done|]. destruct (decide (length a <= length z)) as [Hl|Hl].
    + destruct Ha. exists (drop (length a) z). apply (f_equal (take (length a))) in Hk. rewrite take_app_length, take_app_le in Hk by done.
      rewrite Hk at 1. by rewrite take_drop.
    + exists (drop (length z) a). apply (f_equal (take (length z))) in Hk. rewrite take_app_length, take_app_le in Hk by lia.
      rewrite <- Hk at 1. by rewrite take_drop.
Qed.

Lemma strip_whole a y : strip a (a ++ y) = Some y.
Proof. unfold strip. rewrite decide_True by (by eexists). by rewrite drop_app_length. Qed.

Lemma peel_snoc bs cfg w w' : peel bs w = Some w' -> peel (bs ++ [cfg]) w = serve cfg w'.
Proof.
  revert w. induction bs as [|c bs IH]; intros w; cbn [peel app].
  - intros [= ->]. cbn [peel]. by destruct (serve cfg w').
  - destruct (serve c w) as [w1|]; [|done]. cbn [mbind option_bind]. apply IH.
Qed.

Lemma reads_length cfg l x : reads cfg l x -> length x <= length l.
Proof.
  destruct cfg as [b rng|opt r|b|]; cbn [reads].
  - intros ->. apply reply_plain_length.
  - intros (v & _ & Hx). by eapply vmess_reply_length.
  - by intros ->.
  - by intros ->.
Qed.

(** ** The streams *)

Section Conn.
Context {T : Type} `{DuplexStream T}.
(** The spare room of the read buffers, and the turns of the readers' loops. *)
Context (room : bytes -> nat) (turns : nat).

(** The stream of a chain, the last layer first; the transport and the context
of salts are innermost. *)
Fixpoint ChainConn (ls : list layer_cfg) : Type :=
  match ls with
  | [] => Shared B T
  | CfgShadow _ _ :: ls => CryptoConn (ChainConn ls)
  | CfgVmess _ _ :: ls => VmessConn (ChainConn ls)
  | CfgTrojan _ :: ls => ChainConn ls
  | CfgDirect :: ls => ChainConn ls
  end.

#[local] Instance chain_store : forall ls, SaltStore B (ChainConn ls) :=
  fix chain_store ls :=
  match ls return SaltStore B (ChainConn ls) with
  | [] => shared_store
  | CfgShadow _ _ :: ls => layer_store (H := chain_store ls)
  | CfgVmess _ _ :: ls => layer_store (H := chain_store ls)
  | CfgTrojan _ :: ls => chain_store ls
  | CfgDirect :: ls => chain_store ls
  end.

#[local] Instance chain_duplex : forall ls, DuplexStream (ChainConn ls) :=
  fix chain_duplex ls :=
  match ls return DuplexStream (ChainConn ls) with
  | [] => shared_duplex
  | CfgShadow _ _ :: ls => @crypto_duplex _ B _ _ (chain_duplex ls) (chain_store ls) room turns
  | CfgVmess _ _ :: ls => @vmess_duplex _ _ (chain_duplex ls) room turns
  | CfgTrojan _ :: ls => chain_duplex ls
  | CfgDirect :: ls => chain_duplex ls
  end.

(** The transport below a chain. *)
Fixpoint chain_base (ls : list layer_cfg) : ChainConn ls -> T :=
  match ls return ChainConn ls -> T with
  | [] => sh_stream
  | CfgShadow _ _ :: ls => fun s => chain_base ls s.1
  | CfgVmess _ _ :: ls => fun s => chain_base ls s.1
  | CfgTrojan _ :: ls => chain_base ls
  | CfgDirect :: ls => chain_base ls
  end.

(** *** Building *)

(** [BoxProxyStream]: a stream with the layers that it has. *)
Definition BoxStream : Type := { ls : list layer_cfg & ChainConn ls }.
Definition box (ls : list layer_cfg) (s : ChainConn ls) : BoxStream := existT ls s.

(** [build_tcp] of a Trojan builder, polled [fuel] times. *)
Definition trojan_build {S : Type} `{DuplexStream S} (fuel : nat) (b : TrojanStreamBuilder) (s : S) : Poll (res S) :=
  let '(p, s) := sink_write_all dx_write fuel (trojan_header b) s in
  match p with
  | Ready (Ok _) => Ready (Ok s)
  | Ready (Err e) => Ready (Err e)
  | Ready Panic => Ready Panic
  | Pending => Pending
  end.

Definition poll_map {A C} (f : A -> C) (p : Poll (res A)) : Poll (res C) :=
  match p with
  | Ready r => Ready (x ← r; Ok (f x))
  | Pending => Pending
  end.

(** [ChainableStreamBuilder::build_tcp]; [None]: the random draws are used up. *)
Definition layer_build (fuel : nat) (cfg : layer_cfg) (s : BoxStream) : option (Poll (res BoxStream)) :=
  let '(existT ls s) := s in
  match cfg with
  | CfgShadow b rng => (poll_map (box (CfgShadow b rng :: ls))) <$> conn_build fuel b rng s
  | CfgVmess opt r => Some (poll_map (fun v => box (CfgVmess opt r :: ls) (s, v)) (Ready (vmess_build_tcp opt r)))
  | CfgTrojan b => Some (poll_map (box (CfgTrojan b :: ls)) (trojan_build fuel b s))
  | CfgDirect => Some (Ready (Ok (box (CfgDirect :: ls) s)))
  end.

(** The builders' part of [ChainStreamBuilder::build_tcp]. *)
Fixpoint chain_build (fuel : nat) (bs : list layer_cfg) (s : BoxStream) : option (Poll (res BoxStream)) :=
  match bs with
  | [] => Some (Ready (Ok s))
  | cfg :: bs =>
    match layer_build fuel cfg s with
    | Some (Ready (Ok s')) => chain_build fuel bs s'
    | r => r
    end
  end.

(** ** A chain is an endpoint *)

Context {content : T -> bytes -> Prop} {good : T -> Prop} {sent : T -> bytes} `{!Transport content good sent}.
Context (room_pos : forall b, 0 < room b).

(** A chain over a transport that was sent [sent0]: it is an endpoint; of what
it hands over the servers read at most what was written, and all of it once
a write has ended; and [x] is what it will deliver. *)
Definition chain_sound (sent0 : bytes) (ls : list layer_cfg) (s : ChainConn ls) (x : bytes) : Prop :=
  exists (ccontent : ChainConn ls -> bytes -> Prop) (wrote : ChainConn ls -> bytes -> option bytes -> Prop) (handed : ChainConn ls -> bytes -> Prop) base,
  Endpoint ccontent wrote handed /\ SaltEndpoint ccontent wrote /\ wrote s base None /\ ccontent s x /\
  (forall s' y, handed s' (base ++ y) -> exists w z, sent (chain_base ls s') = sent0 ++ w /\ peel (rev ls) w = Some z /\ z `prefix_of` y) /\
  (forall s' y, wrote s' (base ++ y) None -> exists w, sent (chain_base ls s') = sent0 ++ w /\ peel (rev ls) w = Some y).

Lemma bottom_sound (t : T) ctx l : good t -> content t l -> chain_sound (sent t) [] (mkShared t ctx) l.
Proof.
  intros Hg Hc. pose proof (plain_endpoint (content := content) (sent t)) as Hep.
  exists (shared_content (content := content)), (shared_wrote (wrote := plain_wrote (good := good) (sent := sent) (sent t))),
    (shared_handed (handed := plain_handed (good := good) (sent := sent) (sent t))), (sent t).
  split; [apply shared_endpoint|]. split; [apply shared_salt|]. split; [by split_and!|]. split; [done|]. split.
  - intros s' y (_ & [w Hw] & Hp). exists w, w. split; [done|]. split; [done|]. cbn [chain_base] in *. rewrite Hw in Hp. by apply prefix_app_inv in Hp.
  - intros s' y (_ & Hs & _). by exists y.
Qed.

Lemma shadow_sound sent0 ls s l fuel b rng s' : cfg_ok (CfgShadow b rng) -> chain_sound sent0 ls s l -> length l < turns ->
  conn_build fuel b rng s = Some (Ready (Ok s')) ->
  chain_sound sent0 (CfgShadow b rng :: ls) s' (reply_plain (sb_method b) (sb_key b) l).
Proof.
  intros Hk (cc & wr & hd & base & Hep & Hst & Hw & Hc & Hh & Hd) Hl Hb.
  destruct (conn_build_ok (content := cc) room room_pos turns fuel b rng s base l s' Hk Hw Hc Hl Hb) as (keys & Hkeys & Hw' & Hc').
  exists (conn_content (content := cc) turns), (conn_wrote (wrote := wr) base keys), (conn_handed (handed := hd) base keys), (Address.encode (sb_addr b)).
  split; [by apply conn_endpoint|]. split; [by apply conn_salt|]. split; [done|]. split; [done|]. cbn [rev chain_base]. split.
  - intros s1 y Hy. destruct (conn_handed_serve _ _ _ _ _ _ Hkeys Hy) as (u & Hu & Hserve).
    destruct (Hh _ _ Hu) as (w & z & Hs & Hz & Hzp). destruct (strip_app _ _ _ (Hserve z Hzp)) as (q & Hq & Hqp).
    exists w, q. split; [done|]. split; [|done]. by rewrite (peel_snoc _ _ _ _ Hz).
  - intros s1 y Hy. assert (Address.encode (sb_addr b) ++ y <> []) as Hne by (intros Hz; apply app_nil in Hz as [Hz _]; by eapply encode_nonempty).
    destruct (conn_wrote_serve _ _ _ _ _ _ Hkeys Hne Hy) as (u & Hu & Hserve).
    destruct (Hd _ _ Hu) as (w & Hs & Hz). exists w. split; [done|]. rewrite (peel_snoc _ _ _ _ Hz). cbn [serve]. rewrite Hserve. apply strip_whole.
Qed.

Lemma vmess_sound sent0 ls s l x opt r v : cfg_ok (CfgVmess opt r) -> chain_sound sent0 ls s l -> length l < turns ->
  VmessStream_new opt r = Ok v -> vmess_reply v l x -> chain_sound sent0 (CfgVmess opt r :: ls) (s, v) x.
Proof.
  intros [Hr Ha] (cc & wr & hd & base & Hep & Hst & Hw & Hc & Hh & Hd) Hl Hv Hx.
  exists (vconn_content (content := cc) turns), (vconn_wrote (wrote := wr) base (vs_header_buffer v) (ew_cipher (vs_writer v))),
    (vconn_handed (handed := hd) base (vs_header_buffer v) (ew_cipher (vs_writer v))), [].
  split; [by apply vconn_endpoint|]. split; [by apply vconn_salt|]. split; [by eapply vmess_new_wrote|]. split; [by eapply vmess_new_content|]. cbn [rev]. split.
  - intros [s1 v1] y (ds & f & c2 & Hds & Ef & Hy & Hp). cbn [fst snd chain_base app] in *. rewrite <- app_assoc in Hy.
    destruct (Hh _ _ Hy) as (w & z & Hs & Hz & Hzp). destruct (vmess_serve_handed opt r v ds f c2 z Hr Ha Hv Hds Ef Hzp) as (q & Hq & Hqp).
    exists w, q. split; [done|]. split; [|by etrans]. by rewrite (peel_snoc _ _ _ _ Hz).
  - intros [s1 v1] y. unfold vconn_wrote. cbn [fst snd chain_base app]. destruct (vs_state_2 v1); [| |done].
    + intros (_ & -> & _ & _ & _ & _ & _ & Hw1). destruct (Hd s1 []) as (w & Hs & Hz); [by rewrite app_nil_r|].
      exists w. split; [done|]. rewrite (peel_snoc _ _ _ _ Hz). done.
    + intros Hy. destruct (layer_wrote_all _ _ _ _ _ _ _ Hy) as (ds & f & c2 & Hds & Hcat & Ef & Hw1); [by left|]. rewrite <- app_assoc in Hw1.
      destruct (Hd _ _ Hw1) as (w & Hs & Hz). exists w. split; [done|]. rewrite (peel_snoc _ _ _ _ Hz). cbn [serve app].
      rewrite <- Hcat. by eapply vmess_serve_whole.
Qed.

Lemma trojan_sound sent0 ls s l fuel b s' : chain_sound sent0 ls s l -> trojan_build fuel b s = Ready (Ok s') ->
  chain_sound sent0 (CfgTrojan b :: ls) s' l.
Proof.
  intros (cc & wr & hd & base & Hep & Hst & Hw & Hc & Hh & Hd). unfold trojan_build.
  destruct (sink_write_all _ _ _ _) as [p s1] eqn:Ew. destruct p as [[[]|e|]|]; try done. intros [= ->].
  destruct (endpoint_write_all _ _ _ _ _ _ Hw Hc Ew) as [Hw1 Hc1].
  exists cc, wr, hd, (base ++ trojan_header b). split_and!; [done..| |]; cbn [rev chain_base]; intros s2 y Hy; rewrite <- app_assoc in Hy.
  - destruct (Hh _ _ Hy) as (w & z & Hs & Hz & Hzp). destruct (strip_app _ _ _ Hzp) as (q & Hq & Hqp).
    exists w, q. split; [done|]. split; [|done]. by rewrite (peel_snoc _ _ _ _ Hz).
  - destruct (Hd _ _ Hy) as (w & Hs & Hz). exists w. split; [done|]. rewrite (peel_snoc _ _ _ _ Hz). cbn [serve]. apply strip_whole.
Qed.

Lemma direct_sound sent0 ls s l : chain_sound sent0 ls s l -> chain_sound sent0 (CfgDirect :: ls) s l.
Proof.
  intros (cc & wr & hd & base & Hep & Hst & Hw & Hc & Hh & Hd). exists cc, wr, hd, base. split_and!; [done..| |]; cbn [rev chain_base]; intros s2 y Hy.
  - destruct (Hh _ _ Hy) as (w & z & Hs & Hz & Hzp). exists w, z. split; [done|]. split; [|done]. by rewrite (peel_snoc _ _ _ _ Hz).
  - destruct (Hd _ _ Hy) as (w & Hs & Hz). exists w. split; [done|]. by rewrite (peel_snoc _ _ _ _ Hz).
Qed.

(** The chain that the builders make. *)
Definition box_sound (sent0 : bytes) (s : BoxStream) (x : bytes) : Prop := chain_sound sent0 (projT1 s) (projT2 s) x.

Lemma layer_build_sound sent0 fuel cfg s l x s' : cfg_ok cfg -> box_sound sent0 s l -> length l < turns -> reads cfg l x ->
  layer_build fuel cfg s = Some (Ready (Ok s')) -> projT1 s' = cfg :: projT1 s /\ box_sound sent0 s' x.
Proof.
  destruct s as [ls s]. unfold box_sound. cbn [projT1 projT2]. intros Hok Hs Hl Hx. destruct cfg as [b rng|opt r|b|]; cbn [layer_build reads] in *.
  - destruct (conn_build fuel b rng s) as [[[c|e|]|]|] eqn:Eb; [|done..]. intros [= <-]. subst x. split; [done|]. by eapply shadow_sound.
  - destruct Hx as (v & Hv & Hx). unfold vmess_build_tcp. rewrite Hv. intros [= <-]. split; [done|]. by eapply vmess_sound.
  - destruct (trojan_build fuel b s) as [[c|e|]|] eqn:Eb; [|done..]. intros [= <-]. subst x. split; [done|]. by eapply trojan_sound.
  - intros [= <-]. subst x. split; [done|]. by apply direct_sound.
Qed.

Lemma build_sound sent0 fuel bs s l x s' : Forall cfg_ok bs -> box_sound sent0 s l -> length l < turns -> replies bs l x ->
  chain_build fuel bs s = Some (Ready (Ok s')) -> projT1 s' = rev bs ++ projT1 s /\ box_sound sent0 s' x.
Proof.
  intros Hok. revert s l. induction Hok as [|cfg bs Hcfg Hok IH]; intros s l Hs Hl Hx; cbn [chain_build replies] in *.
  { subst x. by intros [= <-]. }
  destruct Hx as (l' & Hx & Hrest). destruct (layer_build fuel cfg s) as [[[s1|e|]|]|] eqn:Eb; [|done..]. intros Hb.
  destruct (layer_build_sound _ _ _ _ _ _ _ Hcfg Hs Hl Hx Eb) as [E1 Hs1]. apply reads_length in Hx.
  destruct (IH s1 l' Hs1 ltac:(lia) Hrest Hb) as [-> Hs']. split; [|done]. rewrite E1. cbn [rev]. by rewrite <- app_assoc.
Qed.

(** ** The relay *)

Context {In : Type} `{DuplexStream In} {icontent : In -> bytes -> Prop} {igood : In -> Prop} {isent : In -> bytes} `{!Transport icontent igood isent}.
Context {K : Type} `{CopyCounter K}.

(** A poll of one direction, after other connections have left the context of
salts as the event says. *)
Definition poll_chain {ls} (loops : nat) : side * PingPongBloom B -> LinkedRelay (In := In) (Out := ChainConn ls) (K := K) -> Poll (res K) * LinkedRelay :=
  poll_env set_ctx loops.

(** C1: a relayed connection through any chain of Shadowsocks, VMess,
Trojan and direct layers, over any transport and for any inbound, in every order of
polls of its two directions, whatever the fragmentations, suspensions and
failures of the two streams and whatever other connections do to the shared
context of salts.  Once [build_tcp] of all the layers has succeeded, relaying
never panics; what
the transport was sent, the servers of the chain, one after the other, read
as the address of the next server and then a prefix of the client's data;
what the client was sent is a prefix of the chain's decoding of what came
back.  Until the relay ends nothing is lost in either direction, and with
nothing buffered in the copy the servers have everything read from the client; and when
a direction ends with success all of its bytes are through.

The conditions: Shadowsocks keys have their method's length and VMess options
well-formed addresses and draws ([cfg_ok]); what comes back reads, layer by layer, as
[plain], where a VMess server answers with a response header that the client
accepts and frames that do not make it panic ([replies]); the byte counters do not overflow
([fits]); the buffer of the copy has room; and the turns of the loops exceed the bytes.  Nothing is said of a
build that fails, or that panics, as a VMess layer with another security than 3 or 4 does. *)
Theorem chain_relay bs (t0 : T) ctx reply plain fuel s (i0 : In) data n kd ku loops polls a x :
  Forall cfg_ok bs -> good t0 -> content t0 reply -> igood i0 -> icontent i0 data -> length reply < turns -> replies bs reply plain ->
  chain_build fuel bs (box [] (mkShared t0 ctx)) = Some (Ready (Ok s)) -> 0 < n ->
  fits kd (length plain) -> fits ku (length data) -> S (length plain) < loops -> S (length data) < loops ->
  let start := linked_new kd ku i0 (projT2 s) n in
  relay_run (poll_chain loops) polls start = (a, x) ->
  let wire w := sent (chain_base (projT1 s) (lr_out x)) = sent t0 ++ w in
  (exists w y, wire w /\ peel bs w = Some y /\ y `prefix_of` data) /\
  (exists d, isent (lr_in x) = isent i0 ++ d /\ d `prefix_of` plain) /\
  match a with
  | Some r => r = Ok tt /\ exists d res, ended_by set_ctx loops polls start x d res /\
    (is_ok res = true -> match d with
    | Up => exists w, wire w /\ peel bs w = Some data
    | Down => isent (lr_in x) = isent i0 ++ plain
    end)
  | None => exists up up_rest down down_rest,
    icontent (lr_in x) up_rest /\ up ++ cp_slice (lr_up x) ++ up_rest = data /\
    down ++ cp_slice (lr_down x) ++ down_rest = plain /\ isent (lr_in x) = isent i0 ++ down /\
    (cp_slice (lr_up x) = [] -> exists w, wire w /\ peel bs w = Some up)
  end.
Proof.
  intros Hok Hg Hc Hig Hic Hlt Hrep Hb Hn Hfd Hfu Hld Hlu start Hr wire.
  destruct (build_sound (sent t0) fuel bs (box [] (mkShared t0 ctx)) reply plain s Hok (bottom_sound t0 ctx reply Hg Hc) Hlt Hrep Hb) as [Els Hs].
  cbn [projT1 box] in Els. rewrite app_nil_r in Els. destruct Hs as (cc & wr & hd & base & Hep & Hst & Hw & Hcs & Hh & Hd).
  assert (peel (rev (projT1 s)) = peel bs) as Hpeel by (by rewrite Els, rev_involutive). rewrite Hpeel in Hh, Hd.
  pose proof (plain_endpoint (content := icontent) (isent i0)) as Hin.
  destruct (linked_run (Endpoint0 := Hin) (Endpoint1 := Hep) set_ctx (fun ctx s c => se_content ctx s c) (fun ctx s a o => se_wrote ctx s a o)
    kd ku (isent i0) base plain data loops polls start a x Hfd Hfu) as (Hdown & Hup & Ha); [|exact Hr|].
  { split; [exists plain|exists data]; (split; [|done]); by apply copy_new_flow. }
  split; [apply Hh; exact Hup|]. split.
  { destruct Hdown as (_ & [d Hd1] & Hp). exists d. split; [done|]. rewrite Hd1 in Hp. by apply prefix_app_inv in Hp. }
  destruct a as [r|].
  - destruct Ha as (-> & d & res & He & Hres). split; [done|]. exists d, res. split; [exact He|]. intros Hr1. specialize (Hres Hr1). destruct d.
    + by destruct Hres as (_ & Hs & _).
    + by apply Hd.
  - destruct Ha as [(rd & (_ & Hcd & _ & d & Hwd & Hald & _) & _) (ru & (_ & Hcu & _ & u & Hwu & Halu & _) & _)].
    exists u, ru, d, rd. split_and!; [done..| |].
    + destruct Hwd as (o & (_ & Hs & _) & _). done.
    + intros Hz. destruct Hwu as (o & Hwu & [->|[_ Hne]]); [by apply Hd|done].
Qed.
End Conn.
End Chain.

(** ** Witness *)

Section Witness.
#[local] Existing Instance toy_crypto.
#[local] Existing Instance toy_hmac.
#[local] Existing Instance toy_block.
#[local] Existing Instance toy_sha256.
#[local] Existing Instance list_Bloom.

(** Trojan, Shadowsocks and VMess, over a WebSocket. *)
Definition wit_chain : list layer_cfg :=
  [CfgTrojan (mkTrojanBuilder (repeat x61 56) (DomainNameAddress (str "a.example") 443)); CfgShadow wit_ss [[]; [x07]]; CfgVmess wit_option wit_random].

Definition wit_frames {C} `{FrameEncoder C} (c : C) (ds : list bytes) : bytes := match encode_all c ds with Ok (f, _) => f | _ => [] end.

(** [hello], in a frame of VMess behind a response header, in a frame of
Shadowsocks behind a salt, in two WebSocket messages. *)
Definition wit_vmess_reply : bytes :=
  match VmessStream_new wit_option wit_random with
  | Ok v => seal_response (vs_header_reader v) [vs_respv v; x00; x00; x00] ++ wit_frames (dr_cipher (vs_reader v)) [str "hello"]
  | _ => []
  end.
Definition wit_reply : bytes := wit_salt ++ wit_frames wit_cipher [wit_vmess_reply].
Definition wit_transport : @BinaryWsStream ScriptWs :=
  BinaryWsStream_new (mkScriptWs [WsPending; WsMessage (Binary (take 9 wit_reply)); WsMessage (Binary (drop 9 wit_reply))] [Pending] []).
Definition wit_client : Stream := mkStream [RdPending; RdData (str "GET"); RdPending; RdPending; RdPending; RdPending; RdPending] (mkWriter [WrAccept 2] [] [] 0 [] 0).
Definition wit_polls : list (side * PingPongBloom (list bytes)) := map (fun d => (d, wit_ctx)) [Up; Down; Up; Down; Down].
Definition wit_start : BoxStream := box (T := @BinaryWsStream ScriptWs) [] (mkShared wit_transport wit_ctx).

Lemma wit_chain_ok : Forall cfg_ok wit_chain.
Proof. by repeat constructor. Qed.

Lemma wit_replies : replies wit_chain wit_reply (str "hello").
Proof.
  unfold wit_chain. cbn [replies reads]. eexists. split; [reflexivity|]. exists wit_vmess_reply. split; [vm_compute; reflexivity|].
  exists (str "hello"). split; [|done].
  destruct (VmessStream_new wit_option wit_random) as [v|e|] eqn:Ev; [|vm_compute in Ev; discriminate Ev..]. exists v. split; [done|].
  unfold vmess_reply, wit_vmess_reply. rewrite Ev. eexists _, _. split; [reflexivity|]. vm_compute in Ev. injection Ev as <-. split; [|by vm_compute].
  unfold response_ok. cbn. split_and!; try done.
Qed.

Lemma chain_relay_witness :
  exists s a x, chain_build (fun _ => 64) 999 9 wit_chain wit_start = Some (Ready (Ok s)) /\
  relay_run (poll_chain (fun _ => 64) 999 999) wit_polls (linked_new wit_counters wit_counters wit_client (projT2 s) 1) = (a, x) /\
  wr_log (st_wr (lr_in x)) = str "hello" /\
  exists w y, ws_sent (chain_base (projT1 s) (lr_out x)) = w /\ peel wit_chain w = Some y /\ y `prefix_of` str "GET".
Proof.
  destruct (chain_build (fun _ => 64) 999 9 wit_chain wit_start) as [[[s|e|]|]|] eqn:Eb; [|vm_compute in Eb; discriminate Eb..].
  destruct (relay_run (poll_chain (fun _ => 64) 999 999) wit_polls (linked_new wit_counters wit_counters wit_client (projT2 s) 1)) as [a x] eqn:Er.
  exists s, a, x. split; [reflexivity|]. split; [exact Er|].
  assert (ws_sending wit_transport) as Hg by (vm_compute; constructor).
  assert (ws_content wit_transport wit_reply) as Hc.
  { split; [split; [done|]|reflexivity]. cbn. rewrite !not_elem_of_cons. repeat split; [discriminate..|apply not_elem_of_nil]. }
  assert (script_holds wit_client (str "GET")) as Hi.
  { split; [|reflexivity]. cbn. rewrite !not_elem_of_cons. repeat split; [discriminate..|apply not_elem_of_nil]. }
  destruct (chain_relay (Transport0 := ws_transport) (Transport1 := script_transport) (fun _ => 64) 999 (fun _ => Nat.lt_0_succ 63) wit_chain wit_transport wit_ctx wit_reply (str "hello") 9 s
    wit_client (str "GET") 1 wit_counters wit_counters 999 wit_polls a x wit_chain_ok Hg Hc ltac:(apply not_elem_of_nil) Hi
    ltac:(vm_compute; lia) wit_replies Eb (Nat.lt_0_succ 0) Logic.I Logic.I ltac:(simpl; lia) ltac:(simpl; lia) Er) as ((w & y & Hw & Hy & Hp) & _ & _).
  split; [|exists w, y; by split_and!].
  clear Hw Hy Hp. vm_compute in Eb. injection Eb as <-. vm_compute in Er. injection Er as _ <-. reflexivity.
Defined.
End Witness.
